(** * Duel subsystem of the felox backend: a shallow embedding

    The duel ("duello") handlers of the Express server are embedded as
    programs over an explicit store.  Each SQL statement the server awaits
    is one atomic step on the store; a request handler is the sequence of
    statements it issues, with the JavaScript locals it keeps between
    them. *)

From Stdlib Require Import ZArith List String Ascii Bool Lia.
From Stdlib Require Import DecimalString Permutation Sorted OrderedTypeEx.
From stdpp Require Import gmap.
Import ListNotations.

Local Open Scope string_scope.
Local Open Scope Z_scope.
Local Open Scope list_scope.

#[local] Unset Default Proof Using.

(** ** JavaScript values and the string helpers the handlers rely on *)

Module Js.

(** The JSON values a request field can carry, as far as the handlers
    look at them.  Numbers are the integral ones. *)
Inductive value : Type :=
| Undefined
| Null
| Bool (b : bool)
| Number (n : Z)
| Str (s : string).

Definition string_of_Z (n : Z) : string :=
  NilZero.string_of_int (Z.to_int n).

(** [String(v)] *)
Definition String_ (v : value) : string :=
  match v with
  | Undefined => "undefined"
  | Null => "null"
  | Bool true => "true"
  | Bool false => "false"
  | Number n => string_of_Z n
  | Str s => s
  end.

(** White space of [String.prototype.trim] in the one-byte range: TAB, LF,
    VT, FF, CR and SPACE. *)
Definition is_space (c : ascii) : bool :=
  let n := nat_of_ascii c in
  ((9 <=? n)%nat && (n <=? 13)%nat) || (n =? 32)%nat.

Fixpoint trimStart (s : string) : string :=
  match s with
  | String c s' => if is_space c then trimStart s' else s
  | EmptyString => EmptyString
  end.

Fixpoint trimEnd (s : string) : string :=
  match s with
  | String c s' =>
      match trimEnd s' with
      | EmptyString => if is_space c then EmptyString else String c EmptyString
      | t => String c t
      end
  | EmptyString => EmptyString
  end.

Definition trim (s : string) : string := trimEnd (trimStart s).

Definition lower_ascii (c : ascii) : ascii :=
  let n := nat_of_ascii c in
  if ((65 <=? n)%nat && (n <=? 90)%nat)%bool then ascii_of_nat (n + 32) else c.

Definition upper_ascii (c : ascii) : ascii :=
  let n := nat_of_ascii c in
  if ((97 <=? n)%nat && (n <=? 122)%nat)%bool then ascii_of_nat (n - 32) else c.

Fixpoint map_string (f : ascii -> ascii) (s : string) : string :=
  match s with
  | EmptyString => EmptyString
  | String c s' => String (f c) (map_string f s')
  end.

(** [toLowerCase] and [toUpperCase] on the letters A-Z and a-z; bytes of
    multi-byte characters pass through. *)
Definition toLowerCase : string -> string := map_string lower_ascii.
Definition toUpperCase : string -> string := map_string upper_ascii.

(** [Array.prototype.includes] on an array of strings. *)
Definition includes (xs : list string) (s : string) : bool :=
  existsb (String.eqb s) xs.

Definition is_digit (c : ascii) : bool :=
  let n := nat_of_ascii c in ((48 <=? n)%nat && (n <=? 57)%nat)%bool.

Definition digit_val (c : ascii) : Z := Z.of_nat (nat_of_ascii c) - 48.

(** The longest run of decimal digits at the head of [s], folded into
    [acc]; [seen] records whether a digit was met. *)
Fixpoint parse_digits (s : string) (acc : Z) (seen : bool) : option Z :=
  match s with
  | String c s' =>
      if is_digit c then parse_digits s' (10 * acc + digit_val c) true
      else if seen then Some acc else None
  | EmptyString => if seen then Some acc else None
  end.

(** [parseInt(s, 10)]: leading white space, an optional sign, then digits;
    [None] stands for NaN. *)
Definition parseInt (s : string) : option Z :=
  match trimStart s with
  | String "-" s' => option_map Z.opp (parse_digits s' 0 false)
  | String "+" s' => parse_digits s' 0 false
  | s' => parse_digits s' 0 false
  end.

(** [Math.max] and [Math.min] with NaN as [None]: NaN in, NaN out. *)
Definition Math_max (a b : option Z) : option Z :=
  match a, b with
  | Some x, Some y => Some (Z.max x y)
  | _, _ => None
  end.

Definition Math_min (a b : option Z) : option Z :=
  match a, b with
  | Some x, Some y => Some (Z.min x y)
  | _, _ => None
  end.

(** [process.env.X || dflt]: an unset or empty variable takes the default. *)
Definition env_or (v : option string) (dflt : string) : string :=
  match v with
  | Some EmptyString | None => dflt
  | Some s => s
  end.

End Js.

(** ** Answer normalisation *)

(** The three canonical answers. *)
Definition evet : string := "evet".
Definition hayir : string := "hayır".
Definition bilmem : string := "bilmem".

Definition canonical : list string := [evet; hayir; bilmem].

(** [normalizeAnswer(v)] *)
Definition normalizeAnswer (v : Js.value) : string :=
  match v with
  | Js.Undefined | Js.Null => ""
  | _ =>
      let s := Js.toLowerCase (Js.trim (Js.String_ v)) in
      let s := if String.eqb s "hayir" then hayir else s in
      if Js.includes canonical s then s
      else if Js.includes ["yes"; "true"; "1"] s then evet
      else if Js.includes ["no"; "false"; "0"] s then hayir
      else if Js.includes ["dontknow"; "unknown"; "idk"; "skip"; "empty"; "null"] s
           then bilmem
      else s
  end.

(** [mode IN ('info','speed')] *)
Inductive Mode : Type := info | speed.

Definition Mode_eqb (a b : Mode) : bool :=
  match a, b with
  | info, info | speed, speed => true
  | _, _ => false
  end.

(** [normalizeDuelloAnswer(mode, raw)]; [None] is the JavaScript [null]. *)
Definition normalizeDuelloAnswer (mode : Mode) (raw : Js.value) : option string :=
  let s := normalizeAnswer raw in
  if Mode_eqb mode speed && String.eqb s bilmem then None else Some s.

Example normalizeAnswer_yes : normalizeAnswer (Js.Str "  YES ") = evet.
Proof. reflexivity. Qed.
Example normalizeAnswer_hayir : normalizeAnswer (Js.Str "Hayir") = hayir.
Proof. reflexivity. Qed.
Example normalizeAnswer_one : normalizeAnswer (Js.Number 1) = evet.
Proof. reflexivity. Qed.
Example normalizeAnswer_maybe : normalizeAnswer (Js.Str "maybe") = "maybe".
Proof. reflexivity. Qed.
Example parseInt_90 : Js.parseInt "90" = Some 90.
Proof. reflexivity. Qed.
Example parseInt_45s : Js.parseInt " 45s" = Some 45.
Proof. reflexivity. Qed.
Example parseInt_abc : Js.parseInt "abc" = None.
Proof. reflexivity. Qed.

(** ** The tables *)

(** The value of [timezone('Europe/Istanbul', now())], in microseconds. *)
Definition Timestamp : Type := Z.

Definition seconds (n : Z) : Z := n * 1000000.
Definition minutes (n : Z) : Z := seconds (60 * n).

(** [TIMESTAMP 'epoch'] *)
Definition epoch : Timestamp := 0.

(** [state IN ('active','finished','abandoned')] *)
Inductive MatchState : Type := active | finished | abandoned.

(** [status IN ('pending','accepted','rejected','cancelled','expired')] *)
Inductive InviteStatus : Type := pending | accepted | rejected | cancelled | expired.

Definition MatchState_eqb (a b : MatchState) : bool :=
  match a, b with
  | active, active | finished, finished | abandoned, abandoned => true
  | _, _ => false
  end.

Definition InviteStatus_eqb (a b : InviteStatus) : bool :=
  match a, b with
  | pending, pending | accepted, accepted | rejected, rejected
  | cancelled, cancelled | expired, expired => true
  | _, _ => false
  end.

(** A row of [users], with the columns the duel code reads. *)
Record User : Type := {
  u_id : Z;
  u_ad : option string;
  u_soyad : option string;
  u_user_code : option string
}.

Record Survey : Type := {
  s_id : Z;
  s_status : option string
}.

Record Question : Type := {
  q_id : Z;
  q_survey_id : option Z;
  q_correct_answer : option string;
  q_point : option Z
}.

(** A row of [duello_matches]. *)
Record Match : Type := {
  m_id : Z;
  m_mode : Mode;
  m_user_a_id : Z;
  m_user_b_id : Z;
  m_created_at : Timestamp;
  m_finished_at : option Timestamp;
  m_state : MatchState;
  m_total_questions : Z;
  m_current_index : Z;
  m_last_seen_a : option Timestamp;
  m_last_seen_b : option Timestamp;
  m_last_activity_at : option Timestamp;
  m_abandoned_at : option Timestamp;
  m_ended_reason : option string
}.

(** A row of [duello_invites]. *)
Record Invite : Type := {
  i_id : Z;
  i_from_user_id : Z;
  i_to_user_id : Z;
  i_mode : Mode;
  i_status : InviteStatus;
  i_created_at : Timestamp;
  i_expire_at : Timestamp;
  i_accepted_at : option Timestamp;
  i_rejected_at : option Timestamp;
  i_cancelled_at : option Timestamp;
  i_match_id : option Z
}.

(** A row of [duello_match_questions]; primary key [(match_id, pos)]. *)
Record MatchQuestion : Type := {
  mq_match_id : Z;
  mq_pos : Z;
  mq_question_id : Z
}.

(** A row of [duello_answers]; [uq_duello_answers_once] makes
    [(match_id, question_id, user_id)] unique. *)
Record Answer : Type := {
  a_id : Z;
  a_match_id : Z;
  a_question_id : Z;
  a_user_id : Z;
  a_answer : string;
  a_is_correct : Z;
  a_created_at : Timestamp;
  a_max_time_seconds : option Z;
  a_time_left_seconds : option Z;
  a_earned_seconds : option Z
}.

(** ** Live connections *)

(** An open event-stream response object. *)
Definition Conn : Type := nat.

Inductive SseEvent : Type :=
| invite_new (invite : Invite) (from : Z)
| invite_rejected (invite_id : Z)
| invite_accepted (invite_id match_id : Z)
| match_finished (match_id : Z)
| match_abandoned (match_id : Z).

(** The two writes [sseEmit] makes per connection: the named event and the
    default-message fallback. *)
Inductive Frame : Type :=
| named (ev : SseEvent)
| fallback (ev : SseEvent).

(** ** The store: the database and the process-wide connection registry *)

Record Store : Type := {
  users : list User;
  surveys : list Survey;
  questions : list Question;
  duello_matches : list Match;
  duello_invites : list Invite;
  duello_match_questions : list MatchQuestion;
  duello_answers : list Answer;
  (** the BIGSERIAL sequences *)
  seq_matches : Z;
  seq_invites : Z;
  seq_answers : Z;
  (** [sseClients : Map<userId, Set<res>>], sets in insertion order *)
  sseClients : gmap Z (list Conn);
  (** what has been written to the connections, oldest first *)
  wire : list (Conn * Frame)
}.

Definition with_matches (f : list Match -> list Match) (s : Store) : Store :=
  {| users := users s; surveys := surveys s; questions := questions s;
     duello_matches := f (duello_matches s);
     duello_invites := duello_invites s;
     duello_match_questions := duello_match_questions s;
     duello_answers := duello_answers s;
     seq_matches := seq_matches s; seq_invites := seq_invites s;
     seq_answers := seq_answers s;
     sseClients := sseClients s; wire := wire s |}.

Definition with_invites (f : list Invite -> list Invite) (s : Store) : Store :=
  {| users := users s; surveys := surveys s; questions := questions s;
     duello_matches := duello_matches s;
     duello_invites := f (duello_invites s);
     duello_match_questions := duello_match_questions s;
     duello_answers := duello_answers s;
     seq_matches := seq_matches s; seq_invites := seq_invites s;
     seq_answers := seq_answers s;
     sseClients := sseClients s; wire := wire s |}.

Definition with_match_questions
  (f : list MatchQuestion -> list MatchQuestion) (s : Store) : Store :=
  {| users := users s; surveys := surveys s; questions := questions s;
     duello_matches := duello_matches s;
     duello_invites := duello_invites s;
     duello_match_questions := f (duello_match_questions s);
     duello_answers := duello_answers s;
     seq_matches := seq_matches s; seq_invites := seq_invites s;
     seq_answers := seq_answers s;
     sseClients := sseClients s; wire := wire s |}.

Definition with_answers (f : list Answer -> list Answer) (s : Store) : Store :=
  {| users := users s; surveys := surveys s; questions := questions s;
     duello_matches := duello_matches s;
     duello_invites := duello_invites s;
     duello_match_questions := duello_match_questions s;
     duello_answers := f (duello_answers s);
     seq_matches := seq_matches s; seq_invites := seq_invites s;
     seq_answers := seq_answers s;
     sseClients := sseClients s; wire := wire s |}.

Definition with_seqs (fm fi fa : Z -> Z) (s : Store) : Store :=
  {| users := users s; surveys := surveys s; questions := questions s;
     duello_matches := duello_matches s;
     duello_invites := duello_invites s;
     duello_match_questions := duello_match_questions s;
     duello_answers := duello_answers s;
     seq_matches := fm (seq_matches s); seq_invites := fi (seq_invites s);
     seq_answers := fa (seq_answers s);
     sseClients := sseClients s; wire := wire s |}.

Definition with_sse (f : gmap Z (list Conn) -> gmap Z (list Conn))
  (g : list (Conn * Frame) -> list (Conn * Frame)) (s : Store) : Store :=
  {| users := users s; surveys := surveys s; questions := questions s;
     duello_matches := duello_matches s;
     duello_invites := duello_invites s;
     duello_match_questions := duello_match_questions s;
     duello_answers := duello_answers s;
     seq_matches := seq_matches s; seq_invites := seq_invites s;
     seq_answers := seq_answers s;
     sseClients := f (sseClients s); wire := g (wire s) |}.

(** [sseAdd(userId, res)] *)
Definition sseAdd (uid : Z) (res : Conn) (s : Store) : Store :=
  let set := default [] (sseClients s !! uid) in
  let set' := if existsb (Nat.eqb res) set then set else set ++ [res] in
  with_sse (fun m => <[uid := set']> m) (fun w => w) s.

(** [sseRemove(userId, res)] *)
Definition sseRemove (uid : Z) (res : Conn) (s : Store) : Store :=
  match sseClients s !! uid with
  | None => s
  | Some set =>
      let set' := List.filter (fun r => negb (Nat.eqb res r)) set in
      match set' with
      | [] => with_sse (fun m => delete uid m) (fun w => w) s
      | _ => with_sse (fun m => <[uid := set']> m) (fun w => w) s
      end
  end.

(** [sseEmit(userId, event, payload)]: both frames to every connection of
    the user; a failing write is swallowed by the [try] around it. *)
Definition sseEmit (uid : Z) (ev : SseEvent) (s : Store) : Store :=
  match sseClients s !! uid with
  | None | Some [] => s
  | Some set =>
      with_sse (fun m => m)
        (fun w => w ++ flat_map (fun r => [(r, named ev); (r, fallback ev)]) set) s
  end.

(** ** Handlers as sequences of awaited statements *)

(** A handler either returns, or awaits one statement and continues with
    its result.  A statement reads the clock and the store and leaves a new
    store; nothing else runs inside it. *)
Inductive Handler (R : Type) : Type :=
| Return (r : R)
| Await {X : Type} (stmt : Timestamp -> Store -> Store * X) (k : X -> Handler R).

Arguments Return {R} r.
Arguments Await {R X} stmt k.

Fixpoint bind {A B : Type} (h : Handler A) (f : A -> Handler B) : Handler B :=
  match h with
  | Return a => f a
  | Await stmt k => Await stmt (fun x => bind (k x) f)
  end.

Notation "'let*' x ':=' h 'in' k" := (bind h (fun x => k))
  (at level 10, x name, h at level 100, k at level 200).

(** A read-only statement, a write-only statement, and a synchronous
    [sseEmit] call. *)
Definition query {X : Type} (f : Timestamp -> Store -> X) : Handler X :=
  Await (fun now s => (s, f now s)) Return.

Definition exec (f : Timestamp -> Store -> Store) : Handler unit :=
  Await (fun now s => (f now s, tt)) Return.

Definition emit (uid : Z) (ev : SseEvent) : Handler unit :=
  Await (fun _ s => (sseEmit uid ev s, tt)) Return.

(** The handler run to completion with nothing in between, every statement
    reading the same clock value. *)
Fixpoint run {R : Type} (now : Timestamp) (h : Handler R) (s : Store) : Store * R :=
  match h with
  | Return r => (s, r)
  | Await stmt k => let '(s', x) := stmt now s in run now (k x) s'
  end.

(** The first statement of a handler alone: the store it leaves and the
    rest of the handler, [None] once the handler has returned. *)
Definition step1 {R : Type} (now : Timestamp) (h : Handler R) (s : Store)
  : option (Store * Handler R) :=
  match h with
  | Return _ => None
  | Await stmt k => let '(s', x) := stmt now s in Some (s', k x)
  end.

(** The first [n] statements, then whatever is left. *)
Fixpoint run_steps {R : Type} (n : nat) (now : Timestamp) (h : Handler R) (s : Store)
  : Store * Handler R :=
  match n with
  | O => (s, h)
  | S n' =>
      match h with
      | Return _ => (s, h)
      | Await stmt k => let '(s', x) := stmt now s in run_steps n' now (k x) s'
      end
  end.

(** ** Responses *)

Inductive Party : Type := sender | receiver.

(** The error replies, named as the design names them; the comment gives
    the HTTP status of each. *)
Inductive Failure : Type :=
| MissingIds                      (* 400, a required id is missing *)
| BadMode                         (* 400 *)
| BadAction                       (* 400 *)
| TargetUnknown                   (* 404 *)
| SelfChallenge                   (* 400 *)
| AlreadyActive (who : Party)     (* 409 *)
| DuplicatePending                (* 409 *)
| InviteNotFound                  (* 404 *)
| Forbidden                       (* 403 *)
| NotPending                      (* 409 *)
| InviteExpired                   (* 410 *)
| MatchNotFound                   (* 404 *)
| MatchNotActive                  (* 409 *)
| NoActiveQuestion                (* 400 *)
| NoSkipInSpeedMode               (* 400 *)
| AlreadyAnswered                 (* 409 *)
| QuestionLocked                  (* 409 *)
| ServerError.                    (* 500, the outer catch *)

Definition http_status (e : Failure) : Z :=
  match e with
  | MissingIds | BadMode | BadAction | SelfChallenge
  | NoActiveQuestion | NoSkipInSpeedMode => 400
  | Forbidden => 403
  | TargetUnknown | InviteNotFound | MatchNotFound => 404
  | AlreadyActive _ | DuplicatePending | NotPending | MatchNotActive
  | AlreadyAnswered | QuestionLocked => 409
  | InviteExpired => 410
  | ServerError => 500
  end.

Inductive Response (A : Type) : Type :=
| Ok (a : A)
| Fail (e : Failure).

Arguments Ok {A} a.
Arguments Fail {A} e.

(** ** SQL in small *)

(** [UPDATE t SET ... WHERE cond] *)
Definition sql_update {A : Type} (cond : A -> bool) (upd : A -> A) (rows : list A)
  : list A :=
  map (fun r => if cond r then upd r else r) rows.

(** [get(...)]: the first row or [null]. *)
Definition first_row {A : Type} (cond : A -> bool) (rows : list A) : option A :=
  hd_error (List.filter cond rows).

(** [!!row] for a [SELECT 1 ... LIMIT 1]. *)
Definition exists_row {A : Type} (cond : A -> bool) (rows : list A) : bool :=
  match first_row cond rows with
  | Some _ => true
  | None => false
  end.

(** [SUM] over a nullable column: NULLs are skipped, and the sum of no
    value is NULL. *)
Fixpoint sql_sum (xs : list (option Z)) : option Z :=
  match xs with
  | [] => None
  | None :: xs' => sql_sum xs'
  | Some x :: xs' => Some (x + default 0 (sql_sum xs'))
  end.

(** ** Row updates *)

Definition invite_set (st : InviteStatus) (acc rej can : option Timestamp -> option Timestamp)
  (mid : option Z -> option Z) (i : Invite) : Invite :=
  {| i_id := i_id i; i_from_user_id := i_from_user_id i;
     i_to_user_id := i_to_user_id i; i_mode := i_mode i;
     i_status := st; i_created_at := i_created_at i;
     i_expire_at := i_expire_at i;
     i_accepted_at := acc (i_accepted_at i);
     i_rejected_at := rej (i_rejected_at i);
     i_cancelled_at := can (i_cancelled_at i);
     i_match_id := mid (i_match_id i) |}.

Definition keep {A : Type} (x : A) : A := x.
Definition put {A : Type} (v : A) (_ : A) : A := v.

(** [SET status='expired'] *)
Definition invite_expire : Invite -> Invite :=
  invite_set expired keep keep keep keep.

(** [SET status='rejected', rejected_at=now] *)
Definition invite_reject (now : Timestamp) : Invite -> Invite :=
  invite_set rejected keep (put (Some now)) keep keep.

(** [SET status='accepted', accepted_at=now, match_id=$2] *)
Definition invite_accept (now : Timestamp) (mid : Z) : Invite -> Invite :=
  invite_set accepted (put (Some now)) keep keep (put (Some mid)).

(** [SET status='cancelled', cancelled_at=now] *)
Definition invite_cancel (now : Timestamp) : Invite -> Invite :=
  invite_set cancelled keep keep (put (Some now)) keep.

Definition match_set (st : MatchState -> MatchState) (idx : Z -> Z)
  (fin aband seen_a seen_b act : option Timestamp -> option Timestamp)
  (reason : option string -> option string) (m : Match) : Match :=
  {| m_id := m_id m; m_mode := m_mode m;
     m_user_a_id := m_user_a_id m; m_user_b_id := m_user_b_id m;
     m_created_at := m_created_at m;
     m_finished_at := fin (m_finished_at m);
     m_state := st (m_state m);
     m_total_questions := m_total_questions m;
     m_current_index := idx (m_current_index m);
     m_last_seen_a := seen_a (m_last_seen_a m);
     m_last_seen_b := seen_b (m_last_seen_b m);
     m_last_activity_at := act (m_last_activity_at m);
     m_abandoned_at := aband (m_abandoned_at m);
     m_ended_reason := reason (m_ended_reason m) |}.

(** [SET state='finished', finished_at=now] *)
Definition match_finish (now : Timestamp) : Match -> Match :=
  match_set (put finished) keep (put (Some now)) keep keep keep keep keep.

(** [SET current_index=$2, state='finished', finished_at=now] *)
Definition match_finish_at (now : Timestamp) (idx : Z) : Match -> Match :=
  match_set (put finished) (put idx) (put (Some now)) keep keep keep keep keep.

(** [SET current_index=$2] *)
Definition match_set_index (idx : Z) : Match -> Match :=
  match_set keep (put idx) keep keep keep keep keep keep.

(** [SET state='abandoned', ended_reason='idle_timeout', finished_at=now,
    abandoned_at=now] *)
Definition match_abandon (now : Timestamp) : Match -> Match :=
  match_set (put abandoned) keep (put (Some now)) (put (Some now)) keep keep keep
    (put (Some "idle_timeout")).

(** The liveness touch of the answer and reveal handlers:
    [SET last_activity_at=now, last_seen_a = CASE WHEN user_a_id=$2 THEN now
    ELSE last_seen_a END, last_seen_b = ...]. *)
Definition match_touch (now : Timestamp) (uid : Z) (m : Match) : Match :=
  match_set keep keep keep keep
    (if m_user_a_id m =? uid then put (Some now) else keep)
    (if m_user_b_id m =? uid then put (Some now) else keep)
    (put (Some now)) keep m.

(** The touch of the status handler, which keeps a [last_activity_at] that
    is already set: [COALESCE(last_activity_at, now)]. *)
Definition match_touch_status (now : Timestamp) (uid : Z) (m : Match) : Match :=
  match_set keep keep keep keep
    (if m_user_a_id m =? uid then put (Some now) else keep)
    (if m_user_b_id m =? uid then put (Some now) else keep)
    (fun t => match t with Some t' => Some t' | None => Some now end) keep m.

(** [state = 'active' AND (user_a_id = $1 OR user_b_id = $1)] *)
Definition active_for (uid : Z) (m : Match) : bool :=
  MatchState_eqb (m_state m) active &&
  ((m_user_a_id m =? uid) || (m_user_b_id m =? uid)).

(** ** Invite Manager *)

(** [expireOldInvites()] *)
Definition expireOldInvites : Handler unit :=
  exec (fun now =>
    with_invites
      (sql_update
         (fun i => InviteStatus_eqb (i_status i) pending && (i_expire_at i <=? now))
         invite_expire)).

(** [hasActiveMatch(userId)] *)
Definition hasActiveMatch (userId : Z) : Handler bool :=
  query (fun _ s => exists_row (active_for userId) (duello_matches s)).

(** The [WHERE] clause of [hasFreshPendingInvite]. *)
Definition fresh_pending_between (a b : Z) (now : Timestamp) (i : Invite) : bool :=
  InviteStatus_eqb (i_status i) pending && (now <? i_expire_at i) &&
  (((i_from_user_id i =? a) && (i_to_user_id i =? b)) ||
   ((i_from_user_id i =? b) && (i_to_user_id i =? a))).

(** [hasFreshPendingInvite(a, b)] *)
Definition hasFreshPendingInvite (a b : Z) : Handler bool :=
  query (fun now s => exists_row (fresh_pending_between a b now) (duello_invites s)).

Definition option_string_eqb (o : option string) (s : string) : bool :=
  match o with
  | Some t => String.eqb t s
  | None => false
  end.

(** [findUserByIdOrCode({ user_id, user_code })].  The id is a number, 0
    when the field is absent; the code is absent or a string. *)
Definition findUserByIdOrCode (user_id : Z) (user_code : option string)
  : Handler (option User) :=
  if negb (user_id =? 0) then
    query (fun _ s => first_row (fun u => u_id u =? user_id) (users s))
  else
    match user_code with
    | None | Some EmptyString => Return None
    | Some c =>
        let code := Js.toUpperCase (Js.trim c) in
        query (fun _ s => first_row (fun u => option_string_eqb (u_user_code u) code) (users s))
    end.

(** The body of [POST /api/duello/invite].  [from_user_id] is
    [Number(req.body.from_user_id)], with 0 also standing for NaN. *)
Record InviteRequest : Type := {
  rq_from_user_id : Z;
  rq_to_user_id : Z;
  rq_to_user_code : option string;
  rq_mode : option string
}.

Definition parse_mode (s : string) : option Mode :=
  if String.eqb s "info" then Some info
  else if String.eqb s "speed" then Some speed
  else None.

(** The lazy completion that precedes the active-match checks:
    [UPDATE duello_matches SET state='finished', finished_at=now
     WHERE state='active' AND current_index >= total_questions]. *)
Definition over_complete (m : Match) : bool :=
  MatchState_eqb (m_state m) active && (m_total_questions m <=? m_current_index m).

Definition finish_over_complete : Handler unit :=
  exec (fun now => with_matches (sql_update over_complete (match_finish now))).

(** [uq_duello_invites_pending_pair]: one pending row per ordered pair. *)
Definition pending_pair (fromId toId : Z) (i : Invite) : bool :=
  InviteStatus_eqb (i_status i) pending &&
  (i_from_user_id i =? fromId) && (i_to_user_id i =? toId).

(** [INSERT INTO duello_invites ... RETURNING ...]; [None] when the unique
    index rejects the row and the statement throws. *)
Definition insert_invite (fromId toId : Z) (mode : Mode) (now : Timestamp) (s : Store)
  : Store * option Invite :=
  let s' := with_seqs keep (fun n => n + 1) keep s in
  if exists_row (pending_pair fromId toId) (duello_invites s) then (s', None)
  else
    let inv := {| i_id := seq_invites s; i_from_user_id := fromId;
                  i_to_user_id := toId; i_mode := mode; i_status := pending;
                  i_created_at := now; i_expire_at := now + minutes 5;
                  i_accepted_at := None; i_rejected_at := None;
                  i_cancelled_at := None; i_match_id := None |} in
    (with_invites (fun l => l ++ [inv]) s', Some inv).

(** [POST /api/duello/invite] *)
Definition createInvite (req : InviteRequest) : Handler (Response Invite) :=
  let fromId := rq_from_user_id req in
  let mode := Js.toLowerCase (Js.env_or (rq_mode req) "info") in
  let* toUser := findUserByIdOrCode (rq_to_user_id req) (rq_to_user_code req) in
  if fromId =? 0 then Return (Fail MissingIds) else
  match toUser with
  | None => Return (Fail TargetUnknown)
  | Some toUser =>
  match parse_mode mode with
  | None => Return (Fail BadMode)
  | Some mode =>
  let toId := u_id toUser in
  if fromId =? toId then Return (Fail SelfChallenge) else
  let* _ := expireOldInvites in
  let* _ := finish_over_complete in
  let* busy := hasActiveMatch fromId in
  if busy then Return (Fail (AlreadyActive sender)) else
  let* busy := hasActiveMatch toId in
  if busy then Return (Fail (AlreadyActive receiver)) else
  let* dup := hasFreshPendingInvite fromId toId in
  if dup then Return (Fail DuplicatePending) else
  let* inv := Await (insert_invite fromId toId mode) Return in
  match inv with
  | None => Return (Fail ServerError)
  | Some inv =>
  let* _ := query (fun _ s => first_row (fun u => u_id u =? fromId) (users s)) in
  let* _ := emit toId (invite_new inv fromId) in
  Return (Ok inv)
  end end end.

(** The body of [POST /api/duello/invite/respond]. *)
Record RespondRequest : Type := {
  rq_invite_id : Z;
  rq_user_id : Z;
  rq_action : option string
}.

Inductive Responded : Type :=
| Rejected (row : option Invite)
| Accepted (m : Match).

(** The other pending invites of either party, cancelled on acceptance. *)
Definition other_pending_of (inviteId fromId toId : Z) (now : Timestamp) (i : Invite)
  : bool :=
  InviteStatus_eqb (i_status i) pending && (now <? i_expire_at i) &&
  negb (i_id i =? inviteId) &&
  (((i_from_user_id i =? fromId) || (i_from_user_id i =? toId)) ||
   ((i_to_user_id i =? fromId) || (i_to_user_id i =? toId))).

(** The row the accept transaction inserts. *)
Definition new_match (id : Z) (mode : Mode) (fromId toId : Z) (now : Timestamp) : Match :=
  {| m_id := id; m_mode := mode; m_user_a_id := fromId; m_user_b_id := toId;
     m_created_at := now; m_finished_at := None; m_state := active;
     m_total_questions := 12; m_current_index := 0;
     m_last_seen_a := Some now; m_last_seen_b := Some now;
     m_last_activity_at := Some now; m_abandoned_at := None;
     m_ended_reason := None |}.

(** The accept transaction, from [BEGIN] to [COMMIT] or [ROLLBACK], as one
    step: the two advisory locks keep every other accept that shares a user
    out until it ends.  A rollback leaves the store as it was; the sequence
    value drawn by a failed insert is not given back. *)
Definition accept_tx (inviteId fromId toId : Z) (now : Timestamp) (s : Store)
  : Store * (Failure + Match) :=
  match first_row (fun i => i_id i =? inviteId) (duello_invites s) with
  | None => (s, inl InviteNotFound)
  | Some lockedInv =>
      if negb (InviteStatus_eqb (i_status lockedInv) pending) then (s, inl NotPending)
      else if i_expire_at lockedInv <=? now then
        (with_invites (sql_update (fun i => i_id i =? inviteId) invite_expire) s,
         inl InviteExpired)
      else if exists_row (active_for fromId) (duello_matches s) then
        (s, inl (AlreadyActive sender))
      else if exists_row (active_for toId) (duello_matches s) then
        (s, inl (AlreadyActive receiver))
      else if fromId =? toId then
        (* CHECK (user_a_id <> user_b_id) *)
        (with_seqs (fun n => n + 1) keep keep s, inl ServerError)
      else
        let m := new_match (seq_matches s) (i_mode lockedInv) fromId toId now in
        let s1 := with_matches (fun l => l ++ [m])
                    (with_seqs (fun n => n + 1) keep keep s) in
        let s2 := with_invites
                    (sql_update (fun i => i_id i =? inviteId) (invite_accept now (m_id m)))
                    s1 in
        let s3 := with_invites
                    (sql_update (other_pending_of inviteId fromId toId now)
                       (invite_cancel now)) s2 in
        (s3, inr m)
  end.

(** [POST /api/duello/invite/respond] *)
Definition respondInvite (req : RespondRequest) : Handler (Response Responded) :=
  let inviteId := rq_invite_id req in
  let userId := rq_user_id req in
  let action := Js.toLowerCase (Js.env_or (rq_action req) "") in
  if (inviteId =? 0) || (userId =? 0) then Return (Fail MissingIds) else
  if negb (Js.includes ["accept"; "reject"] action) then Return (Fail BadAction) else
  let* _ := expireOldInvites in
  let* inv := query (fun _ s => first_row (fun i => i_id i =? inviteId) (duello_invites s)) in
  match inv with
  | None => Return (Fail InviteNotFound)
  | Some inv =>
  if negb (i_to_user_id inv =? userId) then Return (Fail Forbidden) else
  if negb (InviteStatus_eqb (i_status inv) pending) then Return (Fail NotPending) else
  let* exp := query (fun now s =>
                match first_row (fun i => i_id i =? inviteId) (duello_invites s) with
                | Some i => i_expire_at i <=? now
                | None => false
                end) in
  if exp then
    let* _ := exec (fun _ =>
                with_invites (sql_update (fun i => i_id i =? inviteId) invite_expire)) in
    Return (Fail InviteExpired)
  else if String.eqb action "reject" then
    let* row := Await (fun now s =>
                  let s' := with_invites
                              (sql_update (fun i => i_id i =? inviteId) (invite_reject now)) s in
                  (s', first_row (fun i => i_id i =? inviteId) (duello_invites s')))
                  Return in
    let* _ := emit (i_from_user_id inv) (invite_rejected inviteId) in
    Return (Ok (Rejected row))
  else
    let fromId := i_from_user_id inv in
    let toId := i_to_user_id inv in
    let* r := Await (accept_tx inviteId fromId toId) Return in
    match r with
    | inl e => Return (Fail e)
    | inr m =>
        let* _ := emit fromId (invite_accepted inviteId (m_id m)) in
        let* _ := emit toId (invite_accepted inviteId (m_id m)) in
        Return (Ok (Accepted m))
    end
  end.

(** [GET /api/duello/inbox/:userId] and [.../outbox/:userId]: the lazy
    expiry, then the pending unexpired invites of the user, newest first
    (the order is left out here). *)
Definition inbox (uid : Z) : Handler (list Invite) :=
  let* _ := expireOldInvites in
  query (fun now s =>
    List.filter (fun i => (i_to_user_id i =? uid) &&
                     InviteStatus_eqb (i_status i) pending && (now <? i_expire_at i) &&
                     exists_row (fun u => u_id u =? i_from_user_id i) (users s))
      (duello_invites s)).

Definition outbox (uid : Z) : Handler (list Invite) :=
  let* _ := expireOldInvites in
  query (fun now s =>
    List.filter (fun i => (i_from_user_id i =? uid) &&
                     InviteStatus_eqb (i_status i) pending && (now <? i_expire_at i) &&
                     exists_row (fun u => u_id u =? i_to_user_id i) (users s))
      (duello_invites s)).

(** ** Process configuration *)

(** The environment variables the duel code reads at start-up. *)
Record ProcessEnv : Type := {
  env_DUELLO_IDLE_ABORT_SEC : option string;
  env_DUELLO_PER_Q_SEC : option string;
  env_DUELLO_REVEAL_SEC : option string
}.

(** [Math.max(30, Math.min(600, parseInt(process.env.DUELLO_IDLE_ABORT_SEC || "90", 10)))] *)
Definition DUELLO_IDLE_ABORT_SEC (e : ProcessEnv) : option Z :=
  Js.Math_max (Some 30)
    (Js.Math_min (Some 600)
       (Js.parseInt (Js.env_or (env_DUELLO_IDLE_ABORT_SEC e) "90"))).

(** [Math.max(5, parseInt(process.env.DUELLO_PER_Q_SEC || "16", 10))] *)
Definition DUELLO_PER_Q_SEC (e : ProcessEnv) : option Z :=
  Js.Math_max (Some 5) (Js.parseInt (Js.env_or (env_DUELLO_PER_Q_SEC e) "16")).

(** [Math.max(1, parseInt(process.env.DUELLO_REVEAL_SEC || "3", 10))] *)
Definition DUELLO_REVEAL_SEC (e : ProcessEnv) : option Z :=
  Js.Math_max (Some 1) (Js.parseInt (Js.env_or (env_DUELLO_REVEAL_SEC e) "3")).

(** ** [ORDER BY] *)

Section OrderBy.
Context {A : Type} (leb : A -> A -> bool).

Fixpoint insert_sorted (x : A) (l : list A) : list A :=
  match l with
  | [] => [x]
  | y :: l' => if leb x y then x :: l else y :: insert_sorted x l'
  end.

(** Rows in ascending order of the key; rows with equal keys keep their
    order in the table. *)
Fixpoint order_by (l : list A) : list A :=
  match l with
  | [] => []
  | x :: l' => insert_sorted x (order_by l')
  end.
End OrderBy.

Section Duel.

(** PostgreSQL's [md5], and the environment the process was started in. *)
Context (md5 : string -> string) (penv : ProcessEnv).

(** ** Question Set Generator *)

(** [SELECT pos, question_id FROM duello_match_questions WHERE match_id=$1
    ORDER BY pos ASC] *)
Definition question_set_of (matchId : Z) (s : Store) : list MatchQuestion :=
  order_by (fun x y => mq_pos x <=? mq_pos y)
    (List.filter (fun r => mq_match_id r =? matchId) (duello_match_questions s)).

Definition option_Z_eqb (o : option Z) (z : Z) : bool :=
  match o with
  | Some x => x =? z
  | None => false
  end.

(** [questions q JOIN surveys s ON s.id = q.survey_id WHERE
    s.status='approved'], projected on [q.id]. *)
Definition approved_pool (s : Store) : list Z :=
  flat_map
    (fun q =>
       map (fun _ => q_id q)
         (List.filter
            (fun sv => option_Z_eqb (q_survey_id q) (s_id sv) &&
                       option_string_eqb (s_status sv) "approved")
            (surveys s)))
    (questions s).

(** [md5($1::text || '-' || q.id::text)] *)
Definition seed_key (matchId : Z) (qid : Z) : string :=
  md5 (Js.string_of_Z matchId ++ "-" ++ Js.string_of_Z qid)%string.

(** The pool in the match-seeded order, cut at [LIMIT total]. *)
Definition pick_questions (matchId total : Z) (s : Store) : list Z :=
  firstn (Z.to_nat total)
    (order_by (fun x y => String.leb (seed_key matchId x) (seed_key matchId y))
       (approved_pool s)).

(** [INSERT INTO duello_match_questions (match_id, pos, question_id)
    VALUES ($1,$2,$3) ON CONFLICT (match_id, pos) DO NOTHING] *)
Definition insert_match_question (matchId pos qid : Z) (s : Store) : Store :=
  if exists_row (fun r => (mq_match_id r =? matchId) && (mq_pos r =? pos))
       (duello_match_questions s)
  then s
  else with_match_questions
         (fun l => l ++ [{| mq_match_id := matchId; mq_pos := pos;
                            mq_question_id := qid |}]) s.

(** The [for] loop over [ids], [i] being the position of the head. *)
Fixpoint insert_question_loop (matchId : Z) (i : Z) (ids : list Z) : Handler unit :=
  match ids with
  | [] => Return tt
  | qid :: ids' =>
      let* _ := exec (fun _ => insert_match_question matchId i qid) in
      insert_question_loop matchId (i + 1) ids'
  end.

(** [Math.max(1, Number(match.total_questions) || 12)] *)
Definition question_total (m : Match) : Z :=
  Z.max 1 (if m_total_questions m =? 0 then 12 else m_total_questions m).

(** [ensureDuelloQuestionSet(match)] *)
Definition ensureDuelloQuestionSet (m : Match) : Handler (list MatchQuestion) :=
  let* existing := query (fun _ => question_set_of (m_id m)) in
  match existing with
  | _ :: _ => Return existing
  | [] =>
      let total := question_total m in
      let* ids := query (fun _ => pick_questions (m_id m) total) in
      let* _ := insert_question_loop (m_id m) 1 ids in
      query (fun _ => question_set_of (m_id m))
  end.

(** ** Match helpers *)

(** [duelloGetMatch(matchId)] *)
Definition duelloGetMatch (matchId : Z) : Handler (option Match) :=
  query (fun _ s => first_row (fun m => m_id m =? matchId) (duello_matches s)).

(** [inThisMatch(m, uid)] *)
Definition inThisMatch (m : Match) (uid : Z) : bool :=
  (m_user_a_id m =? uid) || (m_user_b_id m =? uid).

(** [opponentId(m, uid)] *)
Definition opponentId (m : Match) (uid : Z) : Z :=
  if m_user_a_id m =? uid then m_user_b_id m else m_user_a_id m.

(** [SELECT question_id FROM duello_match_questions WHERE match_id=$1 AND
    pos=$2], then [row?.question_id || null]: a question id 0 reads as no
    question. *)
Definition question_id_at (matchId pos : Z) (s : Store) : option Z :=
  match first_row (fun r => (mq_match_id r =? matchId) && (mq_pos r =? pos))
          (duello_match_questions s) with
  | Some r => if mq_question_id r =? 0 then None else Some (mq_question_id r)
  | None => None
  end.

(** [duelloGetQuestionIdByPos(matchId, pos)] *)
Definition duelloGetQuestionIdByPos (matchId pos : Z) : Handler (option Z) :=
  query (fun _ => question_id_at matchId pos).

(** [WHERE match_id=$1 AND question_id=$2] on [duello_answers] *)
Definition answers_of (matchId qid : Z) (s : Store) : list Answer :=
  List.filter (fun a => (a_match_id a =? matchId) && (a_question_id a =? qid))
    (duello_answers s).

(** [duelloGetAnswers(matchId, questionId)] *)
Definition duelloGetAnswers (matchId qid : Z) : Handler (list Answer) :=
  query (fun _ => answers_of matchId qid).

(** [WHERE match_id=$1 AND question_id=$2 AND user_id=$3] *)
Definition answer_key (matchId qid uid : Z) (a : Answer) : bool :=
  (a_match_id a =? matchId) && (a_question_id a =? qid) && (a_user_id a =? uid).

(** ** Scores *)

(** [duello_answers da JOIN questions q ON q.id = da.question_id
    WHERE da.match_id = $1] *)
Definition answers_with_questions (matchId : Z) (s : Store) : list (Answer * Question) :=
  flat_map
    (fun da =>
       map (fun q => (da, q))
         (List.filter (fun q => q_id q =? a_question_id da) (questions s)))
    (List.filter (fun da => a_match_id da =? matchId) (duello_answers s)).

(** [CASE WHEN da.answer='bilmem' THEN 0 WHEN da.is_correct=1 THEN q.point
    ELSE -q.point END] *)
Definition signed_point (r : Answer * Question) : option Z :=
  let '(da, q) := r in
  if String.eqb (a_answer da) bilmem then Some 0
  else if a_is_correct da =? 1 then q_point q
  else option_map Z.opp (q_point q).

(** [COALESCE(SUM(CASE WHEN da.user_id = $2 THEN ... ELSE 0 END),0)::int] *)
Definition score_column (uid : Z) (rows : list (Answer * Question)) : Z :=
  default 0
    (sql_sum
       (map (fun r => if a_user_id (fst r) =? uid then signed_point r else Some 0)
          rows)).

(** [duelloScores(matchId, aId, bId)], as the pair [(score_a, score_b)]. *)
Definition duelloScores (matchId aId bId : Z) : Handler (Z * Z) :=
  query (fun _ s =>
    let rows := answers_with_questions matchId s in
    (score_column aId rows, score_column bId rows)).

(** One row of the grouped query of [duelloMatchTotals]. *)
Record Totals : Type := {
  t_bilmem : Z;
  t_correct : Z;
  t_wrong : Z;
  t_score : Z
}.

Definition count_where {A : Type} (p : A -> bool) (l : list A) : Z :=
  Z.of_nat (List.length (List.filter p l)).

(** The aggregates of one group. *)
Definition totals_of_group (rows : list (Answer * Question)) : Totals :=
  {| t_bilmem := count_where (fun r => String.eqb (a_answer (fst r)) bilmem) rows;
     t_correct := count_where
                    (fun r => negb (String.eqb (a_answer (fst r)) bilmem) &&
                              (a_is_correct (fst r) =? 1)) rows;
     t_wrong := count_where
                  (fun r => negb (String.eqb (a_answer (fst r)) bilmem) &&
                            (a_is_correct (fst r) =? 0)) rows;
     t_score := default 0 (sql_sum (map signed_point rows)) |}.

(** The distinct values of [da.user_id], in order of first appearance. *)
Fixpoint group_keys (rows : list (Answer * Question)) : list Z :=
  match rows with
  | [] => []
  | r :: rows' =>
      let ks := group_keys rows' in
      a_user_id (fst r) :: List.filter (fun k => negb (k =? a_user_id (fst r))) ks
  end.

(** [... GROUP BY da.user_id]: one row per user. *)
Definition grouped_totals (rows : list (Answer * Question)) : list (Z * Totals) :=
  map (fun uid =>
         (uid, totals_of_group (List.filter (fun r => a_user_id (fst r) =? uid) rows)))
    (group_keys rows).

(** [duelloMatchTotals(matchId)]: the grouped rows folded into the object
    [map], keyed by user id. *)
Definition duelloMatchTotals (matchId : Z) : Handler (gmap Z Totals) :=
  let* rows := query (fun _ s => grouped_totals (answers_with_questions matchId s)) in
  Return (fold_left (fun (acc : gmap Z Totals) r => <[fst r := snd r]> acc) rows ∅).

(** [totals[id] || { bilmem:0, correct:0, wrong:0, score:0 }] *)
Definition stats_or_zero (totals : gmap Z Totals) (uid : Z) : Totals :=
  default {| t_bilmem := 0; t_correct := 0; t_wrong := 0; t_score := 0 |}
    (totals !! uid).

(** ** Status *)

Record StatusBody : Type := {
  st_finished : bool;
  st_current_index : Z;
  st_question : option (Z * Z);      (* position and question id *)
  st_mine : option Answer;
  st_opponent : option Answer;
  st_scores : Z * Z
}.

(** [GET /api/duello/match/:matchId/status] *)
Definition matchStatus (matchId userId : Z) : Handler (Response StatusBody) :=
  if (matchId =? 0) || (userId =? 0) then Return (Fail MissingIds) else
  let* m := duelloGetMatch matchId in
  match m with
  | None => Return (Fail MatchNotFound)
  | Some m =>
  if negb (inThisMatch m userId) then Return (Fail Forbidden) else
  let* _ := exec (fun now =>
              with_matches (sql_update (fun r => m_id r =? matchId)
                              (match_touch_status now userId))) in
  let* _ := ensureDuelloQuestionSet m in
  let aId := m_user_a_id m in
  let bId := m_user_b_id m in
  let* scores := duelloScores matchId aId bId in
  if MatchState_eqb (m_state m) finished || (m_total_questions m <=? m_current_index m)
  then Return (Ok {| st_finished := true; st_current_index := m_current_index m;
                     st_question := None; st_mine := None; st_opponent := None;
                     st_scores := scores |})
  else
  let currentPos := m_current_index m + 1 in
  let* qid := duelloGetQuestionIdByPos (m_id m) currentPos in
  match qid with
  | None => Return (Ok {| st_finished := true; st_current_index := m_current_index m;
                          st_question := None; st_mine := None; st_opponent := None;
                          st_scores := scores |})
  | Some qid =>
  let* ans := duelloGetAnswers (m_id m) qid in
  let myAns := List.find (fun a => a_user_id a =? userId) ans in
  let oppAns := List.find (fun a => a_user_id a =? opponentId m userId) ans in
  Return (Ok {| st_finished := false; st_current_index := m_current_index m;
                st_question := Some (currentPos, qid);
                st_mine := myAns; st_opponent := oppAns;
                st_scores := scores |})
  end end.

(** ** Answer Processor *)

(** The body of [POST /api/duello/match/:matchId/answer].  The two time
    fields are [Some] of the rounded number when [Number.isFinite] holds. *)
Record AnswerRequest : Type := {
  aq_match_id : Z;
  aq_user_id : Z;
  aq_answer : Js.value;
  aq_time_left_seconds : option Z;
  aq_max_time_seconds : option Z
}.

Definition make_answer (id matchId qid uid : Z) (ans : string) (is_correct : Z)
  (now : Timestamp) (maxSec leftSec : Z) : Answer :=
  {| a_id := id; a_match_id := matchId; a_question_id := qid; a_user_id := uid;
     a_answer := ans; a_is_correct := is_correct; a_created_at := now;
     a_max_time_seconds := Some maxSec; a_time_left_seconds := Some leftSec;
     a_earned_seconds := Some leftSec |}.

(** A plain [INSERT INTO duello_answers ... VALUES (...)].  It throws, and
    the result is [false], when [uq_duello_answers_once] rejects the row or
    when the time parameter is NaN. *)
Definition insert_answer (matchId qid uid : Z) (ans : string) (is_correct : Z)
  (maxSec : option Z) (leftSec : Z) (now : Timestamp) (s : Store) : Store * bool :=
  match maxSec with
  | None => (s, false)
  | Some maxSec =>
      let s' := with_seqs keep keep (fun n => n + 1) s in
      if exists_row (answer_key matchId qid uid) (duello_answers s) then (s', false)
      else (with_answers
              (fun l => l ++ [make_answer (seq_answers s) matchId qid uid ans is_correct
                                now maxSec leftSec]) s', true)
  end.

(** The speed-mode insert: [INSERT ... SELECT ... WHERE NOT EXISTS (SELECT 1
    FROM duello_answers WHERE match_id=$1 AND question_id=$2) RETURNING 1];
    the result is [ok]. *)
Definition insert_first_answer (matchId qid uid : Z) (ans : string) (is_correct : Z)
  (maxSec : option Z) (leftSec : Z) (now : Timestamp) (s : Store)
  : Store * option bool :=
  match maxSec with
  | None => (s, None)
  | Some maxSec =>
      match answers_of matchId qid s with
      | _ :: _ => (s, Some false)
      | [] =>
          (with_answers
             (fun l => l ++ [make_answer (seq_answers s) matchId qid uid ans is_correct
                               now maxSec leftSec])
             (with_seqs keep keep (fun n => n + 1) s), Some true)
      end
  end.

(** [maxSec]: the client's value clamped to 1..120 when it is a finite
    number, the configured default otherwise. *)
Definition answer_max_seconds (req : AnswerRequest) : option Z :=
  match aq_max_time_seconds req with
  | Some mls => Some (Z.max 1 (Z.min 120 mls))
  | None => DUELLO_PER_Q_SEC penv
  end.

(** [leftSec]: [Math.max(0, Math.min(leftRaw, maxSec))].  With [maxSec] NaN
    the value is NaN as well and the insert that carries both is
    rejected, so the number chosen here for that case is never stored. *)
Definition answer_left_seconds (req : AnswerRequest) : Z :=
  let leftRaw := default 0 (aq_time_left_seconds req) in
  Z.max 0 (Z.min leftRaw (default 0 (answer_max_seconds req))).

(** [qc?.correct_answer === norm ? 1 : 0] *)
Definition answer_is_correct (qc : option Question) (norm : string) : Z :=
  match qc with
  | Some q => if option_string_eqb (q_correct_answer q) norm then 1 else 0
  | None => 0
  end.

(** The speed branch: the first answer to the question is written under
    [NOT EXISTS], and the opponent gets ['bilmem'] at once unless a row of
    theirs is there. *)
Definition record_speed (m : Match) (matchId qid userId : Z) (norm : string)
  (isCorrect : Z) (maxSec : option Z) (leftSec : Z) : Handler (Response bool) :=
  let* ins := Await (insert_first_answer matchId qid userId norm isCorrect
                       maxSec leftSec) Return in
  match ins with
  | None => Return (Fail ServerError)
  | Some false => Return (Fail QuestionLocked)
  | Some true =>
      let oppId := opponentId m userId in
      let* oppPrev := query (fun _ s => exists_row (answer_key matchId qid oppId)
                                          (duello_answers s)) in
      if oppPrev then Return (Ok true)
      else
        let* ok := Await (insert_answer matchId qid oppId bilmem 0 maxSec 0) Return in
        if ok then Return (Ok true) else Return (Fail ServerError)
  end.

(** The info branch: the answer is simply written. *)
Definition record_info (matchId qid userId : Z) (norm : string)
  (isCorrect : Z) (maxSec : option Z) (leftSec : Z) : Handler (Response bool) :=
  let* ok := Await (insert_answer matchId qid userId norm isCorrect maxSec leftSec)
               Return in
  if ok then Return (Ok false) else Return (Fail ServerError).

(** [POST /api/duello/match/:matchId/answer]; the result is [locked]. *)
Definition submitAnswer (req : AnswerRequest) : Handler (Response bool) :=
  let matchId := aq_match_id req in
  let userId := aq_user_id req in
  if (matchId =? 0) || (userId =? 0) then Return (Fail MissingIds) else
  let* m := duelloGetMatch matchId in
  match m with
  | None => Return (Fail MatchNotFound)
  | Some m =>
  if negb (MatchState_eqb (m_state m) active) then Return (Fail MatchNotActive) else
  if negb (inThisMatch m userId) then Return (Fail Forbidden) else
  let* _ := exec (fun now =>
              with_matches (sql_update (fun r => m_id r =? matchId)
                              (match_touch now userId))) in
  let currentPos := m_current_index m + 1 in
  let* qid := duelloGetQuestionIdByPos (m_id m) currentPos in
  match qid with
  | None => Return (Fail NoActiveQuestion)
  | Some qid =>
  match normalizeDuelloAnswer (m_mode m) (aq_answer req) with
  | None => Return (Fail NoSkipInSpeedMode)
  | Some norm =>
  let* myPrev := query (fun _ s => exists_row (answer_key matchId qid userId)
                                     (duello_answers s)) in
  if myPrev then Return (Fail AlreadyAnswered) else
  let* _ := query (fun _ => answers_of matchId qid) in
  let* qc := query (fun _ s => first_row (fun q => q_id q =? qid) (questions s)) in
  let isCorrect := answer_is_correct qc norm in
  let maxSec := answer_max_seconds req in
  let leftSec := answer_left_seconds req in
  match m_mode m with
  | speed => record_speed m matchId qid userId norm isCorrect maxSec leftSec
  | info => record_info matchId qid userId norm isCorrect maxSec leftSec
  end
  end end end.

(** ** Progression Controller *)

Record RevealBody : Type := {
  rv_finished : bool;
  rv_current_index : Z
}.

(** Both participants are told the match is over. *)
Definition emit_finished (m : Match) : Handler unit :=
  let* _ := emit (m_user_a_id m) (match_finished (m_id m)) in
  emit (m_user_b_id m) (match_finished (m_id m)).

(** The info-mode fill of one side: a ['bilmem'] row unless one is there. *)
Definition fill_unknown (matchId qid uid : Z) (present : bool) : Handler bool :=
  if present then Return true
  else Await (insert_answer matchId qid uid bilmem 0 (DUELLO_PER_Q_SEC penv) 0) Return.

(** The match is closed without a look at the answers:
    [UPDATE duello_matches SET state='finished', finished_at=now WHERE id=$1],
    the two notifications, and [finished: true]. *)
Definition finish_now (m : Match) (matchId : Z) : Handler (Response RevealBody) :=
  let* _ := exec (fun now =>
              with_matches (sql_update (fun r => m_id r =? matchId)
                              (match_finish now))) in
  let* _ := emit_finished m in
  Return (Ok {| rv_finished := true; rv_current_index := m_total_questions m |}).

(** In info mode the sides that have not answered get ['bilmem']; the
    result is [false] when an insert throws. *)
Definition fill_missing (m : Match) (matchId qid : Z) : Handler bool :=
  match m_mode m with
  | info =>
      let aId := m_user_a_id m in
      let bId := m_user_b_id m in
      let* aAns := query (fun _ s => exists_row (answer_key matchId qid aId)
                                       (duello_answers s)) in
      let* bAns := query (fun _ s => exists_row (answer_key matchId qid bId)
                                       (duello_answers s)) in
      let* okA := fill_unknown matchId qid aId aAns in
      if okA then fill_unknown matchId qid bId bAns else Return false
  | speed => Return true
  end.

(** The count of the answers to the question, and the advance when there
    are two. *)
Definition advance (m : Match) (matchId qid : Z) : Handler (Response RevealBody) :=
  let* cnt := query (fun _ s => Z.of_nat (List.length (answers_of matchId qid s))) in
  if 2 <=? cnt then
    let nextIdx := m_current_index m + 1 in
    let isLast := m_total_questions m <=? nextIdx in
    if isLast then
      let* _ := exec (fun now =>
                  with_matches (sql_update (fun r => m_id r =? matchId)
                                  (match_finish_at now nextIdx))) in
      let* _ := emit_finished m in
      Return (Ok {| rv_finished := true; rv_current_index := nextIdx |})
    else
      let* _ := exec (fun _ =>
                  with_matches (sql_update (fun r => m_id r =? matchId)
                                  (match_set_index nextIdx))) in
      Return (Ok {| rv_finished := false; rv_current_index := nextIdx |})
  else
    Return (Ok {| rv_finished := false; rv_current_index := m_current_index m |}).

(** [POST /api/duello/match/:matchId/reveal] *)
Definition reveal (matchId userId : Z) : Handler (Response RevealBody) :=
  if (matchId =? 0) || (userId =? 0) then Return (Fail MissingIds) else
  let* m := duelloGetMatch matchId in
  match m with
  | None => Return (Fail MatchNotFound)
  | Some m =>
  if negb (MatchState_eqb (m_state m) active) then
    let* _ := emit_finished m in
    Return (Ok {| rv_finished := true; rv_current_index := m_current_index m |})
  else
  if negb (inThisMatch m userId) then Return (Fail Forbidden) else
  let* _ := exec (fun now =>
              with_matches (sql_update (fun r => m_id r =? matchId)
                              (match_touch now userId))) in
  let total := m_total_questions m in
  let currentPos := m_current_index m + 1 in
  if total <? currentPos then finish_now m matchId else
  let* qid := duelloGetQuestionIdByPos matchId currentPos in
  match qid with
  | None => finish_now m matchId
  | Some qid =>
  let* filled := fill_missing m matchId qid in
  if negb filled then Return (Fail ServerError) else
  advance m matchId qid
  end end.

(** ** Idle Timeout Sweeper *)

(** [COALESCE(last_seen, TIMESTAMP 'epoch') < now - interval 'sec seconds'] *)
Definition seen_before (last_seen : option Timestamp) (now : Timestamp) (sec : Z) : bool :=
  default epoch last_seen <? now - seconds sec.

(** The [WHERE] clause of the sweeper's update. *)
Definition idle_match (sec : Z) (now : Timestamp) (m : Match) : bool :=
  MatchState_eqb (m_state m) active &&
  (seen_before (m_last_seen_a m) now sec || seen_before (m_last_seen_b m) now sec) &&
  (m_current_index m <? m_total_questions m).

(** The sweeper's statement: the update and its [RETURNING id, user_a_id,
    user_b_id] rows.  With a threshold that is not a number the statement
    is rejected and nothing is written. *)
Definition idle_abort_stmt (sec : option Z) (now : Timestamp) (s : Store)
  : Store * option (list Match) :=
  match sec with
  | None => (s, None)
  | Some sec =>
      (with_matches (sql_update (idle_match sec now) (match_abandon now)) s,
       Some (map (match_abandon now) (List.filter (idle_match sec now) (duello_matches s))))
  end.

(** The notification loop over the returned rows. *)
Fixpoint emit_abandoned (updated : list Match) : Handler unit :=
  match updated with
  | [] => Return tt
  | m :: rest =>
      let* _ := emit (m_user_a_id m) (match_abandoned (m_id m)) in
      let* _ := emit (m_user_b_id m) (match_abandoned (m_id m)) in
      emit_abandoned rest
  end.

(** [duelloIdleAbortTick()] *)
Definition duelloIdleAbortTick : Handler unit :=
  let sec := DUELLO_IDLE_ABORT_SEC penv in
  let* updated := Await (idle_abort_stmt sec) Return in
  match updated with
  | None => Return tt
  | Some updated => emit_abandoned updated
  end.

(** ** Summary *)

Inductive ResultCode : Type := a_win | b_win | draw | result_pending.

Record SummaryBody : Type := {
  sm_finished : bool;
  sm_a : Totals;
  sm_b : Totals;
  sm_result : ResultCode
}.

(** [GET /api/duello/match/:matchId/summary] *)
Definition matchSummary (matchId userId : Z) : Handler (Response SummaryBody) :=
  if (matchId =? 0) || (userId =? 0) then Return (Fail MissingIds) else
  let* m := duelloGetMatch matchId in
  match m with
  | None => Return (Fail MatchNotFound)
  | Some m =>
  if negb (m_user_a_id m =? userId) && negb (m_user_b_id m =? userId)
  then Return (Fail Forbidden) else
  let* _ := ensureDuelloQuestionSet m in
  let* totals := duelloMatchTotals matchId in
  let aStats := stats_or_zero totals (m_user_a_id m) in
  let bStats := stats_or_zero totals (m_user_b_id m) in
  let fin := MatchState_eqb (m_state m) finished ||
             (m_total_questions m <=? m_current_index m) in
  let result :=
    if fin then
      if t_score bStats <? t_score aStats then a_win
      else if t_score aStats <? t_score bStats then b_win
      else draw
    else result_pending in
  Return (Ok {| sm_finished := fin; sm_a := aStats; sm_b := bStats;
                sm_result := result |})
  end.

(** ** The server as a transition system *)

(** What can arrive: a request on one of the duel routes, a sweeper tick,
    or a connection opening or closing. *)
Inductive Request : Type :=
| POST_invite (req : InviteRequest)
| POST_invite_respond (req : RespondRequest)
| GET_inbox (uid : Z)
| GET_outbox (uid : Z)
| GET_status (matchId userId : Z)
| POST_answer (req : AnswerRequest)
| POST_reveal (matchId userId : Z)
| GET_summary (matchId userId : Z)
| sweeper_tick.

(** The handler of a request, its reply dropped. *)
Definition forget {A : Type} (h : Handler A) : Handler unit :=
  let* _ := h in Return tt.

Definition handler_of (r : Request) : Handler unit :=
  match r with
  | POST_invite req => forget (createInvite req)
  | POST_invite_respond req => forget (respondInvite req)
  | GET_inbox uid => forget (inbox uid)
  | GET_outbox uid => forget (outbox uid)
  | GET_status matchId userId => forget (matchStatus matchId userId)
  | POST_answer req => forget (submitAnswer req)
  | POST_reveal matchId userId => forget (reveal matchId userId)
  | GET_summary matchId userId => forget (matchSummary matchId userId)
  | sweeper_tick => duelloIdleAbortTick
  end.

(** The store together with the handlers in flight. *)
Record Server : Type := {
  store : Store;
  in_flight : list (Handler unit)
}.

(** One move of the server: a request of the kind [allowed] arrives and
    its handler starts; a connection opens or closes; or one handler in
    flight gets its next statement executed, at whatever the clock
    shows. *)
Inductive server_step (allowed : Request -> Prop) : Server -> Server -> Prop :=
| step_arrive (sv : Server) (r : Request) :
    allowed r ->
    server_step allowed sv
      {| store := store sv; in_flight := in_flight sv ++ [handler_of r] |}
| step_open (sv : Server) (uid : Z) (c : Conn) :
    server_step allowed sv
      {| store := sseAdd uid c (store sv); in_flight := in_flight sv |}
| step_close (sv : Server) (uid : Z) (c : Conn) :
    server_step allowed sv
      {| store := sseRemove uid c (store sv); in_flight := in_flight sv |}
| step_statement (sv : Server) (before after : list (Handler unit))
    (X : Type) (stmt : Timestamp -> Store -> Store * X) (k : X -> Handler unit)
    (now : Timestamp) (s' : Store) (x : X) :
    in_flight sv = before ++ Await stmt k :: after ->
    stmt now (store sv) = (s', x) ->
    server_step allowed sv {| store := s'; in_flight := before ++ k x :: after |}
| step_done (sv : Server) (before after : list (Handler unit)) (u : unit) :
    in_flight sv = before ++ Return u :: after ->
    server_step allowed sv {| store := store sv; in_flight := before ++ after |}.

Inductive reachable_from (allowed : Request -> Prop) (sv0 : Server) : Server -> Prop :=
| reach_refl : reachable_from allowed sv0 sv0
| reach_step (sv sv' : Server) :
    reachable_from allowed sv0 sv -> server_step allowed sv sv' ->
    reachable_from allowed sv0 sv'.

(** Every request is let in. *)
Definition any_request (r : Request) : Prop := True.

(** Only answers to invites are let in. *)
Definition invite_responses (r : Request) : Prop :=
  match r with
  | POST_invite_respond _ => True
  | _ => False
  end.

(** A fresh database with the given users and question bank, and nobody
    connected. *)
Definition fresh_store (us : list User) (svs : list Survey) (qs : list Question) : Store :=
  {| users := us; surveys := svs; questions := qs;
     duello_matches := []; duello_invites := [];
     duello_match_questions := []; duello_answers := [];
     seq_matches := 1; seq_invites := 1; seq_answers := 1;
     sseClients := ∅; wire := [] |}.

Definition fresh_server (us : list User) (svs : list Survey) (qs : list Question) : Server :=
  {| store := fresh_store us svs qs; in_flight := [] |}.

(** ** Vocabulary of the statements below *)

(** Every spelling [normalizeAnswer] knows. *)
Definition known_spellings : list string :=
  ["evet"; "hayır"; "hayir"; "bilmem"; "yes"; "true"; "1"; "no"; "false"; "0";
   "dontknow"; "unknown"; "idk"; "skip"; "empty"; "null"].

(** The text [normalizeAnswer] looks at, [None] for [null] and
    [undefined]. *)
Definition answer_text (v : Js.value) : option string :=
  match v with
  | Js.Undefined | Js.Null => None
  | _ => Some (Js.toLowerCase (Js.trim (Js.String_ v)))
  end.

(** The answer handler gets as far as recording: the match is there and
    active, the caller plays in it, [qid] is its current question and the
    submitted value normalises to [norm]. *)
Definition answer_reaches (req : AnswerRequest) (s : Store) (m : Match) (qid : Z)
  (norm : string) : Prop :=
  aq_match_id req <> 0 /\ aq_user_id req <> 0 /\
  first_row (fun r => m_id r =? aq_match_id req) (duello_matches s) = Some m /\
  m_state m = active /\
  inThisMatch m (aq_user_id req) = true /\
  question_id_at (m_id m) (m_current_index m + 1) s = Some qid /\
  normalizeDuelloAnswer (m_mode m) (aq_answer req) = Some norm.

(** The store once the liveness touch of [uid] on match [matchId] is
    done. *)
Definition touched (now : Timestamp) (matchId uid : Z) (s : Store) : Store :=
  with_matches (sql_update (fun r => m_id r =? matchId) (match_touch now uid)) s.

(** How many answers [uid] has on record for a question of a match. *)
Definition answer_count (matchId qid uid : Z) (s : Store) : nat :=
  List.length (List.filter (answer_key matchId qid uid) (duello_answers s)).

(** The reveal handler gets as far as the current question: the match is
    there and active, the caller plays in it, and [qid] is the question at
    the position after [current_index]. *)
Definition reveal_reaches (matchId userId : Z) (s : Store) (m : Match) (qid : Z) : Prop :=
  matchId <> 0 /\ userId <> 0 /\
  first_row (fun r => m_id r =? matchId) (duello_matches s) = Some m /\
  m_state m = active /\
  inThisMatch m userId = true /\
  m_current_index m + 1 <= m_total_questions m /\
  question_id_at matchId (m_current_index m + 1) s = Some qid.


(** The progress of every match: its state and its [current_index]. *)
Definition progress (s : Store) : list (Z * MatchState * Z) :=
  map (fun m => (m_id m, m_state m, m_current_index m)) (duello_matches s).

(** The user [findUserByIdOrCode] finds for an invite request. *)
Definition resolve_target (req : InviteRequest) (s : Store) : option User :=
  if negb (rq_to_user_id req =? 0) then
    first_row (fun u => u_id u =? rq_to_user_id req) (users s)
  else
    match rq_to_user_code req with
    | None | Some EmptyString => None
    | Some c =>
        first_row (fun u => option_string_eqb (u_user_code u)
                              (Js.toUpperCase (Js.trim c))) (users s)
    end.

(** The mode an invite request asks for, [None] when it is neither
    ['info'] nor ['speed']. *)
Definition request_mode (req : InviteRequest) : option Mode :=
  parse_mode (Js.toLowerCase (Js.env_or (rq_mode req) "info")).

(** An invite request that passes the checks made before any write: the
    sender is given, the target resolves to [toUser], the mode is [mode], and
    the two users differ. *)
Definition invite_validated (req : InviteRequest) (s : Store) (toUser : User)
  (mode : Mode) : Prop :=
  rq_from_user_id req <> 0 /\
  resolve_target req s = Some toUser /\
  request_mode req = Some mode /\
  rq_from_user_id req <> u_id toUser.

(** The store after the two refreshing statements of the invite handler:
    the lazy expiry and the lazy completion. *)
Definition refreshed (now : Timestamp) (s : Store) : Store :=
  with_matches (sql_update over_complete (match_finish now))
    (with_invites
       (sql_update
          (fun i => InviteStatus_eqb (i_status i) pending && (i_expire_at i <=? now))
          invite_expire) s).

(** The user holds an active match that still has questions to go. *)
Definition busy (uid : Z) (s : Store) : bool :=
  exists_row (fun m => active_for uid m && negb (over_complete m)) (duello_matches s).

(** The user holds an active match, whatever its index. *)
Definition holds_active (uid : Z) (s : Store) : bool :=
  exists_row (active_for uid) (duello_matches s).

Definition party_id (who : Party) (fromId toId : Z) : Z :=
  match who with
  | sender => fromId
  | receiver => toId
  end.


(** ** Properties kept statement by statement *)

(** Every statement a handler can come to await relates the store before
    it to the store after it by [R]. *)
Inductive Respects (R : Store -> Store -> Prop) {A : Type} : Handler A -> Prop :=
| respects_return (a : A) : Respects R (Return a)
| respects_await (X : Type) (stmt : Timestamp -> Store -> Store * X)
    (k : X -> Handler A) :
    (forall now s, R s (fst (stmt now s))) ->
    (forall x, Respects R (k x)) ->
    Respects R (Await stmt k).

(** What a relation on stores has to grant for every duel handler to
    respect it: it is a preorder, and each kind of write the handlers make
    stays inside it. *)
Record Granted (R : Store -> Store -> Prop) : Prop := {
  granted_refl : forall s, R s s;
  granted_trans : forall s1 s2 s3, R s1 s2 -> R s2 s3 -> R s1 s3;
  granted_invites : forall f s, R s (with_invites f s);
  granted_match_questions : forall row s,
    R s (with_match_questions (fun l => l ++ [row]) s);
  granted_answers : forall row s, R s (with_answers (fun l => l ++ [row]) s);
  granted_seqs : forall fm fi fa s, R s (with_seqs fm fi fa s);
  granted_sse : forall f g s, R s (with_sse f g s);
  granted_touch : forall now matchId uid s,
    R s (with_matches (sql_update (fun r => m_id r =? matchId)
                         (match_touch now uid)) s);
  granted_touch_status : forall now matchId uid s,
    R s (with_matches (sql_update (fun r => m_id r =? matchId)
                         (match_touch_status now uid)) s);
  granted_finish_over : forall now s,
    R s (with_matches (sql_update over_complete (match_finish now)) s);
  granted_finish : forall now matchId s,
    R s (with_matches (sql_update (fun r => m_id r =? matchId)
                         (match_finish now)) s);
  granted_finish_at : forall now matchId idx s,
    R s (with_matches (sql_update (fun r => m_id r =? matchId)
                         (match_finish_at now idx)) s);
  granted_set_index : forall matchId idx s,
    R s (with_matches (sql_update (fun r => m_id r =? matchId)
                         (match_set_index idx)) s);
  granted_abandon : forall sec now s,
    R s (with_matches (sql_update (idle_match sec now) (match_abandon now)) s);
  granted_accept : forall inviteId fromId toId now s,
    R s (fst (accept_tx inviteId fromId toId now s))
}.


(** ** The single-active-match rule *)

(** How many active matches reference the user. *)
Definition active_count (uid : Z) (s : Store) : nat :=
  List.length (List.filter (active_for uid) (duello_matches s)).

(** No user is referenced by more than one active match. *)
Definition single_active (s : Store) : Prop :=
  forall uid, (active_count uid s <= 1)%nat.

Definition keeps_single_active (s s' : Store) : Prop :=
  single_active s -> single_active s'.

(** The matches table only grows at its end, and no row that has left
    [active] is [active] again. *)
Definition never_reactivated (s s' : Store) : Prop :=
  exists older newer,
    duello_matches s' = older ++ newer /\
    Forall2 (fun m m' => m_id m' = m_id m /\
                         m_user_a_id m' = m_user_a_id m /\
                         m_user_b_id m' = m_user_b_id m /\
                         (m_state m' = active -> m_state m = active))
      (duello_matches s) older.

(** The matches table has only grown, and by active rows. *)
Definition grown_by_active (s s' : Store) : Prop :=
  exists newer,
    duello_matches s' = duello_matches s ++ newer /\
    Forall (fun m => m_state m = active) newer.

(** The invite names the user as its sender or its receiver. *)
Definition invite_touches (uid : Z) (i : Invite) : Prop :=
  i_from_user_id i = uid \/ i_to_user_id i = uid.

(** What the status and summary handlers leave alone: the answers, the
    question bank, and who plays in which match. *)
Definition scores_frame (s s' : Store) : Prop :=
  duello_answers s' = duello_answers s /\
  questions s' = questions s /\
  map (fun m => (m_id m, m_user_a_id m, m_user_b_id m)) (duello_matches s') =
  map (fun m => (m_id m, m_user_a_id m, m_user_b_id m)) (duello_matches s).

(** ** Idle matches *)

(** The match is active, one of its sides was last seen more than [sec]
    seconds before [now] (never counts as the epoch), and it has not
    reached its last question. *)
Definition is_idle (sec : Z) (now : Timestamp) (m : Match) : Prop :=
  m_state m = active /\
  (default epoch (m_last_seen_a m) < now - seconds sec \/
   default epoch (m_last_seen_b m) < now - seconds sec) /\
  m_current_index m < m_total_questions m.

(** [sseEmit] for each pair of the list in turn. *)
Definition emit_all (evs : list (Z * SseEvent)) (s : Store) : Store :=
  fold_left (fun st e => sseEmit (fst e) (snd e) st) evs s.

(** ** Question sets *)

(** The rows that put [ids] at the positions [i], [i + 1], ... of a
    match. *)
Fixpoint numbered (matchId i : Z) (ids : list Z) : list MatchQuestion :=
  match ids with
  | [] => []
  | qid :: ids' =>
      {| mq_match_id := matchId; mq_pos := i; mq_question_id := qid |}
        :: numbered matchId (i + 1) ids'
  end.


(** ** Properties kept on the stores where they hold *)

(** Every statement a handler can come to await, run on a store where [I]
    holds, leaves a store where [I] holds. *)
Inductive Keeps (I : Store -> Prop) {A : Type} : Handler A -> Prop :=
| keeps_return (a : A) : Keeps I (Return a)
| keeps_await (X : Type) (stmt : Timestamp -> Store -> Store * X)
    (k : X -> Handler A) :
    (forall now s, I s -> I (fst (stmt now s))) ->
    (forall now s, I s -> Keeps I (k (snd (stmt now s)))) ->
    Keeps I (Await stmt k).




(** ** Vocabulary of the further properties *)

(** The connections registered for a user, oldest first. *)
Definition connections (uid : Z) (s : Store) : list Conn :=
  default [] (sseClients s !! uid).

(** What one [sseEmit] writes to the connections of a set. *)
Definition frames_of (ev : SseEvent) (set : list Conn) : list (Conn * Frame) :=
  flat_map (fun r => [(r, named ev); (r, fallback ev)]) set.

(** The columns of an invite that no statement writes. *)
Definition invite_identity (i : Invite) : Z * Z * Z * Mode * Timestamp * Timestamp :=
  (i_id i, i_from_user_id i, i_to_user_id i, i_mode i, i_created_at i, i_expire_at i).

(** The invite is pending and past its expiry at [now]. *)
Definition overdue (now : Timestamp) (i : Invite) : bool :=
  InviteStatus_eqb (i_status i) pending && (i_expire_at i <=? now).

(** [GET /api/duello/active/:userId]: the id of the active match of the
    user with the greatest id, [null] when there is none.  The id column
    is a BIGSERIAL, which the driver hands over as a non-empty string, so
    [row?.id || null] is the id whenever a row is found. *)
Definition activeMatch (uid : Z) : Handler (Response (option Z)) :=
  if uid =? 0 then Return (Fail MissingIds) else
  let* row := query (fun _ s =>
                first_row (fun _ => true)
                  (order_by (fun x y => m_id y <=? m_id x)
                     (List.filter (active_for uid) (duello_matches s)))) in
  Return (Ok (option_map m_id row)).

(** The store the lazy expiry leaves at [now]. *)
Definition after_expiry (now : Timestamp) (s : Store) : Store :=
  with_invites (sql_update (overdue now) invite_expire) s.

(** A well-formed answer to an invite: both ids given and the action one
    of the two. *)
Definition respond_wellformed (req : RespondRequest) : Prop :=
  rq_invite_id req <> 0 /\ rq_user_id req <> 0 /\
  Js.includes ["accept"; "reject"]
    (Js.toLowerCase (Js.env_or (rq_action req) "")) = true.

(** The columns of a match that no statement writes. *)
Definition match_identity (m : Match) : Z * Mode * Z * Z * Timestamp * Z :=
  (m_id m, m_mode m, m_user_a_id m, m_user_b_id m, m_created_at m,
   m_total_questions m).

(** The matches of [s] are all there in [s'], in place, each with the
    identity it had and not back in [active]; the rows that have come on
    top are matches of twelve questions between two different users. *)
Definition matches_kept (s s' : Store) : Prop :=
  exists older newer,
    duello_matches s' = older ++ newer /\
    Forall2 (fun m m' => match_identity m' = match_identity m /\
                         (m_state m' = active -> m_state m = active))
      (duello_matches s) older /\
    Forall (fun m => m_total_questions m = 12 /\ m_user_a_id m <> m_user_b_id m) newer.

(** The answers and the question sets of [s] are all there in [s'],
    unchanged and in place, and the user directory and the question bank
    are the same. *)
Definition records_kept (s s' : Store) : Prop :=
  (exists l, duello_answers s' = duello_answers s ++ l) /\
  (exists l, duello_match_questions s' = duello_match_questions s ++ l) /\
  users s' = users s /\ surveys s' = surveys s /\ questions s' = questions s.

(** The invites of [s] are all there in [s'], in place, each with the
    identity it had, and none that has left [pending] is [pending] again. *)
Definition invites_kept (s s' : Store) : Prop :=
  exists older newer,
    duello_invites s' = older ++ newer /\
    Forall2 (fun i i' => invite_identity i' = invite_identity i /\
                         (i_status i' = pending -> i_status i = pending))
      (duello_invites s) older.

(** Every match has twelve questions and an index from 0 to 12. *)
Definition index_in_bounds (s : Store) : Prop :=
  Forall (fun m => m_total_questions m = 12 /\ 0 <= m_current_index m <= 12)
    (duello_matches s).

(** What a relation on stores has to grant, write by write, for the duel
    handlers to respect it; the writes of the index that [reveal] makes are
    granted apart. *)
Record StatementGrants (R : Store -> Store -> Prop) : Prop := {
  sg_refl : forall s, R s s;
  sg_trans : forall s1 s2 s3, R s1 s2 -> R s2 s3 -> R s1 s3;
  sg_expire : forall now s, R s (after_expiry now s);
  sg_expire_id : forall id s,
    R s (with_invites (sql_update (fun i => i_id i =? id) invite_expire) s);
  sg_reject : forall id now s,
    R s (with_invites (sql_update (fun i => i_id i =? id) (invite_reject now)) s);
  sg_invite : forall inv s, R s (with_invites (fun l => l ++ [inv]) s);
  sg_accept : forall inviteId fromId toId now s,
    R s (fst (accept_tx inviteId fromId toId now s));
  sg_match_questions : forall row s,
    R s (with_match_questions (fun l => l ++ [row]) s);
  sg_answers : forall row s, R s (with_answers (fun l => l ++ [row]) s);
  sg_seqs : forall fm fi fa s, R s (with_seqs fm fi fa s);
  sg_sse : forall f g s, R s (with_sse f g s);
  sg_touch : forall now matchId uid s,
    R s (with_matches (sql_update (fun r => m_id r =? matchId) (match_touch now uid)) s);
  sg_touch_status : forall now matchId uid s,
    R s (with_matches (sql_update (fun r => m_id r =? matchId)
                         (match_touch_status now uid)) s);
  sg_finish_over : forall now s,
    R s (with_matches (sql_update over_complete (match_finish now)) s);
  sg_finish : forall now matchId s,
    R s (with_matches (sql_update (fun r => m_id r =? matchId) (match_finish now)) s);
  sg_abandon : forall sec now s,
    R s (with_matches (sql_update (idle_match sec now) (match_abandon now)) s)
}.

(** The store [advance] leaves when it finds two answers, and its reply:
    the index moves on by one, and on the last question the match is
    finished and both players are told. *)
Definition advanced (now : Timestamp) (m : Match) (matchId : Z) (s : Store)
  : Store * Response RevealBody :=
  let nextIdx := m_current_index m + 1 in
  if m_total_questions m <=? nextIdx then
    (sseEmit (m_user_b_id m) (match_finished (m_id m))
       (sseEmit (m_user_a_id m) (match_finished (m_id m))
          (with_matches (sql_update (fun r => m_id r =? matchId)
                           (match_finish_at now nextIdx)) s)),
     Ok {| rv_finished := true; rv_current_index := nextIdx |})
  else
    (with_matches (sql_update (fun r => m_id r =? matchId) (match_set_index nextIdx)) s,
     Ok {| rv_finished := false; rv_current_index := nextIdx |}).

(** The ['bilmem'] row [reveal] writes in info mode for a player without an
    answer, none for a player with one. *)
Definition unknown_row (present : bool) (row : Answer) : list Answer :=
  if present then [] else [row].

(** * The quiz outside the duel *)

(** Streaks, the ladder, books, totals, bulk authoring and the daily
    contest work on tables of their own; they are kept in a ledger beside
    the store of the duel. *)

(** A calendar day of the Istanbul clock, counted from the day of
    [epoch]; it stands for both the ['YYYY-MM-DD'] text and the [DATE] of
    that day. *)
Definition Day : Type := Z.

(** A row of [users], with the columns this part of the code reads. *)
Record Account : Type := {
  ac_id : Z;
  ac_books : option Z;
  ac_ladder_best_level : option Z
}.

(** A row of [questions], all columns. *)
Record QuestionRow : Type := {
  qr_id : Z;
  qr_survey_id : option Z;
  qr_question : option string;
  qr_correct_answer : option string;
  qr_point : option Z;
  qr_qtype : option Z
}.

(** A row of [answers]; the serial id and [created_at] are not read. *)
Record AnswerRow : Type := {
  an_user_id : Z;
  an_question_id : Z;
  an_answer : option string;
  an_is_correct : option Z;
  an_max_time_seconds : option Z;
  an_time_left_seconds : option Z;
  an_earned_seconds : option Z;
  an_is_daily : bool;
  an_daily_key : option Day;
  an_bonus_points : option Z;
  an_streak_len_at_answer : option Z
}.

(** A row of [ladder_sessions]; the three counters are [NOT NULL]. *)
Record LadderSession : Type := {
  ls_user_id : Z;
  ls_current_level : Z;
  ls_attempts : Z;
  ls_correct : Z
}.

(** A row of [user_daily_streak]. *)
Record StreakRow : Type := {
  sk_user_id : Z;
  sk_current_streak : Z;
  sk_longest_streak : Z;
  sk_last_day_key : option Day
}.

(** A row of [daily_sessions]; both [current_index] and [finished] are
    written by this code only, always with a value. *)
Record DailySession : Type := {
  dse_id : Z;
  dse_user_id : Z;
  dse_day_key : Day;
  dse_current_index : Z;
  dse_finished : bool
}.

(** A row of [daily_contest_questions]; [pos] is part of the primary key. *)
Record DailyQuestion : Type := {
  dq_day_key : Day;
  dq_contest_date : option Day;
  dq_pos : Z;
  dq_seq : option Z;
  dq_question_id : Z
}.

(** A row of [daily_finisher_awards]. *)
Record FinisherAward : Type := {
  fa_user_id : Z;
  fa_day_key : Day;
  fa_amount : Z
}.

(** A row of [book_spends]. *)
Record BookSpend : Type := {
  bs_user_id : Z;
  bs_question_id : Z;
  bs_day_key : option Day;
  bs_amount : option Z
}.

Record Ledger : Type := {
  lg_users : list Account;
  lg_surveys : list Survey;
  lg_questions : list QuestionRow;
  lg_answers : list AnswerRow;
  lg_ladder_sessions : list LadderSession;
  lg_user_daily_streak : list StreakRow;
  lg_daily_sessions : list DailySession;
  lg_daily_contest_questions : list DailyQuestion;
  lg_daily_finisher_awards : list FinisherAward;
  lg_book_spends : list BookSpend;
  (** the SERIAL sequences that are read back *)
  lg_seq_questions : Z;
  lg_seq_daily_sessions : Z
}.

Definition on_users (f : list Account -> list Account) (s : Ledger) : Ledger :=
  {| lg_users := f (lg_users s);
     lg_surveys := lg_surveys s;
     lg_questions := lg_questions s;
     lg_answers := lg_answers s;
     lg_ladder_sessions := lg_ladder_sessions s;
     lg_user_daily_streak := lg_user_daily_streak s;
     lg_daily_sessions := lg_daily_sessions s;
     lg_daily_contest_questions := lg_daily_contest_questions s;
     lg_daily_finisher_awards := lg_daily_finisher_awards s;
     lg_book_spends := lg_book_spends s;
     lg_seq_questions := lg_seq_questions s;
     lg_seq_daily_sessions := lg_seq_daily_sessions s |}.

Definition on_surveys (f : list Survey -> list Survey) (s : Ledger) : Ledger :=
  {| lg_users := lg_users s;
     lg_surveys := f (lg_surveys s);
     lg_questions := lg_questions s;
     lg_answers := lg_answers s;
     lg_ladder_sessions := lg_ladder_sessions s;
     lg_user_daily_streak := lg_user_daily_streak s;
     lg_daily_sessions := lg_daily_sessions s;
     lg_daily_contest_questions := lg_daily_contest_questions s;
     lg_daily_finisher_awards := lg_daily_finisher_awards s;
     lg_book_spends := lg_book_spends s;
     lg_seq_questions := lg_seq_questions s;
     lg_seq_daily_sessions := lg_seq_daily_sessions s |}.

Definition on_questions (f : list QuestionRow -> list QuestionRow) (s : Ledger) : Ledger :=
  {| lg_users := lg_users s;
     lg_surveys := lg_surveys s;
     lg_questions := f (lg_questions s);
     lg_answers := lg_answers s;
     lg_ladder_sessions := lg_ladder_sessions s;
     lg_user_daily_streak := lg_user_daily_streak s;
     lg_daily_sessions := lg_daily_sessions s;
     lg_daily_contest_questions := lg_daily_contest_questions s;
     lg_daily_finisher_awards := lg_daily_finisher_awards s;
     lg_book_spends := lg_book_spends s;
     lg_seq_questions := lg_seq_questions s;
     lg_seq_daily_sessions := lg_seq_daily_sessions s |}.

Definition on_answers (f : list AnswerRow -> list AnswerRow) (s : Ledger) : Ledger :=
  {| lg_users := lg_users s;
     lg_surveys := lg_surveys s;
     lg_questions := lg_questions s;
     lg_answers := f (lg_answers s);
     lg_ladder_sessions := lg_ladder_sessions s;
     lg_user_daily_streak := lg_user_daily_streak s;
     lg_daily_sessions := lg_daily_sessions s;
     lg_daily_contest_questions := lg_daily_contest_questions s;
     lg_daily_finisher_awards := lg_daily_finisher_awards s;
     lg_book_spends := lg_book_spends s;
     lg_seq_questions := lg_seq_questions s;
     lg_seq_daily_sessions := lg_seq_daily_sessions s |}.

Definition on_ladder_sessions (f : list LadderSession -> list LadderSession) (s : Ledger) : Ledger :=
  {| lg_users := lg_users s;
     lg_surveys := lg_surveys s;
     lg_questions := lg_questions s;
     lg_answers := lg_answers s;
     lg_ladder_sessions := f (lg_ladder_sessions s);
     lg_user_daily_streak := lg_user_daily_streak s;
     lg_daily_sessions := lg_daily_sessions s;
     lg_daily_contest_questions := lg_daily_contest_questions s;
     lg_daily_finisher_awards := lg_daily_finisher_awards s;
     lg_book_spends := lg_book_spends s;
     lg_seq_questions := lg_seq_questions s;
     lg_seq_daily_sessions := lg_seq_daily_sessions s |}.

Definition on_user_daily_streak (f : list StreakRow -> list StreakRow) (s : Ledger) : Ledger :=
  {| lg_users := lg_users s;
     lg_surveys := lg_surveys s;
     lg_questions := lg_questions s;
     lg_answers := lg_answers s;
     lg_ladder_sessions := lg_ladder_sessions s;
     lg_user_daily_streak := f (lg_user_daily_streak s);
     lg_daily_sessions := lg_daily_sessions s;
     lg_daily_contest_questions := lg_daily_contest_questions s;
     lg_daily_finisher_awards := lg_daily_finisher_awards s;
     lg_book_spends := lg_book_spends s;
     lg_seq_questions := lg_seq_questions s;
     lg_seq_daily_sessions := lg_seq_daily_sessions s |}.

Definition on_daily_sessions (f : list DailySession -> list DailySession) (s : Ledger) : Ledger :=
  {| lg_users := lg_users s;
     lg_surveys := lg_surveys s;
     lg_questions := lg_questions s;
     lg_answers := lg_answers s;
     lg_ladder_sessions := lg_ladder_sessions s;
     lg_user_daily_streak := lg_user_daily_streak s;
     lg_daily_sessions := f (lg_daily_sessions s);
     lg_daily_contest_questions := lg_daily_contest_questions s;
     lg_daily_finisher_awards := lg_daily_finisher_awards s;
     lg_book_spends := lg_book_spends s;
     lg_seq_questions := lg_seq_questions s;
     lg_seq_daily_sessions := lg_seq_daily_sessions s |}.

Definition on_daily_contest_questions (f : list DailyQuestion -> list DailyQuestion) (s : Ledger) : Ledger :=
  {| lg_users := lg_users s;
     lg_surveys := lg_surveys s;
     lg_questions := lg_questions s;
     lg_answers := lg_answers s;
     lg_ladder_sessions := lg_ladder_sessions s;
     lg_user_daily_streak := lg_user_daily_streak s;
     lg_daily_sessions := lg_daily_sessions s;
     lg_daily_contest_questions := f (lg_daily_contest_questions s);
     lg_daily_finisher_awards := lg_daily_finisher_awards s;
     lg_book_spends := lg_book_spends s;
     lg_seq_questions := lg_seq_questions s;
     lg_seq_daily_sessions := lg_seq_daily_sessions s |}.

Definition on_daily_finisher_awards (f : list FinisherAward -> list FinisherAward) (s : Ledger) : Ledger :=
  {| lg_users := lg_users s;
     lg_surveys := lg_surveys s;
     lg_questions := lg_questions s;
     lg_answers := lg_answers s;
     lg_ladder_sessions := lg_ladder_sessions s;
     lg_user_daily_streak := lg_user_daily_streak s;
     lg_daily_sessions := lg_daily_sessions s;
     lg_daily_contest_questions := lg_daily_contest_questions s;
     lg_daily_finisher_awards := f (lg_daily_finisher_awards s);
     lg_book_spends := lg_book_spends s;
     lg_seq_questions := lg_seq_questions s;
     lg_seq_daily_sessions := lg_seq_daily_sessions s |}.

Definition on_book_spends (f : list BookSpend -> list BookSpend) (s : Ledger) : Ledger :=
  {| lg_users := lg_users s;
     lg_surveys := lg_surveys s;
     lg_questions := lg_questions s;
     lg_answers := lg_answers s;
     lg_ladder_sessions := lg_ladder_sessions s;
     lg_user_daily_streak := lg_user_daily_streak s;
     lg_daily_sessions := lg_daily_sessions s;
     lg_daily_contest_questions := lg_daily_contest_questions s;
     lg_daily_finisher_awards := lg_daily_finisher_awards s;
     lg_book_spends := f (lg_book_spends s);
     lg_seq_questions := lg_seq_questions s;
     lg_seq_daily_sessions := lg_seq_daily_sessions s |}.

Definition on_seq_questions (f : Z -> Z) (s : Ledger) : Ledger :=
  {| lg_users := lg_users s;
     lg_surveys := lg_surveys s;
     lg_questions := lg_questions s;
     lg_answers := lg_answers s;
     lg_ladder_sessions := lg_ladder_sessions s;
     lg_user_daily_streak := lg_user_daily_streak s;
     lg_daily_sessions := lg_daily_sessions s;
     lg_daily_contest_questions := lg_daily_contest_questions s;
     lg_daily_finisher_awards := lg_daily_finisher_awards s;
     lg_book_spends := lg_book_spends s;
     lg_seq_questions := f (lg_seq_questions s);
     lg_seq_daily_sessions := lg_seq_daily_sessions s |}.

Definition on_seq_daily_sessions (f : Z -> Z) (s : Ledger) : Ledger :=
  {| lg_users := lg_users s;
     lg_surveys := lg_surveys s;
     lg_questions := lg_questions s;
     lg_answers := lg_answers s;
     lg_ladder_sessions := lg_ladder_sessions s;
     lg_user_daily_streak := lg_user_daily_streak s;
     lg_daily_sessions := lg_daily_sessions s;
     lg_daily_contest_questions := lg_daily_contest_questions s;
     lg_daily_finisher_awards := lg_daily_finisher_awards s;
     lg_book_spends := lg_book_spends s;
     lg_seq_questions := lg_seq_questions s;
     lg_seq_daily_sessions := f (lg_seq_daily_sessions s) |}.

(** A database that holds the given users, surveys and questions and
    nothing else. *)
Definition fresh_ledger (us : list Account) (svs : list Survey) (qs : list QuestionRow)
  : Ledger :=
  {| lg_users := us; lg_surveys := svs; lg_questions := qs;
     lg_answers := []; lg_ladder_sessions := []; lg_user_daily_streak := [];
     lg_daily_sessions := []; lg_daily_contest_questions := [];
     lg_daily_finisher_awards := []; lg_book_spends := [];
     lg_seq_questions := 1; lg_seq_daily_sessions := 1 |}.

(** ** Procedures: awaited statements that may throw *)

(** A procedure returns, lets an exception go up, or awaits one statement
    and continues with what it gave: [Some] result, or [None] when the
    statement threw, in which case it has written nothing. *)
Inductive Proc (R : Type) : Type :=
| Finish (r : R)
| Raise
| Stmt {X : Type} (st : Timestamp -> Ledger -> Ledger * option X)
    (k : option X -> Proc R).

#[global] Arguments Finish {R} r.
#[global] Arguments Raise {R}.
#[global] Arguments Stmt {R X} st k.

Fixpoint pbind {A B : Type} (p : Proc A) (f : A -> Proc B) : Proc B :=
  match p with
  | Finish a => f a
  | Raise => Raise
  | Stmt st k => Stmt st (fun o => pbind (k o) f)
  end.

Notation "'let+' x ':=' p 'in' k" := (pbind p (fun x => k))
  (at level 10, x name, p at level 100, k at level 200).

(** [try { p } catch { h }] *)
Fixpoint catch {R : Type} (p : Proc R) (h : Proc R) : Proc R :=
  match p with
  | Finish r => Finish r
  | Raise => h
  | Stmt st k => Stmt st (fun o => catch (k o) h)
  end.

(** An awaited statement outside any [try]: what it throws goes up. *)
Definition sql {X : Type} (st : Timestamp -> Ledger -> Ledger * option X) : Proc X :=
  Stmt st (fun o => match o with Some x => Finish x | None => Raise end).

Definition sql_read {X : Type} (f : Ledger -> X) : Proc X :=
  sql (fun _ s => (s, Some (f s))).

Definition sql_write (f : Ledger -> Ledger) : Proc unit :=
  sql (fun _ s => (f s, Some tt)).

(** The procedure run to completion with nothing in between, every
    statement reading the same clock value; [None] for an exception nobody
    caught. *)
Fixpoint perform {R : Type} (now : Timestamp) (p : Proc R) (s : Ledger)
  : Ledger * option R :=
  match p with
  | Finish r => (s, Some r)
  | Raise => (s, None)
  | Stmt st k => let '(s', o) := st now s in perform now (k o) s'
  end.

(** ** Replies *)

Inductive Refusal : Type :=
| MissingFields                  (* user_id ve question_id zorunludur *)
| MissingUser                    (* user_id zorunlu *)
| BadPoint                       (* Gecersiz point *)
| QuestionNotFound               (* Soru bulunamadi *)
| LevelMismatch                  (* Seviye uyumsuz *)
| OutOfSync                      (* Soru senkron degil *)
| NoBooksLeft                    (* Yetersiz kitap *)
| EmptyQuestions                 (* questions bos olamaz *)
| SurveyNotFound                 (* Anket bulunamadi *)
| EmptyQuestionText              (* Bos question var *)
| BadCorrectAnswer               (* correct_answer evet/hayir/bilmem olmali *)
| InternalError.                 (* the outer catch *)

(** The JSON body of a [success: true] reply, or the HTTP status and the
    error of a refusal. *)
Inductive Reply (A : Type) : Type :=
| Replied (a : A)
| Refused (status : Z) (e : Refusal).

#[global] Arguments Replied {A} a.
#[global] Arguments Refused {A} status e.

(** The [try { ... } catch (e) { res.status(500) ... }] around a route. *)
Definition route {A : Type} (p : Proc (Reply A)) : Proc (Reply A) :=
  catch p (Finish (Refused 500 InternalError)).

(** ** Day keys and streaks *)

(** [getDayKey()]: [to_char(timezone('Europe/Istanbul', now()),
    'YYYY-MM-DD')]; the day is non-empty text, so the fallback of the
    source is never taken. *)
Definition getDayKey : Proc Day :=
  sql (fun now s => (s, Some (now / seconds 86400))).

(** [streakBonus(s)] *)
Definition streakBonus (s : Z) : Z :=
  if 365 <=? s then 10
  else if 100 <=? s then 6
  else if 60 <=? s then 5
  else if 30 <=? s then 4
  else if 14 <=? s then 3
  else if 7 <=? s then 2
  else if 3 <=? s then 1
  else 0.

Definition is_user (userId : Z) (s : Ledger) : bool :=
  exists_row (fun u => ac_id u =? userId) (lg_users s).

Definition is_question (qid : Z) (s : Ledger) : bool :=
  exists_row (fun q => qr_id q =? qid) (lg_questions s).

Definition streak_of (userId : Z) (s : Ledger) : option StreakRow :=
  first_row (fun r => sk_user_id r =? userId) (lg_user_daily_streak s).

(** [next]: one more than the streak read when the day read is the day
    before [dayKey], 1 otherwise. *)
Definition next_streak (st : option StreakRow) (dayKey : Day) : Z :=
  match st with
  | Some r =>
      match sk_last_day_key r with
      | Some last => if dayKey - 1 =? last then sk_current_streak r + 1 else 1
      | None => 1
      end
  | None => 1
  end.

(** [Math.max(st?.best || 0, next)] *)
Definition longest_streak (st : option StreakRow) (next : Z) : Z :=
  Z.max (match st with Some r => sk_longest_streak r | None => 0 end) next.

(** [INSERT INTO user_daily_streak ... ON CONFLICT (user_id) DO UPDATE SET
    current_streak = EXCLUDED.current_streak, longest_streak =
    GREATEST(user_daily_streak.longest_streak, EXCLUDED.longest_streak),
    last_day_key = EXCLUDED.last_day_key]; without a row of the user's the
    insert needs the user to exist. *)
Definition upsert_streak (userId next longest : Z) (dayKey : Day) (s : Ledger)
  : Ledger * option unit :=
  if exists_row (fun r => sk_user_id r =? userId) (lg_user_daily_streak s) then
    (on_user_daily_streak
       (sql_update (fun r => sk_user_id r =? userId)
          (fun r => {| sk_user_id := sk_user_id r;
                       sk_current_streak := next;
                       sk_longest_streak := Z.max (sk_longest_streak r) longest;
                       sk_last_day_key := Some dayKey |})) s, Some tt)
  else if is_user userId s then
    (on_user_daily_streak
       (fun l => l ++ [{| sk_user_id := userId; sk_current_streak := next;
                          sk_longest_streak := longest;
                          sk_last_day_key := Some dayKey |}]) s, Some tt)
  else (s, None).

(** [upsertDailyStreakOnFinish(userId, dayKey)] *)
Definition upsertDailyStreakOnFinish (userId : Z) (dayKey : Day) : Proc unit :=
  let+ st := sql_read (streak_of userId) in
  if match st with
     | Some r => option_Z_eqb (sk_last_day_key r) dayKey
     | None => false
     end
  then Finish tt
  else
    let next := next_streak st dayKey in
    let longest := longest_streak st next in
    sql (fun _ => upsert_streak userId next longest dayKey).

(** ** Answers and totals *)

(** [maxSec]: the client's value brought into 1..120 when it is a finite
    number, 24 otherwise. *)
Definition quiz_max_seconds (mx : option Z) : Z :=
  match mx with
  | Some v => Z.max 1 (Z.min 120 v)
  | None => 24
  end.

(** [leftSec = Math.max(0, Math.min(leftSecRaw, maxSec))] *)
Definition quiz_left_seconds (lf mx : option Z) : Z :=
  Z.max 0 (Z.min (default 0 lf) (quiz_max_seconds mx)).

(** [q.correct_answer === norm ? 1 : 0], 0 without a row. *)
Definition quiz_is_correct (q : option QuestionRow) (norm : string) : Z :=
  match q with
  | Some q => if option_string_eqb (qr_correct_answer q) norm then 1 else 0
  | None => 0
  end.

(** [insertAnswer({...})]: the row goes in when its user and its question
    exist. *)
Definition insertAnswer (row : AnswerRow) : Proc unit :=
  sql (fun _ s =>
         if is_user (an_user_id row) s && is_question (an_question_id row) s
         then (on_answers (fun l => l ++ [row]) s, Some tt)
         else (s, None)).

Definition plain_answer (uid qid : Z) (norm : string) (is_correct maxSec leftSec : Z)
  : AnswerRow :=
  {| an_user_id := uid; an_question_id := qid; an_answer := Some norm;
     an_is_correct := Some is_correct;
     an_max_time_seconds := Some maxSec; an_time_left_seconds := Some leftSec;
     an_earned_seconds := Some leftSec;
     an_is_daily := false; an_daily_key := None;
     an_bonus_points := Some 0; an_streak_len_at_answer := None |}.

Definition daily_answer (uid qid : Z) (norm : string) (is_correct maxSec leftSec : Z)
  (dayKey : Day) (bonus : Z) (streak : option Z) : AnswerRow :=
  {| an_user_id := uid; an_question_id := qid; an_answer := Some norm;
     an_is_correct := Some is_correct;
     an_max_time_seconds := Some maxSec; an_time_left_seconds := Some leftSec;
     an_earned_seconds := Some leftSec;
     an_is_daily := true; an_daily_key := Some dayKey;
     an_bonus_points := Some bonus; an_streak_len_at_answer := streak |}.

(** [answers a INNER JOIN questions q ON a.question_id = q.id WHERE
    a.user_id = $1] *)
Definition answers_joined (uid : Z) (s : Ledger) : list (AnswerRow * QuestionRow) :=
  flat_map
    (fun a => map (fun q => (a, q))
                (List.filter (fun q => qr_id q =? an_question_id a) (lg_questions s)))
    (List.filter (fun a => an_user_id a =? uid) (lg_answers s)).

(** [r.point || 1] *)
Definition point_or_1 (q : QuestionRow) : Z :=
  match qr_point q with
  | Some p => if p =? 0 then 1 else p
  | None => 1
  end.

(** One turn of the [forEach] of the total-points route. *)
Definition add_points (total : Z) (r : AnswerRow * QuestionRow) : Z :=
  let '(a, q) := r in
  if option_string_eqb (an_answer a) bilmem then total
  else if option_Z_eqb (an_is_correct a) 1
       then total + (point_or_1 q + default 0 (an_bonus_points a))
       else total - point_or_1 q.

Record TotalPoints : Type := {
  tp_totalPoints : Z;
  tp_answeredCount : Z
}.

(** [GET /api/user/:userId/total-points] *)
Definition totalPoints (uid : Z) : Proc (Reply TotalPoints) :=
  route (
    let+ rows := sql_read (answers_joined uid) in
    Finish (Replied {| tp_totalPoints := fold_left add_points rows 0;
                       tp_answeredCount := Z.of_nat (length rows) |})).

(** The rows [answers a LEFT JOIN questions q ON a.question_id = q.id] has
    for one answer. *)
Definition left_join_question (a : AnswerRow) (s : Ledger) : list (option QuestionRow) :=
  match List.filter (fun q => qr_id q =? an_question_id a) (lg_questions s) with
  | [] => [None]
  | qs => map Some qs
  end.

(** The [CASE] of the leaderboard on one joined row, [None] for NULL. *)
Definition leaderboard_term (a : AnswerRow) (q : option QuestionRow) : option Z :=
  let point := match q with Some q => qr_point q | None => None end in
  if option_string_eqb (an_answer a) bilmem then Some 0
  else if option_Z_eqb (an_is_correct a) 1
       then option_map (fun p => p + default 0 (an_bonus_points a)) point
  else if option_Z_eqb (an_is_correct a) 0 then option_map Z.opp point
  else Some 0.

(** [COALESCE(SUM(CASE ...), 0)] over the group of user [uid]; a user
    without answers makes a group of one row of NULLs, whose term is 0. *)
Definition leaderboard_total (uid : Z) (s : Ledger) : Z :=
  match List.filter (fun a => an_user_id a =? uid) (lg_answers s) with
  | [] => 0
  | mine =>
      default 0
        (sql_sum (flat_map (fun a => map (leaderboard_term a) (left_join_question a s))
                    mine))
  end.

(** [GET /api/leaderboard] over all time: a group per user row, the groups
    with total 0 left out, [ORDER BY total_points DESC, u.id ASC]. *)
Definition leaderboard : Proc (Reply (list (Z * Z))) :=
  route (
    let+ rows := sql_read (fun s =>
                   order_by (fun x y => (snd y <? snd x) ||
                                        ((snd x =? snd y) && (fst x <=? fst y)))
                     (List.filter (fun r => negb (snd r =? 0))
                        (map (fun u => (ac_id u, leaderboard_total (ac_id u) s))
                           (lg_users s)))) in
    Finish (Replied rows)).

(** ** The ladder *)

Definition clamp (lo hi v : Z) : Z := Z.max lo (Z.min hi v).

(** [bumpLadderBest(userId, level)]: [safe = Math.max(0, Math.min(10,
    Number(level) || 0))], then [UPDATE users SET ladder_best_level =
    GREATEST(COALESCE(ladder_best_level,0), $2) WHERE id = $1]. *)
Definition raise_best (userId safe : Z) : Ledger -> Ledger :=
  on_users
    (sql_update (fun u => ac_id u =? userId)
       (fun u => {| ac_id := ac_id u; ac_books := ac_books u;
                    ac_ladder_best_level :=
                      Some (Z.max (default 0 (ac_ladder_best_level u)) safe) |})).

Definition bumpLadderBest (userId level : Z) : Proc unit :=
  sql_write (raise_best userId (clamp 0 10 level)).

Definition ladder_session_of (userId : Z) (s : Ledger) : option LadderSession :=
  first_row (fun r => ls_user_id r =? userId) (lg_ladder_sessions s).

(** [INSERT INTO ladder_sessions (user_id, current_level, attempts,
    correct) VALUES ($1,$2,0,0)]: [user_id] is the primary key and
    references [users]. *)
Definition insert_ladder_session (userId lvl : Z) (s : Ledger) : Ledger * option unit :=
  if is_user userId s &&
     negb (exists_row (fun r => ls_user_id r =? userId) (lg_ladder_sessions s))
  then (on_ladder_sessions
          (fun l => l ++ [{| ls_user_id := userId; ls_current_level := lvl;
                             ls_attempts := 0; ls_correct := 0 |}]) s, Some tt)
  else (s, None).

Definition reset_ladder_session (userId lvl : Z) : Ledger -> Ledger :=
  on_ladder_sessions
    (sql_update (fun r => ls_user_id r =? userId)
       (fun r => {| ls_user_id := ls_user_id r; ls_current_level := lvl;
                    ls_attempts := 0; ls_correct := 0 |})).

(** [Number(level) || 1] on a number *)
Definition or_1 (v : Z) : Z := if v =? 0 then 1 else v.

(** [ensureLadderSession(userId, level, forceReset)] *)
Definition ensureLadderSession (userId level : Z) (forceReset : bool)
  : Proc (option LadderSession) :=
  let lvl := clamp 1 10 (or_1 level) in
  let+ row := sql_read (ladder_session_of userId) in
  let+ _ := match row with
            | None => sql (fun _ => insert_ladder_session userId lvl)
            | Some r =>
                if forceReset || negb (ls_current_level r =? lvl)
                then sql_write (reset_ladder_session userId lvl)
                else Finish tt
            end in
  sql_read (ladder_session_of userId).

Record LadderAnswerRequest : Type := {
  la_user_id : Z;
  la_question_id : Z;
  la_answer : Js.value;
  la_time_left_seconds : option Z;
  la_max_time_seconds : option Z;
  la_reset : Js.value
}.

Record LadderAnswerBody : Type := {
  lb_is_correct : Z;
  lb_attempts : Z;
  lb_correct : Z;
  lb_level : Z
}.

(** [reset === true || reset === 1 || String(reset).trim() === "1"] *)
Definition force_reset (reset : Js.value) : bool :=
  match reset with
  | Js.Bool true => true
  | Js.Number 1 => true
  | _ => String.eqb (Js.trim (Js.String_ reset)) "1"
  end.

(** [UPDATE ladder_sessions SET attempts = attempts + $2, correct =
    correct + $3 WHERE user_id = $1] *)
Definition count_ladder_answer (userId incAttempt incCorrect : Z) : Ledger -> Ledger :=
  on_ladder_sessions
    (sql_update (fun r => ls_user_id r =? userId)
       (fun r => {| ls_user_id := ls_user_id r;
                    ls_current_level := ls_current_level r;
                    ls_attempts := ls_attempts r + incAttempt;
                    ls_correct := ls_correct r + incCorrect |})).

Definition question_of (qid : Z) (s : Ledger) : option QuestionRow :=
  first_row (fun q => qr_id q =? qid) (lg_questions s).

(** [POST /api/ladder/answer]; the success rate of the reply is the
    quotient of the two counters it carries. *)
Definition ladderAnswer (req : LadderAnswerRequest) : Proc (Reply LadderAnswerBody) :=
  let user_id := la_user_id req in
  let question_id := la_question_id req in
  route (
    if (user_id =? 0) || (question_id =? 0) then Finish (Refused 400 MissingFields) else
    let+ q := sql_read (question_of question_id) in
    match q with
    | None => Finish (Refused 404 QuestionNotFound)
    | Some q =>
    let level := clamp 1 10 (or_1 (default 0 (qr_point q))) in
    let+ _ := ensureLadderSession user_id level (force_reset (la_reset req)) in
    let+ qc := sql_read (question_of question_id) in
    let norm := normalizeAnswer (la_answer req) in
    let is_correct := quiz_is_correct qc norm in
    let maxSec := quiz_max_seconds (la_max_time_seconds req) in
    let leftSec := quiz_left_seconds (la_time_left_seconds req)
                     (la_max_time_seconds req) in
    let+ _ := insertAnswer (plain_answer user_id question_id norm is_correct
                              maxSec leftSec) in
    let incAttempt := if String.eqb norm bilmem then 0 else 1 in
    let incCorrect := if negb (String.eqb norm bilmem) && (is_correct =? 1)
                      then 1 else 0 in
    let+ _ := sql_write (count_ladder_answer user_id incAttempt incCorrect) in
    let+ sess := sql_read (ladder_session_of user_id) in
    Finish (Replied
              {| lb_is_correct := is_correct;
                 lb_attempts := match sess with Some r => ls_attempts r | None => 0 end;
                 lb_correct := match sess with Some r => ls_correct r | None => 0 end;
                 lb_level := level |})
    end).

(** [POST /api/ladder/start]; the reply carries the level and two zero
    counters.  [POST /api/ladder/session/start] does the same and replies
    with [success] alone. *)
Definition ladderStart (user_id level : Z) : Proc (Reply Z) :=
  let lvl := clamp 1 10 (or_1 level) in
  route (
    if user_id =? 0 then Finish (Refused 400 MissingUser) else
    let+ _ := ensureLadderSession user_id lvl true in
    let+ _ := catch (bumpLadderBest user_id lvl) (Finish tt) in
    Finish (Replied lvl)).

(** [POST /api/user/:userId/ladder-best-level]; the reply carries the
    level of the request, brought into 0..10. *)
Definition postLadderBestLevel (uid level : Z) : Proc (Reply Z) :=
  let lvl := clamp 0 10 level in
  route (
    let+ _ := sql_write (raise_best uid lvl) in
    Finish (Replied lvl)).

(** [GET /api/user/:userId/ladder-best-level] *)
Definition getLadderBestLevel (uid : Z) : Proc (Reply Z) :=
  route (
    let+ row := sql_read (fun s => first_row (fun u => ac_id u =? uid) (lg_users s)) in
    Finish (Replied (match row with
                     | Some u => default 0 (ac_ladder_best_level u)
                     | None => 0
                     end))).

Inductive LadderNext : Type :=
| no_session (next_point best_level : Z)
| stay (next_point best_level : Z)
| level_up (next_point best_level : Z)
| genius (best_level : Z).

(** The test [attempts >= LADDER_MIN_ATTEMPTS && success_rate >=
    LADDER_REQUIRED_RATE] on the two counters of a session is made on
    floating-point numbers read from the environment; it is a parameter of
    the route that makes it. *)
Context (can_level_up : Z -> Z -> bool).

Definition best_of (uid : Z) (s : Ledger) : Z :=
  match first_row (fun u => ac_id u =? uid) (lg_users s) with
  | Some u => default 0 (ac_ladder_best_level u)
  | None => 0
  end.

(** [GET /api/user/:userId/kademeli-next] *)
Definition kademeliNext (userId point : Z) : Proc (Reply LadderNext) :=
  route (
    if (point =? 0) || (point <? 1) || (10 <? point) then Finish (Refused 400 BadPoint) else
    let+ st := sql_read (ladder_session_of userId) in
    match st with
    | None =>
        let+ best := sql_read (best_of userId) in
        Finish (Replied (no_session point best))
    | Some st =>
        if negb (ls_current_level st =? point) then Finish (Refused 409 LevelMismatch) else
        if can_level_up (ls_attempts st) (ls_correct st) then
          let next := if 10 <=? point then 10 else point + 1 in
          let+ _ := catch (bumpLadderBest userId next) (Finish tt) in
          if 10 <=? point then Finish (Replied (genius next))
          else Finish (Replied (level_up (point + 1) next))
        else
          let+ best := sql_read (best_of userId) in
          Finish (Replied (stay point best))
    end).

(** ** Books *)

Record SpendBody : Type := {
  sp_remaining : Z;
  sp_correct_answer : option string
}.

Definition has_books (user_id : Z) (u : Account) : bool :=
  (ac_id u =? user_id) && (0 <? default 0 (ac_books u)).

Definition add_books (n : Z) (u : Account) : Account :=
  {| ac_id := ac_id u; ac_books := Some (default 0 (ac_books u) + n);
     ac_ladder_best_level := ac_ladder_best_level u |}.

(** [UPDATE users SET books = COALESCE(books,0) - 1 WHERE id=$1 AND
    COALESCE(books,0) > 0 RETURNING COALESCE(books,0)::int AS books] *)
Definition take_book (user_id : Z) (s : Ledger) : Ledger * option (option Z) :=
  (on_users (sql_update (has_books user_id) (add_books (-1))) s,
   Some (option_map (fun u => default 0 (ac_books u) - 1)
           (first_row (has_books user_id) (lg_users s)))).

(** [INSERT INTO book_spends (user_id, question_id, day_key, amount)
    VALUES ($1,$2,$3,1)] *)
Definition insert_book_spend (user_id question_id : Z) (dayKey : Day) (s : Ledger)
  : Ledger * option unit :=
  if is_user user_id s && is_question question_id s
  then (on_book_spends
          (fun l => l ++ [{| bs_user_id := user_id; bs_question_id := question_id;
                             bs_day_key := Some dayKey; bs_amount := Some 1 |}]) s,
        Some tt)
  else (s, None).

(** [POST /api/books/spend] *)
Definition spendBook (user_id question_id : Z) : Proc (Reply SpendBody) :=
  route (
    if (user_id =? 0) || (question_id =? 0) then Finish (Refused 400 MissingFields) else
    let+ q := sql_read (question_of question_id) in
    match q with
    | None => Finish (Refused 404 QuestionNotFound)
    | Some q =>
    let+ dec := sql (fun _ => take_book user_id) in
    match dec with
    | None => Finish (Refused 400 NoBooksLeft)
    | Some books =>
    let+ dayKey := getDayKey in
    let+ _ := sql (fun _ => insert_book_spend user_id question_id dayKey) in
    Finish (Replied {| sp_remaining := books;
                       sp_correct_answer := qr_correct_answer q |})
    end end).

(** [GET /api/user/:userId/books] *)
Definition getBooks (userId : Z) : Proc (Reply Z) :=
  route (
    let+ row := sql_read (fun s => first_row (fun u => ac_id u =? userId) (lg_users s)) in
    Finish (Replied (match row with
                     | Some u => default 0 (ac_books u)
                     | None => 0
                     end))).

(** ** Bulk authoring *)

(** A question of the request body; [nq_point] is [Number(q.point)],
    [None] for NaN. *)
Record NewQuestion : Type := {
  nq_question : Js.value;
  nq_point : option Z;
  nq_correct_answer : Js.value
}.

(** [(v || "").toString()] *)
Definition text_or_empty (v : Js.value) : string :=
  match v with
  | Js.Undefined | Js.Null | Js.Bool false | Js.Number 0 => ""
  | _ => Js.String_ v
  end.

(** [INSERT INTO questions (survey_id, question, correct_answer, point)
    VALUES ($1,$2,$3,$4)]: the survey has to exist; [qtype] takes its
    default. *)
Definition insert_question (surveyId : Z) (text ca : string) (point : Z) (s : Ledger)
  : Ledger * option unit :=
  if exists_row (fun sv => s_id sv =? surveyId) (lg_surveys s)
  then (on_seq_questions (fun n => n + 1)
          (on_questions
             (fun l => l ++ [{| qr_id := lg_seq_questions s;
                                qr_survey_id := Some surveyId;
                                qr_question := Some text;
                                qr_correct_answer := Some ca;
                                qr_point := Some point;
                                qr_qtype := Some 1 |}]) s), Some tt)
  else (s, None).

Definition bulk_text (q : NewQuestion) : string := Js.trim (text_or_empty (nq_question q)).

(** [point = Number(q.point) || 1; point = Math.min(10, Math.max(1, point))] *)
Definition bulk_point (q : NewQuestion) : Z :=
  Z.min 10 (Z.max 1 (or_1 (default 0 (nq_point q)))).

(** The [for] loop of the bulk route. *)
Fixpoint bulk_loop (surveyId : Z) (qs : list NewQuestion) : Proc (Reply unit) :=
  match qs with
  | [] => Finish (Replied tt)
  | q :: rest =>
      let text := bulk_text q in
      let ca := normalizeAnswer (nq_correct_answer q) in
      if String.eqb text "" then Finish (Refused 400 EmptyQuestionText) else
      if negb (Js.includes canonical ca) then Finish (Refused 400 BadCorrectAnswer) else
      let+ _ := sql (fun _ => insert_question surveyId text ca (bulk_point q)) in
      bulk_loop surveyId rest
  end.

(** [SELECT id FROM surveys WHERE id=$1 AND status!='deleted'] *)
Definition live_survey (surveyId : Z) (sv : Survey) : bool :=
  (s_id sv =? surveyId) &&
  match s_status sv with
  | Some st => negb (String.eqb st "deleted")
  | None => false
  end.

(** [POST /api/surveys/:surveyId/questions/bulk] *)
Definition bulkQuestions (surveyId : Z) (qs : list NewQuestion) : Proc (Reply unit) :=
  match qs with
  | [] => Finish (Refused 400 EmptyQuestions)
  | _ =>
      let+ sv := sql_read (fun s => first_row (live_survey surveyId) (lg_surveys s)) in
      match sv with
      | None => Finish (Refused 404 SurveyNotFound)
      | Some _ => route (bulk_loop surveyId qs)
      end
  end.

(** ** The daily contest *)

(** [DAILY_CONTEST_SIZE] and [DAILY_CONTEST_SECRET], and PostgreSQL's
    rendering of a day as ['YYYY-MM-DD']. *)
Context (daily_size : option string) (daily_secret : option string)
  (day_text : Day -> string).

(** [Math.max(1, parseInt(process.env.DAILY_CONTEST_SIZE || "128", 10))] *)
Definition DAILY_CONTEST_SIZE : option Z :=
  Js.Math_max (Some 1) (Js.parseInt (Js.env_or daily_size "128")).

(** [process.env.DAILY_CONTEST_SECRET || "felox-secret"] *)
Definition DAILY_CONTEST_SECRET : string := Js.env_or daily_secret "felox-secret".

Definition of_day (dayKey : Day) (r : DailyQuestion) : bool :=
  (dq_day_key r =? dayKey) || option_Z_eqb (dq_contest_date r) dayKey.

(** [SELECT question_id FROM daily_contest_questions WHERE (day_key = $1
    OR contest_date = $2::date) ORDER BY COALESCE(pos, seq + 1) ASC] *)
Definition daily_ids (dayKey : Day) (s : Ledger) : list Z :=
  map dq_question_id
    (order_by (fun x y => dq_pos x <=? dq_pos y)
       (List.filter (of_day dayKey) (lg_daily_contest_questions s))).

(** [questions q JOIN surveys s ON s.id = q.survey_id WHERE
    s.status='approved' AND COALESCE(q.qtype,1) = t], projected on [q.id]. *)
Definition approved_of_type (t : Z) (s : Ledger) : list Z :=
  flat_map
    (fun q =>
       map (fun _ => qr_id q)
         (List.filter
            (fun sv => option_Z_eqb (qr_survey_id q) (s_id sv) &&
                       option_string_eqb (s_status sv) "approved")
            (lg_surveys s)))
    (List.filter (fun q => default 1 (qr_qtype q) =? t) (lg_questions s)).

(** [md5($1 || '-' || $2 || '-' || q.id::text)] *)
Definition daily_seed (dayKey : Day) (qid : Z) : string :=
  md5 (DAILY_CONTEST_SECRET ++ "-" ++ day_text dayKey ++ "-" ++ Js.string_of_Z qid)%string.

Definition by_daily_seed (dayKey : Day) (ids : list Z) : list Z :=
  order_by (fun x y => String.leb (daily_seed dayKey x) (daily_seed dayKey y)) ids.

(** The questions of type 2 in the order of the day, cut at [size]. *)
Definition daily_preferred (dayKey : Day) (size : Z) (s : Ledger) : list Z :=
  firstn (Z.to_nat size) (by_daily_seed dayKey (approved_of_type 2 s)).

(** The questions of type 1 that are not among [preferred], in the order
    of the day, cut at [need]. *)
Definition daily_fillers (dayKey : Day) (need : Z) (preferred : list Z) (s : Ledger)
  : list Z :=
  firstn (Z.to_nat need)
    (by_daily_seed dayKey
       (List.filter (fun id => negb (existsb (Z.eqb id) preferred))
          (approved_of_type 1 s))).

(** [INSERT INTO daily_contest_questions ... SELECT $1, $2, $3, $4, $5
    WHERE NOT EXISTS (SELECT 1 FROM daily_contest_questions WHERE (day_key
    = $1 OR contest_date = $2::date) AND COALESCE(pos, seq + 1) = $3)],
    with [$3 = i + 1] and [$4 = i]. *)
Definition insert_daily_question (dayKey : Day) (i qid : Z) (s : Ledger) : Ledger :=
  if exists_row (fun r => of_day dayKey r && (dq_pos r =? i + 1))
       (lg_daily_contest_questions s)
  then s
  else on_daily_contest_questions
         (fun l => l ++ [{| dq_day_key := dayKey; dq_contest_date := Some dayKey;
                            dq_pos := i + 1; dq_seq := Some i;
                            dq_question_id := qid |}]) s.

(** The [for] loop over [ids], [i] being the index of the head. *)
Fixpoint insert_daily_loop (dayKey : Day) (i : Z) (ids : list Z) : Proc unit :=
  match ids with
  | [] => Finish tt
  | qid :: ids' =>
      let+ _ := sql_write (insert_daily_question dayKey i qid) in
      insert_daily_loop dayKey (i + 1) ids'
  end.

(** [getOrCreateDailySetIds(dayKey, size)]; a [size] that is NaN makes the
    first [LIMIT] throw. *)
Definition getOrCreateDailySetIds (dayKey : Day) (size : option Z) : Proc (list Z) :=
  let+ existing := sql_read (daily_ids dayKey) in
  match existing with
  | _ :: _ => Finish existing
  | [] =>
      match size with
      | None => Raise
      | Some size =>
          let+ preferred := sql_read (daily_preferred dayKey size) in
          let need := size - Z.of_nat (length preferred) in
          let+ fillers := (if 0 <? need
                           then sql_read (daily_fillers dayKey need preferred)
                           else Finish []) in
          let ids := firstn (Z.to_nat size) (preferred ++ fillers) in
          let+ _ := insert_daily_loop dayKey 0 ids in
          sql_read (daily_ids dayKey)
      end
  end.

Definition daily_session_of (userId : Z) (dayKey : Day) (s : Ledger)
  : option DailySession :=
  first_row (fun r => (dse_user_id r =? userId) && (dse_day_key r =? dayKey))
    (lg_daily_sessions s).

(** [INSERT INTO daily_sessions (user_id, day_key, current_index, finished)
    VALUES ($1,$2,0,false)]: the user has to exist, and [(user_id,
    day_key)] is unique. *)
Definition insert_daily_session (userId : Z) (dayKey : Day) (s : Ledger)
  : Ledger * option unit :=
  if is_user userId s &&
     negb (exists_row (fun r => (dse_user_id r =? userId) && (dse_day_key r =? dayKey))
             (lg_daily_sessions s))
  then (on_seq_daily_sessions (fun n => n + 1)
          (on_daily_sessions
             (fun l => l ++ [{| dse_id := lg_seq_daily_sessions s;
                                dse_user_id := userId; dse_day_key := dayKey;
                                dse_current_index := 0; dse_finished := false |}]) s),
        Some tt)
  else (s, None).

(** [getOrCreateDailySession(userId, dayKey)]; a caller that gets [null]
    throws on its first look at the session. *)
Definition getOrCreateDailySession (userId : Z) (dayKey : Day) : Proc DailySession :=
  let+ s := sql_read (daily_session_of userId dayKey) in
  match s with
  | Some s => Finish s
  | None =>
      let+ _ := sql (fun _ => insert_daily_session userId dayKey) in
      let+ s := sql_read (daily_session_of userId dayKey) in
      match s with
      | Some s => Finish s
      | None => Raise
      end
  end.

(** [ids[i]] *)
Definition js_index {A : Type} (l : list A) (i : Z) : option A :=
  if i <? 0 then None else nth_error l (Z.to_nat i).

(** [UPDATE daily_sessions SET current_index=$1, finished=$2 WHERE id=$3] *)
Definition move_daily_session (id nextIndex : Z) (isFinished : bool) : Ledger -> Ledger :=
  on_daily_sessions
    (sql_update (fun r => dse_id r =? id)
       (fun r => {| dse_id := dse_id r; dse_user_id := dse_user_id r;
                    dse_day_key := dse_day_key r;
                    dse_current_index := nextIndex;
                    dse_finished := isFinished |})).

(** [INSERT INTO daily_finisher_awards (user_id, day_key, amount) VALUES
    ($1, $2, 2) ON CONFLICT (user_id, day_key) DO NOTHING RETURNING 1 AS
    ok]; the result is [ins?.ok]. *)
Definition insert_finisher_award (userId : Z) (dayKey : Day) (s : Ledger)
  : Ledger * option bool :=
  if exists_row (fun r => (fa_user_id r =? userId) && (fa_day_key r =? dayKey))
       (lg_daily_finisher_awards s)
  then (s, Some false)
  else if is_user userId s
  then (on_daily_finisher_awards
          (fun l => l ++ [{| fa_user_id := userId; fa_day_key := dayKey;
                             fa_amount := 2 |}]) s, Some true)
  else (s, None).

(** What both daily routes do once the last question is behind: the
    finisher award, two books with it when it is new, and the streak. *)
Definition finish_day (userId : Z) (dayKey : Day) : Proc Z :=
  let+ ins := sql (fun _ => insert_finisher_award userId dayKey) in
  let+ awarded := (if ins
                   then let+ _ := sql_write
                                    (on_users (sql_update (fun u => ac_id u =? userId)
                                                 (add_books 2))) in
                        Finish 2
                   else Finish 0) in
  let+ _ := catch (upsertDailyStreakOnFinish userId dayKey) (Finish tt) in
  Finish awarded.

Record DailyRequest : Type := {
  dr_user_id : Z;
  dr_question_id : Z;
  dr_answer : Js.value;
  dr_time_left_seconds : option Z;
  dr_max_time_seconds : option Z
}.

(** The reply of the two daily routes: the day was over already, or the
    session has moved.  [is_correct] and [bonus_points] are absent from the
    reply of a skip. *)
Inductive DailyReply : Type :=
| day_done
| advanced_to (is_correct : option Z) (index : Z) (finished : bool)
    (awarded_books : Z) (bonus_points : option Z).

(** [POST /api/daily/answer] *)
Definition dailyAnswer (req : DailyRequest) : Proc (Reply DailyReply) :=
  let user_id := dr_user_id req in
  let question_id := dr_question_id req in
  route (
    if (user_id =? 0) || (question_id =? 0) then Finish (Refused 400 MissingFields) else
    let+ dayKey := getDayKey in
    let+ session := getOrCreateDailySession user_id dayKey in
    let+ ids := getOrCreateDailySetIds dayKey DAILY_CONTEST_SIZE in
    if dse_finished session || (Z.of_nat (length ids) <=? dse_current_index session)
    then
      let+ _ := catch (upsertDailyStreakOnFinish user_id dayKey) (Finish tt) in
      Finish (Replied day_done)
    else
    match js_index ids (dse_current_index session) with
    | None => Finish (Refused 409 OutOfSync)
    | Some expectedId =>
    if (expectedId =? 0) || negb (expectedId =? question_id)
    then Finish (Refused 409 OutOfSync) else
    let+ q := sql_read (question_of question_id) in
    match q with
    | None => Finish (Refused 400 QuestionNotFound)
    | Some q =>
    let norm := normalizeAnswer (dr_answer req) in
    let is_correct := quiz_is_correct (Some q) norm in
    let maxSec := quiz_max_seconds (dr_max_time_seconds req) in
    let leftSec := quiz_left_seconds (dr_time_left_seconds req)
                     (dr_max_time_seconds req) in
    let+ st := sql_read (streak_of user_id) in
    let curStreak := match st with Some r => sk_current_streak r | None => 0 end in
    let bonusPoints := if is_correct =? 1 then streakBonus curStreak else 0 in
    let+ _ := insertAnswer (daily_answer user_id question_id norm is_correct
                              maxSec leftSec dayKey bonusPoints (Some curStreak)) in
    let nextIndex := dse_current_index session + 1 in
    let isFinished := Z.of_nat (length ids) <=? nextIndex in
    let+ _ := sql_write (move_daily_session (dse_id session) nextIndex isFinished) in
    let+ awarded := (if isFinished then finish_day user_id dayKey else Finish 0) in
    Finish (Replied (advanced_to (Some is_correct) nextIndex isFinished awarded
                       (Some bonusPoints)))
    end end).

(** [POST /api/daily/skip] *)
Definition dailySkip (req : DailyRequest) : Proc (Reply DailyReply) :=
  let user_id := dr_user_id req in
  let question_id := dr_question_id req in
  route (
    if (user_id =? 0) || (question_id =? 0) then Finish (Refused 400 MissingFields) else
    let+ dayKey := getDayKey in
    let+ session := getOrCreateDailySession user_id dayKey in
    let+ ids := getOrCreateDailySetIds dayKey DAILY_CONTEST_SIZE in
    if dse_finished session || (Z.of_nat (length ids) <=? dse_current_index session)
    then
      let+ _ := catch (upsertDailyStreakOnFinish user_id dayKey) (Finish tt) in
      Finish (Replied day_done)
    else
    match js_index ids (dse_current_index session) with
    | None => Finish (Refused 409 OutOfSync)
    | Some expectedId =>
    if (expectedId =? 0) || negb (expectedId =? question_id)
    then Finish (Refused 409 OutOfSync) else
    let maxSec := quiz_max_seconds (dr_max_time_seconds req) in
    let leftSec := quiz_left_seconds (dr_time_left_seconds req)
                     (dr_max_time_seconds req) in
    let+ _ := insertAnswer (daily_answer user_id question_id bilmem 0
                              maxSec leftSec dayKey 0 None) in
    let nextIndex := dse_current_index session + 1 in
    let isFinished := Z.of_nat (length ids) <=? nextIndex in
    let+ _ := sql_write (move_daily_session (dse_id session) nextIndex isFinished) in
    let+ awarded := (if isFinished then finish_day user_id dayKey else Finish 0) in
    Finish (Replied (advanced_to None nextIndex isFinished awarded None))
    end).

(** ** The quiz routes as a transition system *)

(** What can arrive on the routes above. *)
Inductive QuizRequest : Type :=
| GET_total_points (uid : Z)
| GET_leaderboard
| POST_ladder_answer (req : LadderAnswerRequest)
| POST_ladder_start (user_id level : Z)
| POST_ladder_session_start (user_id level : Z)
| POST_ladder_best_level (uid level : Z)
| GET_ladder_best_level (uid : Z)
| GET_kademeli_next (userId point : Z)
| POST_books_spend (user_id question_id : Z)
| GET_books (userId : Z)
| POST_questions_bulk (surveyId : Z) (qs : list NewQuestion)
| POST_daily_answer (req : DailyRequest)
| POST_daily_skip (req : DailyRequest).

Definition pforget {A : Type} (p : Proc A) : Proc unit :=
  let+ _ := p in Finish tt.

Definition proc_of (r : QuizRequest) : Proc unit :=
  match r with
  | GET_total_points uid => pforget (totalPoints uid)
  | GET_leaderboard => pforget leaderboard
  | POST_ladder_answer req => pforget (ladderAnswer req)
  | POST_ladder_start user_id level => pforget (ladderStart user_id level)
  | POST_ladder_session_start user_id level => pforget (ladderStart user_id level)
  | POST_ladder_best_level uid level => pforget (postLadderBestLevel uid level)
  | GET_ladder_best_level uid => pforget (getLadderBestLevel uid)
  | GET_kademeli_next userId point => pforget (kademeliNext userId point)
  | POST_books_spend user_id question_id => pforget (spendBook user_id question_id)
  | GET_books userId => pforget (getBooks userId)
  | POST_questions_bulk surveyId qs => pforget (bulkQuestions surveyId qs)
  | POST_daily_answer req => pforget (dailyAnswer req)
  | POST_daily_skip req => pforget (dailySkip req)
  end.

(** The ledger together with the procedures in flight. *)
Record Desk : Type := {
  ledger : Ledger;
  at_work : list (Proc unit)
}.

(** One move: a request arrives and its procedure starts; one procedure in
    flight gets its next statement executed, at whatever the clock shows;
    or a procedure that is through leaves. *)
Inductive desk_step : Desk -> Desk -> Prop :=
| desk_arrive (d : Desk) (r : QuizRequest) :
    desk_step d {| ledger := ledger d; at_work := at_work d ++ [proc_of r] |}
| desk_statement (d : Desk) (before after : list (Proc unit))
    (X : Type) (st : Timestamp -> Ledger -> Ledger * option X)
    (k : option X -> Proc unit) (now : Timestamp) (s' : Ledger) (o : option X) :
    at_work d = before ++ Stmt st k :: after ->
    st now (ledger d) = (s', o) ->
    desk_step d {| ledger := s'; at_work := before ++ k o :: after |}
| desk_done (d : Desk) (before after : list (Proc unit)) (p : Proc unit) :
    at_work d = before ++ p :: after ->
    (p = Raise \/ exists u, p = Finish u) ->
    desk_step d {| ledger := ledger d; at_work := before ++ after |}.

Inductive desk_reachable (d0 : Desk) : Desk -> Prop :=
| desk_reach_refl : desk_reachable d0 d0
| desk_reach_step (d d' : Desk) :
    desk_reachable d0 d -> desk_step d d' -> desk_reachable d0 d'.

(** Every statement a procedure can come to await takes a ledger to one
    that [R] relates to it. *)
Inductive Abides (R : Ledger -> Ledger -> Prop) {A : Type} : Proc A -> Prop :=
| abides_finish (a : A) : Abides R (Finish a)
| abides_raise : Abides R Raise
| abides_stmt (X : Type) (st : Timestamp -> Ledger -> Ledger * option X)
    (k : option X -> Proc A) :
    (forall now s, R s (fst (st now s))) ->
    (forall o, Abides R (k o)) ->
    Abides R (Stmt st k).

(** What a relation on ledgers has to grant, write by write, for the quiz
    routes to abide by it.  The writes are granted with the values the
    routes give them: a streak with the longest streak computed from it,
    levels brought into their range, counters that move by 0 or 1, the
    correct ones only with the attempts. *)
Record LedgerGrants (R : Ledger -> Ledger -> Prop) : Prop := {
  lg_refl : forall s, R s s;
  lg_trans : forall s1 s2 s3, R s1 s2 -> R s2 s3 -> R s1 s3;
  lg_streak : forall userId st dayKey s,
    R s (fst (upsert_streak userId (next_streak st dayKey)
                (longest_streak st (next_streak st dayKey)) dayKey s));
  lg_answer : forall row s, R s (on_answers (fun l => l ++ [row]) s);
  lg_best : forall userId v s, R s (raise_best userId (clamp 0 10 v) s);
  lg_ladder_insert : forall userId v s,
    R s (fst (insert_ladder_session userId (clamp 1 10 v) s));
  lg_ladder_reset : forall userId v s,
    R s (reset_ladder_session userId (clamp 1 10 v) s);
  lg_ladder_count : forall userId a c s,
    0 <= c <= a -> R s (count_ladder_answer userId a c s);
  lg_take_book : forall userId s, R s (fst (take_book userId s));
  lg_book_spend : forall userId qid dayKey s,
    R s (fst (insert_book_spend userId qid dayKey s));
  lg_question : forall surveyId text ca q s,
    text <> "" -> In ca canonical ->
    R s (fst (insert_question surveyId text ca (bulk_point q) s));
  lg_daily_question : forall dayKey i qid s, R s (insert_daily_question dayKey i qid s);
  lg_daily_session : forall userId dayKey s,
    R s (fst (insert_daily_session userId dayKey s));
  lg_daily_move : forall id idx fin s, R s (move_daily_session id idx fin s);
  lg_award : forall userId dayKey s, R s (fst (insert_finisher_award userId dayKey s));
  lg_two_books : forall userId s,
    R s (on_users (sql_update (fun u => ac_id u =? userId) (add_books 2)) s)
}.

(** ** Vocabulary of the properties of the ledger *)

(** [COALESCE(books,0)] and [COALESCE(ladder_best_level,0)] *)
Definition books (u : Account) : Z := default 0 (ac_books u).
Definition best_level (u : Account) : Z := default 0 (ac_ladder_best_level u).

(** No user is short of books. *)
Definition books_nonneg (s : Ledger) : Prop :=
  Forall (fun u => 0 <= books u) (lg_users s).

(** In every ladder session the level is one of 1..10, and the correct
    answers counted are among the attempts counted. *)
Definition ladder_sound (s : Ledger) : Prop :=
  Forall (fun r => 1 <= ls_current_level r <= 10 /\
                   0 <= ls_correct r <= ls_attempts r)
    (lg_ladder_sessions s).

(** The users of [s] are the users of [s'], in place; the best level of
    none is lower in [s'], and none has come above 10. *)
Definition best_kept (s s' : Ledger) : Prop :=
  Forall2 (fun u u' => ac_id u' = ac_id u /\
                       best_level u <= best_level u' /\
                       (best_level u <= 10 -> best_level u' <= 10))
    (lg_users s) (lg_users s').


(** The desk with nothing in flight. *)
Definition idle_desk (s : Ledger) : Desk := {| ledger := s; at_work := [] |}.

(** The streak, the longest streak and the last day on record for a user:
    what the first statement of [upsertDailyStreakOnFinish] reads. *)
Definition streak_cur (userId : Z) (s : Ledger) : Z :=
  match streak_of userId s with Some r => sk_current_streak r | None => 0 end.

Definition streak_best (userId : Z) (s : Ledger) : Z :=
  match streak_of userId s with Some r => sk_longest_streak r | None => 0 end.

Definition streak_last (userId : Z) (s : Ledger) : option Day :=
  match streak_of userId s with Some r => sk_last_day_key r | None => None end.

(** The session a ladder answer on a question of [level] is counted on:
    the one on record when it is at that level and no reset is asked for,
    a session at that level with both counters at 0 otherwise. *)
Definition ladder_base (userId level : Z) (forceReset : bool) (s : Ledger)
  : LadderSession :=
  match ladder_session_of userId s with
  | Some r =>
      if forceReset || negb (ls_current_level r =? level)
      then {| ls_user_id := ls_user_id r; ls_current_level := level;
              ls_attempts := 0; ls_correct := 0 |}
      else r
  | None => {| ls_user_id := userId; ls_current_level := level;
               ls_attempts := 0; ls_correct := 0 |}
  end.

(** The row of a user. *)
Definition account_of (userId : Z) (s : Ledger) : option Account :=
  first_row (fun u => ac_id u =? userId) (lg_users s).

(** [users.id] is the primary key. *)
Definition users_keyed (s : Ledger) : Prop := List.NoDup (map ac_id (lg_users s)).

(** The question has a point value other than 0. *)
Definition has_point (q : QuestionRow) : bool :=
  match qr_point q with
  | Some p => negb (p =? 0)
  | None => false
  end.

(** Every answer of the user is ['bilmem'], or is marked 1 or 0 and
    belongs to a question with a point value other than 0. *)
Definition plainly_scored (uid : Z) (s : Ledger) : bool :=
  forallb
    (fun a =>
       negb (an_user_id a =? uid) ||
       option_string_eqb (an_answer a) bilmem ||
       ((option_Z_eqb (an_is_correct a) 1 || option_Z_eqb (an_is_correct a) 0) &&
        forallb (fun q => negb (qr_id q =? an_question_id a) || has_point q)
          (lg_questions s)))
    (lg_answers s).

(** What one joined row adds to the total of the profile route. *)
Definition points_of (r : AnswerRow * QuestionRow) : Z := add_points 0 r.

Definition total_of (l : list Z) : Z := fold_right Z.add 0 l.

(** What the bulk route asks of a question: a text that is not empty once
    trimmed, and a canonical answer. *)
Definition bulk_valid (q : NewQuestion) : bool :=
  negb (String.eqb (bulk_text q) "") &&
  Js.includes canonical (normalizeAnswer (nq_correct_answer q)).

(** The row the bulk route stores for a question, and the rows it stores
    for a list of them, numbered from [id]. *)
Definition bulk_row (surveyId id : Z) (q : NewQuestion) : QuestionRow :=
  {| qr_id := id; qr_survey_id := Some surveyId;
     qr_question := Some (bulk_text q);
     qr_correct_answer := Some (normalizeAnswer (nq_correct_answer q));
     qr_point := Some (bulk_point q);
     qr_qtype := Some 1 |}.

Fixpoint bulk_rows (surveyId id : Z) (qs : list NewQuestion) : list QuestionRow :=
  match qs with
  | [] => []
  | q :: rest => bulk_row surveyId id q :: bulk_rows surveyId (id + 1) rest
  end.

(** A stored question with a text, a canonical answer and a point value
    from 1 to 10. *)
Definition well_formed_question (row : QuestionRow) : Prop :=
  (exists text, qr_question row = Some text /\ text <> "") /\
  (exists ca, qr_correct_answer row = Some ca /\ In ca canonical) /\
  (exists p, qr_point row = Some p /\ 1 <= p <= 10).

(** The rows the insert loop writes for [ids] from index [i] on. *)
Fixpoint daily_numbered (dayKey : Day) (i : Z) (ids : list Z) : list DailyQuestion :=
  match ids with
  | [] => []
  | qid :: ids' =>
      {| dq_day_key := dayKey; dq_contest_date := Some dayKey; dq_pos := i + 1;
         dq_seq := Some i; dq_question_id := qid |} :: daily_numbered dayKey (i + 1) ids'
  end.

(** The questions a day without a set gets: the preferred ones, filled up
    to [size] with the others. *)
Definition daily_pick (dayKey : Day) (size : Z) (s : Ledger) : list Z :=
  let preferred := daily_preferred dayKey size s in
  let need := size - Z.of_nat (length preferred) in
  let fillers := if 0 <? need then daily_fillers dayKey need preferred s else [] in
  firstn (Z.to_nat size) (preferred ++ fillers).

(** The award of a user for a day. *)
Definition awarded_on (userId : Z) (dayKey : Day) (s : Ledger) : bool :=
  exists_row (fun r => (fa_user_id r =? userId) && (fa_day_key r =? dayKey))
    (lg_daily_finisher_awards s).

(** The session moved to [idx]. *)
Definition session_at (session : DailySession) (idx : Z) (fin : bool) : DailySession :=
  {| dse_id := dse_id session; dse_user_id := dse_user_id session;
     dse_day_key := dse_day_key session;
     dse_current_index := idx; dse_finished := fin |}.

(** * Properties *)

(** ** Running handlers *)

Lemma run_bind {A B : Type} (now : Timestamp) (h : Handler A) (f : A -> Handler B)
  (s : Store) :
  run now (bind h f) s = let '(s1, a) := run now h s in run now (f a) s1.
Proof.
  revert s. induction h as [a | X stmt k IH]; intros s; cbn.
  - reflexivity.
  - destruct (stmt now s) as [s1 x]. apply IH.
Qed.

(** ** Answer normalisation *)

Lemma includes_In (xs : list string) (s : string) :
  Js.includes xs s = true <-> In s xs.
Proof.
  unfold Js.includes. rewrite existsb_exists. split.
  - intros [x [Hx E]]. apply String.eqb_eq in E. now subst.
  - intros H. exists s. split; [assumption | apply String.eqb_refl].
Qed.

Lemma normalizeAnswer_known (v : Js.value) (s : string) :
  answer_text v = Some s -> Js.includes known_spellings s = true ->
  In (normalizeAnswer v) canonical.
Proof.
  intros Ht Hk.
  assert (E : normalizeAnswer v =
              let s := if String.eqb s "hayir" then hayir else s in
              if Js.includes canonical s then s
              else if Js.includes ["yes"; "true"; "1"] s then evet
              else if Js.includes ["no"; "false"; "0"] s then hayir
              else if Js.includes
                        ["dontknow"; "unknown"; "idk"; "skip"; "empty"; "null"] s
                   then bilmem
              else s).
  { destruct v; try discriminate Ht; injection Ht as <-; reflexivity. }
  rewrite E. clear E Ht v.
  unfold Js.includes, known_spellings in Hk. cbn [existsb] in Hk.
  repeat rewrite orb_true_iff in Hk.
  repeat (destruct Hk as [Hk | Hk];
          [apply String.eqb_eq in Hk; subst s; vm_compute; tauto |]).
  discriminate Hk.
Qed.

Lemma normalizeAnswer_unknown (v : Js.value) (s : string) :
  answer_text v = Some s -> Js.includes known_spellings s = false ->
  normalizeAnswer v = s.
Proof.
  intros Ht Hk.
  unfold Js.includes, known_spellings in Hk. cbn [existsb] in Hk.
  repeat rewrite orb_false_iff in Hk. decompose record Hk.
  assert (E : normalizeAnswer v =
              let s := if String.eqb s "hayir" then hayir else s in
              if Js.includes canonical s then s
              else if Js.includes ["yes"; "true"; "1"] s then evet
              else if Js.includes ["no"; "false"; "0"] s then hayir
              else if Js.includes
                        ["dontknow"; "unknown"; "idk"; "skip"; "empty"; "null"] s
                   then bilmem
              else s).
  { destruct v; try discriminate Ht; injection Ht as <-; reflexivity. }
  rewrite E.
  unfold Js.includes, canonical, evet, hayir, bilmem. cbn [existsb].
  repeat match goal with
         | E' : String.eqb s _ = false |- _ => rewrite E'; clear E'
         end.
  reflexivity.
Qed.

Lemma normalizeAnswer_null (v : Js.value) :
  answer_text v = None -> normalizeAnswer v = "".
Proof. destruct v; intros H; try discriminate H; reflexivity. Qed.

(** ** Small facts on rows *)

Lemma exists_row_existsb {A : Type} (p : A -> bool) (l : list A) :
  exists_row p l = existsb p l.
Proof.
  unfold exists_row, first_row.
  induction l as [| x l IH]; cbn; [reflexivity |].
  destruct (p x); cbn; [reflexivity | exact IH].
Qed.

Lemma first_row_Some {A : Type} (p : A -> bool) (l : list A) (x : A) :
  first_row p l = Some x -> In x l /\ p x = true.
Proof.
  unfold first_row. intros H.
  assert (Hin : In x (List.filter p l)).
  { destruct (List.filter p l); [discriminate H |].
    injection H as ->. now left. }
  now apply filter_In in Hin.
Qed.

Lemma filter_nil_existsb {A : Type} (p q : A -> bool) (l : list A) :
  (forall x, q x = true -> p x = true) ->
  List.filter p l = [] -> existsb q l = false.
Proof.
  intros Hpq. induction l as [| x l IH]; cbn; [reflexivity |].
  destruct (p x) eqn:Ep; [discriminate |].
  intros H. rewrite (IH H), orb_false_r.
  destruct (q x) eqn:Eq; [| reflexivity].
  apply Hpq in Eq. congruence.
Qed.

Lemma answer_key_answers_of (matchId qid uid : Z) (a : Answer) :
  answer_key matchId qid uid a = true ->
  ((a_match_id a =? matchId) && (a_question_id a =? qid)) = true.
Proof. unfold answer_key. now rewrite andb_true_iff. Qed.

(** ** Answer Processor *)

(** Unfolds the handler combinators met while a handler is run. *)
Ltac hstep :=
  cbn [run bind query exec emit duelloGetMatch duelloGetQuestionIdByPos
       duelloGetAnswers hasActiveMatch hasFreshPendingInvite expireOldInvites
       finish_over_complete emit_finished fst snd negb].

Ltac hstep_in H :=
  cbn [run bind query exec emit duelloGetMatch duelloGetQuestionIdByPos
       duelloGetAnswers hasActiveMatch hasFreshPendingInvite expireOldInvites
       finish_over_complete emit_finished fst snd negb] in H.

(** Reads a table off a store built with the [with_] updates. *)
Ltac store_simpl :=
  cbn [users surveys questions duello_matches duello_invites
       duello_match_questions duello_answers seq_matches seq_invites seq_answers
       sseClients wire with_matches with_invites with_match_questions
       with_answers with_seqs with_sse touched keep put].

Ltac store_simpl_in H :=
  cbn [users surveys questions duello_matches duello_invites
       duello_match_questions duello_answers seq_matches seq_invites seq_answers
       sseClients wire with_matches with_invites with_match_questions
       with_answers with_seqs with_sse touched keep put] in H.

Lemma neq_eqb_false (a b : Z) : a <> b -> (a =? b) = false.
Proof. apply Z.eqb_neq. Qed.

(** The prefix every recording path of the answer handler shares. *)
Lemma submitAnswer_reaches (now : Timestamp) (req : AnswerRequest) (s : Store)
  (m : Match) (qid : Z) (norm : string) :
  answer_reaches req s m qid norm ->
  let matchId := aq_match_id req in
  let userId := aq_user_id req in
  let s1 := touched now matchId userId s in
  run now (submitAnswer req) s =
    if exists_row (answer_key matchId qid userId) (duello_answers s)
    then (s1, Fail AlreadyAnswered)
    else
      let isCorrect :=
        answer_is_correct (first_row (fun q => q_id q =? qid) (questions s)) norm in
      let maxSec := answer_max_seconds req in
      let leftSec := answer_left_seconds req in
      match m_mode m with
      | speed =>
          run now (record_speed m matchId qid userId norm isCorrect maxSec leftSec) s1
      | info =>
          run now (record_info matchId qid userId norm isCorrect maxSec leftSec) s1
      end.
Proof.
  intros (Hm & Hu & Hrow & Hst & Hin & Hq & Hn) matchId userId s1.
  assert (Hid : m_id m = matchId).
  { apply first_row_Some in Hrow. destruct Hrow as [_ E]. now apply Z.eqb_eq in E. }
  subst matchId userId. unfold submitAnswer.
  rewrite (neq_eqb_false _ _ Hm), (neq_eqb_false _ _ Hu). cbn [orb].
  hstep. rewrite Hrow, Hst, Hin. cbn [MatchState_eqb negb].
  hstep. fold (touched now (aq_match_id req) (aq_user_id req) s). fold s1.
  change (question_id_at (m_id m) (m_current_index m + 1) s1)
    with (question_id_at (m_id m) (m_current_index m + 1) s).
  rewrite Hq, Hn.
  hstep.
  change (duello_answers s1) with (duello_answers s).
  destruct (exists_row (answer_key _ qid _) (duello_answers s));
    [reflexivity |].
  hstep.
  change (questions s1) with (questions s).
  destruct (m_mode m); reflexivity.
Qed.

Lemma opponentId_other (m : Match) (uid : Z) :
  inThisMatch m uid = true -> m_user_a_id m <> m_user_b_id m ->
  opponentId m uid <> uid /\ inThisMatch m (opponentId m uid) = true.
Proof.
  unfold inThisMatch, opponentId. intros Hin Hab.
  destruct (Z.eqb_spec (m_user_a_id m) uid) as [Ea | Ea].
  - split; [congruence |]. rewrite Z.eqb_refl. apply orb_true_r.
  - split; [assumption |]. rewrite Z.eqb_refl. reflexivity.
Qed.

Lemma filter_answer_key_nil (matchId qid uid : Z) (l : list Answer) :
  List.filter (fun a => (a_match_id a =? matchId) && (a_question_id a =? qid)) l = [] ->
  List.filter (answer_key matchId qid uid) l = [].
Proof.
  induction l as [| a l IH]; cbn; [reflexivity |].
  unfold answer_key at 1.
  destruct ((a_match_id a =? matchId) && (a_question_id a =? qid)); [discriminate |].
  cbn [andb]. exact IH.
Qed.

Lemma answers_of_nil_no_key (matchId qid uid : Z) (s : Store) :
  answers_of matchId qid s = [] ->
  exists_row (answer_key matchId qid uid) (duello_answers s) = false.
Proof.
  intros H. rewrite exists_row_existsb.
  apply (filter_nil_existsb _ _ _ (answer_key_answers_of matchId qid uid) H).
Qed.

Lemma answer_key_make (id matchId qid uid uid' : Z) ans c now mx lf :
  answer_key matchId qid uid' (make_answer id matchId qid uid ans c now mx lf)
  = (uid =? uid').
Proof. unfold answer_key. cbn. now rewrite !Z.eqb_refl. Qed.


(** ** Progression Controller *)

Lemma sseEmit_tables (uid : Z) (ev : SseEvent) (s : Store) :
  duello_matches (sseEmit uid ev s) = duello_matches s /\
  duello_invites (sseEmit uid ev s) = duello_invites s /\
  duello_answers (sseEmit uid ev s) = duello_answers s /\
  duello_match_questions (sseEmit uid ev s) = duello_match_questions s /\
  sseClients (sseEmit uid ev s) = sseClients s.
Proof.
  unfold sseEmit. destruct (sseClients s !! uid) as [[| c l] |]; repeat split.
Qed.

Lemma sseEmit_matches (uid : Z) (ev : SseEvent) (s : Store) :
  duello_matches (sseEmit uid ev s) = duello_matches s.
Proof. apply sseEmit_tables. Qed.

Lemma sseEmit_answers (uid : Z) (ev : SseEvent) (s : Store) :
  duello_answers (sseEmit uid ev s) = duello_answers s.
Proof. apply sseEmit_tables. Qed.

Lemma sseEmit_invites (uid : Z) (ev : SseEvent) (s : Store) :
  duello_invites (sseEmit uid ev s) = duello_invites s.
Proof. apply sseEmit_tables. Qed.

(** [reveal] on a match that is no longer active. *)
Lemma reveal_settled (now : Timestamp) (matchId userId : Z) (s : Store) (m : Match) :
  matchId <> 0 -> userId <> 0 ->
  first_row (fun r => m_id r =? matchId) (duello_matches s) = Some m ->
  m_state m <> active ->
  run now (reveal matchId userId) s =
    (sseEmit (m_user_b_id m) (match_finished (m_id m))
       (sseEmit (m_user_a_id m) (match_finished (m_id m)) s),
     Ok {| rv_finished := true; rv_current_index := m_current_index m |}).
Proof.
  intros Hm Hu Hrow Hst. unfold reveal.
  rewrite (neq_eqb_false _ _ Hm), (neq_eqb_false _ _ Hu). cbn [orb].
  hstep. rewrite Hrow.
  destruct (m_state m); [contradiction | reflexivity | reflexivity].
Qed.





Lemma reveal_reaches_run (now : Timestamp) (matchId userId : Z) (s : Store)
  (m : Match) (qid : Z) :
  reveal_reaches matchId userId s m qid ->
  run now (reveal matchId userId) s =
  run now (let* filled := fill_missing m matchId qid in
           if negb filled then Return (Fail ServerError) else advance m matchId qid)
    (touched now matchId userId s).
Proof.
  intros (Hm & Hu & Hrow & Hst & Hin & Hpos & Hq). unfold reveal.
  rewrite (neq_eqb_false _ _ Hm), (neq_eqb_false _ _ Hu). cbn [orb].
  hstep. rewrite Hrow, Hst, Hin. cbn [MatchState_eqb negb]. hstep.
  fold (touched now matchId userId s).
  destruct (Z.ltb_spec (m_total_questions m) (m_current_index m + 1)); [lia |].
  hstep.
  change (question_id_at matchId (m_current_index m + 1) (touched now matchId userId s))
    with (question_id_at matchId (m_current_index m + 1) s).
  rewrite Hq. reflexivity.
Qed.


Lemma first_row_sql_update {A : Type} (p : A -> bool) (f : A -> A) (l : list A) :
  (forall x, p (f x) = p x) ->
  first_row p (sql_update p f l) = option_map f (first_row p l).
Proof.
  intros Hpf. unfold first_row, sql_update.
  induction l as [| x l IH]; cbn; [reflexivity |].
  destruct (p x) eqn:Ex.
  - rewrite Hpf, Ex. reflexivity.
  - rewrite Ex. exact IH.
Qed.

Lemma progress_touched (now : Timestamp) (matchId uid : Z) (s : Store) :
  progress (touched now matchId uid s) = progress s.
Proof.
  unfold progress, touched. store_simpl. unfold sql_update.
  rewrite map_map. apply map_ext. intros m.
  destruct (m_id m =? matchId); reflexivity.
Qed.





(** ** Invite Manager *)

Lemma run_findUserByIdOrCode (now : Timestamp) (req : InviteRequest) (s : Store) :
  run now (findUserByIdOrCode (rq_to_user_id req) (rq_to_user_code req)) s
  = (s, resolve_target req s).
Proof.
  unfold findUserByIdOrCode, resolve_target.
  destruct (negb (rq_to_user_id req =? 0)); [reflexivity |].
  destruct (rq_to_user_code req) as [[| c cs] |]; reflexivity.
Qed.

Lemma existsb_sql_update {A : Type} (p c : A -> bool) (f : A -> A) (l : list A) :
  existsb p (sql_update c f l) = existsb (fun x => p (if c x then f x else x)) l.
Proof.
  unfold sql_update. induction l as [| x l IH]; cbn; [reflexivity |].
  now rewrite IH.
Qed.

Lemma existsb_ext {A : Type} (p q : A -> bool) (l : list A) :
  (forall x, p x = q x) -> existsb p l = existsb q l.
Proof. intros H. induction l; cbn; [reflexivity | now rewrite H, IHl]. Qed.

Lemma active_after_finish (now : Timestamp) (uid : Z) (m : Match) :
  active_for uid (if over_complete m then match_finish now m else m)
  = active_for uid m && negb (over_complete m).
Proof.
  destruct (over_complete m) eqn:E; cbn [negb].
  - cbn. now rewrite andb_false_r.
  - now rewrite andb_true_r.
Qed.

Lemma holds_active_refreshed (now : Timestamp) (uid : Z) (s : Store) :
  exists_row (active_for uid) (duello_matches (refreshed now s)) = busy uid s.
Proof.
  unfold busy, refreshed. store_simpl.
  rewrite !exists_row_existsb, existsb_sql_update.
  apply existsb_ext. intros m. apply active_after_finish.
Qed.

Lemma fresh_after_expire (a b : Z) (now : Timestamp) (i : Invite) :
  fresh_pending_between a b now
    (if InviteStatus_eqb (i_status i) pending && (i_expire_at i <=? now)
     then invite_expire i else i)
  = fresh_pending_between a b now i.
Proof.
  destruct (InviteStatus_eqb (i_status i) pending && (i_expire_at i <=? now)) eqn:E;
    [| reflexivity].
  apply andb_true_iff in E. destruct E as [E1 E2].
  unfold fresh_pending_between. cbn. rewrite E1.
  apply Z.leb_le in E2.
  destruct (Z.ltb_spec now (i_expire_at i)); [lia | reflexivity].
Qed.

Lemma fresh_pending_refreshed (a b : Z) (now : Timestamp) (s : Store) :
  exists_row (fresh_pending_between a b now) (duello_invites (refreshed now s))
  = exists_row (fresh_pending_between a b now) (duello_invites s).
Proof.
  unfold refreshed. store_simpl.
  rewrite !exists_row_existsb, existsb_sql_update.
  apply existsb_ext. intros i. apply fresh_after_expire.
Qed.

(** Once the lazy expiry has run, a pending pair is a fresh pending pair. *)
Lemma pending_pair_refreshed (a b : Z) (now : Timestamp) (s : Store) :
  exists_row (fresh_pending_between a b now) (duello_invites s) = false ->
  exists_row (pending_pair a b) (duello_invites (refreshed now s)) = false.
Proof.
  unfold refreshed. store_simpl.
  rewrite !exists_row_existsb, existsb_sql_update.
  intros H. apply not_true_is_false. intros Hex.
  apply existsb_exists in Hex. destruct Hex as [i [Hi Hp]].
  assert (Hf : fresh_pending_between a b now i = true).
  { destruct (InviteStatus_eqb (i_status i) pending && (i_expire_at i <=? now)) eqn:E.
    - cbn in Hp. discriminate Hp.
    - unfold pending_pair in Hp. unfold fresh_pending_between.
      apply andb_true_iff in Hp. destruct Hp as [Hp Ht].
      apply andb_true_iff in Hp. destruct Hp as [Hs Hfr].
      rewrite Hs in E |- *. cbn [andb] in E |- *.
      apply Z.leb_gt in E.
      destruct (Z.ltb_spec now (i_expire_at i)); [| lia].
      rewrite Hfr, Ht. reflexivity. }
  assert (Hex : existsb (fresh_pending_between a b now) (duello_invites s) = true).
  { apply existsb_exists. exists i. auto. }
  congruence.
Qed.

(** The invite handler past its validation. *)
Lemma createInvite_validated (now : Timestamp) (req : InviteRequest) (s : Store)
  (toUser : User) (mode : Mode) :
  invite_validated req s toUser mode ->
  let fromId := rq_from_user_id req in
  let toId := u_id toUser in
  let s1 := refreshed now s in
  run now (createInvite req) s =
    if busy fromId s then (s1, Fail (AlreadyActive sender))
    else if busy toId s then (s1, Fail (AlreadyActive receiver))
    else if exists_row (fresh_pending_between fromId toId now) (duello_invites s)
    then (s1, Fail DuplicatePending)
    else
      let inv := {| i_id := seq_invites s; i_from_user_id := fromId;
                    i_to_user_id := toId; i_mode := mode; i_status := pending;
                    i_created_at := now; i_expire_at := now + minutes 5;
                    i_accepted_at := None; i_rejected_at := None;
                    i_cancelled_at := None; i_match_id := None |} in
      (sseEmit toId (invite_new inv fromId)
         (with_invites (fun l => l ++ [inv])
            (with_seqs keep (fun n => n + 1) keep s1)),
       Ok inv).
Proof.
  intros (Hfrom & Hres & Hmode & Hne) fromId toId s1. subst fromId toId s1.
  unfold createInvite. rewrite run_bind, run_findUserByIdOrCode, Hres.
  rewrite (neq_eqb_false _ _ Hfrom).
  unfold request_mode in Hmode. rewrite Hmode.
  rewrite (neq_eqb_false _ _ Hne).
  hstep. fold (refreshed now s).
  rewrite holds_active_refreshed.
  destruct (busy (rq_from_user_id req) s); [reflexivity |].
  hstep. rewrite holds_active_refreshed.
  destruct (busy (u_id toUser) s); [reflexivity |].
  hstep. rewrite fresh_pending_refreshed.
  destruct (exists_row (fresh_pending_between _ _ now) (duello_invites s))
    eqn:Hdup; [reflexivity |].
  hstep. unfold insert_invite.
  rewrite (pending_pair_refreshed _ _ _ _ Hdup).
  reflexivity.
Qed.

Lemma createInvite_rejected (now : Timestamp) (req : InviteRequest) (s : Store) :
  (rq_from_user_id req = 0 -> run now (createInvite req) s = (s, Fail MissingIds)) /\
  (rq_from_user_id req <> 0 -> resolve_target req s = None ->
   run now (createInvite req) s = (s, Fail TargetUnknown)) /\
  (forall toUser, rq_from_user_id req <> 0 -> resolve_target req s = Some toUser ->
   request_mode req = None ->
   run now (createInvite req) s = (s, Fail BadMode)) /\
  (forall toUser mode, rq_from_user_id req <> 0 ->
   resolve_target req s = Some toUser -> request_mode req = Some mode ->
   rq_from_user_id req = u_id toUser ->
   run now (createInvite req) s = (s, Fail SelfChallenge)).
Proof.
  unfold createInvite. rewrite run_bind, run_findUserByIdOrCode.
  repeat split.
  - intros ->. reflexivity.
  - intros Hf ->. now rewrite (neq_eqb_false _ _ Hf).
  - intros toUser Hf -> Hmode. rewrite (neq_eqb_false _ _ Hf).
    unfold request_mode in Hmode. now rewrite Hmode.
  - intros toUser mode Hf -> Hmode Heq. rewrite (neq_eqb_false _ _ Hf).
    unfold request_mode in Hmode. rewrite Hmode.
    rewrite Heq, Z.eqb_refl. reflexivity.
Qed.

Lemma sseEmit_delivers (uid : Z) (ev : SseEvent) (s : Store) (set : list Conn)
  (c : Conn) :
  sseClients s !! uid = Some set -> In c set ->
  In (c, named ev) (wire (sseEmit uid ev s)).
Proof.
  intros Hset Hc. unfold sseEmit. rewrite Hset.
  destruct set as [| c0 set]; [contradiction |].
  store_simpl. apply in_or_app. right.
  apply in_flat_map. exists c. split; [exact Hc | now left].
Qed.

Lemma sseEmit_wire_grows (uid : Z) (ev : SseEvent) (s : Store) (x : Conn * Frame) :
  In x (wire s) -> In x (wire (sseEmit uid ev s)).
Proof.
  intros H. unfold sseEmit.
  destruct (sseClients s !! uid) as [[| c0 set] |]; try exact H.
  store_simpl. apply in_or_app. now left.
Qed.

Lemma sseEmit_clients (uid : Z) (ev : SseEvent) (s : Store) :
  sseClients (sseEmit uid ev s) = sseClients s.
Proof. apply sseEmit_tables. Qed.




(** ** Statement-wise reasoning *)

Section Respecting.
Context (R : Store -> Store -> Prop).
Hypothesis R_refl : forall s, R s s.
Hypothesis R_trans : forall s1 s2 s3, R s1 s2 -> R s2 s3 -> R s1 s3.

Lemma respects_bind {A B : Type} (h : Handler A) (f : A -> Handler B) :
  Respects R h -> (forall a, Respects R (f a)) -> Respects R (bind h f).
Proof.
  intros Hh Hf. induction Hh as [a | X stmt k Hstmt Hk IH]; cbn.
  - apply Hf.
  - apply respects_await; [exact Hstmt | exact IH].
Qed.

Lemma respects_query {X : Type} (f : Timestamp -> Store -> X) :
  Respects R (query f).
Proof.
  apply respects_await; [intros; apply R_refl | intros; apply respects_return].
Qed.

Lemma respects_exec (f : Timestamp -> Store -> Store) :
  (forall now s, R s (f now s)) -> Respects R (exec f).
Proof.
  intros H. apply respects_await; [exact H | intros; apply respects_return].
Qed.

Lemma respects_emit (uid : Z) (ev : SseEvent) :
  (forall s, R s (sseEmit uid ev s)) -> Respects R (emit uid ev).
Proof.
  intros H. apply respects_await; [intros; apply H | intros; apply respects_return].
Qed.

Lemma respects_run {A : Type} (now : Timestamp) (h : Handler A) (s : Store) :
  Respects R h -> R s (fst (run now h s)).
Proof.
  intros Hh. revert s. induction Hh as [a | X stmt k Hstmt Hk IH]; intros s; cbn.
  - apply R_refl.
  - specialize (Hstmt now s). destruct (stmt now s) as [s1 x]. cbn in Hstmt.
    apply (R_trans _ s1); [exact Hstmt | apply IH].
Qed.

Lemma respects_run_steps {A : Type} (n : nat) (now : Timestamp) (h : Handler A)
  (s : Store) :
  Respects R h ->
  R s (fst (run_steps n now h s)) /\ Respects R (snd (run_steps n now h s)).
Proof.
  revert h s. induction n as [| n IH]; intros h s Hh; cbn.
  - split; [apply R_refl | exact Hh].
  - destruct Hh as [a | X stmt k Hstmt Hk]; cbn.
    + split; [apply R_refl | apply respects_return].
    + specialize (Hstmt now s). destruct (stmt now s) as [s1 x]. cbn in Hstmt.
      destruct (IH (k x) s1 (Hk x)) as [H1 H2].
      split; [apply (R_trans _ s1); assumption | exact H2].
Qed.
End Respecting.

Section AllHandlers.
Context (R : Store -> Store -> Prop) (G : Granted R).

Let R_refl := granted_refl R G.
Let R_trans := granted_trans R G.

Lemma granted_emit (uid : Z) (ev : SseEvent) (s : Store) : R s (sseEmit uid ev s).
Proof.
  unfold sseEmit. destruct (sseClients s !! uid) as [[| c l] |];
    try apply R_refl.
  apply (granted_sse R G).
Qed.

Lemma granted_insert_invite fromId toId mode now s :
  R s (fst (insert_invite fromId toId mode now s)).
Proof.
  unfold insert_invite. destruct (exists_row _ _); cbn [fst].
  - apply (granted_seqs R G).
  - eapply R_trans; [apply (granted_seqs R G) | apply (granted_invites R G)].
Qed.

Lemma granted_insert_answer matchId qid uid ans c mx lf now s :
  R s (fst (insert_answer matchId qid uid ans c mx lf now s)).
Proof.
  unfold insert_answer. destruct mx; [| apply R_refl].
  destruct (exists_row _ _); cbn [fst].
  - apply (granted_seqs R G).
  - eapply R_trans; [apply (granted_seqs R G) | apply (granted_answers R G)].
Qed.

Lemma granted_insert_first_answer matchId qid uid ans c mx lf now s :
  R s (fst (insert_first_answer matchId qid uid ans c mx lf now s)).
Proof.
  unfold insert_first_answer. destruct mx; [| apply R_refl].
  destruct (answers_of _ _ _); cbn [fst].
  - eapply R_trans; [apply (granted_seqs R G) | apply (granted_answers R G)].
  - apply R_refl.
Qed.

Lemma granted_insert_match_question matchId pos qid s :
  R s (insert_match_question matchId pos qid s).
Proof.
  unfold insert_match_question. destruct (exists_row _ _).
  - apply R_refl.
  - apply (granted_match_questions R G).
Qed.

Lemma granted_idle_abort sec now s : R s (fst (idle_abort_stmt sec now s)).
Proof.
  unfold idle_abort_stmt. destruct sec; cbn [fst].
  - apply (granted_abandon R G).
  - apply R_refl.
Qed.

(** One pass over a handler: binds are split, branches are taken apart,
    and each statement is handed to the grants. *)
Ltac respects :=
  repeat first
    [ apply respects_return
    | apply (respects_query R R_refl)
    | apply (respects_emit R); intros; apply granted_emit
    | apply (respects_exec R); intros; cbv beta;
      first [ apply (granted_invites R G) | apply (granted_touch R G)
            | apply (granted_touch_status R G) | apply (granted_finish_over R G)
            | apply (granted_finish R G) | apply (granted_finish_at R G)
            | apply (granted_set_index R G) | apply granted_insert_match_question ]
    | apply (respects_bind R); [| intros ?]
    | apply respects_await;
      [ intros; cbv beta;
        first [ apply granted_insert_invite | apply granted_insert_answer
              | apply granted_insert_first_answer | apply granted_idle_abort
              | apply (granted_accept R G) | apply (granted_invites R G) ]
      | intros ? ]
    | match goal with
      | |- Respects _ (if ?c then _ else _) => destruct c
      | |- Respects _ (match ?x with _ => _ end) => destruct x
      end ].

Lemma respects_expireOldInvites : Respects R expireOldInvites.
Proof. unfold expireOldInvites. respects. Qed.

Lemma respects_createInvite req : Respects R (createInvite req).
Proof.
  unfold createInvite, findUserByIdOrCode, hasActiveMatch, hasFreshPendingInvite,
    finish_over_complete, expireOldInvites.
  respects.
Qed.

Lemma respects_respondInvite req : Respects R (respondInvite req).
Proof.
  unfold respondInvite, expireOldInvites. respects.
Qed.

Lemma respects_inbox uid : Respects R (inbox uid).
Proof. unfold inbox, expireOldInvites. respects. Qed.

Lemma respects_outbox uid : Respects R (outbox uid).
Proof. unfold outbox, expireOldInvites. respects. Qed.

Lemma respects_insert_question_loop matchId i ids :
  Respects R (insert_question_loop matchId i ids).
Proof.
  revert i. induction ids as [| qid ids IH]; intros i; cbn [insert_question_loop].
  - respects.
  - apply (respects_bind R); [respects | intros _; apply IH].
Qed.

Lemma respects_ensureDuelloQuestionSet m : Respects R (ensureDuelloQuestionSet m).
Proof.
  unfold ensureDuelloQuestionSet.
  apply (respects_bind R); [respects | intros existing].
  destruct existing; [| respects].
  apply (respects_bind R); [respects | intros ids].
  apply (respects_bind R); [apply respects_insert_question_loop | intros _].
  respects.
Qed.

Lemma respects_matchStatus matchId userId : Respects R (matchStatus matchId userId).
Proof.
  unfold matchStatus, duelloGetMatch.
  destruct ((matchId =? 0) || (userId =? 0)); [respects |].
  apply (respects_bind R); [respects | intros [m |]]; [| respects].
  destruct (negb (inThisMatch m userId)); [respects |].
  apply (respects_bind R); [respects | intros _].
  apply (respects_bind R); [apply respects_ensureDuelloQuestionSet | intros _].
  unfold duelloScores, duelloGetQuestionIdByPos, duelloGetAnswers. respects.
Qed.

Lemma respects_submitAnswer req : Respects R (submitAnswer req).
Proof.
  unfold submitAnswer, duelloGetMatch, duelloGetQuestionIdByPos, record_speed,
    record_info.
  respects.
Qed.

Lemma respects_reveal matchId userId : Respects R (reveal matchId userId).
Proof.
  unfold reveal, duelloGetMatch, duelloGetQuestionIdByPos, finish_now, fill_missing,
    advance, emit_finished, fill_unknown.
  respects.
Qed.

Lemma respects_matchSummary matchId userId : Respects R (matchSummary matchId userId).
Proof.
  unfold matchSummary, duelloGetMatch.
  destruct ((matchId =? 0) || (userId =? 0)); [respects |].
  apply (respects_bind R); [respects | intros [m |]]; [| respects].
  destruct (negb (m_user_a_id m =? userId) && negb (m_user_b_id m =? userId));
    [respects |].
  apply (respects_bind R); [apply respects_ensureDuelloQuestionSet | intros _].
  unfold duelloMatchTotals. respects.
Qed.

Lemma respects_emit_abandoned updated : Respects R (emit_abandoned updated).
Proof.
  induction updated as [| m rest IH]; cbn [emit_abandoned]; [respects |].
  apply (respects_bind R); [respects | intros _].
  apply (respects_bind R); [respects | intros _]. exact IH.
Qed.

Lemma respects_duelloIdleAbortTick : Respects R duelloIdleAbortTick.
Proof.
  unfold duelloIdleAbortTick.
  apply (respects_bind R); [respects | intros [updated |]]; [| respects].
  apply respects_emit_abandoned.
Qed.

(** Every handler the server can start respects a granted relation. *)
Lemma respects_handler_of (r : Request) : Respects R (handler_of r).
Proof.
  destruct r; cbn [handler_of]; unfold forget;
    try (apply (respects_bind R); [| intros ?; apply respects_return]).
  - apply respects_createInvite.
  - apply respects_respondInvite.
  - apply respects_inbox.
  - apply respects_outbox.
  - apply respects_matchStatus.
  - apply respects_submitAnswer.
  - apply respects_reveal.
  - apply respects_matchSummary.
  - apply respects_duelloIdleAbortTick.
Qed.
End AllHandlers.

Lemma respects_await_inv (R : Store -> Store -> Prop) {A X : Type}
  (stmt : Timestamp -> Store -> Store * X) (k : X -> Handler A) :
  Respects R (Await stmt k) ->
  (forall now s, R s (fst (stmt now s))) /\ (forall x, Respects R (k x)).
Proof.
  intros H.
  change (match Await stmt k with
          | Return _ => True
          | Await stmt' k' =>
              (forall now s, R s (fst (stmt' now s))) /\
              (forall x, Respects R (k' x))
          end).
  destruct H; [exact I | split; assumption].
Qed.

(** A relation every admitted handler respects holds between the store a
    server starts from and every store it reaches, whatever the
    interleaving. *)
Section Interleaving.
Context (R : Store -> Store -> Prop) (allowed : Request -> Prop).
Hypothesis R_refl : forall s, R s s.
Hypothesis R_trans : forall s1 s2 s3, R s1 s2 -> R s2 s3 -> R s1 s3.
Hypothesis R_sse : forall f g s, R s (with_sse f g s).
Hypothesis R_handlers : forall r, allowed r -> Respects R (handler_of r).

Lemma server_step_respects (sv sv' : Server) :
  Forall (Respects R) (in_flight sv) ->
  server_step allowed sv sv' ->
  R (store sv) (store sv') /\ Forall (Respects R) (in_flight sv').
Proof.
  intros Hfl Hstep. destruct Hstep as
    [sv r Hr | sv uid c | sv uid c | sv before after X stmt k now s' x Hin Hstmt
    | sv before after u Hin]; cbn [store in_flight].
  - split; [apply R_refl |].
    apply Forall_app. split; [exact Hfl |].
    constructor; [apply (R_handlers r Hr) | constructor].
  - split; [apply R_sse | exact Hfl].
  - split; [| exact Hfl]. unfold sseRemove.
    destruct (sseClients (store sv) !! uid); [| apply R_refl].
    destruct (List.filter _ _); apply R_sse.
  - rewrite Hin in Hfl. apply Forall_app in Hfl. destruct Hfl as [Hb Ha].
    inversion Ha as [| h l Hh Hl]; subst.
    destruct (respects_await_inv R stmt k Hh) as [Hs Hk].
    split.
    + specialize (Hs now (store sv)). rewrite Hstmt in Hs. exact Hs.
    + apply Forall_app. split; [exact Hb |]. constructor; [apply Hk | exact Hl].
  - rewrite Hin in Hfl. apply Forall_app in Hfl. destruct Hfl as [Hb Ha].
    inversion Ha; subst.
    split; [apply R_refl |]. apply Forall_app. now split.
Qed.

Lemma reachable_respects (sv0 sv : Server) :
  Forall (Respects R) (in_flight sv0) ->
  reachable_from allowed sv0 sv ->
  R (store sv0) (store sv) /\ Forall (Respects R) (in_flight sv).
Proof.
  intros H0 Hreach. induction Hreach as [| sv sv' Hreach IH Hstep].
  - split; [apply R_refl | exact H0].
  - destruct IH as [HR Hfl].
    destruct (server_step_respects sv sv' Hfl Hstep) as [HR' Hfl'].
    split; [| exact Hfl']. exact (R_trans _ _ _ HR HR').
Qed.
End Interleaving.

Lemma reachable_granted (R : Store -> Store -> Prop) (G : Granted R)
  (allowed : Request -> Prop) (sv0 sv : Server) :
  in_flight sv0 = [] ->
  reachable_from allowed sv0 sv ->
  R (store sv0) (store sv).
Proof.
  intros H0 Hreach.
  apply (reachable_respects R allowed (granted_refl R G) (granted_trans R G)
           (granted_sse R G) (fun r _ => respects_handler_of R G r) sv0 sv);
    [rewrite H0; constructor | exact Hreach].
Qed.

(** One pass over a handler, the statements handed to [leaf]. *)
Ltac respects_with leaf :=
  repeat first
    [ apply respects_return
    | apply respects_await; [intros; cbv beta; leaf | intros ?]
    | apply respects_bind; [| intros ?]
    | match goal with
      | |- Respects _ (if ?c then _ else _) => destruct c
      | |- Respects _ (match ?x with _ => _ end) => destruct x
      end ].










(** ** The single-active-match rule *)

Lemma filter_length_update {A : Type} (p c : A -> bool) (f : A -> A) (l : list A) :
  (forall x, p (f x) = true -> p x = true) ->
  (List.length (List.filter p (sql_update c f l)) <= List.length (List.filter p l))%nat.
Proof.
  intros H. unfold sql_update. induction l as [| x l IH]; cbn; [lia |].
  destruct (c x).
  - destruct (p (f x)) eqn:E.
    + rewrite (H x E). cbn. lia.
    + destruct (p x); cbn; lia.
  - destruct (p x); cbn; lia.
Qed.

Lemma single_active_update (c : Match -> bool) (f : Match -> Match) (s : Store) :
  (forall uid m, active_for uid (f m) = true -> active_for uid m = true) ->
  keeps_single_active s (with_matches (sql_update c f) s).
Proof.
  intros H Hs uid. unfold active_count. store_simpl.
  specialize (Hs uid). unfold active_count in Hs.
  pose proof (filter_length_update (active_for uid) c f (duello_matches s) (H uid)).
  lia.
Qed.

Lemma single_active_same (s s' : Store) :
  duello_matches s' = duello_matches s -> keeps_single_active s s'.
Proof. intros E Hs uid. unfold active_count. rewrite E. apply Hs. Qed.

Lemma exists_row_false_filter {A : Type} (p : A -> bool) (l : list A) :
  exists_row p l = false -> List.filter p l = [].
Proof.
  unfold exists_row, first_row. destruct (List.filter p l); [reflexivity | discriminate].
Qed.

(** The accept transaction keeps the rule: it inserts only after finding
    no active match for either party. *)
Lemma single_active_accept (inviteId fromId toId : Z) (now : Timestamp) (s : Store) :
  keeps_single_active s (fst (accept_tx inviteId fromId toId now s)).
Proof.
  unfold accept_tx.
  destruct (first_row _ (duello_invites s)) as [lockedInv |];
    [| apply single_active_same; reflexivity].
  destruct (negb _); [apply single_active_same; reflexivity |].
  destruct (i_expire_at lockedInv <=? now); [apply single_active_same; reflexivity |].
  destruct (exists_row (active_for fromId) _) eqn:Ef;
    [apply single_active_same; reflexivity |].
  destruct (exists_row (active_for toId) _) eqn:Et;
    [apply single_active_same; reflexivity |].
  destruct (fromId =? toId) eqn:Ene; [apply single_active_same; reflexivity |].
  cbn [fst]. intros Hs uid. unfold active_count. store_simpl.
  rewrite List.filter_app, length_app. cbn [List.filter].
  unfold active_for at 2. cbn [new_match m_state m_user_a_id m_user_b_id MatchState_eqb andb].
  apply exists_row_false_filter in Ef, Et.
  destruct (Z.eqb_spec fromId uid) as [-> | Hf].
  - cbn [orb]. rewrite Ef. cbn. lia.
  - destruct (Z.eqb_spec toId uid) as [-> | Ht].
    + cbn [orb]. rewrite Et. cbn. lia.
    + cbn [orb List.length]. specialize (Hs uid). unfold active_count in Hs. lia.
Qed.

Lemma granted_single_active : Granted keeps_single_active.
Proof.
  constructor.
  - intros s H. exact H.
  - intros s1 s2 s3 H1 H2 H. auto.
  - intros; apply single_active_same; reflexivity.
  - intros; apply single_active_same; reflexivity.
  - intros; apply single_active_same; reflexivity.
  - intros; apply single_active_same; reflexivity.
  - intros; apply single_active_same; reflexivity.
  - intros. apply single_active_update. intros u m. unfold match_touch.
    destruct (m_user_a_id m =? uid), (m_user_b_id m =? uid); cbn; auto.
  - intros. apply single_active_update. intros u m. unfold match_touch_status.
    destruct (m_user_a_id m =? uid), (m_user_b_id m =? uid); cbn; auto.
  - intros. apply single_active_update. intros u m. cbn. discriminate.
  - intros. apply single_active_update. intros u m. cbn. discriminate.
  - intros. apply single_active_update. intros u m. cbn. discriminate.
  - intros. apply single_active_update. intros u m. cbn. auto.
  - intros. apply single_active_update. intros u m. cbn. discriminate.
  - intros. apply single_active_accept.
Qed.

Lemma single_active_fresh us svs qs : single_active (fresh_store us svs qs).
Proof. intros uid. cbn. lia. Qed.

(** ** No way back to [active] *)

Lemma rows_unchanged (l : list Match) :
  Forall2 (fun m m' => m_id m' = m_id m /\
                       m_user_a_id m' = m_user_a_id m /\
                       m_user_b_id m' = m_user_b_id m /\
                       (m_state m' = active -> m_state m = active)) l l.
Proof. induction l; constructor; auto. Qed.

Lemma never_reactivated_refl (s : Store) : never_reactivated s s.
Proof.
  exists (duello_matches s), []. split; [now rewrite app_nil_r |].
  apply rows_unchanged.
Qed.

Lemma never_reactivated_trans (s1 s2 s3 : Store) :
  never_reactivated s1 s2 -> never_reactivated s2 s3 -> never_reactivated s1 s3.
Proof.
  intros (o1 & n1 & E1 & F1) (o2 & n2 & E2 & F2).
  rewrite E1 in F2. apply Forall2_app_inv_l in F2.
  destruct F2 as (o2a & o2b & Fa & Fb & ->).
  exists o2a, (o2b ++ n2). split; [now rewrite E2, app_assoc |].
  clear - F1 Fa. revert o2a Fa.
  induction F1 as [| m m' l l' Hm F1 IH]; intros o2a Fa.
  - inversion Fa. constructor.
  - inversion Fa as [| x y lx ly Hxy Fxy]; subst.
    constructor; [| apply IH; exact Fxy].
    destruct Hm as (H1 & H2 & H3 & H4), Hxy as (G1 & G2 & G3 & G4).
    repeat split; try congruence. auto.
Qed.

Lemma never_reactivated_same (s s' : Store) :
  duello_matches s' = duello_matches s -> never_reactivated s s'.
Proof.
  intros E. exists (duello_matches s), []. split; [now rewrite E, app_nil_r |].
  apply rows_unchanged.
Qed.

Lemma never_reactivated_update (c : Match -> bool) (f : Match -> Match) (s : Store) :
  (forall m, m_id (f m) = m_id m /\ m_user_a_id (f m) = m_user_a_id m /\
             m_user_b_id (f m) = m_user_b_id m /\
             (m_state (f m) = active -> m_state m = active)) ->
  never_reactivated s (with_matches (sql_update c f) s).
Proof.
  intros H. exists (sql_update c f (duello_matches s)), []. store_simpl.
  split; [now rewrite app_nil_r |].
  unfold sql_update. induction (duello_matches s) as [| m l IH]; cbn; constructor;
    [| exact IH].
  destruct (c m); [apply H | auto].
Qed.

Lemma never_reactivated_accept (inviteId fromId toId : Z) (now : Timestamp) (s : Store) :
  never_reactivated s (fst (accept_tx inviteId fromId toId now s)).
Proof.
  unfold accept_tx.
  destruct (first_row _ (duello_invites s)) as [lockedInv |];
    [| apply never_reactivated_refl].
  destruct (negb _); [apply never_reactivated_refl |].
  destruct (i_expire_at lockedInv <=? now);
    [apply never_reactivated_same; reflexivity |].
  destruct (exists_row (active_for fromId) _); [apply never_reactivated_refl |].
  destruct (exists_row (active_for toId) _); [apply never_reactivated_refl |].
  destruct (fromId =? toId); [apply never_reactivated_same; reflexivity |].
  cbn [fst]. eexists (duello_matches s), [_]. store_simpl. split; [reflexivity |].
  apply rows_unchanged.
Qed.

Lemma granted_never_reactivated : Granted never_reactivated.
Proof.
  constructor.
  - apply never_reactivated_refl.
  - apply never_reactivated_trans.
  - intros; apply never_reactivated_same; reflexivity.
  - intros; apply never_reactivated_same; reflexivity.
  - intros; apply never_reactivated_same; reflexivity.
  - intros; apply never_reactivated_same; reflexivity.
  - intros; apply never_reactivated_same; reflexivity.
  - intros. apply never_reactivated_update. intros m. unfold match_touch.
    destruct (m_user_a_id m =? uid), (m_user_b_id m =? uid); cbn; auto.
  - intros. apply never_reactivated_update. intros m. unfold match_touch_status.
    destruct (m_user_a_id m =? uid), (m_user_b_id m =? uid); cbn; auto.
  - intros. apply never_reactivated_update. intros m. cbn. repeat split. discriminate.
  - intros. apply never_reactivated_update. intros m. cbn. repeat split. discriminate.
  - intros. apply never_reactivated_update. intros m. cbn. repeat split. discriminate.
  - intros. apply never_reactivated_update. intros m. cbn. auto.
  - intros. apply never_reactivated_update. intros m. cbn. repeat split. discriminate.
  - intros. apply never_reactivated_accept.
Qed.

(** ** Accepting invites *)

Lemma grown_refl (s : Store) : grown_by_active s s.
Proof. exists []. split; [now rewrite app_nil_r | constructor]. Qed.

Lemma grown_trans (s1 s2 s3 : Store) :
  grown_by_active s1 s2 -> grown_by_active s2 s3 -> grown_by_active s1 s3.
Proof.
  intros (n1 & E1 & F1) (n2 & E2 & F2). exists (n1 ++ n2).
  split; [now rewrite E2, E1, app_assoc | now apply Forall_app].
Qed.

Lemma grown_same (s s' : Store) :
  duello_matches s' = duello_matches s -> grown_by_active s s'.
Proof. intros E. exists []. split; [now rewrite E, app_nil_r | constructor]. Qed.

Lemma grown_accept (inviteId fromId toId : Z) (now : Timestamp) (s : Store) :
  grown_by_active s (fst (accept_tx inviteId fromId toId now s)).
Proof.
  unfold accept_tx.
  destruct (first_row _ (duello_invites s)) as [lockedInv |]; [| apply grown_refl].
  destruct (negb _); [apply grown_refl |].
  destruct (i_expire_at lockedInv <=? now); [apply grown_same; reflexivity |].
  destruct (exists_row (active_for fromId) _); [apply grown_refl |].
  destruct (exists_row (active_for toId) _); [apply grown_refl |].
  destruct (fromId =? toId); [apply grown_same; reflexivity |].
  cbn [fst]. eexists [_]. store_simpl. split; [reflexivity |].
  constructor; [reflexivity | constructor].
Qed.

Lemma grown_emit (uid : Z) (ev : SseEvent) (s : Store) :
  grown_by_active s (sseEmit uid ev s).
Proof. apply grown_same, sseEmit_matches. Qed.

Lemma respondInvite_grows (req : RespondRequest) :
  Respects grown_by_active (respondInvite req).
Proof.
  unfold respondInvite, expireOldInvites, query, exec, emit. cbn [bind].
  respects_with ltac:(cbn [fst];
                      first [ apply grown_refl | apply grown_emit | apply grown_accept
                            | apply grown_same; reflexivity ]).
Qed.

Lemma reachable_mono (allowed allowed' : Request -> Prop) (sv0 sv : Server) :
  (forall r, allowed r -> allowed' r) ->
  reachable_from allowed sv0 sv -> reachable_from allowed' sv0 sv.
Proof.
  intros Hsub Hreach. induction Hreach as [| sv sv' Hreach IH Hstep];
    [constructor |].
  apply (reach_step allowed' sv0 sv sv' IH).
  destruct Hstep; econstructor; eauto.
Qed.

(** The rule holds in every state the server reaches. *)
Lemma single_active_reachable (sv0 sv : Server) :
  in_flight sv0 = [] -> single_active (store sv0) ->
  reachable_from any_request sv0 sv ->
  single_active (store sv).
Proof.
  intros H0 Hs Hreach.
  exact (reachable_granted keeps_single_active granted_single_active any_request
           sv0 sv H0 Hreach Hs).
Qed.

Lemma filter_active_newer (uid : Z) (newer : list Match) :
  Forall (fun m => m_state m = active) newer ->
  List.filter (active_for uid) newer = List.filter (fun m => inThisMatch m uid) newer.
Proof.
  intros H. induction H as [| m l Hm Hl IH]; cbn; [reflexivity |].
  unfold active_for, inThisMatch in *. rewrite Hm. cbn [MatchState_eqb andb].
  now rewrite IH.
Qed.

(** While only answers to invites come in, in any interleaving, each user
    gets at most one match, and none when holding an active one already. *)
Lemma accepts_create_at_most_one (sv0 sv : Server) :
  in_flight sv0 = [] -> single_active (store sv0) ->
  reachable_from invite_responses sv0 sv ->
  exists newer,
    duello_matches (store sv) = duello_matches (store sv0) ++ newer /\
    Forall (fun m => m_state m = active) newer /\
    forall uid,
      (List.length (List.filter (fun m => inThisMatch m uid) newer)
       + active_count uid (store sv0) <= 1)%nat.
Proof.
  intros H0 Hs Hreach.
  assert (Hgrow : grown_by_active (store sv0) (store sv)).
  { apply (reachable_respects grown_by_active invite_responses grown_refl grown_trans
             (fun f g s => grown_same s _ eq_refl)) with (sv0 := sv0) (sv := sv).
    - intros r Hr. destruct r; try contradiction. cbn [handler_of]. unfold forget.
      apply respects_bind; [apply respondInvite_grows | intros; apply respects_return].
    - rewrite H0. constructor.
    - exact Hreach. }
  destruct Hgrow as (newer & E & Hact). exists newer. repeat split; try assumption.
  intros uid.
  assert (Hsv : single_active (store sv)).
  { apply (single_active_reachable sv0 sv H0 Hs).
    apply (reachable_mono invite_responses any_request); [intros; exact I | exact Hreach]. }
  specialize (Hsv uid). unfold active_count in *.
  rewrite E, List.filter_app, length_app, (filter_active_newer uid newer Hact) in Hsv.
  lia.
Qed.

(** The accept transaction answers [AlreadyActive] exactly on a pending,
    unexpired invite one of whose parties holds an active match, and then
    writes nothing. *)
Lemma accept_tx_already_active (inviteId fromId toId : Z) (now : Timestamp)
  (s : Store) (who : Party) :
  snd (accept_tx inviteId fromId toId now s) = inl (AlreadyActive who) <->
  exists inv,
    first_row (fun i => i_id i =? inviteId) (duello_invites s) = Some inv /\
    i_status inv = pending /\ now < i_expire_at inv /\
    match who with
    | sender => holds_active fromId s = true
    | receiver => holds_active fromId s = false /\ holds_active toId s = true
    end.
Proof.
  unfold accept_tx, holds_active.
  destruct (first_row _ (duello_invites s)) as [inv |].
  2:{ split; [discriminate | intros (i & H & _); discriminate]. }
  destruct (i_status inv) eqn:Est; cbn [InviteStatus_eqb negb snd];
    try (split; [discriminate | intros (i & H & Hp & _); injection H as <-; congruence]).
  destruct (Z.leb_spec (i_expire_at inv) now) as [Hle | Hgt]; cbn [snd].
  { split; [discriminate | intros (i & H & _ & Hn & _); injection H as <-; lia]. }
  destruct (exists_row (active_for fromId) _) eqn:Ef; cbn [snd].
  { split.
    - intros H. injection H as <-. exists inv. auto.
    - intros (i & _ & _ & _ & H). destruct who; [reflexivity |].
      destruct H; discriminate. }
  destruct (exists_row (active_for toId) _) eqn:Et; cbn [snd].
  { split.
    - intros H. injection H as <-. exists inv. auto.
    - intros (i & _ & _ & _ & H). destruct who; [discriminate | reflexivity]. }
  destruct (fromId =? toId); cbn [snd].
  - split; [discriminate | intros (i & _ & _ & _ & H)].
    destruct who; [discriminate | destruct H; discriminate].
  - split; [discriminate | intros (i & _ & _ & _ & H)].
    destruct who; [discriminate | destruct H; discriminate].
Qed.

(** A failing accept transaction inserts no match. *)
Lemma accept_tx_failure (inviteId fromId toId : Z) (now : Timestamp) (s : Store)
  (e : Failure) :
  snd (accept_tx inviteId fromId toId now s) = inl e ->
  duello_matches (fst (accept_tx inviteId fromId toId now s)) = duello_matches s.
Proof.
  unfold accept_tx.
  destruct (first_row _ (duello_invites s)) as [inv |]; [| reflexivity].
  destruct (negb _); [reflexivity |].
  destruct (i_expire_at inv <=? now); [reflexivity |].
  destruct (exists_row (active_for fromId) _); [reflexivity |].
  destruct (exists_row (active_for toId) _); [reflexivity |].
  destruct (fromId =? toId); [reflexivity | discriminate].
Qed.

Lemma in_sql_update {A : Type} (c : A -> bool) (f : A -> A) (l : list A) (y : A) :
  In y (sql_update c f l) ->
  exists x, In x l /\ y = (if c x then f x else x).
Proof.
  unfold sql_update. intros H. apply in_map_iff in H.
  destruct H as [x [E Hx]]. exists x. auto.
Qed.

(** Once an accept has gone through, no invite that touches either of its
    two users is both pending and unexpired. *)
Lemma accept_tx_settles (inviteId fromId toId : Z) (now : Timestamp) (s s' : Store)
  (m : Match) :
  accept_tx inviteId fromId toId now s = (s', inr m) ->
  forall j, In j (duello_invites s') ->
            invite_touches fromId j \/ invite_touches toId j ->
            i_status j = pending -> i_expire_at j <= now.
Proof.
  unfold accept_tx.
  destruct (first_row _ (duello_invites s)) as [inv |]; [| discriminate].
  destruct (negb _); [discriminate |].
  destruct (i_expire_at inv <=? now); [discriminate |].
  destruct (exists_row (active_for fromId) _); [discriminate |].
  destruct (exists_row (active_for toId) _); [discriminate |].
  destruct (fromId =? toId); [discriminate |].
  intros H. injection H as <- _. store_simpl.
  intros j Hj Htouch Hpend.
  apply in_sql_update in Hj. destruct Hj as [j1 [Hj1 ->]].
  apply in_sql_update in Hj1. destruct Hj1 as [j0 [Hj0 ->]].
  destruct (i_id j0 =? inviteId) eqn:Eid.
  - (* the accepted invite itself *)
    destruct (other_pending_of _ _ _ _ _); cbn in Hpend; discriminate Hpend.
  - destruct (other_pending_of inviteId fromId toId now j0) eqn:Eo.
    + cbn in Hpend. discriminate Hpend.
    + unfold other_pending_of in Eo. rewrite Hpend, Eid in Eo.
      cbn [InviteStatus_eqb negb andb] in Eo.
      destruct (Z.ltb_spec now (i_expire_at j0)) as [Hlt | Hge]; [| lia].
      exfalso. cbn [andb] in Eo.
      unfold invite_touches in Htouch.
      destruct Htouch as [[H | H] | [H | H]]; rewrite H, Z.eqb_refl in Eo;
        cbn in Eo; rewrite ?orb_true_r in Eo; discriminate Eo.
Qed.

(** So a later accept of such an invite is turned away as not pending or
    as expired, not as [AlreadyActive]. *)
Lemma accept_after_accept (inviteId fromId toId : Z) (now : Timestamp) (s s' : Store)
  (m : Match) (inviteId2 fromId2 toId2 : Z) (now2 : Timestamp) (j : Invite) :
  accept_tx inviteId fromId toId now s = (s', inr m) ->
  now <= now2 ->
  first_row (fun i => i_id i =? inviteId2) (duello_invites s') = Some j ->
  invite_touches fromId j \/ invite_touches toId j ->
  accept_tx inviteId2 fromId2 toId2 now2 s' = (s', inl NotPending) \/
  snd (accept_tx inviteId2 fromId2 toId2 now2 s') = inl InviteExpired.
Proof.
  intros Hacc Hnow Hrow Htouch.
  pose proof (accept_tx_settles _ _ _ _ _ _ _ Hacc j) as Hset.
  apply first_row_Some in Hrow as Hin. destruct Hin as [Hin _].
  unfold accept_tx. rewrite Hrow.
  destruct (i_status j) eqn:Est; cbn [InviteStatus_eqb negb]; try (now left).
  right. specialize (Hset Hin Htouch eq_refl).
  destruct (Z.leb_spec (i_expire_at j) now2); [reflexivity | lia].
Qed.

(** What a successful accept request did: its transaction went through on
    the store the lazy expiry left, between the two users of the new
    match. *)
Lemma respondInvite_accepted (now : Timestamp) (req : RespondRequest) (s s1 : Store)
  (m : Match) :
  run now (respondInvite req) s = (s1, Ok (Accepted m)) ->
  exists s0 s0',
    accept_tx (rq_invite_id req) (m_user_a_id m) (m_user_b_id m) now s0 = (s0', inr m) /\
    duello_matches s0 = duello_matches s /\
    duello_invites s1 = duello_invites s0' /\
    duello_matches s1 = duello_matches s0'.
Proof.
  unfold respondInvite.
  destruct ((rq_invite_id req =? 0) || (rq_user_id req =? 0)); [discriminate |].
  destruct (negb (Js.includes _ _)); [discriminate |].
  hstep. set (s0 := with_invites _ s).
  destruct (first_row _ (duello_invites s0)) as [inv |] eqn:Hrow; [| discriminate].
  destruct (negb (i_to_user_id inv =? rq_user_id req)); [discriminate |].
  destruct (negb (InviteStatus_eqb (i_status inv) pending)); [discriminate |].
  hstep. rewrite Hrow. destruct (i_expire_at inv <=? now); [discriminate |].
  destruct (String.eqb _ "reject"); [discriminate |].
  cbn [run bind].
  destruct (accept_tx (rq_invite_id req) (i_from_user_id inv) (i_to_user_id inv) now s0)
    as [s0' [e | m']] eqn:Htx; [discriminate |].
  hstep. intros H. injection H as <- <-.
  assert (Hm : m_user_a_id m' = i_from_user_id inv /\ m_user_b_id m' = i_to_user_id inv).
  { revert Htx. unfold accept_tx.
    destruct (first_row _ (duello_invites s0)); [| discriminate].
    destruct (negb _); [discriminate |].
    destruct (_ <=? now); [discriminate |].
    destruct (exists_row _ _); [discriminate |].
    destruct (exists_row _ _); [discriminate |].
    destruct (_ =? _); [discriminate |].
    intros H. injection H as _ <-. split; reflexivity. }
  destruct Hm as [-> ->].
  exists s0, s0'. repeat split.
  - exact Htx.
  - now rewrite !sseEmit_invites.
  - now rewrite !sseEmit_matches.
Qed.

Lemma invite_expire_id (i : Invite) : i_id (invite_expire i) = i_id i.
Proof. reflexivity. Qed.

Lemma first_row_sql_update_id (c : Invite -> bool) (f : Invite -> Invite) (id : Z)
  (l : list Invite) :
  (forall i, i_id (f i) = i_id i) ->
  first_row (fun i => i_id i =? id) (sql_update c f l) =
  option_map (fun j0 => if c j0 then f j0 else j0) (first_row (fun i => i_id i =? id) l).
Proof.
  intros Hid. unfold first_row, sql_update.
  induction l as [| x l IH]; cbn; [reflexivity |].
  assert (E : i_id (if c x then f x else x) = i_id x).
  { destruct (c x); [apply Hid | reflexivity]. }
  rewrite E. destruct (i_id x =? id); cbn; [reflexivity | exact IH].
Qed.

(** After an accept request has succeeded, the invited user who tries to
    accept any invite that names one of the two matched users is told that
    the invite is not pending any more. *)
Lemma respond_after_accept (now now2 : Timestamp) (req req2 : RespondRequest)
  (s s1 : Store) (m : Match) (j : Invite) :
  run now (respondInvite req) s = (s1, Ok (Accepted m)) ->
  now <= now2 ->
  rq_invite_id req2 <> 0 -> rq_user_id req2 <> 0 ->
  Js.includes ["accept"; "reject"] (Js.toLowerCase (Js.env_or (rq_action req2) "")) = true ->
  first_row (fun i => i_id i =? rq_invite_id req2) (duello_invites s1) = Some j ->
  i_to_user_id j = rq_user_id req2 ->
  invite_touches (m_user_a_id m) j \/ invite_touches (m_user_b_id m) j ->
  snd (run now2 (respondInvite req2) s1) = Fail NotPending.
Proof.
  intros Hrun Hnow Hi Hu Hact Hrow Hto Htouch.
  destruct (respondInvite_accepted now req s s1 m Hrun) as (s0 & s0' & Htx & _ & Einv & _).
  pose proof (accept_tx_settles _ _ _ _ _ _ _ Htx j) as Hset.
  rewrite <- Einv in Hset.
  apply first_row_Some in Hrow as Hin. destruct Hin as [Hin _].
  specialize (Hset Hin Htouch).
  unfold respondInvite.
  rewrite (neq_eqb_false _ _ Hi), (neq_eqb_false _ _ Hu), Hact. cbn [orb negb].
  hstep. store_simpl.
  rewrite (first_row_sql_update_id _ _ _ _ invite_expire_id).
  rewrite Hrow. cbn [option_map].
  destruct (InviteStatus_eqb (i_status j) pending && (i_expire_at j <=? now2)) eqn:Ec.
  - cbn [invite_expire invite_set i_to_user_id i_status]. rewrite Hto, Z.eqb_refl.
    reflexivity.
  - rewrite Hto, Z.eqb_refl. cbn [negb].
    destruct (i_status j) eqn:Est; try reflexivity.
    exfalso. cbn [InviteStatus_eqb andb] in Ec. apply Z.leb_gt in Ec.
    specialize (Hset eq_refl). lia.
Qed.

(** ** Scores *)

Lemma sum_where (p : Answer * Question -> bool) (f : Answer * Question -> option Z)
  (rows : list (Answer * Question)) :
  default 0 (sql_sum (map (fun r => if p r then f r else Some 0) rows)) =
  default 0 (sql_sum (map f (List.filter p rows))).
Proof.
  induction rows as [| r rows IH]; cbn; [reflexivity |].
  destruct (p r); cbn.
  - destruct (f r); cbn; [now rewrite IH | exact IH].
  - rewrite IH. lia.
Qed.

Lemma existsb_without (uid x : Z) (ks : list Z) :
  x <> uid ->
  existsb (Z.eqb uid) (List.filter (fun k => negb (k =? x)) ks) =
  existsb (Z.eqb uid) ks.
Proof.
  intros Hx. induction ks as [| k ks IH]; cbn; [reflexivity |].
  destruct (Z.eqb_spec k x) as [-> | Ek]; cbn.
  - rewrite (neq_eqb_false uid x) by congruence. exact IH.
  - now rewrite IH.
Qed.

Lemma group_keys_has (uid : Z) (rows : list (Answer * Question)) :
  existsb (Z.eqb uid) (group_keys rows) =
  existsb (fun r => a_user_id (fst r) =? uid) rows.
Proof.
  induction rows as [| r rows IH]; cbn; [reflexivity |].
  rewrite <- IH. rewrite (Z.eqb_sym uid).
  destruct (Z.eqb_spec (a_user_id (fst r)) uid) as [E | E]; cbn; [reflexivity |].
  now apply existsb_without.
Qed.

Lemma fold_totals_lookup (g : Z -> Totals) (keys : list Z) (acc : gmap Z Totals)
  (uid : Z) :
  fold_left (fun (acc : gmap Z Totals) r => <[fst r := snd r]> acc)
    (map (fun k => (k, g k)) keys) acc !! uid =
  if existsb (Z.eqb uid) keys then Some (g uid) else acc !! uid.
Proof.
  revert acc. induction keys as [| k keys IH]; intros acc; cbn; [reflexivity |].
  rewrite IH. destruct (existsb (Z.eqb uid) keys); [now rewrite orb_true_r |].
  rewrite orb_false_r. cbn [fst snd].
  destruct (Z.eqb_spec uid k) as [-> | E].
  - apply lookup_insert_eq.
  - apply lookup_insert_ne. congruence.
Qed.

Lemma filter_none {A : Type} (p : A -> bool) (l : list A) :
  existsb p l = false -> List.filter p l = [].
Proof.
  induction l as [| x l IH]; cbn; [reflexivity |].
  destruct (p x); cbn; [discriminate | exact IH].
Qed.

(** The two aggregations agree on every set of rows. *)
Lemma score_column_totals (uid : Z) (rows : list (Answer * Question)) :
  score_column uid rows =
  t_score (stats_or_zero
             (fold_left (fun (acc : gmap Z Totals) r => <[fst r := snd r]> acc)
                (grouped_totals rows) ∅) uid).
Proof.
  unfold score_column, stats_or_zero, grouped_totals.
  rewrite (fold_totals_lookup
             (fun k => totals_of_group
                         (List.filter (fun r => a_user_id (fst r) =? k) rows))).
  rewrite group_keys_has, sum_where.
  destruct (existsb _ rows) eqn:E; cbn; [reflexivity |].
  now rewrite (filter_none _ _ E).
Qed.

Lemma run_duelloScores (now : Timestamp) (matchId aId bId : Z) (s : Store) :
  run now (duelloScores matchId aId bId) s =
  (s, (score_column aId (answers_with_questions matchId s),
       score_column bId (answers_with_questions matchId s))).
Proof. reflexivity. Qed.

Lemma run_duelloMatchTotals (now : Timestamp) (matchId : Z) (s : Store) :
  run now (duelloMatchTotals matchId) s =
  (s, fold_left (fun (acc : gmap Z Totals) r => <[fst r := snd r]> acc)
        (grouped_totals (answers_with_questions matchId s)) ∅).
Proof. reflexivity. Qed.

Lemma scores_frame_refl (s : Store) : scores_frame s s.
Proof. repeat split. Qed.

Lemma scores_frame_trans (s1 s2 s3 : Store) :
  scores_frame s1 s2 -> scores_frame s2 s3 -> scores_frame s1 s3.
Proof. intros (A1 & B1 & C1) (A2 & B2 & C2). repeat split; congruence. Qed.

Lemma scores_frame_touch_status now matchId uid s :
  scores_frame s (with_matches (sql_update (fun r => m_id r =? matchId)
                                  (match_touch_status now uid)) s).
Proof.
  repeat split. store_simpl. unfold sql_update. rewrite map_map.
  apply map_ext. intros m. destruct (m_id m =? matchId); [| reflexivity].
  unfold match_touch_status.
  destruct (m_user_a_id m =? uid), (m_user_b_id m =? uid); reflexivity.
Qed.

Lemma scores_frame_insert_question matchId pos qid s :
  scores_frame s (insert_match_question matchId pos qid s).
Proof.
  unfold insert_match_question. destruct (exists_row _ _); repeat split.
Qed.

Lemma ensure_respects_scores_frame (m : Match) :
  Respects scores_frame (ensureDuelloQuestionSet m).
Proof.
  unfold ensureDuelloQuestionSet.
  apply respects_bind; [apply respects_query, scores_frame_refl | intros existing].
  destruct existing; [| apply respects_return].
  apply respects_bind; [apply respects_query, scores_frame_refl | intros ids].
  apply respects_bind; [| intros _; apply respects_query, scores_frame_refl].
  generalize 1 as i. induction ids as [| qid ids IH]; intros i; cbn [insert_question_loop].
  - apply respects_return.
  - apply respects_bind; [| intros _; apply IH].
    apply respects_exec. intros. apply scores_frame_insert_question.
Qed.

Lemma first_row_users (matchId : Z) (l l' : list Match) (m' : Match) :
  map (fun m => (m_id m, m_user_a_id m, m_user_b_id m)) l' =
  map (fun m => (m_id m, m_user_a_id m, m_user_b_id m)) l ->
  first_row (fun r => m_id r =? matchId) l' = Some m' ->
  exists m, first_row (fun r => m_id r =? matchId) l = Some m /\
            m_user_a_id m' = m_user_a_id m /\ m_user_b_id m' = m_user_b_id m.
Proof.
  unfold first_row. revert l'. induction l as [| x l IH]; intros [| x' l'] E;
    try discriminate E; cbn; [discriminate |].
  injection E as E1 E2 E3 E4. rewrite E1.
  destruct (m_id x =? matchId); cbn.
  - intros H. injection H as <-. exists x. auto.
  - apply IH. exact E4.
Qed.

Lemma answers_with_questions_frame (matchId : Z) (s s' : Store) :
  scores_frame s s' ->
  answers_with_questions matchId s' = answers_with_questions matchId s.
Proof.
  intros (Ha & Hq & _). unfold answers_with_questions. now rewrite Ha, Hq.
Qed.

(** What the status handler reports as scores. *)
Lemma matchStatus_scores (now : Timestamp) (matchId userId : Z) (s s1 : Store)
  (st : StatusBody) :
  run now (matchStatus matchId userId) s = (s1, Ok st) ->
  exists m,
    first_row (fun r => m_id r =? matchId) (duello_matches s) = Some m /\
    scores_frame s s1 /\
    st_scores st =
      (score_column (m_user_a_id m) (answers_with_questions matchId s),
       score_column (m_user_b_id m) (answers_with_questions matchId s)).
Proof.
  unfold matchStatus.
  destruct ((matchId =? 0) || (userId =? 0)); [discriminate |].
  hstep. destruct (first_row _ (duello_matches s)) as [m |]; [| discriminate].
  destruct (negb (inThisMatch m userId)); [discriminate |].
  hstep. rewrite run_bind.
  set (s0 := with_matches _ s).
  assert (F0 : scores_frame s s0) by apply scores_frame_touch_status.
  pose proof (respects_run scores_frame scores_frame_refl scores_frame_trans now
                (ensureDuelloQuestionSet m) s0 (ensure_respects_scores_frame m)) as F1.
  destruct (run now (ensureDuelloQuestionSet m) s0) as [s2 set]. cbn [fst] in F1.
  pose proof (scores_frame_trans _ _ _ F0 F1) as F.
  rewrite run_bind, run_duelloScores.
  rewrite (answers_with_questions_frame matchId s s2 F).
  intros Hrun. exists m. split; [reflexivity |].
  destruct (MatchState_eqb (m_state m) finished || _).
  { injection Hrun as <- <-. split; [exact F | reflexivity]. }
  hstep_in Hrun.
  destruct (question_id_at (m_id m) (m_current_index m + 1) s2).
  - hstep_in Hrun. injection Hrun as <- <-. split; [exact F | reflexivity].
  - injection Hrun as <- <-. split; [exact F | reflexivity].
Qed.

(** What the summary handler reports as totals. *)
Lemma matchSummary_totals (now : Timestamp) (matchId userId : Z) (s s1 : Store)
  (sm : SummaryBody) :
  run now (matchSummary matchId userId) s = (s1, Ok sm) ->
  exists m,
    first_row (fun r => m_id r =? matchId) (duello_matches s) = Some m /\
    let totals :=
      fold_left (fun (acc : gmap Z Totals) r => <[fst r := snd r]> acc)
        (grouped_totals (answers_with_questions matchId s)) ∅ in
    sm_a sm = stats_or_zero totals (m_user_a_id m) /\
    sm_b sm = stats_or_zero totals (m_user_b_id m).
Proof.
  unfold matchSummary.
  destruct ((matchId =? 0) || (userId =? 0)); [discriminate |].
  hstep. destruct (first_row _ (duello_matches s)) as [m |]; [| discriminate].
  destruct (negb (m_user_a_id m =? userId) && negb (m_user_b_id m =? userId));
    [discriminate |].
  rewrite run_bind.
  pose proof (respects_run scores_frame scores_frame_refl scores_frame_trans now
                (ensureDuelloQuestionSet m) s (ensure_respects_scores_frame m)) as F.
  destruct (run now (ensureDuelloQuestionSet m) s) as [s2 set]. cbn [fst] in F.
  rewrite run_bind, run_duelloMatchTotals.
  rewrite (answers_with_questions_frame matchId s s2 F).
  intros Hrun. injection Hrun as <- <-. exists m. repeat split.
Qed.

(** ** Idle Timeout Sweeper *)

Lemma idle_match_is_idle (sec : Z) (now : Timestamp) (m : Match) :
  idle_match sec now m = true <-> is_idle sec now m.
Proof.
  unfold idle_match, is_idle, seen_before.
  rewrite !andb_true_iff, orb_true_iff, !Z.ltb_lt.
  split.
  - intros [[Hs Hseen] Hidx]. repeat split; try assumption.
    destruct (m_state m); try discriminate Hs; reflexivity.
  - intros (Hs & Hseen & Hidx). rewrite Hs. repeat split; assumption.
Qed.

Lemma idle_threshold_bounds (e : ProcessEnv) (sec : Z) :
  DUELLO_IDLE_ABORT_SEC e = Some sec -> 30 <= sec <= 600.
Proof.
  unfold DUELLO_IDLE_ABORT_SEC.
  destruct (Js.parseInt _) as [n |]; cbn; [| discriminate].
  intros H. injection H as <-. lia.
Qed.

Lemma run_emit_abandoned (now : Timestamp) (updated : list Match) (s : Store) :
  run now (emit_abandoned updated) s =
  (emit_all (flat_map (fun m => [(m_user_a_id m, match_abandoned (m_id m));
                                 (m_user_b_id m, match_abandoned (m_id m))]) updated) s,
   tt).
Proof.
  revert s. induction updated as [| m rest IH]; intros s; [reflexivity |].
  cbn [emit_abandoned]. hstep. rewrite IH. reflexivity.
Qed.

Lemma emit_all_tables (evs : list (Z * SseEvent)) (s : Store) :
  duello_matches (emit_all evs s) = duello_matches s /\
  duello_invites (emit_all evs s) = duello_invites s /\
  duello_answers (emit_all evs s) = duello_answers s /\
  duello_match_questions (emit_all evs s) = duello_match_questions s /\
  sseClients (emit_all evs s) = sseClients s.
Proof.
  revert s. induction evs as [| e evs IH]; intros s; [repeat split |].
  cbn [emit_all fold_left]. fold (emit_all evs (sseEmit (fst e) (snd e) s)).
  destruct (IH (sseEmit (fst e) (snd e) s)) as (H1 & H2 & H3 & H4 & H5).
  destruct (sseEmit_tables (fst e) (snd e) s) as (G1 & G2 & G3 & G4 & G5).
  repeat split; congruence.
Qed.

Lemma emit_all_wire_grows (evs : list (Z * SseEvent)) (s : Store) (x : Conn * Frame) :
  In x (wire s) -> In x (wire (emit_all evs s)).
Proof.
  revert s. induction evs as [| e evs IH]; intros s H; [exact H |].
  cbn [emit_all fold_left]. apply IH. now apply sseEmit_wire_grows.
Qed.

Lemma emit_all_delivers (evs : list (Z * SseEvent)) (s : Store) (uid : Z)
  (ev : SseEvent) (set : list Conn) (c : Conn) :
  In (uid, ev) evs -> sseClients s !! uid = Some set -> In c set ->
  In (c, named ev) (wire (emit_all evs s)).
Proof.
  revert s. induction evs as [| e evs IH]; intros s Hin Hset Hc; [contradiction |].
  cbn [emit_all fold_left]. fold (emit_all evs (sseEmit (fst e) (snd e) s)).
  destruct Hin as [-> | Hin].
  - apply emit_all_wire_grows. cbn [fst snd]. now apply (sseEmit_delivers uid ev s set c).
  - apply IH; [exact Hin | now rewrite sseEmit_clients | exact Hc].
Qed.

(** A tick with a numeric threshold. *)
Lemma run_tick (now : Timestamp) (sec : Z) (s : Store) :
  DUELLO_IDLE_ABORT_SEC penv = Some sec ->
  run now duelloIdleAbortTick s =
  (emit_all
     (flat_map (fun m => [(m_user_a_id m, match_abandoned (m_id m));
                          (m_user_b_id m, match_abandoned (m_id m))])
        (List.filter (idle_match sec now) (duello_matches s)))
     (with_matches (sql_update (idle_match sec now) (match_abandon now)) s),
   tt).
Proof.
  intros Hsec. unfold duelloIdleAbortTick. rewrite Hsec.
  cbn [run bind idle_abort_stmt]. rewrite run_emit_abandoned.
  f_equal. f_equal.
  induction (List.filter (idle_match sec now) (duello_matches s)) as [| m l IH];
    [reflexivity |].
  cbn [map flat_map]. now rewrite IH.
Qed.

Lemma abandon_exactly_idle (sec : Z) (now : Timestamp) (l : list Match) :
  Forall2 (fun m m' =>
             (is_idle sec now m ->
              m' = match_abandon now m /\ m_state m' = abandoned /\
              m_ended_reason m' = Some "idle_timeout") /\
             (~ is_idle sec now m -> m' = m))
    l (sql_update (idle_match sec now) (match_abandon now) l).
Proof.
  unfold sql_update. induction l as [| m l IH]; cbn; constructor; [| exact IH].
  destruct (idle_match sec now m) eqn:E.
  - split; [intros _; repeat split | intros Hn].
    exfalso. apply Hn. now apply idle_match_is_idle.
  - split; [intros Hy | reflexivity].
    apply idle_match_is_idle in Hy. congruence.
Qed.

(** ** Question Set Generator *)



Section OrderByFacts.
Context {A : Type} (leb : A -> A -> bool).
Hypothesis leb_total : forall x y, leb x y = true \/ leb y x = true.
Hypothesis leb_trans : forall x y z, leb x y = true -> leb y z = true -> leb x z = true.


Lemma insert_sorted_perm (x : A) (l : list A) :
  Permutation (insert_sorted leb x l) (x :: l).
Proof.
  induction l as [| y l IH]; cbn; [reflexivity |].
  destruct (leb x y); [reflexivity |].
  rewrite IH. apply perm_swap.
Qed.

Lemma order_by_perm (l : list A) : Permutation (order_by leb l) l.
Proof.
  induction l as [| x l IH]; cbn; [reflexivity |].
  rewrite insert_sorted_perm. now constructor.
Qed.

End OrderByFacts.

Lemma order_by_numbered (matchId i : Z) (ids : list Z) :
  order_by (fun x y => mq_pos x <=? mq_pos y) (numbered matchId i ids)
  = numbered matchId i ids.
Proof.
  revert i. induction ids as [| qid ids IH]; intros i; cbn; [reflexivity |].
  rewrite IH. destruct ids as [| qid' ids]; cbn; [reflexivity |].
  destruct (Z.leb_spec i (i + 1)); [reflexivity | lia].
Qed.

Lemma filter_numbered (matchId i : Z) (ids : list Z) :
  List.filter (fun r => mq_match_id r =? matchId) (numbered matchId i ids)
  = numbered matchId i ids.
Proof.
  revert i. induction ids as [| qid ids IH]; intros i; cbn; [reflexivity |].
  now rewrite Z.eqb_refl, IH.
Qed.

Lemma order_by_nil {A : Type} (leb : A -> A -> bool) (l : list A) :
  order_by leb l = [] -> l = [].
Proof.
  destruct l as [| x l]; [reflexivity |]. cbn.
  destruct (order_by leb l) as [| y l']; cbn; [discriminate |].
  destruct (leb x y); discriminate.
Qed.

Lemma with_match_questions_nil (s : Store) :
  with_match_questions (fun l => l ++ []) s = s.
Proof. destruct s. unfold with_match_questions. cbn. now rewrite app_nil_r. Qed.

Lemma with_match_questions_app (l1 l2 : list MatchQuestion) (s : Store) :
  with_match_questions (fun l => l ++ l2) (with_match_questions (fun l => l ++ l1) s)
  = with_match_questions (fun l => l ++ (l1 ++ l2)) s.
Proof. unfold with_match_questions. cbn. now rewrite app_assoc. Qed.

(** The insert loop on a match whose rows all lie below position [i]. *)
Lemma run_insert_question_loop (now : Timestamp) (matchId i : Z) (ids : list Z)
  (s : Store) :
  (forall r, In r (duello_match_questions s) -> mq_match_id r = matchId -> mq_pos r < i) ->
  run now (insert_question_loop matchId i ids) s =
  (with_match_questions (fun l => l ++ numbered matchId i ids) s, tt).
Proof.
  revert i s. induction ids as [| qid ids IH]; intros i s Hbelow;
    cbn [insert_question_loop numbered].
  - cbn [run]. now rewrite with_match_questions_nil.
  - hstep. unfold insert_match_question.
    assert (E : exists_row (fun r => (mq_match_id r =? matchId) && (mq_pos r =? i))
                  (duello_match_questions s) = false).
    { rewrite exists_row_existsb. apply not_true_is_false. intros H.
      apply existsb_exists in H. destruct H as [r [Hr Hc]].
      apply andb_true_iff in Hc. destruct Hc as [H1 H2].
      apply Z.eqb_eq in H1, H2. specialize (Hbelow r Hr H1). lia. }
    rewrite E, IH.
    + now rewrite with_match_questions_app.
    + store_simpl. intros r Hr Hm. apply in_app_or in Hr. destruct Hr as [Hr | Hr].
      * specialize (Hbelow r Hr Hm). lia.
      * destruct Hr as [<- | []]. cbn. lia.
Qed.

Lemma question_set_empty (matchId : Z) (s : Store) :
  question_set_of matchId s = [] ->
  List.filter (fun r => mq_match_id r =? matchId) (duello_match_questions s) = [].
Proof. unfold question_set_of. apply order_by_nil. Qed.

(** A call that finds rows returns them and writes nothing. *)
Lemma ensure_existing (now : Timestamp) (m : Match) (s : Store) :
  question_set_of (m_id m) s <> [] ->
  run now (ensureDuelloQuestionSet m) s = (s, question_set_of (m_id m) s).
Proof.
  intros H. unfold ensureDuelloQuestionSet. hstep.
  destruct (question_set_of (m_id m) s); [contradiction | reflexivity].
Qed.

(** A call that finds none writes the picked questions at 1, 2, ... *)
Lemma ensure_generates (now : Timestamp) (m : Match) (s : Store) :
  question_set_of (m_id m) s = [] ->
  let rows := numbered (m_id m) 1 (pick_questions (m_id m) (question_total m) s) in
  run now (ensureDuelloQuestionSet m) s =
  (with_match_questions (fun l => l ++ rows) s, rows).
Proof.
  intros H rows. unfold ensureDuelloQuestionSet. hstep. rewrite H.
  hstep. rewrite run_bind.
  pose proof (question_set_empty _ _ H) as Hnone.
  rewrite run_insert_question_loop.
  2:{ intros r Hr Hm. exfalso.
      assert (Hin : In r (List.filter (fun r => mq_match_id r =? m_id m)
                            (duello_match_questions s))).
      { apply filter_In. split; [exact Hr | now apply Z.eqb_eq]. }
      rewrite Hnone in Hin. exact Hin. }
  hstep. unfold question_set_of. store_simpl.
  rewrite List.filter_app, Hnone, filter_numbered. cbn [app].
  fold rows. unfold rows. now rewrite order_by_numbered.
Qed.

Section OrderBySorted.
Context {A : Type} (leb : A -> A -> bool).
Hypothesis leb_total : forall x y, leb x y = true \/ leb y x = true.
Hypothesis leb_trans : forall x y z, leb x y = true -> leb y z = true -> leb x z = true.


End OrderBySorted.







(** ** What gets stored *)

Lemma canonical_known (s : string) : In s canonical -> In s known_spellings.
Proof.
  unfold canonical, known_spellings, evet, hayir, bilmem. cbn [In].
  intros [<- | [<- | [<- | []]]];
    [left | right; left | do 3 right; left]; reflexivity.
Qed.

Lemma normalizeDuelloAnswer_Some (mode : Mode) (raw : Js.value) (norm : string) :
  normalizeDuelloAnswer mode raw = Some norm -> norm = normalizeAnswer raw.
Proof.
  unfold normalizeDuelloAnswer. destruct (_ && _); [discriminate |].
  intros H. now injection H as <-.
Qed.

(** An accepted answer is on record under the caller's name with the
    normalised value. *)
Lemma submitAnswer_stores (now : Timestamp) (req : AnswerRequest) (s s' : Store)
  (m : Match) (qid : Z) (norm : string) (locked : bool) :
  answer_reaches req s m qid norm ->
  run now (submitAnswer req) s = (s', Ok locked) ->
  exists row,
    In row (duello_answers s') /\
    a_match_id row = aq_match_id req /\ a_question_id row = qid /\
    a_user_id row = aq_user_id req /\ a_answer row = norm.
Proof.
  intros Hreach Hrun.
  rewrite (submitAnswer_reaches now req s m qid norm Hreach) in Hrun.
  cbv zeta in Hrun.
  destruct (exists_row _ (duello_answers s)); [discriminate |].
  destruct (m_mode m).
  - (* info *)
    unfold record_info in Hrun. cbn [run bind] in Hrun. unfold insert_answer in Hrun.
    destruct (answer_max_seconds req) as [mx |]; [| discriminate].
    destruct (exists_row _ _); [discriminate |].
    cbn in Hrun. injection Hrun as <- _.
    eexists. split; [apply in_or_app; right; now left |]. repeat split.
  - (* speed *)
    unfold record_speed in Hrun. cbn [run bind] in Hrun.
    unfold insert_first_answer in Hrun.
    destruct (answer_max_seconds req) as [mx |]; [| discriminate].
    destruct (answers_of _ _ _); [| discriminate].
    hstep_in Hrun.
    match type of Hrun with
    | run _ (if ?c then _ else _) ?st = _ =>
        assert (Hin : exists row, In row (duello_answers st) /\
                       a_match_id row = aq_match_id req /\ a_question_id row = qid /\
                       a_user_id row = aq_user_id req /\ a_answer row = norm)
          by (eexists; split; [apply in_or_app; right; now left | repeat split]);
        destruct c
    end.
    + injection Hrun as <- _. exact Hin.
    + cbn [run] in Hrun. unfold insert_answer in Hrun.
      destruct (exists_row _ _); [discriminate |].
      cbn in Hrun. injection Hrun as <- _.
      destruct Hin as (row & Hrow & Hf). exists row. split; [| exact Hf].
      store_simpl. store_simpl_in Hrow. apply in_or_app. now left.
Qed.

(** ** Handlers in flight *)

(** A handler in flight can be run to its end by the server. *)
Lemma run_reachable (allowed : Request -> Prop) (now : Timestamp) (h : Handler unit)
  (s : Store) (before after : list (Handler unit)) :
  reachable_from allowed
    {| store := s; in_flight := before ++ h :: after |}
    {| store := fst (run now h s);
       in_flight := before ++ Return (snd (run now h s)) :: after |}.
Proof.
  set (sv0 := {| store := s; in_flight := before ++ h :: after |}).
  assert (G : forall h' s',
             reachable_from allowed sv0
               {| store := s'; in_flight := before ++ h' :: after |} ->
             reachable_from allowed sv0
               {| store := fst (run now h' s');
                  in_flight := before ++ Return (snd (run now h' s')) :: after |}).
  { induction h' as [u | X stmt k IH]; intros s' Hreach; cbn [run fst snd].
    - exact Hreach.
    - destruct (stmt now s') as [s'' x] eqn:E. apply IH.
      apply (reach_step allowed sv0 _ _ Hreach).
      exact (step_statement allowed
               {| store := s'; in_flight := before ++ Await stmt k :: after |}
               before after X stmt k now s'' x eq_refl E). }
  apply G. constructor.
Qed.

(** So can its first [n] statements. *)
Lemma run_steps_reachable (allowed : Request -> Prop) (n : nat) (now : Timestamp)
  (h : Handler unit) (s : Store) (before after : list (Handler unit)) :
  reachable_from allowed
    {| store := s; in_flight := before ++ h :: after |}
    {| store := fst (run_steps n now h s);
       in_flight := before ++ snd (run_steps n now h s) :: after |}.
Proof.
  set (sv0 := {| store := s; in_flight := before ++ h :: after |}).
  assert (G : forall n' h' s',
             reachable_from allowed sv0
               {| store := s'; in_flight := before ++ h' :: after |} ->
             reachable_from allowed sv0
               {| store := fst (run_steps n' now h' s');
                  in_flight := before ++ snd (run_steps n' now h' s') :: after |}).
  { induction n' as [| n' IH]; intros h' s' Hreach; cbn [run_steps fst snd].
    - exact Hreach.
    - destruct h' as [u | X stmt k]; [exact Hreach |].
      destruct (stmt now s') as [s'' x] eqn:E. apply IH.
      apply (reach_step allowed sv0 _ _ Hreach).
      exact (step_statement allowed
               {| store := s'; in_flight := before ++ Await stmt k :: after |}
               before after X stmt k now s'' x eq_refl E). }
  apply G. constructor.
Qed.

Lemma reachable_trans (allowed : Request -> Prop) (sv1 sv2 sv3 : Server) :
  reachable_from allowed sv1 sv2 -> reachable_from allowed sv2 sv3 ->
  reachable_from allowed sv1 sv3.
Proof.
  intros H12 H23. induction H23 as [| sv sv' H23 IH Hstep]; [exact H12 |].
  exact (reach_step allowed sv1 sv sv' IH Hstep).
Qed.

(** In every state the server reaches, the matches table has only grown
    at its end and no match that had left [active] is [active]. *)
Lemma state_never_returns_to_active (sv0 sv : Server) :
  in_flight sv0 = [] ->
  reachable_from any_request sv0 sv ->
  never_reactivated (store sv0) (store sv).
Proof.
  intros H0 Hreach.
  exact (reachable_granted never_reactivated granted_never_reactivated any_request
           sv0 sv H0 Hreach).
Qed.

(** ** Which terminating writes carry the guard *)

(** The sweeper's update and the lazy completion leave a match that is not
    active as it is. *)
Lemma abandon_is_guarded (sec : Z) (now : Timestamp) (m : Match) :
  m_state m <> active ->
  (if idle_match sec now m then match_abandon now m else m) = m.
Proof.
  intros H. unfold idle_match.
  destruct (m_state m); [contradiction | reflexivity | reflexivity].
Qed.

Lemma lazy_finish_is_guarded (now : Timestamp) (m : Match) :
  m_state m <> active ->
  (if over_complete m then match_finish now m else m) = m.
Proof.
  intros H. unfold over_complete.
  destruct (m_state m); [contradiction | reflexivity | reflexivity].
Qed.

(** The three terminating updates of [reveal] select on the id alone:
    whatever state the row is in, it comes out [finished]. *)
Lemma reveal_finish_is_unguarded (now : Timestamp) (matchId idx : Z) (m : Match) :
  m_id m = matchId ->
  map m_state (sql_update (fun r => m_id r =? matchId) (match_finish now) [m])
  = [finished] /\
  map m_state (sql_update (fun r => m_id r =? matchId) (match_finish_at now idx) [m])
  = [finished].
Proof.
  intros <-. unfold sql_update. cbn [map]. rewrite Z.eqb_refl. split; reflexivity.
Qed.

(** ** Concurrent reveals *)

Section Keeping.
Context (I : Store -> Prop) (allowed : Request -> Prop).
Hypothesis I_sse : forall f g s, I s -> I (with_sse f g s).
Hypothesis I_handlers : forall r, allowed r -> Keeps I (handler_of r).

Lemma keeps_await_inv {A X : Type} (stmt : Timestamp -> Store -> Store * X)
  (k : X -> Handler A) :
  Keeps I (Await stmt k) ->
  (forall now s, I s -> I (fst (stmt now s))) /\
  (forall now s, I s -> Keeps I (k (snd (stmt now s)))).
Proof.
  intros H.
  change (match Await stmt k with
          | Return _ => True
          | Await stmt' k' =>
              (forall now s, I s -> I (fst (stmt' now s))) /\
              (forall now s, I s -> Keeps I (k' (snd (stmt' now s))))
          end).
  destruct H; [exact Logic.I | split; assumption].
Qed.

Lemma server_step_keeps (sv sv' : Server) :
  I (store sv) -> Forall (Keeps I) (in_flight sv) ->
  server_step allowed sv sv' ->
  I (store sv') /\ Forall (Keeps I) (in_flight sv').
Proof.
  intros HI Hfl Hstep. destruct Hstep as
    [sv r Hr | sv uid c | sv uid c | sv before after X stmt k now s' x Hin Hstmt
    | sv before after u Hin]; cbn [store in_flight].
  - split; [exact HI |].
    apply Forall_app. split; [exact Hfl |].
    constructor; [apply (I_handlers r Hr) | constructor].
  - split; [now apply I_sse | exact Hfl].
  - split; [| exact Hfl]. unfold sseRemove.
    destruct (sseClients (store sv) !! uid); [| exact HI].
    destruct (List.filter _ _); now apply I_sse.
  - rewrite Hin in Hfl. apply Forall_app in Hfl. destruct Hfl as [Hb Ha].
    inversion Ha as [| h l Hh Hl]; subst.
    destruct (keeps_await_inv stmt k Hh) as [Hs Hk].
    specialize (Hs now (store sv) HI). specialize (Hk now (store sv) HI).
    rewrite Hstmt in Hs, Hk. cbn [fst snd] in Hs, Hk.
    split; [exact Hs |].
    apply Forall_app. split; [exact Hb |]. constructor; [exact Hk | exact Hl].
  - rewrite Hin in Hfl. apply Forall_app in Hfl. destruct Hfl as [Hb Ha].
    inversion Ha; subst.
    split; [exact HI |]. apply Forall_app. now split.
Qed.

Lemma reachable_keeps (sv0 sv : Server) :
  I (store sv0) -> Forall (Keeps I) (in_flight sv0) ->
  reachable_from allowed sv0 sv ->
  I (store sv) /\ Forall (Keeps I) (in_flight sv).
Proof.
  intros HI H0 Hreach. induction Hreach as [| sv sv' Hreach IH Hstep].
  - split; assumption.
  - destruct IH as [HI' Hfl]. exact (server_step_keeps sv sv' HI' Hfl Hstep).
Qed.
End Keeping.







Lemma keeps_bind (I : Store -> Prop) {A B : Type} (h : Handler A)
  (f : A -> Handler B) :
  Keeps I h -> (forall a, Keeps I (f a)) -> Keeps I (bind h f).
Proof.
  intros Hh Hf. induction Hh as [a | X stmt k Hstmt Hk IH]; cbn.
  - apply Hf.
  - apply keeps_await; [exact Hstmt | exact IH].
Qed.






(** * The claims *)



(** C10.  An invite request that passes validation finishes, before the
    active-match checks, every active match of the whole table whose
    [current_index] has reached [total_questions], setting [finished_at]; no
    other match row changes.  So no active match is left over-complete, an
    [AlreadyActive] reply is always owed to a match with questions still to
    go, and a party whose active matches are all over-complete is not turned
    away with [AlreadyActive]. *)
Theorem createInvite_lazy_completion (now : Timestamp) (req : InviteRequest)
  (s s' : Store) (r : Response Invite) (toUser : User) (mode : Mode) :
  invite_validated req s toUser mode ->
  run now (createInvite req) s = (s', r) ->
  let fromId := rq_from_user_id req in
  let toId := u_id toUser in
  duello_matches s' =
    map (fun m => if MatchState_eqb (m_state m) active &&
                     (m_total_questions m <=? m_current_index m)
                  then match_finish now m else m) (duello_matches s) /\
  (forall m, In m (duello_matches s') -> m_state m = active ->
             m_current_index m < m_total_questions m) /\
  (forall who, r = Fail (AlreadyActive who) ->
     exists m, In m (duello_matches s) /\ m_state m = active /\
               inThisMatch m (party_id who fromId toId) = true /\
               m_current_index m < m_total_questions m) /\
  ((forall m, In m (duello_matches s) -> m_state m = active ->
              inThisMatch m fromId = true \/ inThisMatch m toId = true ->
              m_total_questions m <= m_current_index m) ->
   forall who, r <> Fail (AlreadyActive who)).
Proof.
  intros Hval Hrun fromId toId.
  rewrite (createInvite_validated now req s toUser mode Hval) in Hrun.
  cbv zeta in Hrun. fold fromId toId in Hrun.
  assert (Hbusy : forall u, busy u s = true ->
            exists m, In m (duello_matches s) /\ m_state m = active /\
                      inThisMatch m u = true /\
                      m_current_index m < m_total_questions m).
  { intros u Hb. unfold busy in Hb. rewrite exists_row_existsb in Hb.
    apply existsb_exists in Hb. destruct Hb as [m [Hin Hm]].
    apply andb_true_iff in Hm. destruct Hm as [Ha Ho].
    unfold active_for in Ha. apply andb_true_iff in Ha. destruct Ha as [Hst Hu].
    exists m. repeat split; try assumption.
    - destruct (m_state m); try discriminate Hst; reflexivity.
    - unfold over_complete in Ho. rewrite Hst in Ho. cbn in Ho.
      apply negb_true_iff, Z.leb_gt in Ho. exact Ho. }
  assert (Hm : duello_matches s' =
               map (fun m => if over_complete m then match_finish now m else m)
                 (duello_matches s)).
  { destruct (busy fromId s); [injection Hrun as <- _; reflexivity |].
    destruct (busy toId s); [injection Hrun as <- _; reflexivity |].
    destruct (exists_row _ (duello_invites s));
      injection Hrun as <- _; [reflexivity |].
    now rewrite sseEmit_matches. }
  assert (Hwho : forall who, r = Fail (AlreadyActive who) ->
                             busy (party_id who fromId toId) s = true).
  { intros who ->.
    destruct (busy fromId s) eqn:B1.
    { injection Hrun as _ <-. exact B1. }
    destruct (busy toId s) eqn:B2.
    { injection Hrun as _ <-. exact B2. }
    destruct (exists_row _ (duello_invites s)); discriminate Hrun. }
  repeat split.
  - exact Hm.
  - intros m Hin Hst. rewrite Hm in Hin. apply in_map_iff in Hin.
    destruct Hin as [m0 [E Hin0]].
    destruct (over_complete m0) eqn:Ho.
    + subst m. cbn in Hst. discriminate Hst.
    + subst m0. unfold over_complete in Ho. rewrite Hst in Ho. cbn in Ho.
      now apply Z.leb_gt in Ho.
  - intros who Hr. exact (Hbusy _ (Hwho who Hr)).
  - intros Hall who Hr.
    destruct (Hbusy _ (Hwho who Hr)) as [m (Hin & Hst & Hu & Hlt)].
    assert (m_total_questions m <= m_current_index m).
    { apply (Hall m Hin Hst). destruct who; cbn in Hu; auto. }
    lia.
Qed.

(** C9.  The running scores of the status reply and the scores of the
    summary reply are the same function of the recorded answers: whatever
    the rows, [duelloScores] and [duelloMatchTotals] give each of the two
    users the same signed sum, and a status reply followed by a summary
    reply for the same match carry the same two scores. *)
Theorem status_and_summary_scores_agree :
  (forall (now now' : Timestamp) (matchId aId bId : Z) (s : Store),
      let totals := snd (run now' (duelloMatchTotals matchId) s) in
      snd (run now (duelloScores matchId aId bId) s) =
        (t_score (stats_or_zero totals aId), t_score (stats_or_zero totals bId))) /\
  (forall (now1 now2 : Timestamp) (matchId user1 user2 : Z) (s s1 s2 : Store)
          (st : StatusBody) (sm : SummaryBody),
      run now1 (matchStatus matchId user1) s = (s1, Ok st) ->
      run now2 (matchSummary matchId user2) s1 = (s2, Ok sm) ->
      st_scores st = (t_score (sm_a sm), t_score (sm_b sm))).
Proof.
  split.
  - intros now now' matchId aId bId s totals. subst totals.
    rewrite run_duelloScores, run_duelloMatchTotals. cbn [snd].
    now rewrite !score_column_totals.
  - intros now1 now2 matchId user1 user2 s s1 s2 st sm Hst Hsm.
    destruct (matchStatus_scores now1 matchId user1 s s1 st Hst)
      as (m & Hrow & F & Hscores).
    destruct (matchSummary_totals now2 matchId user2 s1 s2 sm Hsm)
      as (m1 & Hrow1 & Ha & Hb).
    destruct F as (Fa & Fq & Fm).
    destruct (first_row_users matchId _ _ m1 Fm Hrow1) as (m0 & Hrow0 & Ua & Ub).
    rewrite Hrow in Hrow0. injection Hrow0 as <-.
    rewrite Hscores, Ha, Hb, Ua, Ub.
    rewrite (answers_with_questions_frame matchId s s1 (conj Fa (conj Fq Fm))).
    now rewrite !score_column_totals.
Qed.

(** C5.  The idle threshold, when the configured value is a number, lies
    in 30..600 seconds and is 90 when nothing is configured.  A sweeper
    tick then turns into [abandoned], with [ended_reason] ['idle_timeout'],
    exactly the matches that are active, have a side last seen (never
    counting as the epoch) more than the threshold ago, and have
    [current_index < total_questions]; every other match row, and every
    other table, stays as it is.  For each match abandoned in the tick,
    [match:abandoned] with its id is written to every connection of both of
    its users. *)
Theorem idle_sweep (now : Timestamp) (sec : Z) (s : Store) :
  DUELLO_IDLE_ABORT_SEC penv = Some sec ->
  let s' := fst (run now duelloIdleAbortTick s) in
  30 <= sec <= 600 /\
  (env_DUELLO_IDLE_ABORT_SEC penv = None -> sec = 90) /\
  Forall2 (fun m m' =>
             (is_idle sec now m ->
              m' = match_abandon now m /\ m_state m' = abandoned /\
              m_ended_reason m' = Some "idle_timeout") /\
             (~ is_idle sec now m -> m' = m))
    (duello_matches s) (duello_matches s') /\
  duello_invites s' = duello_invites s /\
  duello_answers s' = duello_answers s /\
  duello_match_questions s' = duello_match_questions s /\
  (forall m, In m (duello_matches s) -> is_idle sec now m ->
   forall uid set c,
     uid = m_user_a_id m \/ uid = m_user_b_id m ->
     sseClients s !! uid = Some set -> In c set ->
     In (c, named (match_abandoned (m_id m))) (wire s')).
Proof.
  intros Hsec s'. subst s'. rewrite (run_tick now sec s Hsec). cbn [fst].
  split; [exact (idle_threshold_bounds penv sec Hsec) |].
  split.
  { intros Hnone. unfold DUELLO_IDLE_ABORT_SEC in Hsec. rewrite Hnone in Hsec.
    vm_compute in Hsec. now injection Hsec as <-. }
  set (evs := flat_map _ _).
  set (s1 := with_matches _ s).
  destruct (emit_all_tables evs s1) as (Hm & Hi & Ha & Hq & Hc).
  rewrite Hm, Hi, Ha, Hq. subst s1. store_simpl.
  split.
  { apply abandon_exactly_idle. }
  repeat split.
  intros m Hin Hidle uid set c Huid Hset Hcin.
  apply (emit_all_delivers evs _ uid (match_abandoned (m_id m)) set c);
    [| exact Hset | exact Hcin].
  unfold evs. apply in_flat_map. exists m. split.
  - apply filter_In. split; [exact Hin | now apply idle_match_is_idle].
  - destruct Huid as [-> | ->]; [now left | right; now left].
Qed.


(** C6, as the code has it.  [normalizeAnswer] sends the sixteen spellings
    it knows, trimmed and in lower case, into the canonical three answers;
    any other text comes back trimmed and in lower case as it is, which is
    then not canonical, and [null] and [undefined] come back as the empty
    string.  The answer handler stores that value unchanged: an accepted
    answer is on record under the caller's name with exactly the normalised
    value. *)
Theorem answer_normalisation :
  (forall (v : Js.value) (t : string),
      answer_text v = Some t -> Js.includes known_spellings t = true ->
      In (normalizeAnswer v) canonical) /\
  (forall (v : Js.value) (t : string),
      answer_text v = Some t -> Js.includes known_spellings t = false ->
      normalizeAnswer v = t /\ ~ In (normalizeAnswer v) canonical) /\
  (forall (v : Js.value),
      answer_text v = None ->
      normalizeAnswer v = "" /\ ~ In (normalizeAnswer v) canonical) /\
  (forall (now : Timestamp) (req : AnswerRequest) (s s' : Store) (m : Match)
          (qid : Z) (norm : string) (locked : bool),
      answer_reaches req s m qid norm ->
      run now (submitAnswer req) s = (s', Ok locked) ->
      norm = normalizeAnswer (aq_answer req) /\
      exists row,
        In row (duello_answers s') /\
        a_match_id row = aq_match_id req /\ a_question_id row = qid /\
        a_user_id row = aq_user_id req /\
        a_answer row = normalizeAnswer (aq_answer req)).
Proof.
  split; [| split; [| split]].
  - exact normalizeAnswer_known.
  - intros v t Ht Hk.
    pose proof (normalizeAnswer_unknown v t Ht Hk) as E. split; [exact E |].
    rewrite E. intros Hc. apply canonical_known, includes_In in Hc. congruence.
  - intros v Hv. rewrite (normalizeAnswer_null v Hv). split; [reflexivity |].
    unfold canonical, evet, hayir, bilmem. cbn [In].
    intros [H | [H | [H | []]]]; discriminate H.
  - intros now req s s' m qid norm locked Hreach Hrun.
    pose proof Hreach as (_ & _ & _ & _ & _ & _ & Hn).
    apply normalizeDuelloAnswer_Some in Hn.
    split; [exact Hn |]. rewrite <- Hn.
    exact (submitAnswer_stores now req s s' m qid norm locked Hreach Hrun).
Qed.

(** C3, as the code has it.  In a speed-mode match, with the time limit a
    number: a caller who already has a row for the question, the ['bilmem']
    row written for them included, is answered [AlreadyAnswered]; a caller
    without one is answered [QuestionLocked] when some row for the question
    exists; either way no row is written.  When there is no row at all, the
    caller's answer is written, the opponent gets a ['bilmem'] row with
    [is_correct] 0 right after it, the reply is [locked: true], and each of
    the two users then has exactly one row for the question. *)
Theorem speed_first_writer_lock (now : Timestamp) (req : AnswerRequest)
  (s s' : Store) (m : Match) (qid : Z) (norm : string) (mx : Z) (r : Response bool) :
  answer_reaches req s m qid norm ->
  m_mode m = speed ->
  answer_max_seconds req = Some mx ->
  run now (submitAnswer req) s = (s', r) ->
  let matchId := aq_match_id req in
  let userId := aq_user_id req in
  let oppId := opponentId m userId in
  (exists_row (answer_key matchId qid userId) (duello_answers s) = true ->
   r = Fail AlreadyAnswered /\ duello_answers s' = duello_answers s) /\
  (exists_row (answer_key matchId qid userId) (duello_answers s) = false ->
   answers_of matchId qid s <> [] ->
   r = Fail QuestionLocked /\ duello_answers s' = duello_answers s) /\
  (answers_of matchId qid s = [] ->
   m_user_a_id m <> m_user_b_id m ->
   r = Ok true /\
   duello_answers s' =
     duello_answers s ++
       [make_answer (seq_answers s) matchId qid userId norm
          (answer_is_correct (first_row (fun q => q_id q =? qid) (questions s)) norm)
          now mx (answer_left_seconds req);
        make_answer (seq_answers s + 1) matchId qid oppId bilmem 0 now mx 0] /\
   answer_count matchId qid userId s' = 1%nat /\
   answer_count matchId qid oppId s' = 1%nat).
Proof.
  intros Hreach Hmode Hmx Hrun matchId userId oppId.
  pose proof Hreach as (_ & _ & _ & _ & Hin & _ & _).
  rewrite (submitAnswer_reaches now req s m qid norm Hreach) in Hrun.
  fold matchId userId in Hrun. rewrite Hmode, Hmx in Hrun.
  split; [| split].
  - intros Hmine. rewrite Hmine in Hrun. injection Hrun as <- <-.
    split; reflexivity.
  - intros Hmine Hrows. rewrite Hmine in Hrun.
    unfold record_speed in Hrun. cbn [run bind] in Hrun. unfold insert_first_answer in Hrun.
    change (answers_of matchId qid (touched now matchId userId s))
      with (answers_of matchId qid s) in Hrun.
    destruct (answers_of matchId qid s) as [| a l]; [contradiction |].
    cbn in Hrun. injection Hrun as <- <-. split; reflexivity.
  - intros Hrows Hab.
    rewrite (answers_of_nil_no_key matchId qid userId s Hrows) in Hrun.
    destruct (opponentId_other m userId Hin Hab) as [Hopp _]. fold oppId in Hopp.
    unfold record_speed in Hrun. cbn [run bind] in Hrun. unfold insert_first_answer in Hrun.
    change (answers_of matchId qid (touched now matchId userId s))
      with (answers_of matchId qid s) in Hrun.
    rewrite Hrows in Hrun. hstep_in Hrun.
    fold oppId in Hrun. store_simpl_in Hrun.
    rewrite exists_row_existsb, existsb_app in Hrun.
    rewrite <- exists_row_existsb in Hrun.
    change (duello_answers (touched now matchId userId s))
      with (duello_answers s) in Hrun.
    rewrite (answers_of_nil_no_key matchId qid oppId s Hrows) in Hrun.
    cbn [existsb orb] in Hrun. rewrite answer_key_make in Hrun.
    rewrite (neq_eqb_false userId oppId) in Hrun by congruence.
    cbn [orb] in Hrun. hstep_in Hrun.
    unfold insert_answer in Hrun.
    rewrite exists_row_existsb in Hrun. store_simpl_in Hrun.
    rewrite existsb_app, <- exists_row_existsb in Hrun.
    rewrite (answers_of_nil_no_key matchId qid oppId s Hrows) in Hrun.
    cbn [existsb orb] in Hrun. rewrite answer_key_make in Hrun.
    rewrite (neq_eqb_false userId oppId) in Hrun by congruence.
    cbn [orb] in Hrun. cbn in Hrun.
    injection Hrun as <- <-.
    split; [reflexivity |].
    split.
    { cbn. rewrite <- app_assoc. reflexivity. }
    unfold answer_count. store_simpl.
    rewrite !List.filter_app. cbn [List.filter].
    rewrite !answer_key_make, !Z.eqb_refl.
    rewrite (neq_eqb_false userId oppId) by congruence.
    rewrite (neq_eqb_false oppId userId) by congruence.
    unfold answers_of in Hrows.
    rewrite !(filter_answer_key_nil _ _ _ _ Hrows).
    split; reflexivity.
Qed.

(** C1, as the code has it.  From a store in which no user is referenced
    by two active matches, a fresh one for instance, every state the
    server reaches, under any interleaving of the statements of any
    requests, is such a store again.  While only answers to invites come
    in, concurrently or not, the matches table only grows, by active rows,
    and for each user at most one new match references them, none when
    they held an active match to begin with.  The accept transaction
    answers [AlreadyActive] exactly when its invite is pending and
    unexpired and a party holds an active match, and a failing transaction
    inserts no match.  After an accept has succeeded, though, the invited
    user who accepts another invite naming one of the two matched users is
    answered [NotPending]: the successful accept cancelled it. *)
Theorem single_active_match :
  (forall sv0 sv : Server,
      in_flight sv0 = [] -> single_active (store sv0) ->
      reachable_from any_request sv0 sv -> single_active (store sv)) /\
  (forall (us : list User) (svs : list Survey) (qs : list Question) (sv : Server),
      reachable_from any_request (fresh_server us svs qs) sv ->
      single_active (store sv)) /\
  (forall sv0 sv : Server,
      in_flight sv0 = [] -> single_active (store sv0) ->
      reachable_from invite_responses sv0 sv ->
      exists newer,
        duello_matches (store sv) = duello_matches (store sv0) ++ newer /\
        Forall (fun m => m_state m = active) newer /\
        forall uid,
          (List.length (List.filter (fun m => inThisMatch m uid) newer)
           + active_count uid (store sv0) <= 1)%nat) /\
  (forall (inviteId fromId toId : Z) (now : Timestamp) (s : Store) (who : Party),
      snd (accept_tx inviteId fromId toId now s) = inl (AlreadyActive who) <->
      exists inv,
        first_row (fun i => i_id i =? inviteId) (duello_invites s) = Some inv /\
        i_status inv = pending /\ now < i_expire_at inv /\
        match who with
        | sender => holds_active fromId s = true
        | receiver => holds_active fromId s = false /\ holds_active toId s = true
        end) /\
  (forall (inviteId fromId toId : Z) (now : Timestamp) (s : Store) (e : Failure),
      snd (accept_tx inviteId fromId toId now s) = inl e ->
      duello_matches (fst (accept_tx inviteId fromId toId now s)) = duello_matches s) /\
  (forall (now now2 : Timestamp) (req req2 : RespondRequest) (s s1 : Store)
          (m : Match) (j : Invite),
      run now (respondInvite req) s = (s1, Ok (Accepted m)) ->
      now <= now2 ->
      rq_invite_id req2 <> 0 -> rq_user_id req2 <> 0 ->
      Js.includes ["accept"; "reject"]
        (Js.toLowerCase (Js.env_or (rq_action req2) "")) = true ->
      first_row (fun i => i_id i =? rq_invite_id req2) (duello_invites s1) = Some j ->
      i_to_user_id j = rq_user_id req2 ->
      invite_touches (m_user_a_id m) j \/ invite_touches (m_user_b_id m) j ->
      snd (run now2 (respondInvite req2) s1) = Fail NotPending).
Proof.
  split; [| split; [| split; [| split; [| split]]]].
  - exact single_active_reachable.
  - intros us svs qs sv Hreach.
    apply (single_active_reachable (fresh_server us svs qs) sv eq_refl); [| exact Hreach].
    apply single_active_fresh.
  - exact accepts_create_at_most_one.
  - exact accept_tx_already_active.
  - exact accept_tx_failure.
  - exact respond_after_accept.
Qed.

(** * Further properties of the duel code *)

(** ** The connection registry *)

Lemma sseEmit_wire (uid : Z) (ev : SseEvent) (s : Store) :
  wire (sseEmit uid ev s) = wire s ++ frames_of ev (connections uid s).
Proof.
  unfold sseEmit, connections, frames_of.
  destruct (sseClients s !! uid) as [[| c l] |]; cbn [default flat_map];
    [now rewrite app_nil_r | reflexivity | now rewrite app_nil_r].
Qed.

Lemma existsb_eqb_false (c : Conn) (l : list Conn) :
  ~ In c l -> existsb (Nat.eqb c) l = false.
Proof.
  intros H. induction l as [| x l IH]; cbn; [reflexivity |].
  destruct (Nat.eqb_spec c x) as [-> | Hne]; [exfalso; apply H; now left |].
  apply IH. intros Hin. apply H. now right.
Qed.

Lemma filter_out_absent (c : Conn) (l : list Conn) :
  ~ In c l -> @List.filter Conn (fun r : nat => negb (Nat.eqb c r)) l = l.
Proof.
  intros H. induction l as [| x l IH]; cbn; [reflexivity |].
  destruct (Nat.eqb_spec c x) as [-> | Hne]; [exfalso; apply H; now left |].
  cbn. f_equal. apply IH. intros Hin. apply H. now right.
Qed.

(** X1.  A connection that opens is registered after the ones the user
    already has, and an event for the user is then written to each of them
    in turn, the named frame before the fallback frame.  Once the
    connection has closed the registry is what it was before it opened, and
    an event is written to the older connections only. *)
Theorem sse_registry_round_trip (uid : Z) (c : Conn) (ev : SseEvent) (s : Store) :
  ~ In c (connections uid s) ->
  sseClients s !! uid <> Some [] ->
  let opened := sseAdd uid c s in
  let closed := sseRemove uid c opened in
  connections uid opened = connections uid s ++ [c] /\
  wire (sseEmit uid ev opened) =
    wire s ++ frames_of ev (connections uid s) ++ [(c, named ev); (c, fallback ev)] /\
  sseClients closed = sseClients s /\
  wire (sseEmit uid ev closed) = wire s ++ frames_of ev (connections uid s).
Proof.
  intros Hc Hne. cbv zeta.
  assert (Hopen : sseClients (sseAdd uid c s)
                  = <[uid := connections uid s ++ [c]]> (sseClients s)).
  { unfold sseAdd. cbv zeta. cbn [with_sse sseClients].
    change (default [] (sseClients s !! uid)) with (connections uid s).
    rewrite (existsb_eqb_false c _ Hc). reflexivity. }
  remember (sseAdd uid c s) as opened eqn:Eo.
  assert (Hconn : connections uid opened = connections uid s ++ [c]).
  { unfold connections at 1. rewrite Hopen, lookup_insert_eq. reflexivity. }
  assert (Hclosed : sseClients (sseRemove uid c opened) = sseClients s).
  { unfold sseRemove. rewrite Hopen, lookup_insert_eq. cbv zeta.
    rewrite List.filter_app, (filter_out_absent c _ Hc). cbn [List.filter].
    rewrite Nat.eqb_refl. cbn [negb]. rewrite app_nil_r.
    unfold connections in *.
    destruct (sseClients s !! uid) as [[| x l] |] eqn:E;
      cbn [from_option id with_sse sseClients].
    - contradiction.
    - rewrite Hopen, insert_insert_eq. now apply insert_id.
    - rewrite Hopen. now apply delete_insert_id. }
  split; [exact Hconn |]. split.
  { rewrite sseEmit_wire, Hconn. unfold frames_of. rewrite flat_map_app.
    cbn [flat_map]. rewrite app_nil_r.
    assert (Hw : wire opened = wire s) by (subst opened; reflexivity).
    now rewrite Hw. }
  split; [exact Hclosed |].
  rewrite sseEmit_wire. unfold connections at 1. rewrite Hclosed.
  fold (connections uid s). f_equal.
  assert (Hw : wire opened = wire s) by (subst opened; reflexivity).
  rewrite <- Hw. unfold sseRemove.
  destruct (sseClients opened !! uid); [| reflexivity].
  destruct (List.filter _ _); reflexivity.
Qed.

(** ** Invites *)

Lemma run_expireOldInvites (now : Timestamp) (s : Store) :
  run now expireOldInvites s =
    (with_invites (sql_update (overdue now) invite_expire) s, tt).
Proof. reflexivity. Qed.


Lemma in_sql_update_kept {A : Type} (c : A -> bool) (f : A -> A) (l : list A) (x : A) :
  In x l -> c x = false -> In x (sql_update c f l).
Proof.
  intros Hin Hc. unfold sql_update. apply in_map_iff. exists x.
  rewrite Hc. auto.
Qed.


Lemma sseEmit_users (uid : Z) (ev : SseEvent) (s : Store) :
  users (sseEmit uid ev s) = users s.
Proof. unfold sseEmit. destruct (sseClients s !! uid) as [[| c l] |]; reflexivity. Qed.

Lemma resolve_target_user (req : InviteRequest) (s : Store) (toUser : User) :
  resolve_target req s = Some toUser ->
  exists_row (fun u => u_id u =? u_id toUser) (users s) = true.
Proof.
  intros H. rewrite exists_row_existsb. apply existsb_exists. exists toUser.
  split; [| apply Z.eqb_refl].
  unfold resolve_target in H.
  destruct (negb (rq_to_user_id req =? 0)).
  - now apply first_row_Some in H.
  - destruct (rq_to_user_code req) as [[| a c] |]; try discriminate H.
    now apply first_row_Some in H.
Qed.

(** A successful invite request passed the validation, and the store it
    leaves is the refreshed one with the new row and the notification. *)
Lemma createInvite_success (now : Timestamp) (req : InviteRequest) (s s' : Store)
  (inv : Invite) :
  run now (createInvite req) s = (s', Ok inv) ->
  exists toUser mode,
    invite_validated req s toUser mode /\
    inv = {| i_id := seq_invites s; i_from_user_id := rq_from_user_id req;
             i_to_user_id := u_id toUser; i_mode := mode; i_status := pending;
             i_created_at := now; i_expire_at := now + minutes 5;
             i_accepted_at := None; i_rejected_at := None;
             i_cancelled_at := None; i_match_id := None |} /\
    s' = sseEmit (u_id toUser) (invite_new inv (rq_from_user_id req))
           (with_invites (fun l => l ++ [inv])
              (with_seqs keep (fun n => n + 1) keep (refreshed now s))).
Proof.
  intros Hrun.
  destruct (createInvite_rejected now req s) as (H0 & H1 & H2 & H3).
  destruct (Z.eq_dec (rq_from_user_id req) 0) as [Ef | Ef].
  { rewrite (H0 Ef) in Hrun. discriminate Hrun. }
  destruct (resolve_target req s) as [toUser |] eqn:Hres.
  2:{ rewrite (H1 Ef eq_refl) in Hrun. discriminate Hrun. }
  destruct (request_mode req) as [mode |] eqn:Hmode.
  2:{ rewrite (H2 toUser Ef eq_refl eq_refl) in Hrun. discriminate Hrun. }
  destruct (Z.eq_dec (rq_from_user_id req) (u_id toUser)) as [Es | Es].
  { rewrite (H3 toUser mode Ef eq_refl eq_refl Es) in Hrun. discriminate Hrun. }
  assert (Hval : invite_validated req s toUser mode) by (repeat split; assumption).
  rewrite (createInvite_validated now req s toUser mode Hval) in Hrun.
  cbv zeta in Hrun.
  destruct (busy (rq_from_user_id req) s); [discriminate Hrun |].
  destruct (busy (u_id toUser) s); [discriminate Hrun |].
  destruct (exists_row _ (duello_invites s)); [discriminate Hrun |].
  injection Hrun as <- <-.
  exists toUser, mode. repeat split; assumption.
Qed.

(** X3.  An invite that was just created, by a sender who is a user, is
    listed in the inbox of its target and in the outbox of its sender at
    every time before its expiry, five minutes after its creation; from
    the expiry on it is listed in neither. *)
Theorem invite_shows_in_boxes (now now' : Timestamp) (req : InviteRequest)
  (s s' : Store) (inv : Invite) :
  run now (createInvite req) s = (s', Ok inv) ->
  exists_row (fun u => u_id u =? rq_from_user_id req) (users s) = true ->
  now <= now' ->
  (now' < now + minutes 5 ->
   In inv (snd (run now' (inbox (i_to_user_id inv)) s')) /\
   In inv (snd (run now' (outbox (i_from_user_id inv)) s'))) /\
  (now + minutes 5 <= now' ->
   ~ In inv (snd (run now' (inbox (i_to_user_id inv)) s')) /\
   ~ In inv (snd (run now' (outbox (i_from_user_id inv)) s'))).
Proof.
  intros Hrun Hsender Hle.
  destruct (createInvite_success now req s s' inv Hrun)
    as (toUser & mode & (Hf & Hres & Hmode & Hne) & Einv & Es').
  pose proof (resolve_target_user req s toUser Hres) as Htarget.
  assert (Hin : In inv (duello_invites s')).
  { rewrite Es', sseEmit_invites. store_simpl. apply in_or_app. right. now left. }
  assert (Husers : users s' = users s).
  { rewrite Es', sseEmit_users. reflexivity. }
  assert (Hfrom : i_from_user_id inv = rq_from_user_id req) by (now rewrite Einv).
  assert (Hto : i_to_user_id inv = u_id toUser) by (now rewrite Einv).
  assert (Hexp : i_expire_at inv = now + minutes 5) by (now rewrite Einv).
  assert (Hst : i_status inv = pending) by (now rewrite Einv).
  unfold inbox, outbox. rewrite !run_bind, !run_expireOldInvites.
  cbn [run query fst snd]. store_simpl. rewrite Husers.
  split.
  - intros Hlt.
    assert (Hkept : In inv (sql_update (overdue now') invite_expire (duello_invites s'))).
    { apply in_sql_update_kept; [exact Hin |].
      unfold overdue. rewrite Hst, Hexp. cbn.
      apply Z.leb_gt. lia. }
    split; apply filter_In; (split; [exact Hkept |]);
      rewrite Hst, Hexp, Hfrom, Hto, ?Hsender, ?Htarget, !Z.eqb_refl; cbn;
      rewrite andb_true_r; apply Z.ltb_lt; lia.
  - intros Hge.
    split; intros Hc; apply filter_In in Hc; destruct Hc as [_ Hc];
      rewrite Hexp in Hc;
      apply andb_true_iff in Hc; destruct Hc as [Hc _];
      apply andb_true_iff in Hc; destruct Hc as [_ Hc];
      apply Z.ltb_lt in Hc; lia.
Qed.

Lemma first_row_after_expiry (now : Timestamp) (id : Z) (s : Store) :
  first_row (fun i => i_id i =? id) (duello_invites (after_expiry now s)) =
  option_map (fun j => if overdue now j then invite_expire j else j)
    (first_row (fun i => i_id i =? id) (duello_invites s)).
Proof.
  unfold after_expiry. store_simpl.
  apply (first_row_sql_update_id _ _ _ _ invite_expire_id).
Qed.

(** The answer to an invite up to the look at the row. *)
Lemma respondInvite_wellformed (now : Timestamp) (req : RespondRequest) (s : Store) :
  respond_wellformed req ->
  run now (respondInvite req) s =
    let inviteId := rq_invite_id req in
    let userId := rq_user_id req in
    let s0 := after_expiry now s in
    match first_row (fun i => i_id i =? inviteId) (duello_invites s0) with
    | None => (s0, Fail InviteNotFound)
    | Some inv =>
        if negb (i_to_user_id inv =? userId) then (s0, Fail Forbidden)
        else if negb (InviteStatus_eqb (i_status inv) pending) then (s0, Fail NotPending)
        else if i_expire_at inv <=? now then
          (with_invites (sql_update (fun i => i_id i =? inviteId) invite_expire) s0,
           Fail InviteExpired)
        else if String.eqb (Js.toLowerCase (Js.env_or (rq_action req) "")) "reject" then
          let s1 := with_invites
                      (sql_update (fun i => i_id i =? inviteId) (invite_reject now)) s0 in
          (sseEmit (i_from_user_id inv) (invite_rejected inviteId) s1,
           Ok (Rejected (first_row (fun i => i_id i =? inviteId) (duello_invites s1))))
        else
          match accept_tx inviteId (i_from_user_id inv) (i_to_user_id inv) now s0 with
          | (s0', inl e) => (s0', Fail e)
          | (s0', inr m) =>
              (sseEmit (i_to_user_id inv) (invite_accepted inviteId (m_id m))
                 (sseEmit (i_from_user_id inv) (invite_accepted inviteId (m_id m)) s0'),
               Ok (Accepted m))
          end
    end.
Proof.
  intros (Hi & Hu & Hact). cbv zeta. unfold respondInvite.
  rewrite (neq_eqb_false _ _ Hi), (neq_eqb_false _ _ Hu), Hact. cbn [orb negb].
  hstep. fold (overdue now). fold (after_expiry now s).
  destruct (first_row _ (duello_invites (after_expiry now s))) as [inv |] eqn:Hrow;
    [| reflexivity].
  destruct (negb (i_to_user_id inv =? rq_user_id req)); [reflexivity |].
  destruct (negb (InviteStatus_eqb (i_status inv) pending)); [reflexivity |].
  hstep. rewrite Hrow.
  destruct (i_expire_at inv <=? now); [reflexivity |].
  destruct (String.eqb _ "reject"); [reflexivity |].
  cbn [run bind].
  destruct (accept_tx _ _ _ now (after_expiry now s)) as [s0' [e | m]]; reflexivity.
Qed.

(** An invite that is not pending any more, or is pending past its
    expiry, is answered [NotPending]. *)
Lemma respondInvite_not_pending (now : Timestamp) (req : RespondRequest) (s : Store)
  (j : Invite) :
  respond_wellformed req ->
  first_row (fun i => i_id i =? rq_invite_id req) (duello_invites s) = Some j ->
  i_to_user_id j = rq_user_id req ->
  i_status j <> pending \/ i_expire_at j <= now ->
  run now (respondInvite req) s = (after_expiry now s, Fail NotPending).
Proof.
  intros Hwf Hrow Hto Hnp.
  rewrite (respondInvite_wellformed now req s Hwf). cbv zeta.
  rewrite first_row_after_expiry, Hrow. cbn [option_map].
  destruct (overdue now j) eqn:Eo.
  - cbn [invite_expire invite_set i_to_user_id i_status]. rewrite Hto, Z.eqb_refl.
    reflexivity.
  - rewrite Hto, Z.eqb_refl. cbn [negb].
    destruct (i_status j) eqn:Est; try reflexivity.
    exfalso. destruct Hnp as [Hnp | Hnp]; [congruence |].
    unfold overdue in Eo. rewrite Est in Eo. cbn in Eo. apply Z.leb_gt in Eo. lia.
Qed.

Lemma respondInvite_live (now : Timestamp) (req : RespondRequest) (s : Store)
  (inv : Invite) :
  first_row (fun i => i_id i =? rq_invite_id req) (duello_invites s) = Some inv ->
  i_status inv = pending -> now < i_expire_at inv ->
  first_row (fun i => i_id i =? rq_invite_id req) (duello_invites (after_expiry now s))
  = Some inv.
Proof.
  intros Hrow Hst Hexp. rewrite first_row_after_expiry, Hrow. cbn [option_map].
  unfold overdue. rewrite Hst. cbn.
  destruct (Z.leb_spec (i_expire_at inv) now); [lia | reflexivity].
Qed.

(** X4.  The invited user who rejects a pending invite before its expiry
    gets the row back with status ['rejected'] and the time of the
    rejection; no match is created, the sender is told on every connection
    they have open, and whatever the invited user answers to that invite
    afterwards is turned away as not pending. *)
Theorem respondInvite_reject (now now2 : Timestamp) (req req2 : RespondRequest)
  (s : Store) (inv : Invite) :
  respond_wellformed req ->
  Js.toLowerCase (Js.env_or (rq_action req) "") = "reject" ->
  first_row (fun i => i_id i =? rq_invite_id req) (duello_invites s) = Some inv ->
  i_to_user_id inv = rq_user_id req ->
  i_status inv = pending -> now < i_expire_at inv ->
  let s' := fst (run now (respondInvite req) s) in
  snd (run now (respondInvite req) s) = Ok (Rejected (Some (invite_reject now inv))) /\
  i_status (invite_reject now inv) = rejected /\
  i_rejected_at (invite_reject now inv) = Some now /\
  duello_matches s' = duello_matches s /\
  (forall set c, sseClients s !! i_from_user_id inv = Some set -> In c set ->
                 In (c, named (invite_rejected (rq_invite_id req))) (wire s')) /\
  (respond_wellformed req2 -> rq_invite_id req2 = rq_invite_id req ->
   rq_user_id req2 = rq_user_id req ->
   snd (run now2 (respondInvite req2) s') = Fail NotPending).
Proof.
  intros Hwf Hact Hrow Hto Hst Hexp. cbv zeta.
  rewrite (respondInvite_wellformed now req s Hwf). cbv zeta.
  rewrite (respondInvite_live now req s inv Hrow Hst Hexp).
  rewrite Hto, Z.eqb_refl, Hst. cbn [negb InviteStatus_eqb].
  destruct (Z.leb_spec (i_expire_at inv) now) as [Hle | _]; [lia |].
  rewrite Hact. cbn [String.eqb Ascii.eqb Bool.eqb andb fst snd].
  assert (Hrej : first_row (fun i => i_id i =? rq_invite_id req)
                   (duello_invites
                      (with_invites
                         (sql_update (fun i => i_id i =? rq_invite_id req)
                            (invite_reject now)) (after_expiry now s)))
                 = Some (invite_reject now inv)).
  { store_simpl.
    rewrite (first_row_sql_update_id _ (invite_reject now) _ _ (fun i => eq_refl)).
    fold (duello_invites (after_expiry now s)).
    change (sql_update (overdue now) invite_expire (duello_invites s))
      with (duello_invites (after_expiry now s)).
    rewrite (respondInvite_live now req s inv Hrow Hst Hexp). cbn [option_map].
    apply first_row_Some in Hrow. destruct Hrow as [_ ->]. reflexivity. }
  rewrite Hrej.
  split; [reflexivity |]. split; [reflexivity |]. split; [reflexivity |].
  split; [now rewrite sseEmit_matches |].
  split.
  { intros set c Hset Hc.
    apply (sseEmit_delivers _ _ _ set c); [exact Hset | exact Hc]. }
  intros Hwf2 Hid2 Hu2.
  rewrite (respondInvite_not_pending now2 req2 _ (invite_reject now inv) Hwf2);
    [reflexivity | | |].
  - rewrite Hid2, sseEmit_invites. exact Hrej.
  - cbn. congruence.
  - left. cbn. discriminate.
Qed.

(** X5.  What an answer to an invite is turned away with, in the order
    the handler checks: [MissingIds] without an invite id or a user id,
    [BadAction] for an action other than accept and reject, and nothing is
    written in either case; then, after the lazy expiry, [InviteNotFound]
    for an unknown id, [Forbidden] for anybody but the invited user, and
    [NotPending] for an invite that is no longer pending or is past its
    expiry.  None of these replies comes with any write beyond the lazy
    expiry. *)
Theorem respondInvite_refusals (now : Timestamp) (req : RespondRequest) (s : Store) :
  (rq_invite_id req = 0 \/ rq_user_id req = 0 ->
   run now (respondInvite req) s = (s, Fail MissingIds)) /\
  (rq_invite_id req <> 0 -> rq_user_id req <> 0 ->
   Js.includes ["accept"; "reject"]
     (Js.toLowerCase (Js.env_or (rq_action req) "")) = false ->
   run now (respondInvite req) s = (s, Fail BadAction)) /\
  (respond_wellformed req ->
   first_row (fun i => i_id i =? rq_invite_id req) (duello_invites s) = None ->
   run now (respondInvite req) s = (after_expiry now s, Fail InviteNotFound)) /\
  (forall j, respond_wellformed req ->
   first_row (fun i => i_id i =? rq_invite_id req) (duello_invites s) = Some j ->
   i_to_user_id j <> rq_user_id req ->
   run now (respondInvite req) s = (after_expiry now s, Fail Forbidden)) /\
  (forall j, respond_wellformed req ->
   first_row (fun i => i_id i =? rq_invite_id req) (duello_invites s) = Some j ->
   i_to_user_id j = rq_user_id req ->
   i_status j <> pending \/ i_expire_at j <= now ->
   run now (respondInvite req) s = (after_expiry now s, Fail NotPending)) /\
  duello_matches (after_expiry now s) = duello_matches s /\
  duello_answers (after_expiry now s) = duello_answers s.
Proof.
  split; [| split; [| split; [| split; [| split]]]].
  - intros H. unfold respondInvite.
    assert (E : (rq_invite_id req =? 0) || (rq_user_id req =? 0) = true).
    { destruct H as [-> | ->]; [reflexivity | apply orb_true_r]. }
    now rewrite E.
  - intros Hi Hu Hact. unfold respondInvite.
    now rewrite (neq_eqb_false _ _ Hi), (neq_eqb_false _ _ Hu), Hact.
  - intros Hwf Hrow. rewrite (respondInvite_wellformed now req s Hwf). cbv zeta.
    now rewrite first_row_after_expiry, Hrow.
  - intros j Hwf Hrow Hto. rewrite (respondInvite_wellformed now req s Hwf). cbv zeta.
    rewrite first_row_after_expiry, Hrow. cbn [option_map].
    assert (E : i_to_user_id (if overdue now j then invite_expire j else j)
                = i_to_user_id j) by (destruct (overdue now j); reflexivity).
    now rewrite E, (neq_eqb_false _ _ Hto).
  - intros j Hwf Hrow Hto Hnp.
    exact (respondInvite_not_pending now req s j Hwf Hrow Hto Hnp).
  - split; reflexivity.
Qed.

(** ** Accepting an invite *)

Lemma filter_active_none (uid : Z) (s : Store) :
  holds_active uid s = false -> List.filter (active_for uid) (duello_matches s) = [].
Proof. apply exists_row_false_filter. Qed.

(** The accept that goes through. *)
Lemma respondInvite_accept_run (now : Timestamp) (req : RespondRequest) (s : Store)
  (inv : Invite) :
  respond_wellformed req ->
  Js.toLowerCase (Js.env_or (rq_action req) "") = "accept" ->
  first_row (fun i => i_id i =? rq_invite_id req) (duello_invites s) = Some inv ->
  i_to_user_id inv = rq_user_id req ->
  i_status inv = pending -> now < i_expire_at inv ->
  holds_active (i_from_user_id inv) s = false ->
  holds_active (i_to_user_id inv) s = false ->
  i_from_user_id inv <> i_to_user_id inv ->
  let inviteId := rq_invite_id req in
  let fromId := i_from_user_id inv in
  let toId := i_to_user_id inv in
  let m := new_match (seq_matches s) (i_mode inv) fromId toId now in
  run now (respondInvite req) s =
    (sseEmit toId (invite_accepted inviteId (m_id m))
       (sseEmit fromId (invite_accepted inviteId (m_id m))
          (with_invites
             (sql_update (other_pending_of inviteId fromId toId now) (invite_cancel now))
             (with_invites
                (sql_update (fun i => i_id i =? inviteId) (invite_accept now (m_id m)))
                (with_matches (fun l => l ++ [m])
                   (with_seqs (fun n => n + 1) keep keep (after_expiry now s)))))),
     Ok (Accepted m)).
Proof.
  intros Hwf Hact Hrow Hto Hst Hexp Hfa Hta Hne. cbv zeta.
  rewrite (respondInvite_wellformed now req s Hwf). cbv zeta.
  pose proof (respondInvite_live now req s inv Hrow Hst Hexp) as Hlive.
  rewrite Hlive.
  assert (E : (i_to_user_id inv =? rq_user_id req) = true)
    by (rewrite Hto; apply Z.eqb_refl).
  rewrite E, Hst. cbn [negb InviteStatus_eqb].
  destruct (Z.leb_spec (i_expire_at inv) now) as [Hle | _]; [lia |].
  rewrite Hact. cbn [String.eqb Ascii.eqb Bool.eqb andb].
  unfold accept_tx. rewrite Hlive, Hst. cbn [negb InviteStatus_eqb].
  destruct (Z.leb_spec (i_expire_at inv) now) as [Hle | _]; [lia |].
  change (duello_matches (after_expiry now s)) with (duello_matches s).
  unfold holds_active in Hfa, Hta. rewrite Hfa, Hta.
  rewrite (neq_eqb_false _ _ Hne). reflexivity.
Qed.

(** X6.  The invited user who accepts a pending invite before its expiry,
    neither of the two users holding an active match, starts a match: an
    active one in the mode of the invite, the sender as player A and the
    invited user as player B, twelve questions, at index 0.  The invite is
    marked accepted with the id of the match, both users are told on the
    connections they have open, each of the two then holds exactly this
    one active match, and the active-match route gives its id to both. *)
Theorem accept_starts_match (now now2 : Timestamp) (req : RespondRequest) (s : Store)
  (inv : Invite) :
  respond_wellformed req ->
  Js.toLowerCase (Js.env_or (rq_action req) "") = "accept" ->
  first_row (fun i => i_id i =? rq_invite_id req) (duello_invites s) = Some inv ->
  i_to_user_id inv = rq_user_id req ->
  i_status inv = pending -> now < i_expire_at inv ->
  holds_active (i_from_user_id inv) s = false ->
  holds_active (i_to_user_id inv) s = false ->
  i_from_user_id inv <> i_to_user_id inv ->
  i_from_user_id inv <> 0 ->
  let fromId := i_from_user_id inv in
  let toId := i_to_user_id inv in
  let m := new_match (seq_matches s) (i_mode inv) fromId toId now in
  let s' := fst (run now (respondInvite req) s) in
  snd (run now (respondInvite req) s) = Ok (Accepted m) /\
  duello_matches s' = duello_matches s ++ [m] /\
  (exists row,
      first_row (fun i => i_id i =? rq_invite_id req) (duello_invites s') = Some row /\
      i_status row = accepted /\ i_match_id row = Some (m_id m) /\
      i_accepted_at row = Some now) /\
  (forall uid set c, uid = fromId \/ uid = toId ->
     sseClients s !! uid = Some set -> In c set ->
     In (c, named (invite_accepted (rq_invite_id req) (m_id m))) (wire s')) /\
  active_count fromId s' = 1%nat /\ active_count toId s' = 1%nat /\
  snd (run now2 (activeMatch fromId) s') = Ok (Some (m_id m)) /\
  snd (run now2 (activeMatch toId) s') = Ok (Some (m_id m)).
Proof.
  intros Hwf Hact Hrow Hto Hst Hexp Hfa Hta Hne Hf0. cbv zeta.
  rewrite (respondInvite_accept_run now req s inv Hwf Hact Hrow Hto Hst Hexp Hfa Hta Hne).
  cbv zeta. cbn [fst snd].
  pose proof (respondInvite_live now req s inv Hrow Hst Hexp) as Hlive.
  set (m := new_match (seq_matches s) (i_mode inv)
              (i_from_user_id inv) (i_to_user_id inv) now).
  set (s3 := with_invites _ (with_invites _ _)).
  assert (Hm3 : duello_matches s3 = duello_matches s ++ [m]) by reflexivity.
  assert (Hfilter : forall uid, uid = i_from_user_id inv \/ uid = i_to_user_id inv ->
            List.filter (active_for uid) (duello_matches s ++ [m]) = [m]).
  { intros uid Huid. rewrite List.filter_app.
    assert (E : List.filter (active_for uid) (duello_matches s) = []).
    { destruct Huid as [-> | ->]; now apply exists_row_false_filter. }
    rewrite E. cbn [List.filter app]. unfold active_for, m. cbn.
    destruct Huid as [-> | ->]; rewrite Z.eqb_refl, ?orb_true_r; reflexivity. }
  split; [reflexivity |].
  split; [now rewrite !sseEmit_matches |].
  split.
  { rewrite !sseEmit_invites. subst s3. store_simpl.
    rewrite (first_row_sql_update_id _ (invite_cancel now) _ _ (fun i => eq_refl)).
    rewrite (first_row_sql_update_id _ (invite_accept now (m_id m)) _ _
               (fun i => eq_refl)).
    change (sql_update (overdue now) invite_expire (duello_invites s))
      with (duello_invites (after_expiry now s)).
    rewrite Hlive. cbn [option_map].
    apply first_row_Some in Hrow. destruct Hrow as [_ Hid]. rewrite Hid.
    eexists. split; [reflexivity |].
    unfold other_pending_of. cbn. repeat split. }
  split.
  { intros uid set c Huid Hset Hc. destruct Huid as [-> | ->].
    - apply sseEmit_wire_grows.
      apply (sseEmit_delivers _ _ _ set c); [exact Hset | exact Hc].
    - apply (sseEmit_delivers _ _ _ set c); [| exact Hc].
      rewrite sseEmit_clients. exact Hset. }
  unfold active_count. rewrite !sseEmit_matches, Hm3.
  rewrite !Hfilter by auto.
  split; [reflexivity |]. split; [reflexivity |].
  unfold activeMatch.
  assert (Ht0 : i_to_user_id inv <> 0).
  { rewrite Hto. apply Hwf. }
  rewrite (neq_eqb_false _ _ Hf0), (neq_eqb_false _ _ Ht0).
  hstep. rewrite !sseEmit_matches, Hm3, !Hfilter by auto.
  split; reflexivity.
Qed.

(** ** What no statement does *)

Lemma matches_kept_rows (l : list Match) :
  Forall2 (fun m m' => match_identity m' = match_identity m /\
                       (m_state m' = active -> m_state m = active)) l l.
Proof. induction l; constructor; auto. Qed.

Lemma matches_kept_refl (s : Store) : matches_kept s s.
Proof.
  exists (duello_matches s), []. split; [now rewrite app_nil_r |].
  split; [apply matches_kept_rows | constructor].
Qed.

Lemma matches_kept_same (s s' : Store) :
  duello_matches s' = duello_matches s -> matches_kept s s'.
Proof.
  intros E. exists (duello_matches s), []. split; [now rewrite E, app_nil_r |].
  split; [apply matches_kept_rows | constructor].
Qed.

Lemma matches_kept_trans (s1 s2 s3 : Store) :
  matches_kept s1 s2 -> matches_kept s2 s3 -> matches_kept s1 s3.
Proof.
  intros (o1 & n1 & E1 & F1 & N1) (o2 & n2 & E2 & F2 & N2).
  rewrite E1 in F2. apply Forall2_app_inv_l in F2.
  destruct F2 as (o2a & o2b & Fa & Fb & ->).
  exists o2a, (o2b ++ n2). split; [now rewrite E2, app_assoc |]. split.
  - clear - F1 Fa. revert o2a Fa.
    induction F1 as [| m m' l l' Hm F1 IH]; intros o2a Fa.
    + inversion Fa. constructor.
    + inversion Fa as [| x y lx ly Hxy Fxy]; subst.
      constructor; [| apply IH; exact Fxy].
      destruct Hm as (H1 & H2), Hxy as (G1 & G2).
      split; [congruence | auto].
  - apply Forall_app. split; [| exact N2].
    clear - N1 Fb. induction Fb as [| x y lx ly Hxy Fxy IH]; [constructor |].
    inversion N1 as [| ? ? Hx Hl]; subst.
    constructor; [| apply IH; exact Hl].
    destruct Hxy as [Hid _]. unfold match_identity in Hid.
    injection Hid as _ _ Ha Hb _ Ht. rewrite Ht, Ha, Hb. exact Hx.
Qed.

Lemma matches_kept_update (c : Match -> bool) (f : Match -> Match) (s : Store) :
  (forall m, match_identity (f m) = match_identity m /\
             (m_state (f m) = active -> m_state m = active)) ->
  matches_kept s (with_matches (sql_update c f) s).
Proof.
  intros H. exists (sql_update c f (duello_matches s)), []. store_simpl.
  split; [now rewrite app_nil_r |]. split; [| constructor].
  unfold sql_update. induction (duello_matches s) as [| m l IH]; cbn; constructor;
    [| exact IH].
  destruct (c m); [apply H | auto].
Qed.

Lemma matches_kept_accept (inviteId fromId toId : Z) (now : Timestamp) (s : Store) :
  matches_kept s (fst (accept_tx inviteId fromId toId now s)).
Proof.
  unfold accept_tx.
  destruct (first_row _ (duello_invites s)) as [lockedInv |];
    [| apply matches_kept_refl].
  destruct (negb _); [apply matches_kept_refl |].
  destruct (i_expire_at lockedInv <=? now); [apply matches_kept_same; reflexivity |].
  destruct (exists_row (active_for fromId) _); [apply matches_kept_refl |].
  destruct (exists_row (active_for toId) _); [apply matches_kept_refl |].
  destruct (Z.eqb_spec fromId toId) as [| Hne]; [apply matches_kept_same; reflexivity |].
  cbn [fst]. eexists (duello_matches s), [_]. store_simpl. split; [reflexivity |].
  split; [apply matches_kept_rows |].
  constructor; [split; [reflexivity | exact Hne] | constructor].
Qed.

Lemma granted_matches_kept : Granted matches_kept.
Proof.
  constructor.
  - apply matches_kept_refl.
  - apply matches_kept_trans.
  - intros; apply matches_kept_same; reflexivity.
  - intros; apply matches_kept_same; reflexivity.
  - intros; apply matches_kept_same; reflexivity.
  - intros; apply matches_kept_same; reflexivity.
  - intros; apply matches_kept_same; reflexivity.
  - intros. apply matches_kept_update. intros m. unfold match_touch.
    destruct (m_user_a_id m =? uid), (m_user_b_id m =? uid); cbn; auto.
  - intros. apply matches_kept_update. intros m. unfold match_touch_status.
    destruct (m_user_a_id m =? uid), (m_user_b_id m =? uid); cbn; auto.
  - intros. apply matches_kept_update. intros m. cbn. split; [reflexivity | discriminate].
  - intros. apply matches_kept_update. intros m. cbn. split; [reflexivity | discriminate].
  - intros. apply matches_kept_update. intros m. cbn. split; [reflexivity | discriminate].
  - intros. apply matches_kept_update. intros m. cbn. auto.
  - intros. apply matches_kept_update. intros m. cbn. split; [reflexivity | discriminate].
  - intros. apply matches_kept_accept.
Qed.

(** X7.  Whatever requests arrive and however their statements
    interleave, no match is ever deleted or moved, none changes its id, its
    mode, its two players, its creation time or its number of questions, and
    none that has left [active] is [active] again; every match that is
    created has twelve questions and two different players. *)
Theorem match_identity_is_kept (sv0 sv : Server) :
  in_flight sv0 = [] ->
  reachable_from any_request sv0 sv ->
  matches_kept (store sv0) (store sv).
Proof.
  intros H0 Hreach.
  exact (reachable_granted matches_kept granted_matches_kept any_request sv0 sv H0 Hreach).
Qed.

Lemma records_kept_refl (s : Store) : records_kept s s.
Proof. split; [exists []; now rewrite app_nil_r |].
       split; [exists []; now rewrite app_nil_r | repeat split]. Qed.

Lemma records_kept_trans (s1 s2 s3 : Store) :
  records_kept s1 s2 -> records_kept s2 s3 -> records_kept s1 s3.
Proof.
  intros ((a1 & A1) & (q1 & Q1) & U1 & S1 & B1) ((a2 & A2) & (q2 & Q2) & U2 & S2 & B2).
  split; [exists (a1 ++ a2); now rewrite A2, A1, app_assoc |].
  split; [exists (q1 ++ q2); now rewrite Q2, Q1, app_assoc |].
  repeat split; congruence.
Qed.

Lemma records_kept_same (s s' : Store) :
  duello_answers s' = duello_answers s ->
  duello_match_questions s' = duello_match_questions s ->
  users s' = users s -> surveys s' = surveys s -> questions s' = questions s ->
  records_kept s s'.
Proof.
  intros A Q U S B.
  split; [exists []; now rewrite A, app_nil_r |].
  split; [exists []; now rewrite Q, app_nil_r | repeat split; assumption].
Qed.

Lemma records_kept_accept (inviteId fromId toId : Z) (now : Timestamp) (s : Store) :
  records_kept s (fst (accept_tx inviteId fromId toId now s)).
Proof.
  unfold accept_tx.
  destruct (first_row _ (duello_invites s)) as [lockedInv |];
    [| apply records_kept_refl].
  destruct (negb _); [apply records_kept_refl |].
  destruct (i_expire_at lockedInv <=? now); [apply records_kept_same; reflexivity |].
  destruct (exists_row (active_for fromId) _); [apply records_kept_refl |].
  destruct (exists_row (active_for toId) _); [apply records_kept_refl |].
  destruct (fromId =? toId); apply records_kept_same; reflexivity.
Qed.

Lemma granted_records_kept : Granted records_kept.
Proof.
  constructor; try (intros; apply records_kept_same; reflexivity).
  - apply records_kept_trans.
  - intros row s. split; [exists []; now rewrite app_nil_r |].
    split; [exists [row]; reflexivity | repeat split].
  - intros row s. split; [exists [row]; reflexivity |].
    split; [exists []; now rewrite app_nil_r | repeat split].
  - intros. apply records_kept_accept.
Qed.

(** X8.  Whatever requests arrive and however their statements
    interleave, the duel code only ever adds to the recorded answers and to
    the question sets: a row once written is never changed, moved or
    deleted.  It writes nothing to the user directory and the question
    bank. *)
Theorem records_are_append_only (sv0 sv : Server) :
  in_flight sv0 = [] ->
  reachable_from any_request sv0 sv ->
  records_kept (store sv0) (store sv).
Proof.
  intros H0 Hreach.
  exact (reachable_granted records_kept granted_records_kept any_request sv0 sv H0 Hreach).
Qed.

(** ** Statement by statement, with the grants spelled out per write *)

Section GrantsByStatement.
Context (R : Store -> Store -> Prop) (G : StatementGrants R).

Let R_refl := sg_refl R G.
Let R_trans := sg_trans R G.
Let R_expire := sg_expire R G.
Let R_expire_id := sg_expire_id R G.
Let R_reject := sg_reject R G.
Let R_invite := sg_invite R G.
Let R_accept := sg_accept R G.
Let R_match_questions := sg_match_questions R G.
Let R_answers := sg_answers R G.
Let R_seqs := sg_seqs R G.
Let R_sse := sg_sse R G.
Let R_touch := sg_touch R G.
Let R_touch_status := sg_touch_status R G.
Let R_finish_over := sg_finish_over R G.
Let R_finish := sg_finish R G.
Let R_abandon := sg_abandon R G.

Lemma by_emit (uid : Z) (ev : SseEvent) (s : Store) : R s (sseEmit uid ev s).
Proof.
  unfold sseEmit. destruct (sseClients s !! uid) as [[| c l] |];
    try apply R_refl.
  apply R_sse.
Qed.

Lemma by_insert_invite fromId toId mode now s :
  R s (fst (insert_invite fromId toId mode now s)).
Proof.
  unfold insert_invite. destruct (exists_row _ _); cbn [fst].
  - apply R_seqs.
  - eapply R_trans; [apply R_seqs | apply R_invite].
Qed.

Lemma by_insert_answer matchId qid uid ans c mx lf now s :
  R s (fst (insert_answer matchId qid uid ans c mx lf now s)).
Proof.
  unfold insert_answer. destruct mx; [| apply R_refl].
  destruct (exists_row _ _); cbn [fst].
  - apply R_seqs.
  - eapply R_trans; [apply R_seqs | apply R_answers].
Qed.

Lemma by_insert_first_answer matchId qid uid ans c mx lf now s :
  R s (fst (insert_first_answer matchId qid uid ans c mx lf now s)).
Proof.
  unfold insert_first_answer. destruct mx; [| apply R_refl].
  destruct (answers_of _ _ _); cbn [fst].
  - eapply R_trans; [apply R_seqs | apply R_answers].
  - apply R_refl.
Qed.

Lemma by_insert_match_question matchId pos qid s :
  R s (insert_match_question matchId pos qid s).
Proof.
  unfold insert_match_question. destruct (exists_row _ _).
  - apply R_refl.
  - apply R_match_questions.
Qed.

Lemma by_idle_abort sec now s : R s (fst (idle_abort_stmt sec now s)).
Proof.
  unfold idle_abort_stmt. destruct sec; cbn [fst].
  - apply R_abandon.
  - apply R_refl.
Qed.

(** One pass over a handler, each statement handed to its grant; the
    writes of the index are handed to [more]. *)
Ltac respects_by more :=
  repeat first
    [ apply respects_return
    | apply (respects_query R R_refl)
    | apply (respects_emit R); intros; apply by_emit
    | apply (respects_exec R); intros; cbv beta;
      first [ apply R_expire | apply R_expire_id | apply R_touch
            | apply R_touch_status | apply R_finish_over | apply R_finish
            | apply by_insert_match_question | more ]
    | apply (respects_bind R); [| intros ?]
    | apply respects_await;
      [ intros; cbv beta;
        first [ apply by_insert_invite | apply by_insert_answer
              | apply by_insert_first_answer | apply by_idle_abort
              | apply R_accept | apply R_reject ]
      | intros ? ]
    | match goal with
      | |- Respects _ (if ?c then _ else _) => destruct c
      | |- Respects _ (match ?x with _ => _ end) => destruct x
      end ].

Lemma by_createInvite req : Respects R (createInvite req).
Proof.
  unfold createInvite, findUserByIdOrCode, hasActiveMatch, hasFreshPendingInvite,
    finish_over_complete, expireOldInvites.
  respects_by fail.
Qed.

Lemma by_respondInvite req : Respects R (respondInvite req).
Proof. unfold respondInvite, expireOldInvites. respects_by fail. Qed.

Lemma by_inbox uid : Respects R (inbox uid).
Proof. unfold inbox, expireOldInvites. respects_by fail. Qed.

Lemma by_outbox uid : Respects R (outbox uid).
Proof. unfold outbox, expireOldInvites. respects_by fail. Qed.

Lemma by_insert_question_loop matchId i ids :
  Respects R (insert_question_loop matchId i ids).
Proof.
  revert i. induction ids as [| qid ids IH]; intros i; cbn [insert_question_loop].
  - respects_by fail.
  - apply (respects_bind R); [respects_by fail | intros _; apply IH].
Qed.

Lemma by_ensureDuelloQuestionSet m : Respects R (ensureDuelloQuestionSet m).
Proof.
  unfold ensureDuelloQuestionSet.
  apply (respects_bind R); [respects_by fail | intros existing].
  destruct existing; [| respects_by fail].
  apply (respects_bind R); [respects_by fail | intros ids].
  apply (respects_bind R); [apply by_insert_question_loop | intros _].
  respects_by fail.
Qed.

Lemma by_matchStatus matchId userId : Respects R (matchStatus matchId userId).
Proof.
  unfold matchStatus, duelloGetMatch.
  destruct ((matchId =? 0) || (userId =? 0)); [respects_by fail |].
  apply (respects_bind R); [respects_by fail | intros [m |]]; [| respects_by fail].
  destruct (negb (inThisMatch m userId)); [respects_by fail |].
  apply (respects_bind R); [respects_by fail | intros _].
  apply (respects_bind R); [apply by_ensureDuelloQuestionSet | intros _].
  unfold duelloScores, duelloGetQuestionIdByPos, duelloGetAnswers. respects_by fail.
Qed.

Lemma by_submitAnswer req : Respects R (submitAnswer req).
Proof.
  unfold submitAnswer, duelloGetMatch, duelloGetQuestionIdByPos, record_speed,
    record_info.
  respects_by fail.
Qed.

Lemma by_matchSummary matchId userId : Respects R (matchSummary matchId userId).
Proof.
  unfold matchSummary, duelloGetMatch.
  destruct ((matchId =? 0) || (userId =? 0)); [respects_by fail |].
  apply (respects_bind R); [respects_by fail | intros [m |]]; [| respects_by fail].
  destruct (negb (m_user_a_id m =? userId) && negb (m_user_b_id m =? userId));
    [respects_by fail |].
  apply (respects_bind R); [apply by_ensureDuelloQuestionSet | intros _].
  unfold duelloMatchTotals. respects_by fail.
Qed.

Lemma by_emit_abandoned updated : Respects R (emit_abandoned updated).
Proof.
  induction updated as [| m rest IH]; cbn [emit_abandoned]; [respects_by fail |].
  apply (respects_bind R); [respects_by fail | intros _].
  apply (respects_bind R); [respects_by fail | intros _]. exact IH.
Qed.

Lemma by_duelloIdleAbortTick : Respects R duelloIdleAbortTick.
Proof.
  unfold duelloIdleAbortTick.
  apply (respects_bind R); [respects_by fail | intros [updated |]]; [| respects_by fail].
  apply by_emit_abandoned.
Qed.

(** The part of [reveal] that follows the read of the match row, given
    that the index it writes, when it gets that far, is granted. *)
Lemma by_reveal_rest (m : Match) (matchId userId : Z) :
  (m_current_index m + 1 <= m_total_questions m ->
   forall now s,
      R s (with_matches (sql_update (fun r => m_id r =? matchId)
                           (match_finish_at now (m_current_index m + 1))) s)) ->
  (m_current_index m + 1 <= m_total_questions m ->
   forall s,
      R s (with_matches (sql_update (fun r => m_id r =? matchId)
                           (match_set_index (m_current_index m + 1))) s)) ->
  Respects R
    (let* _ := exec (fun now =>
                with_matches (sql_update (fun r => m_id r =? matchId)
                                (match_touch now userId))) in
     let total := m_total_questions m in
     let currentPos := m_current_index m + 1 in
     if total <? currentPos then finish_now m matchId else
     let* qid := duelloGetQuestionIdByPos matchId currentPos in
     match qid with
     | None => finish_now m matchId
     | Some qid =>
     let* filled := fill_missing m matchId qid in
     if negb filled then Return (Fail ServerError) else
     advance m matchId qid
     end).
Proof.
  intros Hfin Hset.
  unfold duelloGetQuestionIdByPos, finish_now, fill_missing, advance, emit_finished,
    fill_unknown.
  cbv zeta.
  apply (respects_bind R); [respects_by fail | intros _].
  destruct (Z.ltb_spec (m_total_questions m) (m_current_index m + 1)) as [Hgt | Hle].
  - respects_by fail.
  - specialize (Hfin Hle). specialize (Hset Hle).
    respects_by ltac:(first [ apply Hfin | apply Hset ]).
Qed.

(** Every handler but [reveal] respects the relation. *)
Lemma by_handler_of (r : Request) :
  (forall matchId userId, r <> POST_reveal matchId userId) ->
  Respects R (handler_of r).
Proof.
  intros Hr.
  destruct r; cbn [handler_of]; unfold forget;
    try (apply (respects_bind R); [| intros ?; apply respects_return]).
  - apply by_createInvite.
  - apply by_respondInvite.
  - apply by_inbox.
  - apply by_outbox.
  - apply by_matchStatus.
  - apply by_submitAnswer.
  - exfalso. now apply (Hr matchId userId).
  - apply by_matchSummary.
  - apply by_duelloIdleAbortTick.
Qed.
(** [reveal] as a whole, when every write of the index is granted. *)
Lemma by_reveal (matchId userId : Z) :
  (forall now idx s,
      R s (with_matches (sql_update (fun r => m_id r =? matchId)
                           (match_finish_at now idx)) s)) ->
  (forall idx s,
      R s (with_matches (sql_update (fun r => m_id r =? matchId)
                           (match_set_index idx)) s)) ->
  Respects R (reveal matchId userId).
Proof.
  intros Hfin Hset. unfold reveal.
  destruct ((matchId =? 0) || (userId =? 0)); [apply respects_return |].
  unfold duelloGetMatch.
  apply (respects_bind R); [respects_by fail | intros [m |]]; [| apply respects_return].
  destruct (negb (MatchState_eqb (m_state m) active)).
  { unfold emit_finished. respects_by fail. }
  destruct (negb (inThisMatch m userId)); [apply respects_return |].
  apply by_reveal_rest; intros; [apply Hfin | apply Hset].
Qed.
End GrantsByStatement.

(** ** Invites are kept *)

Lemma invites_kept_rows (l : list Invite) :
  Forall2 (fun i i' => invite_identity i' = invite_identity i /\
                       (i_status i' = pending -> i_status i = pending)) l l.
Proof. induction l; constructor; auto. Qed.

Lemma invites_kept_refl (s : Store) : invites_kept s s.
Proof.
  exists (duello_invites s), []. split; [now rewrite app_nil_r |].
  apply invites_kept_rows.
Qed.

Lemma invites_kept_same (s s' : Store) :
  duello_invites s' = duello_invites s -> invites_kept s s'.
Proof.
  intros E. exists (duello_invites s), []. split; [now rewrite E, app_nil_r |].
  apply invites_kept_rows.
Qed.

Lemma invites_kept_trans (s1 s2 s3 : Store) :
  invites_kept s1 s2 -> invites_kept s2 s3 -> invites_kept s1 s3.
Proof.
  intros (o1 & n1 & E1 & F1) (o2 & n2 & E2 & F2).
  rewrite E1 in F2. apply Forall2_app_inv_l in F2.
  destruct F2 as (o2a & o2b & Fa & Fb & ->).
  exists o2a, (o2b ++ n2). split; [now rewrite E2, app_assoc |].
  clear - F1 Fa. revert o2a Fa.
  induction F1 as [| m m' l l' Hm F1 IH]; intros o2a Fa.
  - inversion Fa. constructor.
  - inversion Fa as [| x y lx ly Hxy Fxy]; subst.
    constructor; [| apply IH; exact Fxy].
    destruct Hm as (H1 & H2), Hxy as (G1 & G2).
    split; [congruence | auto].
Qed.

Lemma invites_kept_update (c : Invite -> bool) (f : Invite -> Invite) (s : Store) :
  (forall i, invite_identity (f i) = invite_identity i /\
             (i_status (f i) = pending -> i_status i = pending)) ->
  invites_kept s (with_invites (sql_update c f) s).
Proof.
  intros H. exists (sql_update c f (duello_invites s)), []. store_simpl.
  split; [now rewrite app_nil_r |].
  unfold sql_update. induction (duello_invites s) as [| m l IH]; cbn; constructor;
    [| exact IH].
  destruct (c m); [apply H | auto].
Qed.

Lemma invites_kept_accept (inviteId fromId toId : Z) (now : Timestamp) (s : Store) :
  invites_kept s (fst (accept_tx inviteId fromId toId now s)).
Proof.
  unfold accept_tx.
  destruct (first_row _ (duello_invites s)) as [lockedInv |];
    [| apply invites_kept_refl].
  destruct (negb _); [apply invites_kept_refl |].
  destruct (i_expire_at lockedInv <=? now).
  { cbn [fst]. apply invites_kept_update. intros i. split; [reflexivity | discriminate]. }
  destruct (exists_row (active_for fromId) _); [apply invites_kept_refl |].
  destruct (exists_row (active_for toId) _); [apply invites_kept_refl |].
  destruct (fromId =? toId); [apply invites_kept_same; reflexivity |].
  cbn [fst].
  eapply invites_kept_trans; [| apply invites_kept_update;
                                 intros i; split; [reflexivity | discriminate]].
  eapply invites_kept_trans; [| apply invites_kept_update;
                                 intros i; split; [reflexivity | discriminate]].
  apply invites_kept_same. reflexivity.
Qed.

Lemma grants_invites_kept : StatementGrants invites_kept.
Proof.
  constructor; try (intros; apply invites_kept_same; reflexivity).
  - apply invites_kept_trans.
  - intros. apply invites_kept_update. intros i. split; [reflexivity | discriminate].
  - intros. apply invites_kept_update. intros i. split; [reflexivity | discriminate].
  - intros. apply invites_kept_update. intros i. split; [reflexivity | discriminate].
  - intros inv s. exists (duello_invites s), [inv]. split; [reflexivity |].
    apply invites_kept_rows.
  - intros. apply invites_kept_accept.
Qed.

(** X9.  Whatever requests arrive and however their statements
    interleave, no invite is ever deleted or moved, none changes its id, its
    sender, its target, its mode, its creation time or its expiry, and none
    that has left ['pending'] is ['pending'] again. *)
Theorem invites_are_kept (sv0 sv : Server) :
  in_flight sv0 = [] ->
  reachable_from any_request sv0 sv ->
  invites_kept (store sv0) (store sv).
Proof.
  intros H0 Hreach.
  apply (reachable_respects invites_kept any_request invites_kept_refl
           invites_kept_trans (fun f g s => invites_kept_same s _ eq_refl))
    with (sv0 := sv0) (sv := sv); [| rewrite H0; constructor | exact Hreach].
  intros r _.
  destruct r as [? | ? | ? | ? | ? ? | ? | matchId userId | ? ? |];
    try (apply (by_handler_of invites_kept grants_invites_kept); discriminate).
  cbn [handler_of]. unfold forget.
  apply respects_bind; [| intros; apply respects_return].
  apply (by_reveal invites_kept grants_invites_kept);
    intros; apply invites_kept_same; reflexivity.
Qed.

(** ** The index stays within the match *)

Lemma respects_keeps (I : Store -> Prop) (R : Store -> Store -> Prop) {A : Type}
  (h : Handler A) :
  (forall s s', R s s' -> I s -> I s') -> Respects R h -> Keeps I h.
Proof.
  intros HR H. induction H as [a | X stmt k Hstmt Hk IH].
  - apply keeps_return.
  - apply keeps_await; [intros now s HI; exact (HR _ _ (Hstmt now s) HI) |].
    intros now s _. apply IH.
Qed.

Definition keeps_bounds (s s' : Store) : Prop :=
  index_in_bounds s -> index_in_bounds s'.

Lemma keeps_bounds_same (s s' : Store) :
  duello_matches s' = duello_matches s -> keeps_bounds s s'.
Proof. intros E H. unfold index_in_bounds. now rewrite E. Qed.

Lemma keeps_bounds_update (c : Match -> bool) (f : Match -> Match) (s : Store) :
  (forall m, m_total_questions m = 12 /\ 0 <= m_current_index m <= 12 ->
             m_total_questions (f m) = 12 /\ 0 <= m_current_index (f m) <= 12) ->
  keeps_bounds s (with_matches (sql_update c f) s).
Proof.
  intros H Hs. unfold index_in_bounds in *. store_simpl. unfold sql_update.
  induction Hs as [| m l Hm Hl IH]; cbn [map]; constructor; [| exact IH].
  destruct (c m); [now apply H | exact Hm].
Qed.

Lemma keeps_bounds_accept (inviteId fromId toId : Z) (now : Timestamp) (s : Store) :
  keeps_bounds s (fst (accept_tx inviteId fromId toId now s)).
Proof.
  unfold accept_tx.
  destruct (first_row _ (duello_invites s)) as [lockedInv |];
    [| apply keeps_bounds_same; reflexivity].
  destruct (negb _); [apply keeps_bounds_same; reflexivity |].
  destruct (i_expire_at lockedInv <=? now); [apply keeps_bounds_same; reflexivity |].
  destruct (exists_row (active_for fromId) _); [apply keeps_bounds_same; reflexivity |].
  destruct (exists_row (active_for toId) _); [apply keeps_bounds_same; reflexivity |].
  destruct (fromId =? toId); [apply keeps_bounds_same; reflexivity |].
  cbn [fst]. intros Hs. unfold index_in_bounds in *. store_simpl.
  apply Forall_app. split; [exact Hs |].
  constructor; [cbn; lia | constructor].
Qed.

Lemma grants_keeps_bounds : StatementGrants keeps_bounds.
Proof.
  constructor; try (intros; apply keeps_bounds_same; reflexivity).
  - intros s1 s2 s3 H1 H2 H. auto.
  - intros. apply keeps_bounds_accept.
  - intros. apply keeps_bounds_update. intros m Hm. unfold match_touch.
    destruct (m_user_a_id m =? uid), (m_user_b_id m =? uid); exact Hm.
  - intros. apply keeps_bounds_update. intros m Hm. unfold match_touch_status.
    destruct (m_user_a_id m =? uid), (m_user_b_id m =? uid); exact Hm.
  - intros. apply keeps_bounds_update. intros m Hm. exact Hm.
  - intros. apply keeps_bounds_update. intros m Hm. exact Hm.
  - intros. apply keeps_bounds_update. intros m Hm. exact Hm.
Qed.

(** [reveal] writes the index it read plus one, and only after finding it
    short of the number of questions it read with it. *)
Lemma keeps_bounds_reveal (matchId userId : Z) :
  Keeps index_in_bounds (reveal matchId userId).
Proof.
  unfold reveal.
  destruct ((matchId =? 0) || (userId =? 0)); [apply keeps_return |].
  cbn [bind duelloGetMatch query].
  apply keeps_await; [intros now s H; exact H |].
  intros now s H. cbn [snd bind].
  destruct (first_row _ (duello_matches s)) as [m |] eqn:Hrow; [| apply keeps_return].
  assert (Hm : m_total_questions m = 12 /\ 0 <= m_current_index m <= 12).
  { apply first_row_Some in Hrow. destruct Hrow as [Hin _].
    unfold index_in_bounds in H. rewrite List.Forall_forall in H. now apply H. }
  apply (respects_keeps index_in_bounds keeps_bounds); [intros s1 s2 HR; exact HR |].
  destruct (negb (MatchState_eqb (m_state m) active)).
  { unfold emit_finished, emit. cbn [bind].
    respects_with ltac:(cbn [fst];
                        apply (by_emit keeps_bounds grants_keeps_bounds)).
}
  destruct (negb (inThisMatch m userId)); [apply respects_return |].
  apply (by_reveal_rest keeps_bounds grants_keeps_bounds).
  - intros Hle now' s'. apply keeps_bounds_update. intros x [Hxt Hxi].
    destruct Hm as [Ht Hi]. rewrite Ht in Hle.
    split; [exact Hxt | unfold match_finish_at, match_set, put; cbn [m_current_index]; lia].
  - intros Hle s'. apply keeps_bounds_update. intros x [Hxt Hxi].
    destruct Hm as [Ht Hi]. rewrite Ht in Hle.
    split; [exact Hxt | unfold match_set_index, match_set, put; cbn [m_current_index]; lia].
Qed.

(** X10.  From a store in which every match has twelve questions and an
    index between 0 and 12, such as an empty one, every state the server
    reaches, whatever requests arrive and however their statements
    interleave, is such a store again: [current_index] never leaves the
    range from 0 to [total_questions]. *)
Theorem index_stays_in_bounds (sv0 sv : Server) :
  in_flight sv0 = [] ->
  index_in_bounds (store sv0) ->
  reachable_from any_request sv0 sv ->
  index_in_bounds (store sv) /\
  Forall (fun m => 0 <= m_current_index m <= m_total_questions m)
    (duello_matches (store sv)).
Proof.
  intros H0 Hb Hreach.
  assert (Hsv : index_in_bounds (store sv)).
  { apply (reachable_keeps index_in_bounds any_request (fun f g s H => H))
      with (sv0 := sv0) (sv := sv); [| exact Hb | rewrite H0; constructor | exact Hreach].
    intros r _.
    destruct r as [? | ? | ? | ? | ? ? | ? | matchId userId | ? ? |];
      try (apply (respects_keeps index_in_bounds keeps_bounds);
           [intros s1 s2 HR; exact HR
           | apply (by_handler_of keeps_bounds grants_keeps_bounds); discriminate]).
    cbn [handler_of]. unfold forget.
    apply keeps_bind; [apply keeps_bounds_reveal | intros; apply keeps_return]. }
  split; [exact Hsv |].
  unfold index_in_bounds in Hsv. revert Hsv. apply List.Forall_impl.
  intros m [-> H]. exact H.
Qed.

(** ** An abandoned match, as the three read routes show it *)

Lemma question_set_present (matchId pos qid : Z) (s : Store) :
  question_id_at matchId pos s = Some qid -> question_set_of matchId s <> [].
Proof.
  unfold question_id_at. intros H E. apply question_set_empty in E.
  destruct (first_row _ (duello_match_questions s)) as [r |] eqn:Hr; [| discriminate].
  apply first_row_Some in Hr. destruct Hr as [Hin Hp].
  apply andb_true_iff in Hp. destruct Hp as [Hp _].
  assert (Hf : In r (List.filter (fun r => mq_match_id r =? matchId)
                       (duello_match_questions s))) by (apply filter_In; auto).
  rewrite E in Hf. contradiction.
Qed.

(** X11.  A match the sweeper has abandoned before its last question is
    shown differently by the three routes that read it.  [reveal] answers
    [finished: true].  The status route answers [finished: false] and hands
    out the question at the current position as if the match went on; the
    summary route answers [finished: false] as well and names no winner. *)
Theorem abandoned_match_as_read (now : Timestamp) (matchId userId : Z) (s : Store)
  (m : Match) (qid : Z) :
  matchId <> 0 -> userId <> 0 ->
  first_row (fun r => m_id r =? matchId) (duello_matches s) = Some m ->
  m_state m = abandoned ->
  inThisMatch m userId = true ->
  m_current_index m < m_total_questions m ->
  question_id_at matchId (m_current_index m + 1) s = Some qid ->
  snd (run now (reveal matchId userId) s) =
    Ok {| rv_finished := true; rv_current_index := m_current_index m |} /\
  (exists st, snd (run now (matchStatus matchId userId) s) = Ok st /\
              st_finished st = false /\
              st_question st = Some (m_current_index m + 1, qid)) /\
  (exists sm, snd (run now (matchSummary matchId userId) s) = Ok sm /\
              sm_finished sm = false /\ sm_result sm = result_pending).
Proof.
  intros Hm Hu Hrow Hst Hin Hidx Hq.
  assert (Hid : m_id m = matchId).
  { apply first_row_Some in Hrow. destruct Hrow as [_ E]. now apply Z.eqb_eq in E. }
  assert (Hfin : MatchState_eqb (m_state m) finished ||
                 (m_total_questions m <=? m_current_index m) = false).
  { rewrite Hst. cbn. apply Z.leb_gt. exact Hidx. }
  split; [| split].
  - rewrite (reveal_settled now matchId userId s m Hm Hu Hrow); [reflexivity |].
    rewrite Hst. discriminate.
  - unfold matchStatus.
    rewrite (neq_eqb_false _ _ Hm), (neq_eqb_false _ _ Hu). cbn [orb].
    hstep. rewrite Hrow, Hin. cbn [negb]. hstep. rewrite run_bind.
    set (s0 := with_matches _ s).
    assert (Hq0 : question_id_at matchId (m_current_index m + 1) s0 = Some qid)
      by exact Hq.
    rewrite (ensure_existing now m s0)
      by (rewrite Hid; exact (question_set_present _ _ _ s0 Hq0)).
    rewrite run_bind, run_duelloScores, Hfin. hstep.
    rewrite Hid, Hq0. hstep.
    eexists. split; [reflexivity |]. split; reflexivity.
  - unfold matchSummary.
    rewrite (neq_eqb_false _ _ Hm), (neq_eqb_false _ _ Hu). cbn [orb].
    hstep. rewrite Hrow.
    assert (Hpart : negb (m_user_a_id m =? userId) && negb (m_user_b_id m =? userId)
                    = false).
    { unfold inThisMatch in Hin. apply orb_true_iff in Hin.
      destruct Hin as [-> | ->]; [reflexivity | apply andb_false_r]. }
    rewrite Hpart, run_bind.
    rewrite (ensure_existing now m s)
      by (rewrite Hid; exact (question_set_present _ _ _ s Hq)).
    rewrite run_bind, run_duelloMatchTotals. cbn [run snd].
    rewrite Hfin.
    eexists. split; [reflexivity |]. split; reflexivity.
Qed.

(** ** Answers in info mode, the times stored, and the refusals *)

Lemma answer_is_correct_iff (qc : option Question) (norm : string) :
  answer_is_correct qc norm = 1 <->
  exists q, qc = Some q /\ q_correct_answer q = Some norm.
Proof.
  unfold answer_is_correct. destruct qc as [q |].
  - unfold option_string_eqb. destruct (q_correct_answer q) as [t |] eqn:Eq.
    + destruct (String.eqb_spec t norm) as [-> | Hne].
      * split; [intros _; exists q; auto | reflexivity].
      * split; [discriminate |]. intros (q' & E & E'). injection E as <-.
        congruence.
    + split; [discriminate |]. intros (q' & E & E'). injection E as <-. congruence.
  - split; [discriminate |]. intros (q' & E & _). discriminate.
Qed.

(** X12.  In an info-mode match each of the two players answers the
    current question on their own: whether or not the opponent has answered,
    a player without an answer on record gets theirs written, one row, with
    [locked: false], and the rows of the opponent stay as they are; a player
    with an answer on record is told [AlreadyAnswered] and nothing is
    written.  The row is marked correct exactly when the normalised answer
    is the [correct_answer] of the question. *)
Theorem info_answers_are_independent (now : Timestamp) (req : AnswerRequest)
  (s : Store) (m : Match) (qid : Z) (norm : string) (mx : Z) :
  answer_reaches req s m qid norm ->
  m_mode m = info ->
  answer_max_seconds req = Some mx ->
  let matchId := aq_match_id req in
  let userId := aq_user_id req in
  let s' := fst (run now (submitAnswer req) s) in
  let r := snd (run now (submitAnswer req) s) in
  let isCorrect :=
    answer_is_correct (first_row (fun q => q_id q =? qid) (questions s)) norm in
  (exists_row (answer_key matchId qid userId) (duello_answers s) = true ->
   r = Fail AlreadyAnswered /\ duello_answers s' = duello_answers s) /\
  (exists_row (answer_key matchId qid userId) (duello_answers s) = false ->
   r = Ok false /\
   duello_answers s' =
     duello_answers s ++
       [make_answer (seq_answers s) matchId qid userId norm isCorrect now mx
          (answer_left_seconds req)] /\
   answer_count matchId qid userId s' = 1%nat /\
   forall other, other <> userId ->
     answer_count matchId qid other s' = answer_count matchId qid other s) /\
  (isCorrect = 1 <->
   exists q, first_row (fun q => q_id q =? qid) (questions s) = Some q /\
             q_correct_answer q = Some norm).
Proof.
  intros Hreach Hmode Hmx. cbv zeta.
  rewrite (submitAnswer_reaches now req s m qid norm Hreach). cbv zeta.
  rewrite Hmode, Hmx.
  split; [| split].
  - intros Hmine. rewrite Hmine. split; reflexivity.
  - intros Hmine. rewrite Hmine.
    unfold record_info. cbn [run bind]. unfold insert_answer.
    change (duello_answers (touched now (aq_match_id req) (aq_user_id req) s))
      with (duello_answers s).
    rewrite Hmine. cbn [run fst snd].
    split; [reflexivity |]. split; [reflexivity |].
    unfold answer_count. store_simpl.
    split.
    + rewrite List.filter_app. cbn [List.filter]. rewrite answer_key_make, Z.eqb_refl.
      rewrite exists_row_existsb in Hmine.
      assert (E : List.filter (answer_key (aq_match_id req) qid (aq_user_id req))
                    (duello_answers s) = []).
      { clear - Hmine. induction (duello_answers s) as [| a l IH]; [reflexivity |].
        cbn in *. apply orb_false_iff in Hmine. destruct Hmine as [-> H]. auto. }
      rewrite E. reflexivity.
    + intros other Hne. rewrite List.filter_app. cbn [List.filter].
      rewrite answer_key_make.
      rewrite (neq_eqb_false (aq_user_id req) other) by congruence.
      now rewrite app_nil_r.
  - apply answer_is_correct_iff.
Qed.

(** The row an accepted answer leaves behind. *)
Lemma submitAnswer_row (now : Timestamp) (req : AnswerRequest) (s s' : Store)
  (m : Match) (qid : Z) (norm : string) (locked : bool) :
  answer_reaches req s m qid norm ->
  run now (submitAnswer req) s = (s', Ok locked) ->
  exists mx id,
    answer_max_seconds req = Some mx /\
    In (make_answer id (aq_match_id req) qid (aq_user_id req) norm
          (answer_is_correct (first_row (fun q => q_id q =? qid) (questions s)) norm)
          now mx (answer_left_seconds req))
       (duello_answers s').
Proof.
  intros Hreach Hrun.
  rewrite (submitAnswer_reaches now req s m qid norm Hreach) in Hrun.
  cbv zeta in Hrun.
  destruct (exists_row _ (duello_answers s)); [discriminate |].
  destruct (m_mode m).
  - unfold record_info in Hrun. cbn [run bind] in Hrun. unfold insert_answer in Hrun.
    destruct (answer_max_seconds req) as [mx |]; [| discriminate].
    destruct (exists_row _ _); [discriminate |].
    cbn in Hrun. injection Hrun as <- _.
    exists mx. eexists. split; [reflexivity |]. apply in_or_app. right. now left.
  - unfold record_speed in Hrun. cbn [run bind] in Hrun.
    unfold insert_first_answer in Hrun.
    destruct (answer_max_seconds req) as [mx |]; [| discriminate].
    destruct (answers_of _ _ _); [| discriminate].
    hstep_in Hrun.
    match type of Hrun with
    | run _ (if ?c then _ else _) ?st = _ =>
        assert (Hin : In (make_answer (seq_answers
                                         (touched now (aq_match_id req) (aq_user_id req) s))
                            (aq_match_id req) qid (aq_user_id req) norm
                            (answer_is_correct
                               (first_row (fun q => q_id q =? qid) (questions s)) norm)
                            now mx (answer_left_seconds req))
                         (duello_answers st))
          by (apply in_or_app; right; now left);
        destruct c
    end.
    + injection Hrun as <- _. exists mx. eexists. split; [reflexivity | exact Hin].
    + cbn [run] in Hrun. unfold insert_answer in Hrun.
      destruct (exists_row _ _); [discriminate |].
      cbn in Hrun. injection Hrun as <- _.
      exists mx, (seq_answers s). split; [reflexivity |].
      store_simpl. store_simpl_in Hin. apply in_or_app. left. exact Hin.
Qed.

Lemma per_question_floor (d : Z) : DUELLO_PER_Q_SEC penv = Some d -> 5 <= d.
Proof.
  unfold DUELLO_PER_Q_SEC, Js.Math_max.
  destruct (Js.parseInt _) as [n |]; [| discriminate].
  intros H. injection H as <-. lia.
Qed.

(** X13.  The times stored with an accepted answer are clamped.  The time
    limit is the client's value brought into 1..120 when the client sends a
    number, and the configured per-question time, which is at least 5,
    otherwise; the time left is the client's value brought into 0..limit, 0
    when the client sends none; the seconds earned are the time left. *)
Theorem answer_times_are_clamped (now : Timestamp) (req : AnswerRequest)
  (s s' : Store) (m : Match) (qid : Z) (norm : string) (locked : bool) :
  answer_reaches req s m qid norm ->
  run now (submitAnswer req) s = (s', Ok locked) ->
  exists row mx lf,
    In row (duello_answers s') /\
    a_match_id row = aq_match_id req /\ a_question_id row = qid /\
    a_user_id row = aq_user_id req /\
    a_max_time_seconds row = Some mx /\
    a_time_left_seconds row = Some lf /\
    a_earned_seconds row = Some lf /\
    0 <= lf <= mx /\
    match aq_max_time_seconds req with
    | Some mls => 1 <= mx <= 120 /\ (1 <= mls <= 120 -> mx = mls)
    | None => DUELLO_PER_Q_SEC penv = Some mx /\ 5 <= mx
    end /\
    match aq_time_left_seconds req with
    | Some tls => 0 <= tls <= mx -> lf = tls
    | None => lf = 0
    end.
Proof.
  intros Hreach Hrun.
  destruct (submitAnswer_row now req s s' m qid norm locked Hreach Hrun)
    as (mx & rid & Hmx & Hin).
  eexists. exists mx, (answer_left_seconds req).
  split; [exact Hin |]. cbn [make_answer a_match_id a_question_id a_user_id
                            a_max_time_seconds a_time_left_seconds a_earned_seconds].
  repeat (split; [reflexivity |]).
  assert (H1 : 1 <= mx).
  { unfold answer_max_seconds in Hmx. destruct (aq_max_time_seconds req).
    - injection Hmx as <-. lia.
    - pose proof (per_question_floor mx Hmx). lia. }
  unfold answer_left_seconds. rewrite Hmx. cbn [from_option id].
  split; [lia |]. split.
  - unfold answer_max_seconds in Hmx. destruct (aq_max_time_seconds req).
    + injection Hmx as <-. split; lia.
    + split; [exact Hmx | exact (per_question_floor mx Hmx)].
  - destruct (aq_time_left_seconds req); cbn [from_option id]; lia.
Qed.

(** X14.  A refused answer writes no answer row.  Without a match id or a
    user id, for an unknown match, for a match that is not active and for a
    user who does not play in it, nothing at all is written.  When the match
    has no question at the current position, and when a player skips in
    speed mode, the refusal comes after the liveness touch: the caller
    counts as seen, and nothing else changes. *)
Theorem submitAnswer_refusals (now : Timestamp) (req : AnswerRequest) (s : Store) :
  let matchId := aq_match_id req in
  let userId := aq_user_id req in
  (matchId = 0 \/ userId = 0 ->
   run now (submitAnswer req) s = (s, Fail MissingIds)) /\
  (matchId <> 0 -> userId <> 0 ->
   (first_row (fun r => m_id r =? matchId) (duello_matches s) = None ->
    run now (submitAnswer req) s = (s, Fail MatchNotFound)) /\
   (forall m,
      first_row (fun r => m_id r =? matchId) (duello_matches s) = Some m ->
      (m_state m <> active ->
       run now (submitAnswer req) s = (s, Fail MatchNotActive)) /\
      (m_state m = active -> inThisMatch m userId = false ->
       run now (submitAnswer req) s = (s, Fail Forbidden)) /\
      (m_state m = active -> inThisMatch m userId = true ->
       question_id_at matchId (m_current_index m + 1) s = None ->
       run now (submitAnswer req) s
       = (touched now matchId userId s, Fail NoActiveQuestion)) /\
      (forall qid,
         m_state m = active -> inThisMatch m userId = true ->
         question_id_at matchId (m_current_index m + 1) s = Some qid ->
         m_mode m = speed -> normalizeAnswer (aq_answer req) = bilmem ->
         run now (submitAnswer req) s
         = (touched now matchId userId s, Fail NoSkipInSpeedMode)))) /\
  duello_answers (touched now matchId userId s) = duello_answers s /\
  progress (touched now matchId userId s) = progress s.
Proof.
  cbv zeta. split; [| split].
  - intros H. unfold submitAnswer.
    assert (E : (aq_match_id req =? 0) || (aq_user_id req =? 0) = true).
    { destruct H as [-> | ->]; [reflexivity | apply orb_true_r]. }
    now rewrite E.
  - intros Hm Hu.
    assert (Hpre : forall k,
              (if (aq_match_id req =? 0) || (aq_user_id req =? 0)
               then Return (Fail MissingIds) else k) = k :> Handler (Response bool)).
    { intros k. now rewrite (neq_eqb_false _ _ Hm), (neq_eqb_false _ _ Hu). }
    split.
    + intros Hrow. unfold submitAnswer. rewrite Hpre. hstep. now rewrite Hrow.
    + intros m Hrow.
      assert (Hid : m_id m = aq_match_id req).
      { apply first_row_Some in Hrow. destruct Hrow as [_ E]. now apply Z.eqb_eq in E. }
      split; [| split; [| split]].
      * intros Hst. unfold submitAnswer. rewrite Hpre. hstep. rewrite Hrow.
        destruct (m_state m); [contradiction | reflexivity | reflexivity].
      * intros Hst Hin. unfold submitAnswer. rewrite Hpre. hstep.
        now rewrite Hrow, Hst, Hin.
      * intros Hst Hin Hq. unfold submitAnswer. rewrite Hpre. hstep.
        rewrite Hrow, Hst, Hin. cbn [MatchState_eqb negb]. hstep.
        fold (touched now (aq_match_id req) (aq_user_id req) s).
        rewrite Hid.
        change (question_id_at (aq_match_id req) (m_current_index m + 1)
                  (touched now (aq_match_id req) (aq_user_id req) s))
          with (question_id_at (aq_match_id req) (m_current_index m + 1) s).
        now rewrite Hq.
      * intros qid Hst Hin Hq Hmode Hnorm. unfold submitAnswer. rewrite Hpre. hstep.
        rewrite Hrow, Hst, Hin. cbn [MatchState_eqb negb]. hstep.
        fold (touched now (aq_match_id req) (aq_user_id req) s).
        rewrite Hid.
        change (question_id_at (aq_match_id req) (m_current_index m + 1)
                  (touched now (aq_match_id req) (aq_user_id req) s))
          with (question_id_at (aq_match_id req) (m_current_index m + 1) s).
        rewrite Hq. unfold normalizeDuelloAnswer. rewrite Hmode, Hnorm. reflexivity.
  - split; [reflexivity | apply progress_touched].
Qed.

(** ** Moving on to the next question *)

Lemma run_advance (now : Timestamp) (m : Match) (matchId qid : Z) (s : Store) :
  (2 <= List.length (answers_of matchId qid s))%nat ->
  run now (advance m matchId qid) s = advanced now m matchId s.
Proof.
  intros H. unfold advance, advanced. hstep.
  destruct (Z.leb_spec 2 (Z.of_nat (List.length (answers_of matchId qid s)))); [| lia].
  destruct (m_total_questions m <=? m_current_index m + 1); reflexivity.
Qed.

Lemma answers_of_two (matchId qid a b : Z) (l : list Answer) :
  a <> b ->
  (List.length (List.filter (answer_key matchId qid a) l) +
   List.length (List.filter (answer_key matchId qid b) l)
   <= List.length
        (List.filter
           (fun x => ((a_match_id x =? matchId) && (a_question_id x =? qid))%Z) l))%nat.
Proof.
  intros Hab. unfold answer_key.
  induction l as [| x l IH]; cbn [List.filter List.length]; [lia |].
  destruct ((a_match_id x =? matchId) && (a_question_id x =? qid)); cbn [andb].
  - destruct (Z.eqb_spec (a_user_id x) a) as [Ea | Ea];
      destruct (Z.eqb_spec (a_user_id x) b) as [Eb | Eb];
      try (exfalso; congruence); cbn [List.length]; lia.
  - exact IH.
Qed.

Lemma exists_row_count (matchId qid uid : Z) (l : list Answer) :
  exists_row (answer_key matchId qid uid) l = true ->
  (1 <= List.length (List.filter (answer_key matchId qid uid) l))%nat.
Proof.
  unfold exists_row, first_row.
  destruct (List.filter _ l); [discriminate | cbn; lia].
Qed.

(** The info-mode fill, when the per-question time is a number and the two
    players differ. *)
Lemma run_fill_missing_info (now : Timestamp) (m : Match) (matchId qid d : Z)
  (s : Store) :
  m_mode m = info ->
  DUELLO_PER_Q_SEC penv = Some d ->
  m_user_a_id m <> m_user_b_id m ->
  let aAns := exists_row (answer_key matchId qid (m_user_a_id m)) (duello_answers s) in
  let bAns := exists_row (answer_key matchId qid (m_user_b_id m)) (duello_answers s) in
  exists ida idb s',
    run now (fill_missing m matchId qid) s = (s', true) /\
    duello_answers s' =
      duello_answers s
      ++ unknown_row aAns (make_answer ida matchId qid (m_user_a_id m) bilmem 0 now d 0)
      ++ unknown_row bAns (make_answer idb matchId qid (m_user_b_id m) bilmem 0 now d 0) /\
    duello_matches s' = duello_matches s /\
    duello_match_questions s' = duello_match_questions s /\
    sseClients s' = sseClients s /\ wire s' = wire s.
Proof.
  intros Hmode Hd Hab. cbv zeta.
  unfold fill_missing. rewrite Hmode. hstep. rewrite run_bind.
  unfold fill_unknown. rewrite Hd.
  destruct (exists_row (answer_key matchId qid (m_user_a_id m)) (duello_answers s))
    eqn:Ha.
  - cbn [run].
    destruct (exists_row (answer_key matchId qid (m_user_b_id m)) (duello_answers s))
      eqn:Hb.
    + exists 0, 0, s. cbn. rewrite ?app_nil_r. repeat split.
    + cbn [run]. unfold insert_answer. rewrite Hb.
      exists 0, (seq_answers s). eexists. split; [reflexivity |]. cbn. repeat split.
  - cbn [run]. unfold insert_answer at 1. rewrite Ha. cbn [run].
    destruct (exists_row (answer_key matchId qid (m_user_b_id m)) (duello_answers s))
      eqn:Hb.
    + exists (seq_answers s), 0. eexists. split; [reflexivity |]. cbn.
      rewrite ?app_nil_r. repeat split.
    + cbn [run]. unfold insert_answer. store_simpl.
      rewrite exists_row_existsb, existsb_app, <- exists_row_existsb, Hb.
      cbn [existsb orb]. rewrite answer_key_make.
      rewrite (neq_eqb_false _ _ Hab). cbn [orb].
      exists (seq_answers s), (seq_answers s + 1). eexists.
      split; [reflexivity |]. cbn. rewrite <- app_assoc. repeat split.
Qed.

(** X15.  In an info-mode match, with the per-question time a number, a
    [reveal] at the current question never waits: each player without an
    answer on record gets a ['bilmem'] row marked incorrect, the players
    with one keep theirs, and the index moves on by one; on the last
    question the match is finished instead and both players are told. *)
Theorem reveal_info_fills_and_advances (now : Timestamp) (matchId userId : Z)
  (s : Store) (m : Match) (qid d : Z) :
  reveal_reaches matchId userId s m qid ->
  m_mode m = info ->
  DUELLO_PER_Q_SEC penv = Some d ->
  m_user_a_id m <> m_user_b_id m ->
  let aId := m_user_a_id m in
  let bId := m_user_b_id m in
  let aAns := exists_row (answer_key matchId qid aId) (duello_answers s) in
  let bAns := exists_row (answer_key matchId qid bId) (duello_answers s) in
  let nextIdx := m_current_index m + 1 in
  let last := m_total_questions m <=? nextIdx in
  let s' := fst (run now (reveal matchId userId) s) in
  snd (run now (reveal matchId userId) s) =
    Ok {| rv_finished := last; rv_current_index := nextIdx |} /\
  (exists ida idb,
     duello_answers s' =
       duello_answers s
       ++ unknown_row aAns (make_answer ida matchId qid aId bilmem 0 now d 0)
       ++ unknown_row bAns (make_answer idb matchId qid bId bilmem 0 now d 0)) /\
  (1 <= answer_count matchId qid aId s')%nat /\
  (1 <= answer_count matchId qid bId s')%nat /\
  first_row (fun r => m_id r =? matchId) (duello_matches s') =
    Some (if last then match_finish_at now nextIdx (match_touch now userId m)
          else match_set_index nextIdx (match_touch now userId m)) /\
  (last = true ->
   forall uid set c, uid = aId \/ uid = bId ->
     sseClients s !! uid = Some set -> In c set ->
     In (c, named (match_finished (m_id m))) (wire s')).
Proof.
  intros Hreach Hmode Hd Hab. cbv zeta.
  rewrite (reveal_reaches_run now matchId userId s m qid Hreach), run_bind.
  destruct (run_fill_missing_info now m matchId qid d (touched now matchId userId s)
              Hmode Hd Hab) as (ida & idb & s2 & Hfill & Hans & Hmat & _ & Hcl & Hw).
  change (duello_answers (touched now matchId userId s)) with (duello_answers s) in Hans.
  rewrite Hfill. cbn [negb].
  set (aAns := exists_row (answer_key matchId qid (m_user_a_id m)) (duello_answers s)) in *.
  set (bAns := exists_row (answer_key matchId qid (m_user_b_id m)) (duello_answers s)) in *.
  assert (Hca : (1 <= List.length (List.filter (answer_key matchId qid (m_user_a_id m))
                                     (duello_answers s2)))%nat).
  { rewrite Hans, !List.filter_app, !length_app. subst aAns.
    destruct (exists_row (answer_key matchId qid (m_user_a_id m)) (duello_answers s))
      eqn:Ha; cbn [unknown_row List.filter].
    - apply exists_row_count in Ha. lia.
    - rewrite answer_key_make, Z.eqb_refl. cbn. lia. }
  assert (Hcb : (1 <= List.length (List.filter (answer_key matchId qid (m_user_b_id m))
                                     (duello_answers s2)))%nat).
  { rewrite Hans, !List.filter_app, !length_app. subst bAns.
    destruct (exists_row (answer_key matchId qid (m_user_b_id m)) (duello_answers s))
      eqn:Hb; cbn [unknown_row List.filter].
    - apply exists_row_count in Hb. lia.
    - rewrite answer_key_make, Z.eqb_refl. cbn. lia. }
  rewrite run_advance.
  2:{ unfold answers_of.
      pose proof (answers_of_two matchId qid _ _ (duello_answers s2) Hab). lia. }
  pose proof Hreach as (_ & _ & Hrow & _).
  assert (Hrow2 : first_row (fun r => m_id r =? matchId) (duello_matches s2)
                  = Some (match_touch now userId m)).
  { rewrite Hmat. unfold touched. store_simpl.
    rewrite first_row_sql_update by reflexivity. now rewrite Hrow. }
  unfold advanced.
  destruct (m_total_questions m <=? m_current_index m + 1) eqn:Elast; cbn [fst snd].
  - split; [reflexivity |].
    split; [exists ida, idb; now rewrite !sseEmit_answers |].
    unfold answer_count. rewrite !sseEmit_answers. store_simpl.
    split; [exact Hca |]. split; [exact Hcb |].
    split.
    { rewrite !sseEmit_matches. store_simpl.
      rewrite first_row_sql_update by reflexivity. now rewrite Hrow2. }
    intros _ uid set c Huid Hset Hc.
    assert (Hset2 : sseClients s2 !! uid = Some set) by (now rewrite Hcl).
    destruct Huid as [-> | ->].
    + apply sseEmit_wire_grows.
      apply (sseEmit_delivers _ _ _ set c); [exact Hset2 | exact Hc].
    + apply (sseEmit_delivers _ _ _ set c); [| exact Hc].
      rewrite sseEmit_clients. exact Hset2.
  - split; [reflexivity |].
    split; [exists ida, idb; exact Hans |].
    unfold answer_count. store_simpl.
    split; [exact Hca |]. split; [exact Hcb |].
    split; [| discriminate].
    rewrite first_row_sql_update by reflexivity. now rewrite Hrow2.
Qed.

(** The first answer to a question of a speed match. *)
Lemma submitAnswer_speed_first (now : Timestamp) (req : AnswerRequest) (s : Store)
  (m : Match) (qid : Z) (norm : string) (mx : Z) :
  answer_reaches req s m qid norm ->
  m_mode m = speed ->
  answer_max_seconds req = Some mx ->
  answers_of (aq_match_id req) qid s = [] ->
  m_user_a_id m <> m_user_b_id m ->
  let matchId := aq_match_id req in
  let userId := aq_user_id req in
  run now (submitAnswer req) s =
    (with_answers
       (fun l => l ++ [make_answer (seq_answers s + 1) matchId qid (opponentId m userId)
                         bilmem 0 now mx 0])
       (with_seqs keep keep (fun n => n + 1)
          (with_answers
             (fun l => l ++ [make_answer (seq_answers s) matchId qid userId norm
                               (answer_is_correct
                                  (first_row (fun q => q_id q =? qid) (questions s)) norm)
                               now mx (answer_left_seconds req)])
             (with_seqs keep keep (fun n => n + 1) (touched now matchId userId s)))),
     Ok true).
Proof.
  intros Hreach Hmode Hmx Hrows Hab. cbv zeta.
  pose proof Hreach as (_ & _ & _ & _ & Hin & _ & _).
  rewrite (submitAnswer_reaches now req s m qid norm Hreach). cbv zeta.
  rewrite Hmode, Hmx.
  rewrite (answers_of_nil_no_key (aq_match_id req) qid (aq_user_id req) s Hrows).
  destruct (opponentId_other m (aq_user_id req) Hin Hab) as [Hopp _].
  unfold record_speed. cbn [run bind]. unfold insert_first_answer.
  change (answers_of (aq_match_id req) qid
            (touched now (aq_match_id req) (aq_user_id req) s))
    with (answers_of (aq_match_id req) qid s).
  rewrite Hrows. hstep. store_simpl.
  rewrite exists_row_existsb, existsb_app.
  rewrite <- exists_row_existsb.
  rewrite (answers_of_nil_no_key (aq_match_id req) qid
             (opponentId m (aq_user_id req)) s Hrows).
  cbn [existsb orb]. rewrite answer_key_make.
  rewrite (neq_eqb_false (aq_user_id req) (opponentId m (aq_user_id req)))
    by congruence.
  cbn [orb]. hstep.
  unfold insert_answer.
  rewrite exists_row_existsb. store_simpl.
  rewrite existsb_app, <- exists_row_existsb.
  rewrite (answers_of_nil_no_key (aq_match_id req) qid
             (opponentId m (aq_user_id req)) s Hrows).
  cbn [existsb orb]. rewrite answer_key_make.
  rewrite (neq_eqb_false (aq_user_id req) (opponentId m (aq_user_id req)))
    by congruence.
  reflexivity.
Qed.

(** X16.  In a speed match the first answer to the current question is
    all a [reveal] needs: once it is in, with the ['bilmem'] row it brings
    for the opponent, a [reveal] by either player moves the index on by one,
    or finishes the match on the last question, and writes no answer. *)
Theorem speed_answer_then_reveal (now now2 : Timestamp) (req : AnswerRequest)
  (caller : Z) (s : Store) (m : Match) (qid : Z) (norm : string) (mx : Z) :
  answer_reaches req s m qid norm ->
  m_mode m = speed ->
  answer_max_seconds req = Some mx ->
  answers_of (aq_match_id req) qid s = [] ->
  m_user_a_id m <> m_user_b_id m ->
  m_current_index m + 1 <= m_total_questions m ->
  caller <> 0 -> inThisMatch m caller = true ->
  let matchId := aq_match_id req in
  let s1 := fst (run now (submitAnswer req) s) in
  let nextIdx := m_current_index m + 1 in
  let last := m_total_questions m <=? nextIdx in
  let s2 := fst (run now2 (reveal matchId caller) s1) in
  snd (run now2 (reveal matchId caller) s1) =
    Ok {| rv_finished := last; rv_current_index := nextIdx |} /\
  duello_answers s2 = duello_answers s1 /\
  exists m2,
    first_row (fun r => m_id r =? matchId) (duello_matches s2) = Some m2 /\
    m_current_index m2 = nextIdx /\
    m_state m2 = (if last then finished else active).
Proof.
  intros Hreach Hmode Hmx Hrows Hab Hpos Hc Hcin. cbv zeta.
  rewrite (submitAnswer_speed_first now req s m qid norm mx Hreach Hmode Hmx Hrows Hab).
  cbv zeta. cbn [fst].
  set (s1 := with_answers _ _).
  pose proof Hreach as (Hm & Hu & Hrow & Hst & Hin & Hq & _).
  assert (Hid : m_id m = aq_match_id req).
  { apply first_row_Some in Hrow. destruct Hrow as [_ E]. now apply Z.eqb_eq in E. }
  assert (Hrow1 : first_row (fun r => m_id r =? aq_match_id req) (duello_matches s1)
                  = Some (match_touch now (aq_user_id req) m)).
  { subst s1. store_simpl.
    rewrite first_row_sql_update by reflexivity. now rewrite Hrow. }
  assert (Hreach1 : reveal_reaches (aq_match_id req) caller s1
                      (match_touch now (aq_user_id req) m) qid).
  { split; [exact Hm |]. split; [exact Hc |]. split; [exact Hrow1 |].
    split; [exact Hst |]. split; [exact Hcin |]. split; [exact Hpos |].
    rewrite <- Hid at 1. exact Hq. }
  rewrite (reveal_reaches_run now2 (aq_match_id req) caller s1 _ qid Hreach1).
  unfold fill_missing.
  assert (Hmode1 : m_mode (match_touch now (aq_user_id req) m) = speed)
    by (unfold match_touch; exact Hmode).
  rewrite Hmode1. cbn [bind negb].
  rewrite run_advance.
  2:{ unfold answers_of, touched. store_simpl. subst s1. store_simpl.
      rewrite !List.filter_app, !length_app. cbn [List.filter].
      unfold make_answer at 1 2. cbn [a_match_id a_question_id].
      rewrite !Z.eqb_refl. cbn. lia. }
  unfold advanced.
  change (m_total_questions (match_touch now (aq_user_id req) m))
    with (m_total_questions m).
  change (m_current_index (match_touch now (aq_user_id req) m))
    with (m_current_index m).
  destruct (m_total_questions m <=? m_current_index m + 1); cbn [fst snd].
  - split; [reflexivity |]. split; [now rewrite !sseEmit_answers |].
    eexists. split.
    + rewrite !sseEmit_matches. store_simpl.
      rewrite first_row_sql_update by reflexivity.
      rewrite first_row_sql_update by reflexivity.
      fold (duello_matches s1). rewrite Hrow1. reflexivity.
    + split; reflexivity.
  - split; [reflexivity |]. split; [reflexivity |].
    eexists. split.
    + store_simpl.
      rewrite first_row_sql_update by reflexivity.
      rewrite first_row_sql_update by reflexivity.
      fold (duello_matches s1). rewrite Hrow1. reflexivity.
    + split; [reflexivity |]. cbn. exact Hst.
Qed.

(** ** Polling and the sweeper *)

Lemma first_row_match_update (c : Match -> bool) (f : Match -> Match) (id : Z)
  (l : list Match) :
  (forall x, m_id (f x) = m_id x) ->
  first_row (fun r => m_id r =? id) (sql_update c f l) =
  option_map (fun x => if c x then f x else x) (first_row (fun r => m_id r =? id) l).
Proof.
  intros Hid. unfold first_row, sql_update.
  induction l as [| x l IH]; cbn; [reflexivity |].
  assert (E : m_id (if c x then f x else x) = m_id x).
  { destruct (c x); [apply Hid | reflexivity]. }
  rewrite E. destruct (m_id x =? id); cbn; [reflexivity | exact IH].
Qed.

Lemma ensure_matches (now : Timestamp) (m : Match) (s : Store) :
  duello_matches (fst (run now (ensureDuelloQuestionSet m) s)) = duello_matches s.
Proof.
  destruct (question_set_of (m_id m) s) as [| r l] eqn:E.
  - now rewrite (ensure_generates now m s E).
  - rewrite (ensure_existing now m s); [reflexivity | rewrite E; discriminate].
Qed.

(** The status route writes to the matches table with its touch only. *)
Lemma matchStatus_matches (now : Timestamp) (matchId userId : Z) (s : Store)
  (m : Match) :
  matchId <> 0 -> userId <> 0 ->
  first_row (fun r => m_id r =? matchId) (duello_matches s) = Some m ->
  inThisMatch m userId = true ->
  duello_matches (fst (run now (matchStatus matchId userId) s)) =
  sql_update (fun r => m_id r =? matchId) (match_touch_status now userId)
    (duello_matches s).
Proof.
  intros Hm Hu Hrow Hin. unfold matchStatus.
  rewrite (neq_eqb_false _ _ Hm), (neq_eqb_false _ _ Hu). cbn [orb].
  hstep. rewrite Hrow, Hin. cbn [negb]. hstep. rewrite run_bind.
  set (s0 := with_matches _ s).
  pose proof (ensure_matches now m s0) as He.
  destruct (run now (ensureDuelloQuestionSet m) s0) as [s2 set]. cbn [fst] in He.
  rewrite run_bind, run_duelloScores.
  destruct (MatchState_eqb (m_state m) finished || _); [exact He |].
  hstep. destruct (question_id_at (m_id m) (m_current_index m + 1) s2);
    hstep; exact He.
Qed.

(** X17.  A match both of whose players have called the status route
    within the idle threshold is spared by the sweeper: after the two calls
    the row carries the times of the two calls as [last_seen_a] and
    [last_seen_b], and a tick that comes no later than the threshold after
    the earlier of them leaves the match active. *)
Theorem polling_keeps_match_alive (ta tb now : Timestamp) (matchId : Z) (s : Store)
  (m : Match) (sec : Z) :
  matchId <> 0 ->
  first_row (fun r => m_id r =? matchId) (duello_matches s) = Some m ->
  m_state m = active ->
  m_user_a_id m <> 0 -> m_user_b_id m <> 0 -> m_user_a_id m <> m_user_b_id m ->
  DUELLO_IDLE_ABORT_SEC penv = Some sec ->
  now - seconds sec <= ta -> now - seconds sec <= tb ->
  let s1 := fst (run ta (matchStatus matchId (m_user_a_id m)) s) in
  let s2 := fst (run tb (matchStatus matchId (m_user_b_id m)) s1) in
  let s3 := fst (run now duelloIdleAbortTick s2) in
  exists m3,
    first_row (fun r => m_id r =? matchId) (duello_matches s3) = Some m3 /\
    m_state m3 = active /\
    m_last_seen_a m3 = Some ta /\ m_last_seen_b m3 = Some tb.
Proof.
  intros Hm Hrow Hst Ha Hb Hab Hsec Hta Htb. cbv zeta.
  set (m1 := match_touch_status ta (m_user_a_id m) m).
  set (m2 := match_touch_status tb (m_user_b_id m) m1).
  assert (E1 : duello_matches (fst (run ta (matchStatus matchId (m_user_a_id m)) s))
               = sql_update (fun r => m_id r =? matchId)
                   (match_touch_status ta (m_user_a_id m)) (duello_matches s)).
  { apply (matchStatus_matches ta matchId _ s m Hm Ha Hrow).
    unfold inThisMatch. now rewrite Z.eqb_refl. }
  set (s1 := fst (run ta (matchStatus matchId (m_user_a_id m)) s)) in *.
  assert (Hrow1 : first_row (fun r => m_id r =? matchId) (duello_matches s1) = Some m1).
  { rewrite E1, first_row_sql_update by reflexivity. now rewrite Hrow. }
  assert (E2 : duello_matches (fst (run tb (matchStatus matchId (m_user_b_id m)) s1))
               = sql_update (fun r => m_id r =? matchId)
                   (match_touch_status tb (m_user_b_id m)) (duello_matches s1)).
  { apply (matchStatus_matches tb matchId _ s1 m1 Hm Hb Hrow1).
    unfold inThisMatch, m1, match_touch_status.
    destruct (m_user_a_id m =? m_user_a_id m), (m_user_b_id m =? m_user_a_id m);
      cbn; rewrite Z.eqb_refl; apply orb_true_r. }
  set (s2 := fst (run tb (matchStatus matchId (m_user_b_id m)) s1)) in *.
  assert (Hrow2 : first_row (fun r => m_id r =? matchId) (duello_matches s2) = Some m2).
  { rewrite E2, first_row_sql_update by reflexivity. now rewrite Hrow1. }
  rewrite (run_tick now sec s2 Hsec). cbn [fst].
  destruct (emit_all_tables
              (flat_map (fun m => [(m_user_a_id m, match_abandoned (m_id m));
                                   (m_user_b_id m, match_abandoned (m_id m))])
                 (List.filter (idle_match sec now) (duello_matches s2)))
              (with_matches (sql_update (idle_match sec now) (match_abandon now)) s2))
    as (Hmat & _).
  rewrite Hmat. store_simpl.
  rewrite (first_row_match_update (idle_match sec now) (match_abandon now) matchId _
             (fun x => eq_refl)), Hrow2.
  cbn [option_map].
  assert (Hseen : m_last_seen_a m2 = Some ta /\ m_last_seen_b m2 = Some tb).
  { unfold m2, m1, match_touch_status. cbn.
    rewrite !Z.eqb_refl.
    rewrite (neq_eqb_false _ _ Hab).
    destruct (m_user_b_id m =? m_user_a_id m) eqn:E;
      [apply Z.eqb_eq in E; congruence |].
    cbn. split; reflexivity. }
  destruct Hseen as [Hsa Hsb].
  assert (Hidle : idle_match sec now m2 = false).
  { unfold idle_match, seen_before. rewrite Hsa, Hsb. cbn [from_option id].
    destruct (Z.ltb_spec ta (now - seconds sec)); [lia |].
    destruct (Z.ltb_spec tb (now - seconds sec)); [lia |].
    cbn [orb]. now rewrite andb_false_r. }
  rewrite Hidle. exists m2. split; [reflexivity |].
  split; [exact Hst | split; assumption].
Qed.

(** * The quiz outside the duel: proofs *)

(** ** Procedures statement by statement *)

Section Abiding.
Context (R : Ledger -> Ledger -> Prop).
Hypothesis R_refl : forall s, R s s.
Hypothesis R_trans : forall s1 s2 s3, R s1 s2 -> R s2 s3 -> R s1 s3.

Lemma abides_bind {A B : Type} (p : Proc A) (f : A -> Proc B) :
  Abides R p -> (forall a, Abides R (f a)) -> Abides R (pbind p f).
Proof.
  intros Hp Hf. induction Hp as [a | | X st k Hst Hk IH]; cbn.
  - apply Hf.
  - apply abides_raise.
  - apply abides_stmt; [exact Hst | exact IH].
Qed.

Lemma abides_catch {A : Type} (p h : Proc A) :
  Abides R p -> Abides R h -> Abides R (catch p h).
Proof.
  intros Hp Hh. induction Hp as [a | | X st k Hst Hk IH]; cbn.
  - apply abides_finish.
  - exact Hh.
  - apply abides_stmt; [exact Hst | exact IH].
Qed.

Lemma abides_sql {X : Type} (st : Timestamp -> Ledger -> Ledger * option X) :
  (forall now s, R s (fst (st now s))) -> Abides R (sql st).
Proof.
  intros H. apply abides_stmt; [exact H |].
  intros [x |]; [apply abides_finish | apply abides_raise].
Qed.

Lemma abides_read {X : Type} (f : Ledger -> X) : Abides R (sql_read f).
Proof. apply abides_sql. intros; apply R_refl. Qed.

Lemma abides_write (f : Ledger -> Ledger) :
  (forall s, R s (f s)) -> Abides R (sql_write f).
Proof. intros H. apply abides_sql. intros; apply H. Qed.

Lemma abides_route {A : Type} (p : Proc (Reply A)) :
  Abides R p -> Abides R (route p).
Proof. intros H. apply abides_catch; [exact H | apply abides_finish]. Qed.

Lemma abides_perform {A : Type} (now : Timestamp) (p : Proc A) (s : Ledger) :
  Abides R p -> R s (fst (perform now p s)).
Proof.
  intros Hp. revert s. induction Hp as [a | | X st k Hst Hk IH]; intros s; cbn.
  - apply R_refl.
  - apply R_refl.
  - specialize (Hst now s). destruct (st now s) as [s1 o]. cbn in Hst.
    apply (R_trans _ s1); [exact Hst | apply IH].
Qed.

Lemma abides_stmt_inv {A X : Type} (st : Timestamp -> Ledger -> Ledger * option X)
  (k : option X -> Proc A) :
  Abides R (Stmt st k) ->
  (forall now s, R s (fst (st now s))) /\ (forall o, Abides R (k o)).
Proof.
  intros H.
  change (match Stmt st k with
          | Stmt st' k' =>
              (forall now s, R s (fst (st' now s))) /\ (forall o, Abides R (k' o))
          | _ => True
          end).
  destruct H; [exact I | exact I | split; assumption].
Qed.
End Abiding.

Ltac abide_with leaf :=
  repeat first
    [ apply abides_finish
    | apply abides_raise
    | apply abides_read; [intros; leaf]
    | apply abides_write; [intros; cbv beta; leaf]
    | apply abides_sql; [intros; cbv beta; leaf]
    | apply abides_route
    | apply abides_catch
    | apply abides_bind; [| intros ?]
    | match goal with
      | |- Abides _ (if ?c then _ else _) => destruct c
      | |- Abides _ (match ?x with _ => _ end) => destruct x
      end ].

Section GrantedQuiz.
Context (R : Ledger -> Ledger -> Prop) (G : LedgerGrants R).

Ltac granted :=
  first [ apply (lg_refl R G) | apply (lg_streak R G) | apply (lg_answer R G)
        | apply (lg_best R G) | apply (lg_ladder_insert R G)
        | apply (lg_ladder_reset R G) | apply (lg_take_book R G)
        | apply (lg_book_spend R G) | apply (lg_daily_question R G)
        | apply (lg_daily_session R G) | apply (lg_daily_move R G)
        | apply (lg_award R G) | apply (lg_two_books R G) ].

Lemma by_getDayKey : Abides R getDayKey.
Proof. unfold getDayKey. abide_with granted. Qed.

Lemma by_upsertDailyStreakOnFinish userId dayKey :
  Abides R (upsertDailyStreakOnFinish userId dayKey).
Proof. unfold upsertDailyStreakOnFinish. abide_with granted. Qed.

Lemma by_insertAnswer row : Abides R (insertAnswer row).
Proof.
  unfold insertAnswer. apply abides_sql. intros now s.
  destruct (_ && _); cbn [fst]; granted.
Qed.

Lemma by_bumpLadderBest userId level : Abides R (bumpLadderBest userId level).
Proof. unfold bumpLadderBest. abide_with granted. Qed.

Lemma by_ensureLadderSession userId level forceReset :
  Abides R (ensureLadderSession userId level forceReset).
Proof. unfold ensureLadderSession. abide_with granted. Qed.

Lemma by_totalPoints uid : Abides R (totalPoints uid).
Proof. unfold totalPoints. abide_with granted. Qed.

Lemma by_leaderboard : Abides R leaderboard.
Proof. unfold leaderboard. abide_with granted. Qed.

Lemma by_ladderAnswer req : Abides R (ladderAnswer req).
Proof.
  unfold ladderAnswer.
  abide_with ltac:(first [ granted | apply by_ensureLadderSession
                         | apply by_insertAnswer ]).
  all: try apply by_ensureLadderSession; try apply by_insertAnswer.
  all: abide_with granted.
  apply abides_write. intros s. apply (lg_ladder_count R G).
  destruct (String.eqb _ _); cbn [negb andb]; [lia |].
  destruct (_ =? 1); lia.
Qed.

Lemma by_ladderStart user_id level : Abides R (ladderStart user_id level).
Proof.
  unfold ladderStart.
  abide_with ltac:(first [ granted | apply by_ensureLadderSession
                         | apply by_bumpLadderBest ]).
  all: try apply by_ensureLadderSession; try apply by_bumpLadderBest.
Qed.

Lemma by_postLadderBestLevel uid level : Abides R (postLadderBestLevel uid level).
Proof. unfold postLadderBestLevel. abide_with granted. Qed.

Lemma by_getLadderBestLevel uid : Abides R (getLadderBestLevel uid).
Proof. unfold getLadderBestLevel. abide_with granted. Qed.

Lemma by_kademeliNext userId point : Abides R (kademeliNext userId point).
Proof.
  unfold kademeliNext. abide_with granted.
  all: try apply by_bumpLadderBest.
  all: abide_with granted.
Qed.

Lemma by_spendBook user_id question_id : Abides R (spendBook user_id question_id).
Proof.
  unfold spendBook. abide_with granted.
  all: try apply by_getDayKey.
  all: abide_with granted.
Qed.

Lemma by_getBooks userId : Abides R (getBooks userId).
Proof. unfold getBooks. abide_with granted. Qed.

Lemma by_bulk_loop surveyId qs : Abides R (bulk_loop surveyId qs).
Proof.
  induction qs as [| q rest IH]; cbn [bulk_loop]; [apply abides_finish |].
  destruct (String.eqb (bulk_text q) "") eqn:Et; [apply abides_finish |].
  destruct (Js.includes canonical (normalizeAnswer (nq_correct_answer q))) eqn:Ec;
    cbn [negb]; [| apply abides_finish].
  apply abides_bind; [| intros _; exact IH].
  apply abides_sql. intros now s. apply (lg_question R G).
  - intros E. rewrite E in Et. discriminate Et.
  - unfold Js.includes in Ec. apply existsb_exists in Ec.
    destruct Ec as (x & Hx & Ex). apply String.eqb_eq in Ex. now subst x.
Qed.

Lemma by_bulkQuestions surveyId qs : Abides R (bulkQuestions surveyId qs).
Proof.
  unfold bulkQuestions. destruct qs as [| q rest]; [apply abides_finish |].
  apply abides_bind; [apply abides_read; apply (lg_refl R G) |].
  intros [sv |]; [| apply abides_finish].
  apply abides_route. apply by_bulk_loop.
Qed.

Lemma by_insert_daily_loop dayKey i ids : Abides R (insert_daily_loop dayKey i ids).
Proof.
  revert i. induction ids as [| qid ids IH]; intros i; cbn [insert_daily_loop].
  - apply abides_finish.
  - apply abides_bind; [| intros _; apply IH].
    apply abides_write. intros s. apply (lg_daily_question R G).
Qed.

Lemma by_getOrCreateDailySetIds dayKey size :
  Abides R (getOrCreateDailySetIds dayKey size).
Proof.
  unfold getOrCreateDailySetIds.
  abide_with ltac:(first [ granted | apply by_insert_daily_loop ]).
  all: try apply by_insert_daily_loop.
  all: abide_with granted.
Qed.

Lemma by_getOrCreateDailySession userId dayKey :
  Abides R (getOrCreateDailySession userId dayKey).
Proof. unfold getOrCreateDailySession. abide_with granted. Qed.

Lemma by_finish_day userId dayKey : Abides R (finish_day userId dayKey).
Proof.
  unfold finish_day. abide_with granted.
  all: try apply by_upsertDailyStreakOnFinish.
  all: abide_with granted.
Qed.

Lemma by_dailyAnswer req : Abides R (dailyAnswer req).
Proof.
  unfold dailyAnswer.
  abide_with ltac:(first [ granted | apply by_getDayKey
                         | apply by_getOrCreateDailySession
                         | apply by_getOrCreateDailySetIds
                         | apply by_upsertDailyStreakOnFinish
                         | apply by_insertAnswer | apply by_finish_day ]).
  all: try first [ apply by_getDayKey | apply by_getOrCreateDailySession
                 | apply by_getOrCreateDailySetIds
                 | apply by_upsertDailyStreakOnFinish
                 | apply by_insertAnswer | apply by_finish_day ].
  all: abide_with granted.
  all: apply by_insert_daily_loop.
Qed.

Lemma by_dailySkip req : Abides R (dailySkip req).
Proof.
  unfold dailySkip.
  abide_with ltac:(first [ granted | apply by_getDayKey
                         | apply by_getOrCreateDailySession
                         | apply by_getOrCreateDailySetIds
                         | apply by_upsertDailyStreakOnFinish
                         | apply by_insertAnswer | apply by_finish_day ]).
  all: try first [ apply by_getDayKey | apply by_getOrCreateDailySession
                 | apply by_getOrCreateDailySetIds
                 | apply by_upsertDailyStreakOnFinish
                 | apply by_insertAnswer | apply by_finish_day ].
  all: abide_with granted.
  all: apply by_insert_daily_loop.
Qed.

Lemma by_proc_of (r : QuizRequest) : Abides R (proc_of r).
Proof.
  destruct r; cbn [proc_of]; unfold pforget;
    (apply abides_bind; [| intros ?; apply abides_finish]).
  - apply by_totalPoints.
  - apply by_leaderboard.
  - apply by_ladderAnswer.
  - apply by_ladderStart.
  - apply by_ladderStart.
  - apply by_postLadderBestLevel.
  - apply by_getLadderBestLevel.
  - apply by_kademeliNext.
  - apply by_spendBook.
  - apply by_getBooks.
  - apply by_bulkQuestions.
  - apply by_dailyAnswer.
  - apply by_dailySkip.
Qed.

Lemma desk_step_abides (d d' : Desk) :
  Forall (Abides R) (at_work d) ->
  desk_step d d' ->
  R (ledger d) (ledger d') /\ Forall (Abides R) (at_work d').
Proof.
  intros Hfl Hstep.
  destruct Hstep as [d r | d before after X st k now s' o Hin Hst
                    | d before after p Hin Hp]; cbn [ledger at_work].
  - split; [apply (lg_refl R G) |].
    apply Forall_app. split; [exact Hfl |].
    constructor; [apply by_proc_of | constructor].
  - rewrite Hin in Hfl. apply Forall_app in Hfl. destruct Hfl as [Hb Ha].
    inversion Ha as [| h l Hh Hl]; subst.
    destruct (abides_stmt_inv R st k Hh) as [Hs Hk].
    specialize (Hs now (ledger d)). rewrite Hst in Hs. cbn [fst] in Hs.
    split; [exact Hs |].
    apply Forall_app. split; [exact Hb |]. constructor; [apply Hk | exact Hl].
  - rewrite Hin in Hfl. apply Forall_app in Hfl. destruct Hfl as [Hb Ha].
    inversion Ha; subst.
    split; [apply (lg_refl R G) |]. apply Forall_app. now split.
Qed.

Lemma desk_reachable_abides (d0 d : Desk) :
  at_work d0 = [] ->
  desk_reachable d0 d ->
  R (ledger d0) (ledger d) /\ Forall (Abides R) (at_work d).
Proof.
  intros H0 Hreach. induction Hreach as [| d d' Hreach IH Hstep].
  - split; [apply (lg_refl R G) | rewrite H0; constructor].
  - destruct IH as [HR Hfl].
    destruct (desk_step_abides d d' Hfl Hstep) as [HR' Hfl'].
    split; [exact (lg_trans R G _ _ _ HR HR') | exact Hfl'].
Qed.
End GrantedQuiz.


(** ** Invariants of the ledger *)

Lemma Forall_sql_update {A : Type} (P : A -> Prop) (c : A -> bool) (f : A -> A)
  (l : list A) :
  (forall x, c x = true -> P x -> P (f x)) ->
  Forall P l -> Forall P (sql_update c f l).
Proof.
  intros Hf Hl. unfold sql_update. induction Hl as [| x l Hx Hl IH]; cbn [map].
  - constructor.
  - constructor; [| exact IH].
    destruct (c x) eqn:Ec; [now apply Hf | exact Hx].
Qed.

Lemma Forall2_sql_update {A : Type} (P : A -> A -> Prop) (c : A -> bool) (f : A -> A)
  (l : list A) :
  (forall x, P x x) -> (forall x, c x = true -> P x (f x)) ->
  Forall2 P l (sql_update c f l).
Proof.
  intros Hr Hf. unfold sql_update. induction l as [| x l IH]; cbn [map].
  - constructor.
  - constructor; [| exact IH].
    destruct (c x) eqn:Ec; [now apply Hf | apply Hr].
Qed.

Lemma Forall2_same {A : Type} (P : A -> A -> Prop) (l : list A) :
  (forall x, P x x) -> Forall2 P l l.
Proof. intros Hr. induction l; constructor; auto. Qed.

Lemma Forall2_chain {A : Type} (P : A -> A -> Prop) (l1 l2 l3 : list A) :
  (forall x y z, P x y -> P y z -> P x z) ->
  Forall2 P l1 l2 -> Forall2 P l2 l3 -> Forall2 P l1 l3.
Proof.
  intros Ht H12. revert l3. induction H12 as [| x y l1 l2 Hxy H12 IH]; intros l3 H23.
  - inversion H23; subst. constructor.
  - inversion H23 as [| y' z l2' l3' Hyz H23']; subst.
    constructor; [exact (Ht _ _ _ Hxy Hyz) | now apply IH].
Qed.

(** A relation that holds whenever the users are left as they are. *)
Ltac same_table :=
  match goal with
  | |- context [insert_ladder_session ?u ?l ?s] =>
      unfold insert_ladder_session; destruct (_ && _); cbn [fst]
  | |- context [insert_book_spend ?u ?q ?d ?s] =>
      unfold insert_book_spend; destruct (_ && _); cbn [fst]
  | |- context [insert_question ?a ?b ?c ?d ?s] =>
      unfold insert_question; destruct (exists_row _ _); cbn [fst]
  | |- context [insert_daily_question ?a ?b ?c ?s] =>
      unfold insert_daily_question; destruct (exists_row _ _)
  | |- context [insert_daily_session ?a ?b ?s] =>
      unfold insert_daily_session; destruct (_ && _); cbn [fst]
  | |- context [insert_finisher_award ?a ?b ?s] =>
      unfold insert_finisher_award; destruct (exists_row _ _);
      [| destruct (is_user _ _)]; cbn [fst]
  | |- context [upsert_streak ?a ?b ?c ?d ?s] =>
      unfold upsert_streak; destruct (exists_row _ _);
      [| destruct (is_user _ _)]; cbn [fst]
  | |- context [take_book ?a ?s] => unfold take_book; cbn [fst]
  | _ => idtac
  end.

Lemma books_nonneg_grants :
  LedgerGrants (fun s s' => books_nonneg s -> books_nonneg s').
Proof.
  constructor; intros; try (same_table; assumption).
  - auto.
  - unfold raise_best, books_nonneg in *. cbn [on_users lg_users].
    apply Forall_sql_update; [| assumption]. intros u _ Hu. exact Hu.
  - unfold take_book, books_nonneg in *. cbn [fst on_users lg_users].
    apply Forall_sql_update; [| assumption]. intros u Hc _.
    unfold has_books in Hc. apply andb_prop in Hc. destruct Hc as [_ Hc].
    apply Z.ltb_lt in Hc. unfold books, add_books in *. cbn [ac_books default from_option id].
    cbn. lia.
  - unfold books_nonneg in *. cbn [on_users lg_users].
    apply Forall_sql_update; [| assumption]. intros u _ Hu.
    unfold books, add_books in *. cbn. lia.
Qed.

(** X25.  From a ledger in which no user is short of books, whatever
    requests arrive on the quiz routes and however their statements
    interleave, no user is ever short of books: the balance of nobody goes
    below zero. *)
Theorem books_never_negative (d0 d : Desk) :
  at_work d0 = [] ->
  books_nonneg (ledger d0) ->
  desk_reachable d0 d ->
  books_nonneg (ledger d).
Proof.
  intros H0 Hb Hreach.
  exact (proj1 (desk_reachable_abides _ books_nonneg_grants d0 d H0 Hreach) Hb).
Qed.

Lemma ladder_sound_grants :
  LedgerGrants (fun s s' => ladder_sound s -> ladder_sound s').
Proof.
  constructor; intros; try (same_table; assumption).
  - auto.
  - match goal with H : ladder_sound _ |- _ => rename H into Hs end.
    unfold insert_ladder_session. destruct (_ && _); cbn [fst]; [| exact Hs].
    unfold ladder_sound in *. cbn [on_ladder_sessions lg_ladder_sessions].
    apply Forall_app. split; [exact Hs |]. constructor; [| constructor].
    cbn [ls_current_level ls_correct ls_attempts]. unfold clamp. lia.
  - match goal with H : ladder_sound _ |- _ => rename H into Hs end.
    unfold reset_ladder_session, ladder_sound in *.
    cbn [on_ladder_sessions lg_ladder_sessions].
    apply Forall_sql_update; [| exact Hs]. intros r _ _.
    cbn [ls_current_level ls_correct ls_attempts]. unfold clamp. lia.
  - match goal with H : ladder_sound _ |- _ => rename H into Hs end.
    unfold count_ladder_answer, ladder_sound in *.
    cbn [on_ladder_sessions lg_ladder_sessions].
    apply Forall_sql_update; [| exact Hs]. intros r _ Hr.
    cbn [ls_current_level ls_correct ls_attempts]. lia.
Qed.

(** X22.  From a ledger in which every ladder session has a level from 1
    to 10 and no more correct answers than attempts, whatever requests
    arrive on the quiz routes and however their statements interleave,
    every ladder session is such a session: the level stays within 1..10
    and the correct answers counted never exceed the attempts counted. *)
Theorem ladder_counters_sound (d0 d : Desk) :
  at_work d0 = [] ->
  ladder_sound (ledger d0) ->
  desk_reachable d0 d ->
  ladder_sound (ledger d).
Proof.
  intros H0 Hb Hreach.
  exact (proj1 (desk_reachable_abides _ ladder_sound_grants d0 d H0 Hreach) Hb).
Qed.

Lemma best_kept_refl (s : Ledger) : best_kept s s.
Proof. apply Forall2_same. intros u. repeat split; auto; lia. Qed.

Lemma best_kept_trans (s1 s2 s3 : Ledger) :
  best_kept s1 s2 -> best_kept s2 s3 -> best_kept s1 s3.
Proof.
  apply Forall2_chain. intros x y z (E1 & L1 & B1) (E2 & L2 & B2).
  repeat split; [congruence | lia | auto].
Qed.

Lemma best_kept_same (s s' : Ledger) : lg_users s' = lg_users s -> best_kept s s'.
Proof. intros E. unfold best_kept. rewrite E. apply best_kept_refl. Qed.

Lemma best_kept_grants : LedgerGrants best_kept.
Proof.
  constructor; intros;
    try (same_table; apply best_kept_same; reflexivity).
  - eapply best_kept_trans; eassumption.
  - unfold raise_best, best_kept. cbn [on_users lg_users].
    apply Forall2_sql_update; [intros u; repeat split; auto; lia |].
    intros u _. unfold best_level, clamp. cbn. lia.
  - unfold take_book, best_kept. cbn [fst on_users lg_users].
    apply Forall2_sql_update; [intros u; repeat split; auto; lia |].
    intros u _. unfold best_level, add_books. cbn. lia.
  - unfold best_kept. cbn [on_users lg_users].
    apply Forall2_sql_update; [intros u; repeat split; auto; lia |].
    intros u _. unfold best_level, add_books. cbn. lia.
Qed.

(** X23.  Whatever requests arrive on the quiz routes and however their
    statements interleave, the users stay the same rows and the best ladder
    level of none ever goes down; a best level that is at most 10 stays at
    most 10. *)
Theorem best_level_only_rises (d0 d : Desk) :
  at_work d0 = [] ->
  desk_reachable d0 d ->
  best_kept (ledger d0) (ledger d).
Proof.
  intros H0 Hreach.
  exact (proj1 (desk_reachable_abides _ best_kept_grants d0 d H0 Hreach)).
Qed.



(** ** Running procedures *)

Lemma perform_sql {X : Type} (now : Timestamp)
  (st : Timestamp -> Ledger -> Ledger * option X) (s : Ledger) :
  perform now (sql st) s = st now s.
Proof. cbn. destruct (st now s) as [s' [x |]]; reflexivity. Qed.

Lemma perform_read {X : Type} (now : Timestamp) (f : Ledger -> X) (s : Ledger) :
  perform now (sql_read f) s = (s, Some (f s)).
Proof. reflexivity. Qed.

Lemma perform_write (now : Timestamp) (f : Ledger -> Ledger) (s : Ledger) :
  perform now (sql_write f) s = (f s, Some tt).
Proof. reflexivity. Qed.

Lemma perform_bind {A B : Type} (now : Timestamp) (p : Proc A) (f : A -> Proc B)
  (s : Ledger) :
  perform now (pbind p f) s =
    match perform now p s with
    | (s', Some a) => perform now (f a) s'
    | (s', None) => (s', None)
    end.
Proof.
  revert s. induction p as [a | | X st k IH]; intros s; cbn.
  - reflexivity.
  - reflexivity.
  - destruct (st now s) as [s' o]. apply IH.
Qed.

Lemma perform_catch {A : Type} (now : Timestamp) (p h : Proc A) (s : Ledger) :
  perform now (catch p h) s =
    match perform now p s with
    | (s', Some a) => (s', Some a)
    | (s', None) => perform now h s'
    end.
Proof.
  revert s. induction p as [a | | X st k IH]; intros s; cbn.
  - reflexivity.
  - reflexivity.
  - destruct (st now s) as [s' o]. apply IH.
Qed.

Lemma perform_route {A : Type} (now : Timestamp) (p : Proc (Reply A)) (s : Ledger) :
  perform now (route p) s =
    match perform now p s with
    | (s', Some r) => (s', Some r)
    | (s', None) => (s', Some (Refused 500 InternalError))
    end.
Proof. unfold route. rewrite perform_catch. reflexivity. Qed.

(** ** Streaks *)

(** X18.  The bonus per correct answer never goes down as the streak
    grows; it is 0 for a streak below 3 days and for no other, 10 from 365
    days on and for no shorter streak, and it is never outside 0..10. *)
Theorem streak_bonus_steps (a b : Z) :
  a <= b ->
  0 <= streakBonus a <= streakBonus b /\ streakBonus b <= 10 /\
  (streakBonus a = 0 <-> a < 3) /\ (streakBonus b = 10 <-> 365 <= b).
Proof.
  intros Hab. unfold streakBonus.
  repeat match goal with
         | |- context [?x <=? ?y] => destruct (Z.leb_spec x y)
         end; lia.
Qed.

Lemma first_row_app_none {A : Type} (p : A -> bool) (l : list A) (x : A) :
  exists_row p l = false -> p x = true -> first_row p (l ++ [x]) = Some x.
Proof.
  intros Hn Hx. apply exists_row_false_filter in Hn.
  unfold first_row. rewrite List.filter_app, Hn. cbn. now rewrite Hx.
Qed.

Lemma exists_row_first {A : Type} (p : A -> bool) (l : list A) :
  exists_row p l = match first_row p l with Some _ => true | None => false end.
Proof. reflexivity. Qed.

Lemma perform_upsertDailyStreakOnFinish (now : Timestamp) (userId : Z) (dayKey : Day)
  (s : Ledger) :
  perform now (upsertDailyStreakOnFinish userId dayKey) s =
    let st := streak_of userId s in
    if option_Z_eqb (streak_last userId s) dayKey then (s, Some tt)
    else upsert_streak userId (next_streak st dayKey)
           (longest_streak st (next_streak st dayKey)) dayKey s.
Proof.
  unfold upsertDailyStreakOnFinish, streak_last.
  rewrite perform_bind, perform_read. cbv zeta.
  destruct (streak_of userId s) as [r |]; cbn [option_Z_eqb].
  - destruct (option_Z_eqb (sk_last_day_key r) dayKey); [reflexivity |].
    now rewrite perform_sql.
  - now rewrite perform_sql.
Qed.

Lemma option_Z_eqb_eq (o : option Z) (z : Z) : option_Z_eqb o z = true <-> o = Some z.
Proof.
  destruct o as [x |]; cbn; [| split; discriminate].
  rewrite Z.eqb_eq. split; [now intros -> | now intros [= ->]].
Qed.

Lemma upsert_streak_effect (now : Timestamp) (userId : Z) (dayKey : Day) (s : Ledger) :
  is_user userId s = true ->
  let s' := fst (perform now (upsertDailyStreakOnFinish userId dayKey) s) in
  let cur := streak_cur userId s in
  let best := streak_best userId s in
  let last := streak_last userId s in
  streak_last userId s' = Some dayKey /\
  streak_cur userId s' =
    (if option_Z_eqb last dayKey then cur
     else if option_Z_eqb last (dayKey - 1) then cur + 1 else 1) /\
  streak_best userId s' =
    (if option_Z_eqb last dayKey then best
     else Z.max best (streak_cur userId s')) /\
  perform now (upsertDailyStreakOnFinish userId dayKey) s' = (s', Some tt).
Proof.
  intros Hu. cbv zeta.
  assert (Hlast : streak_last userId
                    (fst (perform now (upsertDailyStreakOnFinish userId dayKey) s))
                  = Some dayKey ->
          perform now (upsertDailyStreakOnFinish userId dayKey)
            (fst (perform now (upsertDailyStreakOnFinish userId dayKey) s)) =
          (fst (perform now (upsertDailyStreakOnFinish userId dayKey) s), Some tt)).
  { intros E. rewrite (perform_upsertDailyStreakOnFinish now userId dayKey (fst _)).
    cbv zeta. rewrite E. cbn [option_Z_eqb]. now rewrite Z.eqb_refl. }
  rewrite perform_upsertDailyStreakOnFinish in *. cbv zeta in *.
  destruct (option_Z_eqb (streak_last userId s) dayKey) eqn:El.
  - cbn [fst] in *. apply option_Z_eqb_eq in El.
    split; [exact El |]. split; [reflexivity |]. split; [reflexivity |].
    apply Hlast, El.
  - unfold upsert_streak in *. rewrite exists_row_first in *.
    fold (streak_of userId s) in *.
    unfold streak_last, streak_cur, streak_best in El |- *.
    destruct (streak_of userId s) as [r |] eqn:Er.
    + cbn [fst] in *.
      assert (E1 : streak_of userId
                (on_user_daily_streak
                   (sql_update (fun r0 => sk_user_id r0 =? userId)
                      (fun r0 =>
                         {| sk_user_id := sk_user_id r0;
                            sk_current_streak := next_streak (Some r) dayKey;
                            sk_longest_streak :=
                              Z.max (sk_longest_streak r0)
                                (longest_streak (Some r) (next_streak (Some r) dayKey));
                            sk_last_day_key := Some dayKey |})) s) =
              Some {| sk_user_id := sk_user_id r;
                      sk_current_streak := next_streak (Some r) dayKey;
                      sk_longest_streak :=
                        Z.max (sk_longest_streak r)
                          (longest_streak (Some r) (next_streak (Some r) dayKey));
                      sk_last_day_key := Some dayKey |}).
      { unfold streak_of in *. cbn [on_user_daily_streak lg_user_daily_streak].
        rewrite first_row_sql_update by reflexivity. now rewrite Er. }
      unfold streak_last in Hlast. rewrite E1 in *.
      cbn [sk_last_day_key sk_current_streak sk_longest_streak] in *.
      split; [reflexivity |].
      split.
      { unfold next_streak. destruct (sk_last_day_key r) as [d |]; cbn [option_Z_eqb].
        - now rewrite (Z.eqb_sym d (dayKey - 1)).
        - reflexivity. }
      split; [unfold longest_streak; lia |].
      now apply Hlast.
    + rewrite Hu in *. cbn [fst] in *.
      assert (E1 : streak_of userId
                (on_user_daily_streak
                   (fun l => l ++ [{| sk_user_id := userId;
                                      sk_current_streak := next_streak None dayKey;
                                      sk_longest_streak :=
                                        longest_streak None (next_streak None dayKey);
                                      sk_last_day_key := Some dayKey |}]) s) =
              Some {| sk_user_id := userId;
                      sk_current_streak := next_streak None dayKey;
                      sk_longest_streak :=
                        longest_streak None (next_streak None dayKey);
                      sk_last_day_key := Some dayKey |}).
      { unfold streak_of in *. cbn [on_user_daily_streak lg_user_daily_streak].
        apply first_row_app_none; [| cbn; apply Z.eqb_refl].
        rewrite exists_row_first. now rewrite Er. }
      unfold streak_last in Hlast. rewrite E1 in *.
      cbn [sk_last_day_key sk_current_streak sk_longest_streak option_Z_eqb
           next_streak longest_streak] in *.
      split; [reflexivity |]. split; [reflexivity |]. split; [reflexivity |].
      now apply Hlast.
Qed.

(** X19.  [upsertDailyStreakOnFinish] for a user who exists leaves a
    streak row of theirs whose last day is the day given.  The streak is the
    one on record when that day was on record already, one more than the
    one on record when the day before was, and 1 in every other case; the
    longest streak is the one on record, or the new streak when that is
    longer.  A second call for the same day changes nothing. *)
Theorem streak_on_finish (now : Timestamp) (userId : Z) (dayKey : Day) (s : Ledger) :
  is_user userId s = true ->
  let s' := fst (perform now (upsertDailyStreakOnFinish userId dayKey) s) in
  let cur := streak_cur userId s in
  let best := streak_best userId s in
  let last := streak_last userId s in
  streak_last userId s' = Some dayKey /\
  streak_cur userId s' =
    (if option_Z_eqb last dayKey then cur
     else if option_Z_eqb last (dayKey - 1) then cur + 1 else 1) /\
  streak_best userId s' =
    (if option_Z_eqb last dayKey then best
     else Z.max best (streak_cur userId s')) /\
  perform now (upsertDailyStreakOnFinish userId dayKey) s' = (s', Some tt).
Proof. exact (upsert_streak_effect now userId dayKey s). Qed.

(** ** The ladder *)

Lemma perform_finish {A : Type} (now : Timestamp) (a : A) (s : Ledger) :
  perform now (Finish a) s = (s, Some a).
Proof. reflexivity. Qed.

Lemma perform_raise {A : Type} (now : Timestamp) (s : Ledger) :
  perform now (@Raise A) s = (s, None).
Proof. reflexivity. Qed.

Ltac prun :=
  repeat (rewrite ?perform_route, ?perform_bind, ?perform_read, ?perform_write,
            ?perform_sql, ?perform_finish, ?perform_raise; cbv beta iota zeta).

Lemma clamp_clamp (lo hi v : Z) : lo <= hi -> clamp lo hi (clamp lo hi v) = clamp lo hi v.
Proof. unfold clamp. lia. Qed.

Lemma or_1_clamp (v : Z) : or_1 (clamp 1 10 v) = clamp 1 10 v.
Proof. unfold or_1, clamp. destruct (Z.eqb_spec (Z.max 1 (Z.min 10 v)) 0); lia. Qed.

Lemma perform_ensureLadderSession (now : Timestamp) (userId level : Z) (force : bool)
  (s : Ledger) :
  is_user userId s = true ->
  let lvl := clamp 1 10 (or_1 level) in
  exists s1,
    perform now (ensureLadderSession userId level force) s =
      (s1, Some (Some (ladder_base userId lvl force s))) /\
    ladder_session_of userId s1 = Some (ladder_base userId lvl force s) /\
    lg_users s1 = lg_users s /\ lg_questions s1 = lg_questions s /\
    lg_answers s1 = lg_answers s.
Proof.
  intros Hu. cbv zeta. unfold ensureLadderSession, ladder_base. prun.
  destruct (ladder_session_of userId s) as [r |] eqn:Er.
  - destruct (force || negb (ls_current_level r =? clamp 1 10 (or_1 level))) eqn:Ef.
    + prun. exists (reset_ladder_session userId (clamp 1 10 (or_1 level)) s).
      split; [| split; [| repeat split]].
      * unfold ladder_session_of, reset_ladder_session.
        cbn [on_ladder_sessions lg_ladder_sessions].
        rewrite first_row_sql_update by reflexivity.
        unfold ladder_session_of in Er. rewrite Er. reflexivity.
      * unfold ladder_session_of, reset_ladder_session.
        cbn [on_ladder_sessions lg_ladder_sessions].
        rewrite first_row_sql_update by reflexivity.
        unfold ladder_session_of in Er. rewrite Er. reflexivity.
    + cbn [perform]. exists s. split; [| split; [| repeat split]].
      * prun. rewrite Er. reflexivity.
      * exact Er.
  - prun. unfold insert_ladder_session.
    assert (Ex : exists_row (fun r => ls_user_id r =? userId) (lg_ladder_sessions s)
                 = false).
    { rewrite exists_row_first. unfold ladder_session_of in Er. now rewrite Er. }
    rewrite Hu, Ex. cbn [andb negb]. prun.
    assert (E1 : ladder_session_of userId
              (on_ladder_sessions
                 (fun l => l ++ [{| ls_user_id := userId;
                                    ls_current_level := clamp 1 10 (or_1 level);
                                    ls_attempts := 0; ls_correct := 0 |}]) s) =
            Some {| ls_user_id := userId;
                    ls_current_level := clamp 1 10 (or_1 level);
                    ls_attempts := 0; ls_correct := 0 |}).
    { unfold ladder_session_of. cbn [on_ladder_sessions lg_ladder_sessions].
      apply first_row_app_none; [exact Ex | cbn; apply Z.eqb_refl]. }
    eexists. split; [rewrite E1; reflexivity |].
    split; [exact E1 | repeat split].
Qed.

Lemma ladder_base_level (userId level : Z) (force : bool) (s : Ledger) :
  ls_current_level (ladder_base userId level force s) = level.
Proof.
  unfold ladder_base. destruct (ladder_session_of userId s) as [r |]; [| reflexivity].
  destruct force; cbn [orb]; [reflexivity |].
  destruct (Z.eqb_spec (ls_current_level r) level); cbn [negb]; [assumption | reflexivity].
Qed.

(** X21.  A ladder answer by a user who exists to a question that exists
    is recorded as one row of [answers] and counted on the session of the
    question's level: it adds one attempt unless it is ['bilmem'], and one
    correct answer when it is right; a session at another level, or a
    reset asked for, makes the count start from zero.  The reply carries
    the two counters as they are then. *)
Theorem ladder_answer_counts (now : Timestamp) (req : LadderAnswerRequest) (s : Ledger)
  (q : QuestionRow) :
  la_user_id req <> 0 -> la_question_id req <> 0 ->
  is_user (la_user_id req) s = true ->
  question_of (la_question_id req) s = Some q ->
  let uid := la_user_id req in
  let level := clamp 1 10 (or_1 (default 0 (qr_point q))) in
  let norm := normalizeAnswer (la_answer req) in
  let ok := quiz_is_correct (Some q) norm in
  let base := ladder_base uid level (force_reset (la_reset req)) s in
  let counted := if String.eqb norm bilmem then 0 else 1 in
  let s' := fst (perform now (ladderAnswer req) s) in
  ladder_session_of uid s' =
    Some {| ls_user_id := ls_user_id base; ls_current_level := level;
            ls_attempts := ls_attempts base + counted;
            ls_correct := ls_correct base + counted * ok |} /\
  snd (perform now (ladderAnswer req) s) =
    Some (Replied {| lb_is_correct := ok;
                     lb_attempts := ls_attempts base + counted;
                     lb_correct := ls_correct base + counted * ok;
                     lb_level := level |}) /\
  lg_answers s' =
    lg_answers s ++
      [plain_answer uid (la_question_id req) norm ok
         (quiz_max_seconds (la_max_time_seconds req))
         (quiz_left_seconds (la_time_left_seconds req) (la_max_time_seconds req))].
Proof.
  intros Hu0 Hq0 Hu Hq. cbv zeta.
  apply Z.eqb_neq in Hu0, Hq0.
  unfold ladderAnswer. rewrite Hu0, Hq0. cbn [orb]. prun. rewrite Hq. prun.
  destruct (perform_ensureLadderSession now (la_user_id req)
              (clamp 1 10 (or_1 (default 0 (qr_point q))))
              (force_reset (la_reset req)) s Hu) as (s1 & Erun & Es1 & Eu & Equ & Ea).
  cbv zeta in Erun, Es1. rewrite or_1_clamp, clamp_clamp in Erun, Es1 by lia.
  rewrite Erun. prun.
  assert (Hq1 : question_of (la_question_id req) s1 = Some q).
  { unfold question_of. rewrite Equ. exact Hq. }
  rewrite Hq1.
  unfold insertAnswer. prun.
  assert (Hu1 : is_user (la_user_id req) s1 = true).
  { unfold is_user. rewrite Eu. exact Hu. }
  assert (Hiq : is_question (la_question_id req) s1 = true).
  { unfold is_question. rewrite exists_row_first.
    unfold question_of in Hq1. now rewrite Hq1. }
  cbn [plain_answer an_user_id an_question_id]. rewrite Hu1, Hiq. cbn [andb]. prun.
  set (base := ladder_base (la_user_id req) (clamp 1 10 (or_1 (default 0 (qr_point q))))
                 (force_reset (la_reset req)) s) in *.
  assert (Es2 : forall a c row,
            ladder_session_of (la_user_id req)
              (count_ladder_answer (la_user_id req) a c
                 (on_answers (fun l => l ++ [row]) s1)) =
            Some {| ls_user_id := ls_user_id base;
                    ls_current_level := ls_current_level base;
                    ls_attempts := ls_attempts base + a;
                    ls_correct := ls_correct base + c |}).
  { intros a c row. unfold ladder_session_of, count_ladder_answer.
    cbn [on_ladder_sessions on_answers lg_ladder_sessions].
    rewrite first_row_sql_update by reflexivity.
    unfold ladder_session_of in Es1. rewrite Es1. reflexivity. }
  cbn [fst snd]. rewrite !Es2. cbn [fst snd ls_attempts ls_correct].
  assert (El : ls_current_level base = clamp 1 10 (or_1 (default 0 (qr_point q)))).
  { apply ladder_base_level. }
  rewrite El.
  assert (Ec : (if negb (normalizeAnswer (la_answer req) =? bilmem)%string &&
                   (quiz_is_correct (Some q) (normalizeAnswer (la_answer req)) =? 1)
                then 1 else 0) =
               (if (normalizeAnswer (la_answer req) =? bilmem)%string then 0 else 1) *
               quiz_is_correct (Some q) (normalizeAnswer (la_answer req))).
  { unfold quiz_is_correct.
    destruct (String.eqb (normalizeAnswer (la_answer req)) bilmem); cbn [negb andb];
      destruct (option_string_eqb _ _); reflexivity. }
  rewrite Ec.
  split; [reflexivity |]. split; [reflexivity |].
  cbn [count_ladder_answer on_ladder_sessions on_answers lg_answers].
  rewrite Ea. reflexivity.
Qed.

(** ** Books *)

Lemma keyed_row (l : list Account) (uid : Z) (u v : Account) :
  List.NoDup (map ac_id l) ->
  first_row (fun x => ac_id x =? uid) l = Some u ->
  In v l -> ac_id v = uid -> v = u.
Proof.
  intros Hnd Hf Hin Hv. apply first_row_Some in Hf. destruct Hf as [Hu Eu].
  apply Z.eqb_eq in Eu.
  induction l as [| x l IH]; [destruct Hin |].
  cbn [map] in Hnd. inversion Hnd as [| ? ? Hx Hl]; subst.
  destruct Hin as [-> | Hin], Hu as [-> | Hu]; try reflexivity.
  - exfalso. apply Hx. apply in_map_iff. exists u. split; [congruence | exact Hu].
  - exfalso. apply Hx. apply in_map_iff. exists v. split; [congruence | exact Hin].
  - now apply IH.
Qed.

Lemma sql_update_ext_in {A : Type} (c c' : A -> bool) (f : A -> A) (l : list A) :
  (forall x, In x l -> c x = c' x) -> sql_update c f l = sql_update c' f l.
Proof.
  intros H. unfold sql_update. apply map_ext_in. intros x Hx. now rewrite (H x Hx).
Qed.

Lemma sql_update_none {A : Type} (c : A -> bool) (f : A -> A) (l : list A) :
  (forall x, In x l -> c x = false) -> sql_update c f l = l.
Proof.
  intros H. unfold sql_update. rewrite <- (map_id l) at 2.
  apply map_ext_in. intros x Hx. now rewrite (H x Hx).
Qed.

Lemma first_row_none {A : Type} (c : A -> bool) (l : list A) :
  (forall x, In x l -> c x = false) -> first_row c l = None.
Proof.
  intros H. unfold first_row. induction l as [| x l IH]; cbn; [reflexivity |].
  rewrite (H x (or_introl eq_refl)). apply IH. intros y Hy. apply H. now right.
Qed.

Lemma first_row_None {A : Type} (c : A -> bool) (l : list A) :
  first_row c l = None -> forall x, In x l -> c x = false.
Proof.
  unfold first_row. intros H x Hx. destruct (c x) eqn:E; [| reflexivity].
  assert (Hin : In x (List.filter c l)) by (apply filter_In; now split).
  destruct (List.filter c l); [destruct Hin | discriminate H].
Qed.

Lemma first_row_narrow {A : Type} (c d : A -> bool) (l : list A) (u : A) :
  first_row c l = Some u -> d u = true ->
  first_row (fun x => c x && d x) l = Some u.
Proof.
  unfold first_row. induction l as [| x l IH]; cbn; [discriminate |].
  destruct (c x) eqn:Ec; cbn [andb].
  - cbn. intros [= ->] Hd. rewrite Hd. reflexivity.
  - exact IH.
Qed.

Lemma on_users_same (f : list Account -> list Account) (s : Ledger) :
  f (lg_users s) = lg_users s -> on_users f s = s.
Proof. intros E. destruct s. unfold on_users. cbn in *. now rewrite E. Qed.

(** X24.  Spending a book, the users keyed by their id.  Without a user
    id or a question id the request is refused, for an unknown question as
    well, and for a user who is unknown or has no book left; nothing is
    written in any of these cases.  A user with a book left gets the
    correct answer of the question; their balance goes down by exactly
    one, which the reply reports, no other user's row changes, and the
    spending is put on record with the day. *)
Theorem spend_takes_one_book (now : Timestamp) (user_id question_id : Z) (s : Ledger) :
  users_keyed s ->
  let r := perform now (spendBook user_id question_id) s in
  (user_id = 0 \/ question_id = 0 -> r = (s, Some (Refused 400 MissingFields))) /\
  (user_id <> 0 -> question_id <> 0 ->
   match question_of question_id s, account_of user_id s with
   | None, _ => r = (s, Some (Refused 404 QuestionNotFound))
   | Some q, None => r = (s, Some (Refused 400 NoBooksLeft))
   | Some q, Some u =>
       if 0 <? books u
       then snd r = Some (Replied {| sp_remaining := books u - 1;
                                     sp_correct_answer := qr_correct_answer q |}) /\
            lg_users (fst r) =
              sql_update (fun v => ac_id v =? user_id) (add_books (-1)) (lg_users s) /\
            account_of user_id (fst r) = Some (add_books (-1) u) /\
            lg_book_spends (fst r) =
              lg_book_spends s ++
                [{| bs_user_id := user_id; bs_question_id := question_id;
                    bs_day_key := Some (now / seconds 86400);
                    bs_amount := Some 1 |}]
       else r = (s, Some (Refused 400 NoBooksLeft))
   end).
Proof.
  intros Hk. cbv zeta. unfold spendBook. split.
  - intros H0.
    assert (E : (user_id =? 0) || (question_id =? 0) = true).
    { destruct H0 as [-> | ->]; [reflexivity | apply orb_true_r]. }
    rewrite E. prun. reflexivity.
  - intros Hu0 Hq0. apply Z.eqb_neq in Hu0, Hq0. rewrite Hu0, Hq0. cbn [orb].
    prun. destruct (question_of question_id s) as [q |] eqn:Eq; [| prun; reflexivity].
    prun. unfold take_book.
    destruct (account_of user_id s) as [u |] eqn:Eu.
    + destruct (0 <? books u) eqn:Eb.
      * assert (Ef : first_row (has_books user_id) (lg_users s) = Some u).
        { unfold has_books.
          apply (first_row_narrow (fun x => ac_id x =? user_id)
                   (fun x => 0 <? default 0 (ac_books x))); assumption. }
        assert (Eup : sql_update (has_books user_id) (add_books (-1)) (lg_users s) =
                      sql_update (fun v => ac_id v =? user_id) (add_books (-1))
                        (lg_users s)).
        { apply sql_update_ext_in. intros x Hx. unfold has_books.
          destruct (Z.eqb_spec (ac_id x) user_id) as [Ex | Ex]; [| reflexivity].
          rewrite (keyed_row _ _ _ _ Hk Eu Hx Ex). exact Eb. }
        rewrite Ef. cbn [option_map]. prun. unfold getDayKey. prun.
        unfold insert_book_spend.
        assert (Hu : is_user user_id
                       (on_users (sql_update (has_books user_id) (add_books (-1))) s)
                     = true).
        { unfold is_user. cbn [on_users lg_users]. rewrite exists_row_first.
          rewrite Eup, first_row_sql_update by reflexivity.
          unfold account_of in Eu. now rewrite Eu. }
        assert (Hq : is_question question_id
                       (on_users (sql_update (has_books user_id) (add_books (-1))) s)
                     = true).
        { unfold is_question. cbn [on_users lg_questions]. rewrite exists_row_first.
          unfold question_of in Eq. now rewrite Eq. }
        rewrite Hu, Hq. cbn [andb]. prun. cbn [fst snd].
        split; [reflexivity |].
        split; [cbn [on_book_spends on_users lg_users]; exact Eup |].
        split; [| reflexivity].
        unfold account_of. cbn [on_book_spends on_users lg_users].
        rewrite Eup, first_row_sql_update by reflexivity.
        unfold account_of in Eu. now rewrite Eu.
      * assert (Hnone : forall x, In x (lg_users s) -> has_books user_id x = false).
        { intros x Hx. unfold has_books.
          destruct (Z.eqb_spec (ac_id x) user_id) as [Ex | Ex]; [| reflexivity].
          rewrite (keyed_row _ _ _ _ Hk Eu Hx Ex). exact Eb. }
        rewrite (first_row_none _ _ Hnone). cbn [option_map]. prun.
        rewrite on_users_same by (now apply sql_update_none). reflexivity.
    + assert (Hnone : forall x, In x (lg_users s) -> has_books user_id x = false).
      { intros x Hx. unfold has_books.
        unfold account_of in Eu. now rewrite (first_row_None _ _ Eu x Hx). }
      rewrite (first_row_none _ _ Hnone). cbn [option_map]. prun.
      rewrite on_users_same by (now apply sql_update_none). reflexivity.
Qed.

(** ** A request served alone is one of the interleavings *)

Lemma desk_reachable_trans (d0 d1 d2 : Desk) :
  desk_reachable d0 d1 -> desk_reachable d1 d2 -> desk_reachable d0 d2.
Proof.
  intros H1 H2. induction H2 as [| d d' H2 IH Hstep]; [exact H1 |].
  exact (desk_reach_step d0 d d' IH Hstep).
Qed.

Lemma perform_reaches (now : Timestamp) (p : Proc unit) (s : Ledger) :
  desk_reachable {| ledger := s; at_work := [p] |}
    (idle_desk (fst (perform now p s))).
Proof.
  revert s. induction p as [u | | X st k IH]; intros s; cbn [perform fst].
  - eapply desk_reach_step; [apply desk_reach_refl |].
    apply (desk_done {| ledger := s; at_work := [Finish u] |} [] [] (Finish u));
      [reflexivity | right; now exists u].
  - eapply desk_reach_step; [apply desk_reach_refl |].
    apply (desk_done {| ledger := s; at_work := [Raise] |} [] [] Raise);
      [reflexivity | now left].
  - destruct (st now s) as [s' o] eqn:Est.
    eapply desk_reachable_trans; [| apply (IH o s')].
    eapply desk_reach_step; [apply desk_reach_refl |].
    exact (desk_statement {| ledger := s; at_work := [Stmt st k] |} [] [] X st k
             now s' o eq_refl Est).
Qed.

Lemma served_alone (now : Timestamp) (r : QuizRequest) (s : Ledger) :
  desk_reachable (idle_desk s) (idle_desk (fst (perform now (proc_of r) s))).
Proof.
  eapply desk_reachable_trans; [| apply perform_reaches].
  eapply desk_reach_step; [apply desk_reach_refl |].
  exact (desk_arrive (idle_desk s) r).
Qed.

(** ** Totals *)

Lemma add_points_shift (t : Z) (r : AnswerRow * QuestionRow) :
  add_points t r = t + points_of r.
Proof.
  unfold points_of, add_points. destruct r as [a q].
  destruct (option_string_eqb _ _); [lia |].
  destruct (option_Z_eqb _ _); lia.
Qed.

Lemma fold_add_points (rows : list (AnswerRow * QuestionRow)) (t : Z) :
  fold_left add_points rows t = t + total_of (map points_of rows).
Proof.
  revert t. induction rows as [| r rows IH]; intros t; cbn [fold_left map total_of fold_right].
  - lia.
  - rewrite IH, add_points_shift. unfold total_of. lia.
Qed.

Lemma total_of_app (l1 l2 : list Z) : total_of (l1 ++ l2) = total_of l1 + total_of l2.
Proof.
  unfold total_of. induction l1 as [| x l1 IH]; cbn [app fold_right]; [lia |].
  rewrite IH. lia.
Qed.

Lemma sql_sum_total (l : list (option Z)) :
  default 0 (sql_sum l) = total_of (map (default 0) l).
Proof.
  unfold total_of. induction l as [| [x |] l IH]; cbn [sql_sum map fold_right].
  - reflexivity.
  - cbn. rewrite IH. reflexivity.
  - rewrite IH. cbn. reflexivity.
Qed.

(** One answer of the user weighs the same on both routes. *)
Lemma answer_weighs_the_same (a : AnswerRow) (s : Ledger) :
  option_string_eqb (an_answer a) bilmem ||
  ((option_Z_eqb (an_is_correct a) 1 || option_Z_eqb (an_is_correct a) 0) &&
   forallb (fun q => negb (qr_id q =? an_question_id a) || has_point q)
     (lg_questions s)) = true ->
  total_of (map points_of
              (map (fun q => (a, q))
                 (List.filter (fun q => qr_id q =? an_question_id a) (lg_questions s)))) =
  total_of (map (default 0) (map (leaderboard_term a) (left_join_question a s))).
Proof.
  intros H. unfold left_join_question.
  assert (Hq : forall q,
             In q (List.filter (fun q => qr_id q =? an_question_id a) (lg_questions s)) ->
             points_of (a, q) = default 0 (leaderboard_term a (Some q))).
  { intros q Hin. apply filter_In in Hin. destruct Hin as [Hin Eid].
    unfold points_of, add_points, leaderboard_term.
    destruct (option_string_eqb (an_answer a) bilmem) eqn:Eb; [reflexivity |].
    cbn [orb] in H. apply andb_prop in H. destruct H as [Hc Hp].
    rewrite forallb_forall in Hp. specialize (Hp q Hin). rewrite Eid in Hp.
    cbn [negb orb] in Hp. unfold has_point in Hp. unfold point_or_1.
    destruct (qr_point q) as [p |]; [| discriminate Hp].
    apply negb_true_iff in Hp. rewrite Hp.
    destruct (option_Z_eqb (an_is_correct a) 1) eqn:E1; [cbn; lia |].
    cbn [orb] in Hc. rewrite Hc. cbn. lia. }
  destruct (List.filter (fun q => qr_id q =? an_question_id a) (lg_questions s))
    as [| q0 qs] eqn:Ef.
  - cbn [map total_of fold_right]. unfold leaderboard_term.
    destruct (option_string_eqb _ _); [reflexivity |].
    destruct (option_Z_eqb _ 1); [reflexivity |].
    destruct (option_Z_eqb _ 0); reflexivity.
  - rewrite !map_map. f_equal. apply map_ext_in. intros q Hin. now apply Hq.
Qed.

Lemma totals_agree (uid : Z) (s : Ledger) :
  plainly_scored uid s = true ->
  fold_left add_points (answers_joined uid s) 0 = leaderboard_total uid s.
Proof.
  intros H. rewrite fold_add_points, Z.add_0_l.
  unfold answers_joined, leaderboard_total, plainly_scored in *.
  rewrite forallb_forall in H.
  assert (Hm : forall a, In a (List.filter (fun a => an_user_id a =? uid) (lg_answers s)) ->
             option_string_eqb (an_answer a) bilmem ||
             ((option_Z_eqb (an_is_correct a) 1 || option_Z_eqb (an_is_correct a) 0) &&
              forallb (fun q => negb (qr_id q =? an_question_id a) || has_point q)
                (lg_questions s)) = true).
  { intros a Ha. apply filter_In in Ha. destruct Ha as [Ha Eu].
    specialize (H a Ha). rewrite Eu in H. cbn [negb orb] in H. exact H. }
  clear H.
  assert (E : total_of (map points_of
                (flat_map (fun a => map (fun q => (a, q))
                     (List.filter (fun q => qr_id q =? an_question_id a) (lg_questions s)))
                   (List.filter (fun a => an_user_id a =? uid) (lg_answers s)))) =
              total_of (map (default 0)
                (flat_map (fun a => map (leaderboard_term a) (left_join_question a s))
                   (List.filter (fun a => an_user_id a =? uid) (lg_answers s))))).
  { induction (List.filter (fun a => an_user_id a =? uid) (lg_answers s)) as [| a l IH];
      [reflexivity |].
    cbn [flat_map]. rewrite !map_app, !total_of_app.
    rewrite IH by (intros b Hb; apply Hm; now right).
    rewrite (answer_weighs_the_same a s) by (apply Hm; now left).
    reflexivity. }
  rewrite E. rewrite <- sql_sum_total.
  destruct (List.filter (fun a => an_user_id a =? uid) (lg_answers s)); reflexivity.
Qed.

(** X26.  For a user whose answers are all ['bilmem'] or marked 1 or 0 on
    a question with a point value other than 0, the total the profile route
    reports is the total the all-time leaderboard computes for them: the
    user is on the leaderboard with exactly that total when it is not 0,
    and is not on it when it is 0. *)
Theorem total_points_match_leaderboard (now : Timestamp) (uid : Z) (s : Ledger) :
  plainly_scored uid s = true ->
  exists total board,
    snd (perform now (totalPoints uid) s) =
      Some (Replied {| tp_totalPoints := total;
                       tp_answeredCount := Z.of_nat (length (answers_joined uid s)) |}) /\
    snd (perform now leaderboard s) = Some (Replied board) /\
    (forall t, In (uid, t) board -> t = total /\ t <> 0) /\
    (is_user uid s = true -> total <> 0 -> In (uid, total) board).
Proof.
  intros Hp.
  exists (leaderboard_total uid s).
  exists (order_by (fun x y => (snd y <? snd x) ||
                               ((snd x =? snd y) && (fst x <=? fst y)))
            (List.filter (fun r => negb (snd r =? 0))
               (map (fun u => (ac_id u, leaderboard_total (ac_id u) s)) (lg_users s)))).
  split.
  { unfold totalPoints. prun. cbn [snd]. now rewrite (totals_agree uid s Hp). }
  split.
  { unfold leaderboard. prun. reflexivity. }
  assert (Hin : forall x,
            In x (order_by (fun x y => (snd y <? snd x) ||
                                       ((snd x =? snd y) && (fst x <=? fst y)))
                    (List.filter (fun r => negb (snd r =? 0))
                       (map (fun u => (ac_id u, leaderboard_total (ac_id u) s))
                          (lg_users s)))) <->
            In x (List.filter (fun r => negb (snd r =? 0))
                    (map (fun u => (ac_id u, leaderboard_total (ac_id u) s))
                       (lg_users s)))).
  { intros x. split; apply Permutation_in;
      [apply order_by_perm | apply Permutation_sym, order_by_perm]. }
  split.
  - intros t Hin'. apply Hin in Hin'. apply filter_In in Hin'.
    destruct Hin' as [Hm Hz]. apply in_map_iff in Hm.
    destruct Hm as (u & [= Eu Et] & _). cbn [snd] in Hz.
    apply negb_true_iff, Z.eqb_neq in Hz. subst. split; [reflexivity | exact Hz].
  - intros Hu Hz. apply Hin. apply filter_In. split.
    + apply in_map_iff. unfold is_user in Hu. rewrite exists_row_first in Hu.
      destruct (first_row (fun u => ac_id u =? uid) (lg_users s)) as [u |] eqn:Eu;
        [| discriminate Hu].
      apply first_row_Some in Eu. destruct Eu as [Hin' Eid].
      apply Z.eqb_eq in Eid. exists u. subst uid. split; [reflexivity | exact Hin'].
    + cbn [snd]. apply negb_true_iff, Z.eqb_neq. exact Hz.
Qed.

(** ** Bulk authoring *)


Lemma bulk_valid_row (surveyId id : Z) (q : NewQuestion) :
  bulk_valid q = true -> well_formed_question (bulk_row surveyId id q).
Proof.
  unfold bulk_valid. intros H. apply andb_prop in H. destruct H as [Ht Hc].
  apply negb_true_iff, String.eqb_neq in Ht.
  repeat split.
  - exists (bulk_text q). split; [reflexivity | exact Ht].
  - exists (normalizeAnswer (nq_correct_answer q)).
    split; [reflexivity | now apply includes_In].
  - exists (bulk_point q). split; [reflexivity |]. unfold bulk_point. lia.
Qed.

Lemma perform_bulk_loop (now : Timestamp) (surveyId : Z) (qs : list NewQuestion)
  (s : Ledger) :
  exists_row (fun sv => s_id sv =? surveyId) (lg_surveys s) = true ->
  exists stored rest,
    qs = stored ++ rest /\
    forallb bulk_valid stored = true /\
    lg_questions (fst (perform now (bulk_loop surveyId qs) s)) =
      lg_questions s ++ bulk_rows surveyId (lg_seq_questions s) stored /\
    match rest with
    | [] => snd (perform now (bulk_loop surveyId qs) s) = Some (Replied tt)
    | bad :: _ =>
        bulk_valid bad = false /\
        snd (perform now (bulk_loop surveyId qs) s) =
          Some (Refused 400 (if String.eqb (bulk_text bad) ""
                             then EmptyQuestionText else BadCorrectAnswer))
    end.
Proof.
  revert s. induction qs as [| q qs IH]; intros s Hsv.
  - exists [], []. cbn. rewrite app_nil_r. repeat split.
  - cbn [bulk_loop].
    destruct (String.eqb (bulk_text q) "") eqn:Et.
    { exists [], (q :: qs). cbn. rewrite app_nil_r, Et.
      repeat split. unfold bulk_valid. now rewrite Et. }
    destruct (Js.includes canonical (normalizeAnswer (nq_correct_answer q))) eqn:Ec;
      cbn [negb].
    2:{ exists [], (q :: qs). cbn. rewrite app_nil_r, Et.
        repeat split. unfold bulk_valid. now rewrite Et, Ec. }
    set (s1 := on_seq_questions (fun n => n + 1)
                 (on_questions
                    (fun l => l ++ [{| qr_id := lg_seq_questions s;
                                       qr_survey_id := Some surveyId;
                                       qr_question := Some (bulk_text q);
                                       qr_correct_answer :=
                                         Some (normalizeAnswer (nq_correct_answer q));
                                       qr_point := Some (bulk_point q);
                                       qr_qtype := Some 1 |}]) s)).
    assert (Erun : perform now
                     (let+ _ := sql (fun _ => insert_question surveyId (bulk_text q)
                                                (normalizeAnswer (nq_correct_answer q))
                                                (bulk_point q)) in
                      bulk_loop surveyId qs) s =
                   perform now (bulk_loop surveyId qs) s1).
    { prun. unfold insert_question. rewrite Hsv. reflexivity. }
    rewrite Erun.
    destruct (IH s1 Hsv) as (stored & rest & Eqs & Hval & Hrows & Hrest).
    exists (q :: stored), rest.
    split; [cbn; now rewrite Eqs |].
    split; [cbn [forallb]; unfold bulk_valid at 1; now rewrite Et, Ec, Hval |].
    split.
    + rewrite Hrows. cbn [s1 on_seq_questions on_questions lg_questions
                            lg_seq_questions bulk_rows].
      rewrite <- app_assoc. reflexivity.
    + exact Hrest.
Qed.

(** X27.  The bulk route on a survey that is there and not deleted stores
    the questions of the request one by one, in order, under consecutive
    ids, up to the first one whose text is empty once trimmed or whose
    answer is not canonical.  With such a question in the request the
    reply is a refusal, and the questions before it stay stored.  Every
    question stored has a text, a canonical answer and a point value from
    1 to 10. *)
Theorem bulk_stops_at_first_bad (now : Timestamp) (surveyId : Z)
  (qs : list NewQuestion) (s : Ledger) (sv : Survey) :
  qs <> [] ->
  first_row (live_survey surveyId) (lg_surveys s) = Some sv ->
  let r := perform now (bulkQuestions surveyId qs) s in
  exists stored rest,
    qs = stored ++ rest /\
    lg_questions (fst r) =
      lg_questions s ++ bulk_rows surveyId (lg_seq_questions s) stored /\
    Forall well_formed_question (bulk_rows surveyId (lg_seq_questions s) stored) /\
    match rest with
    | [] => snd r = Some (Replied tt)
    | bad :: _ =>
        bulk_valid bad = false /\
        snd r = Some (Refused 400 (if String.eqb (bulk_text bad) ""
                                   then EmptyQuestionText else BadCorrectAnswer))
    end.
Proof.
  intros Hne Hsv. cbv zeta. unfold bulkQuestions.
  destruct qs as [| q0 qs0]; [now destruct Hne |].
  set (qs := q0 :: qs0) in *.
  prun. rewrite Hsv. prun.
  assert (Hex : exists_row (fun x => s_id x =? surveyId) (lg_surveys s) = true).
  { apply first_row_Some in Hsv. destruct Hsv as [Hin Hl].
    unfold live_survey in Hl. apply andb_prop in Hl. destruct Hl as [Hid _].
    rewrite exists_row_existsb. apply existsb_exists. now exists sv. }
  destruct (perform_bulk_loop now surveyId qs s Hex)
    as (stored & rest & Eqs & Hval & Hrows & Hrest).
  exists stored, rest.
  destruct (perform now (bulk_loop surveyId qs) s) as [s' [reply |]] eqn:Erun;
    cbn [fst snd] in *.
  - split; [exact Eqs |]. split; [exact Hrows |]. split; [| exact Hrest].
    clear - Hval. generalize (lg_seq_questions s) as id.
    induction stored as [| q stored IH]; intros id; cbn [bulk_rows]; [constructor |].
    cbn [forallb] in Hval. apply andb_prop in Hval. destruct Hval as [Hq Hval].
    constructor; [now apply bulk_valid_row | now apply IH].
  - destruct rest as [| bad rest']; [discriminate Hrest | destruct Hrest as [_ Hr]].
    discriminate Hr.
Qed.

(** ** The daily contest *)

Lemma daily_ids_empty (dayKey : Day) (s : Ledger) :
  daily_ids dayKey s = [] ->
  List.filter (of_day dayKey) (lg_daily_contest_questions s) = [].
Proof.
  unfold daily_ids. intros H. apply map_eq_nil in H. now apply order_by_nil in H.
Qed.

Lemma order_by_daily_numbered (dayKey : Day) (i : Z) (ids : list Z) :
  order_by (fun x y => dq_pos x <=? dq_pos y) (daily_numbered dayKey i ids)
  = daily_numbered dayKey i ids.
Proof.
  revert i. induction ids as [| qid ids IH]; intros i; cbn; [reflexivity |].
  rewrite IH. destruct ids as [| qid' ids]; cbn; [reflexivity |].
  destruct (Z.leb_spec (i + 1) (i + 1 + 1)); [reflexivity | lia].
Qed.

Lemma filter_daily_numbered (dayKey : Day) (i : Z) (ids : list Z) :
  List.filter (of_day dayKey) (daily_numbered dayKey i ids) = daily_numbered dayKey i ids.
Proof.
  revert i. induction ids as [| qid ids IH]; intros i; cbn; [reflexivity |].
  unfold of_day at 1. cbn. now rewrite Z.eqb_refl, IH.
Qed.

Lemma ids_daily_numbered (dayKey : Day) (i : Z) (ids : list Z) :
  map dq_question_id (daily_numbered dayKey i ids) = ids.
Proof.
  revert i. induction ids as [| qid ids IH]; intros i; cbn; [reflexivity |].
  now rewrite IH.
Qed.

Lemma on_daily_contest_questions_nil (s : Ledger) :
  on_daily_contest_questions (fun l => l ++ []) s = s.
Proof. destruct s. unfold on_daily_contest_questions. cbn. now rewrite app_nil_r. Qed.

Lemma on_daily_contest_questions_app (l1 l2 : list DailyQuestion) (s : Ledger) :
  on_daily_contest_questions (fun l => l ++ l2)
    (on_daily_contest_questions (fun l => l ++ l1) s)
  = on_daily_contest_questions (fun l => l ++ (l1 ++ l2)) s.
Proof. unfold on_daily_contest_questions. cbn. now rewrite app_assoc. Qed.

(** The insert loop on a day whose rows all lie at positions up to [i]. *)
Lemma perform_insert_daily_loop (now : Timestamp) (dayKey : Day) (i : Z)
  (ids : list Z) (s : Ledger) :
  (forall r, In r (lg_daily_contest_questions s) -> of_day dayKey r = true ->
             dq_pos r <= i) ->
  perform now (insert_daily_loop dayKey i ids) s =
  (on_daily_contest_questions (fun l => l ++ daily_numbered dayKey i ids) s, Some tt).
Proof.
  revert i s. induction ids as [| qid ids IH]; intros i s Hbelow;
    cbn [insert_daily_loop daily_numbered].
  - prun. now rewrite on_daily_contest_questions_nil.
  - prun. unfold insert_daily_question.
    assert (E : exists_row (fun r => of_day dayKey r && (dq_pos r =? i + 1))
                  (lg_daily_contest_questions s) = false).
    { rewrite exists_row_existsb. apply not_true_is_false. intros H.
      apply existsb_exists in H. destruct H as [r [Hr Hc]].
      apply andb_true_iff in Hc. destruct Hc as [H1 H2].
      apply Z.eqb_eq in H2. specialize (Hbelow r Hr H1). lia. }
    rewrite E, IH.
    + now rewrite on_daily_contest_questions_app.
    + cbn [on_daily_contest_questions lg_daily_contest_questions].
      intros r Hr Hm. apply in_app_or in Hr. destruct Hr as [Hr | Hr].
      * specialize (Hbelow r Hr Hm). lia.
      * destruct Hr as [<- | []]. cbn. lia.
Qed.

Lemma perform_set_existing (now : Timestamp) (dayKey : Day) (size : option Z)
  (s : Ledger) :
  daily_ids dayKey s <> [] ->
  perform now (getOrCreateDailySetIds dayKey size) s = (s, Some (daily_ids dayKey s)).
Proof.
  intros H. unfold getOrCreateDailySetIds. prun.
  destruct (daily_ids dayKey s); [contradiction | reflexivity].
Qed.

Lemma perform_set_generates (now : Timestamp) (dayKey : Day) (size : Z) (s : Ledger) :
  daily_ids dayKey s = [] ->
  perform now (getOrCreateDailySetIds dayKey (Some size)) s =
  (on_daily_contest_questions
     (fun l => l ++ daily_numbered dayKey 0 (daily_pick dayKey size s)) s,
   Some (daily_pick dayKey size s)).
Proof.
  intros H. unfold getOrCreateDailySetIds. prun. rewrite H. prun.
  pose proof (daily_ids_empty _ _ H) as Hnone.
  assert (Hloop : forall ids,
            perform now (insert_daily_loop dayKey 0 ids) s =
            (on_daily_contest_questions (fun l => l ++ daily_numbered dayKey 0 ids) s,
             Some tt)).
  { intros ids. apply perform_insert_daily_loop. intros r Hr Hm. exfalso.
    assert (Hin : In r (List.filter (of_day dayKey) (lg_daily_contest_questions s))).
    { apply filter_In. now split. }
    rewrite Hnone in Hin. exact Hin. }
  assert (Hids : forall ids,
            daily_ids dayKey
              (on_daily_contest_questions
                 (fun l => l ++ daily_numbered dayKey 0 ids) s) = ids).
  { intros ids. unfold daily_ids.
    cbn [on_daily_contest_questions lg_daily_contest_questions].
    rewrite List.filter_app, Hnone, filter_daily_numbered. cbn [app].
    now rewrite order_by_daily_numbered, ids_daily_numbered. }
  unfold daily_pick.
  destruct (0 <? size - Z.of_nat (length (daily_preferred dayKey size s))) eqn:En;
    prun; rewrite Hloop; prun; rewrite Hids; reflexivity.
Qed.

(** X30.  The question set of a day, once it is there, is what every call
    returns, with nothing written, whatever has become of the question
    bank and of the size configured.  A call that finds no set for the day
    picks the preferred questions in the order of the day, fills up with
    the others, cuts at the size and stores the result at positions 1, 2,
    ...; it returns the questions as stored, at most [size] of them. *)
Theorem daily_set_is_fixed (now : Timestamp) (dayKey : Day) (size : option Z)
  (s : Ledger) :
  (daily_ids dayKey s <> [] ->
   perform now (getOrCreateDailySetIds dayKey size) s = (s, Some (daily_ids dayKey s))) /\
  (forall n, size = Some n -> daily_ids dayKey s = [] ->
   let ids := daily_pick dayKey n s in
   let s' := fst (perform now (getOrCreateDailySetIds dayKey size) s) in
   snd (perform now (getOrCreateDailySetIds dayKey size) s) = Some ids /\
   lg_daily_contest_questions s' =
     lg_daily_contest_questions s ++ daily_numbered dayKey 0 ids /\
   daily_ids dayKey s' = ids /\
   Z.of_nat (length ids) <= Z.max 0 n /\
   (ids <> [] ->
    forall now2 size2 s2,
      lg_daily_contest_questions s2 = lg_daily_contest_questions s' ->
      perform now2 (getOrCreateDailySetIds dayKey size2) s2 = (s2, Some ids))).
Proof.
  split; [apply perform_set_existing |].
  intros n -> Hnone. cbv zeta. rewrite (perform_set_generates now dayKey n s Hnone).
  cbn [fst snd on_daily_contest_questions lg_daily_contest_questions].
  assert (Hids : daily_ids dayKey
            (on_daily_contest_questions
               (fun l => l ++ daily_numbered dayKey 0 (daily_pick dayKey n s)) s) =
          daily_pick dayKey n s).
  { unfold daily_ids. cbn [on_daily_contest_questions lg_daily_contest_questions].
    rewrite List.filter_app, (daily_ids_empty _ _ Hnone), filter_daily_numbered.
    cbn [app]. now rewrite order_by_daily_numbered, ids_daily_numbered. }
  split; [reflexivity |]. split; [reflexivity |]. split; [exact Hids |].
  split.
  - unfold daily_pick. rewrite length_firstn. lia.
  - intros Hne now2 size2 s2 E2.
    assert (E : daily_ids dayKey s2 = daily_pick dayKey n s).
    { rewrite <- Hids. unfold daily_ids. now rewrite E2. }
    rewrite <- E. apply perform_set_existing. now rewrite E.
Qed.

Lemma perform_session_existing (now : Timestamp) (userId : Z) (dayKey : Day)
  (s : Ledger) (session : DailySession) :
  daily_session_of userId dayKey s = Some session ->
  perform now (getOrCreateDailySession userId dayKey) s = (s, Some session).
Proof.
  intros H. unfold getOrCreateDailySession. prun. rewrite H. prun. reflexivity.
Qed.

Lemma first_row_update_preserving {A : Type} (p c : A -> bool) (f : A -> A)
  (l : list A) (x : A) :
  (forall y, p (f y) = p y) ->
  first_row p l = Some x -> c x = true ->
  first_row p (sql_update c f l) = Some (f x).
Proof.
  intros Hp. unfold first_row, sql_update.
  induction l as [| y l IH]; cbn; [discriminate |].
  destruct (p y) eqn:Ey.
  - cbn. intros [= ->] Hc. rewrite Hc, Hp, Ey. reflexivity.
  - intros Hx Hc. destruct (c y); rewrite ?Hp, Ey; now apply IH.
Qed.

Lemma js_index_in_range {A : Type} (l : list A) (i : Z) :
  0 <= i < Z.of_nat (length l) -> exists x, js_index l i = Some x.
Proof.
  intros H. unfold js_index. destruct (Z.ltb_spec i 0); [lia |].
  destruct (nth_error l (Z.to_nat i)) as [x |] eqn:E; [now exists x |].
  apply nth_error_None in E. lia.
Qed.

(** X28.  A daily answer on a day whose set is in place, by a user whose
    session is open and not at the last question.  For a question other
    than the one at the position of the session the reply is the 409
    refusal and nothing is written.  For the question at that position the
    answer is stored as a daily answer of the day, marked correct exactly
    when the normalised answer is the [correct_answer], with the streak
    bonus of the streak on record when it is correct and none when it is
    not; the session moves on by one and stays open, and no book is
    awarded. *)
Theorem daily_answer_moves_on (now : Timestamp) (req : DailyRequest) (s : Ledger)
  (session : DailySession) (q : QuestionRow) :
  let uid := dr_user_id req in
  let qid := dr_question_id req in
  let day := now / seconds 86400 in
  let idx := dse_current_index session in
  uid <> 0 -> qid <> 0 ->
  is_user uid s = true ->
  daily_session_of uid day s = Some session ->
  dse_finished session = false ->
  0 <= idx -> idx + 1 < Z.of_nat (length (daily_ids day s)) ->
  question_of qid s = Some q ->
  let r := perform now (dailyAnswer req) s in
  (js_index (daily_ids day s) idx <> Some qid ->
   r = (s, Some (Refused 409 OutOfSync))) /\
  (js_index (daily_ids day s) idx = Some qid ->
   let norm := normalizeAnswer (dr_answer req) in
   let ok := quiz_is_correct (Some q) norm in
   let bonus := if ok =? 1 then streakBonus (streak_cur uid s) else 0 in
   snd r = Some (Replied (advanced_to (Some ok) (idx + 1) false 0 (Some bonus))) /\
   lg_answers (fst r) =
     lg_answers s ++
       [daily_answer uid qid norm ok
          (quiz_max_seconds (dr_max_time_seconds req))
          (quiz_left_seconds (dr_time_left_seconds req) (dr_max_time_seconds req))
          day bonus (Some (streak_cur uid s))] /\
   daily_session_of uid day (fst r) = Some (session_at session (idx + 1) false) /\
   lg_users (fst r) = lg_users s /\
   lg_user_daily_streak (fst r) = lg_user_daily_streak s /\
   lg_daily_finisher_awards (fst r) = lg_daily_finisher_awards s).
Proof.
  cbv zeta. intros Hu0 Hq0 Hu Hs Hf H0 Hlast Hq.
  apply Z.eqb_neq in Hu0, Hq0.
  assert (Hne : daily_ids (now / seconds 86400) s <> []).
  { intros E. rewrite E in Hlast. cbn in Hlast. lia. }
  destruct (js_index_in_range (daily_ids (now / seconds 86400) s)
              (dse_current_index session)) as [e He]; [lia |].
  assert (Hhead : forall (k : Day -> DailySession -> list Z -> Proc (Reply DailyReply)),
            perform now
              (let+ dayKey := getDayKey in
               let+ session := getOrCreateDailySession (dr_user_id req) dayKey in
               let+ ids := getOrCreateDailySetIds dayKey DAILY_CONTEST_SIZE in
               k dayKey session ids) s =
            perform now (k (now / seconds 86400) session
                           (daily_ids (now / seconds 86400) s)) s).
  { intros k. unfold getDayKey. prun.
    rewrite (perform_session_existing _ _ _ _ _ Hs). prun.
    rewrite (perform_set_existing _ _ _ _ Hne). prun. reflexivity. }
  unfold dailyAnswer. rewrite Hu0, Hq0. cbn [orb]. rewrite perform_route, Hhead.
  rewrite Hf. cbn [orb].
  destruct (Z.leb_spec (Z.of_nat (length (daily_ids (now / seconds 86400) s)))
              (dse_current_index session)) as [Hge | _]; [lia |].
  rewrite He.
  split.
  - intros Hneq.
    assert (E : (e =? 0) || negb (e =? dr_question_id req) = true).
    { destruct (Z.eqb_spec e (dr_question_id req)) as [-> | _];
        [now destruct Hneq | apply orb_true_r]. }
    rewrite E. prun. reflexivity.
  - intros [= ->]. rewrite Hq0, Z.eqb_refl. cbn [orb negb]. prun. rewrite Hq. prun.
    unfold insertAnswer. prun. cbn [daily_answer an_user_id an_question_id].
    assert (Hiq : is_question (dr_question_id req) s = true).
    { unfold is_question. rewrite exists_row_first.
      unfold question_of in Hq. now rewrite Hq. }
    rewrite Hu, Hiq. cbn [andb]. prun.
    destruct (Z.leb_spec (Z.of_nat (length (daily_ids (now / seconds 86400) s)))
                (dse_current_index session + 1)) as [Hge | _]; [lia |].
    prun. cbn [fst snd].
    unfold streak_cur.
    split; [reflexivity |]. split; [reflexivity |].
    split; [| repeat split].
    unfold daily_session_of, move_daily_session.
    cbn [on_daily_sessions on_answers lg_daily_sessions].
    apply (first_row_update_preserving _ _
             (fun r => session_at r (dse_current_index session + 1) false));
      [reflexivity | exact Hs | apply Z.eqb_refl].
Qed.

Lemma upsert_streak_frame (now : Timestamp) (userId : Z) (dayKey : Day) (s : Ledger) :
  let s' := fst (perform now (upsertDailyStreakOnFinish userId dayKey) s) in
  lg_users s' = lg_users s /\ lg_questions s' = lg_questions s /\
  lg_answers s' = lg_answers s /\ lg_daily_sessions s' = lg_daily_sessions s /\
  lg_daily_contest_questions s' = lg_daily_contest_questions s /\
  lg_daily_finisher_awards s' = lg_daily_finisher_awards s.
Proof.
  cbv zeta. rewrite perform_upsertDailyStreakOnFinish. cbv zeta.
  destruct (option_Z_eqb (streak_last userId s) dayKey); [repeat split |].
  unfold upsert_streak. destruct (exists_row _ _); [repeat split |].
  destruct (is_user userId s); repeat split.
Qed.

Lemma perform_catch_upsert (now : Timestamp) (userId : Z) (dayKey : Day) (s : Ledger) :
  perform now (catch (upsertDailyStreakOnFinish userId dayKey) (Finish tt)) s =
  (fst (perform now (upsertDailyStreakOnFinish userId dayKey) s), Some tt).
Proof.
  rewrite perform_catch.
  destruct (perform now (upsertDailyStreakOnFinish userId dayKey) s) as [s' [[] |]];
    reflexivity.
Qed.

Lemma is_user_account (userId : Z) (s : Ledger) (u : Account) :
  account_of userId s = Some u -> is_user userId s = true.
Proof.
  unfold account_of, is_user. rewrite exists_row_first. now intros ->.
Qed.

(** The day is over for a user whose session is finished and whose streak
    has the day on record: both daily routes reply so and write nothing. *)
Lemma day_is_over (now : Timestamp) (req : DailyRequest) (s : Ledger)
  (session : DailySession) :
  dr_user_id req <> 0 -> dr_question_id req <> 0 ->
  daily_session_of (dr_user_id req) (now / seconds 86400) s = Some session ->
  dse_finished session = true ->
  daily_ids (now / seconds 86400) s <> [] ->
  streak_last (dr_user_id req) s = Some (now / seconds 86400) ->
  perform now (dailyAnswer req) s = (s, Some (Replied day_done)) /\
  perform now (dailySkip req) s = (s, Some (Replied day_done)).
Proof.
  intros Hu0 Hq0 Hs Hf Hne Hl. apply Z.eqb_neq in Hu0, Hq0.
  assert (Hup : perform now
                  (upsertDailyStreakOnFinish (dr_user_id req) (now / seconds 86400)) s
                = (s, Some tt)).
  { rewrite perform_upsertDailyStreakOnFinish. cbv zeta. rewrite Hl.
    cbn [option_Z_eqb]. now rewrite Z.eqb_refl. }
  unfold dailyAnswer, dailySkip. rewrite Hu0, Hq0. cbn [orb].
  rewrite !perform_route. unfold getDayKey. prun.
  rewrite (perform_session_existing _ _ _ _ _ Hs). prun.
  rewrite (perform_set_existing _ _ _ _ Hne). prun.
  rewrite Hf. cbn [orb]. prun. rewrite perform_catch_upsert, Hup.
  cbn [fst]. prun. split; reflexivity.
Qed.

(** X29.  The daily answer to the last question of the day, by a user
    without a finisher award for the day: the session is finished, the
    award is put on record and two books are added to the balance of the
    user, which the reply reports, and the streak has the day on record.
    Whatever the user sends to either daily route later that day is
    answered with the day being over, and nothing is written: the two books
    are given once. *)
Theorem daily_finish_awards_once (now now2 : Timestamp) (req req2 : DailyRequest)
  (s : Ledger) (session : DailySession) (q : QuestionRow) (u : Account) :
  let uid := dr_user_id req in
  let qid := dr_question_id req in
  let day := now / seconds 86400 in
  let idx := dse_current_index session in
  uid <> 0 -> qid <> 0 ->
  account_of uid s = Some u ->
  daily_session_of uid day s = Some session ->
  dse_finished session = false ->
  0 <= idx -> idx + 1 = Z.of_nat (length (daily_ids day s)) ->
  js_index (daily_ids day s) idx = Some qid ->
  question_of qid s = Some q ->
  awarded_on uid day s = false ->
  now2 / seconds 86400 = day -> dr_user_id req2 = uid -> dr_question_id req2 <> 0 ->
  let r := perform now (dailyAnswer req) s in
  let s1 := fst r in
  (exists ok bonus,
     snd r = Some (Replied (advanced_to (Some ok) (idx + 1) true 2 (Some bonus)))) /\
  account_of uid s1 = Some (add_books 2 u) /\
  awarded_on uid day s1 = true /\
  streak_last uid s1 = Some day /\
  daily_session_of uid day s1 = Some (session_at session (idx + 1) true) /\
  perform now2 (dailyAnswer req2) s1 = (s1, Some (Replied day_done)) /\
  perform now2 (dailySkip req2) s1 = (s1, Some (Replied day_done)).
Proof.
  cbv zeta. intros Hu0 Hq0 Hacc Hs Hf H0 Hlast He Hq Haw Hday Hu2 Hq2.
  pose proof (is_user_account _ _ _ Hacc) as Hu.
  assert (Hne : daily_ids (now / seconds 86400) s <> []).
  { intros E. rewrite E in Hlast. cbn in Hlast. lia. }
  set (day := now / seconds 86400) in *.
  set (norm := normalizeAnswer (dr_answer req)).
  set (ok := quiz_is_correct (Some q) norm).
  set (bonus := if ok =? 1 then streakBonus (streak_cur (dr_user_id req) s) else 0).
  set (row := daily_answer (dr_user_id req) (dr_question_id req) norm ok
                (quiz_max_seconds (dr_max_time_seconds req))
                (quiz_left_seconds (dr_time_left_seconds req) (dr_max_time_seconds req))
                day bonus (Some (streak_cur (dr_user_id req) s))).
  set (sD := on_users (sql_update (fun v => ac_id v =? dr_user_id req) (add_books 2))
               (on_daily_finisher_awards
                  (fun l => l ++ [{| fa_user_id := dr_user_id req; fa_day_key := day;
                                     fa_amount := 2 |}])
                  (move_daily_session (dse_id session)
                     (dse_current_index session + 1) true
                     (on_answers (fun l => l ++ [row]) s)))).
  assert (Erun : perform now (dailyAnswer req) s =
                 (fst (perform now (upsertDailyStreakOnFinish (dr_user_id req) day) sD),
                  Some (Replied (advanced_to (Some ok) (dse_current_index session + 1)
                                   true 2 (Some bonus))))).
  { apply Z.eqb_neq in Hu0, Hq0.
    unfold dailyAnswer. rewrite Hu0, Hq0. cbn [orb]. rewrite perform_route.
    unfold getDayKey. prun. fold day.
    rewrite (perform_session_existing _ _ _ _ _ Hs). prun.
    rewrite (perform_set_existing _ _ _ _ Hne). prun.
    rewrite Hf. cbn [orb].
    destruct (Z.leb_spec (Z.of_nat (length (daily_ids day s)))
                (dse_current_index session)) as [Hge | _]; [lia |].
    rewrite He, Hq0, Z.eqb_refl. cbn [orb negb]. prun. rewrite Hq. prun.
    unfold insertAnswer. prun. cbn [daily_answer an_user_id an_question_id].
    assert (Hiq : is_question (dr_question_id req) s = true).
    { unfold is_question. rewrite exists_row_first.
      unfold question_of in Hq. now rewrite Hq. }
    rewrite Hu, Hiq. cbn [andb]. prun.
    destruct (Z.leb_spec (Z.of_nat (length (daily_ids day s)))
                (dse_current_index session + 1)) as [_ | Hlt]; [| lia].
    unfold finish_day. prun. unfold insert_finisher_award.
    change (exists_row _ (lg_daily_finisher_awards
                            (move_daily_session _ _ _ (on_answers _ s))))
      with (awarded_on (dr_user_id req) day s).
    rewrite Haw.
    change (is_user (dr_user_id req) (move_daily_session _ _ _ (on_answers _ s)))
      with (is_user (dr_user_id req) s).
    rewrite Hu. prun. rewrite perform_catch_upsert. prun.
    reflexivity. }
  rewrite Erun. cbn [fst snd].
  assert (HaccD : account_of (dr_user_id req) sD = Some (add_books 2 u)).
  { unfold account_of, sD. cbn [on_users lg_users].
    rewrite first_row_sql_update by reflexivity.
    unfold account_of in Hacc. cbn [on_daily_finisher_awards move_daily_session
      on_daily_sessions on_answers lg_users]. now rewrite Hacc. }
  pose proof (is_user_account _ _ _ HaccD) as HuD.
  destruct (upsert_streak_effect now (dr_user_id req) day sD HuD) as (Hl1 & _ & _ & _).
  destruct (upsert_streak_frame now (dr_user_id req) day sD)
    as (Fu & Fq & Fa & Fs & Fc & Fw).
  set (s1 := fst (perform now (upsertDailyStreakOnFinish (dr_user_id req) day) sD)) in *.
  assert (Hs1 : daily_session_of (dr_user_id req) day s1 =
                Some (session_at session (dse_current_index session + 1) true)).
  { unfold daily_session_of. rewrite Fs. unfold sD.
    cbn [on_users on_daily_finisher_awards move_daily_session on_daily_sessions
         on_answers lg_daily_sessions].
    apply (first_row_update_preserving _ _
             (fun r => session_at r (dse_current_index session + 1) true));
      [reflexivity | exact Hs | apply Z.eqb_refl]. }
  assert (Hids : daily_ids day s1 = daily_ids day s).
  { unfold daily_ids. rewrite Fc. reflexivity. }
  split; [now exists ok, bonus |].
  split; [unfold account_of in *; now rewrite Fu |].
  split.
  { unfold awarded_on. rewrite Fw. unfold sD.
    cbn [on_users on_daily_finisher_awards lg_daily_finisher_awards].
    rewrite exists_row_existsb, existsb_app. cbn. rewrite !Z.eqb_refl.
    apply orb_true_r. }
  split; [exact Hl1 |].
  split; [exact Hs1 |].
  apply (day_is_over now2 req2 s1 (session_at session (dse_current_index session + 1) true)).
  - now rewrite Hu2.
  - exact Hq2.
  - rewrite Hu2, Hday. exact Hs1.
  - reflexivity.
  - rewrite Hday, Hids. exact Hne.
  - rewrite Hu2, Hday. exact Hl1.
Qed.

End Duel.

(** * Worked examples *)

(** A stand-in for [md5], an environment with nothing set, and a small
    user directory and question bank. *)
Definition demo_hash (s : string) : string := s.

Definition demo_env : ProcessEnv :=
  {| env_DUELLO_IDLE_ABORT_SEC := None;
     env_DUELLO_PER_Q_SEC := None;
     env_DUELLO_REVEAL_SEC := None |}.

Definition demo_user (id : Z) : User :=
  {| u_id := id; u_ad := None; u_soyad := None; u_user_code := None |}.

Definition demo_question (id : Z) : Question :=
  {| q_id := id; q_survey_id := Some 1; q_correct_answer := Some evet;
     q_point := Some 3 |}.

Definition demo_base : Store :=
  fresh_store [demo_user 1; demo_user 2; demo_user 3]
    [{| s_id := 1; s_status := Some "approved" |}]
    [demo_question 7; demo_question 8; demo_question 9].

Definition demo_invite (id fromId toId : Z) (mode : Mode) (created : Timestamp) : Invite :=
  {| i_id := id; i_from_user_id := fromId; i_to_user_id := toId; i_mode := mode;
     i_status := pending; i_created_at := created;
     i_expire_at := created + minutes 5;
     i_accepted_at := None; i_rejected_at := None; i_cancelled_at := None;
     i_match_id := None |}.

(** Users 1 and 3 have each invited user 2. *)
Definition two_invites : Store :=
  with_seqs keep (put 3) keep
    (with_invites (put [demo_invite 1 1 2 speed 1000; demo_invite 2 3 2 info 2000])
       demo_base).

Definition accept_of (inviteId userId : Z) : RespondRequest :=
  {| rq_invite_id := inviteId; rq_user_id := userId; rq_action := Some "accept" |}.

(** A match between users 1 and 2, at [current_index] [idx], both sides
    last seen at [seen]. *)
Definition demo_match (mode : Mode) (st : MatchState) (idx : Z) (seen : Timestamp) : Match :=
  {| m_id := 1; m_mode := mode; m_user_a_id := 1; m_user_b_id := 2;
     m_created_at := seen; m_finished_at := None; m_state := st;
     m_total_questions := 12; m_current_index := idx;
     m_last_seen_a := Some seen; m_last_seen_b := Some seen;
     m_last_activity_at := Some seen; m_abandoned_at := None;
     m_ended_reason := None |}.

(** The match at its first question, which is question 7. *)
Definition match_open (mode : Mode) : Store :=
  with_seqs (put 2) keep keep
    (with_match_questions
       (put [{| mq_match_id := 1; mq_pos := 1; mq_question_id := 7 |}])
       (with_matches (put [demo_match mode active 0 3000]) demo_base)).

Definition answer_of (userId : Z) (text : string) : AnswerRequest :=
  {| aq_match_id := 1; aq_user_id := userId; aq_answer := Js.Str text;
     aq_time_left_seconds := Some 10; aq_max_time_seconds := Some 16 |}.

(** The speed match once user 1 has answered "evet" at time 6000. *)
Definition speed_locked : Store :=
  with_seqs keep keep (put 3)
    (with_answers
       (put [make_answer 1 1 7 1 evet 1 6000 16 10;
             make_answer 2 1 7 2 bilmem 0 6000 16 0])
       (with_matches
          (put [match_touch 6000 1 (demo_match speed active 0 3000)])
          (match_open speed))).

(** User 1 holds an active match with user 3 that has run through all of
    its twelve questions. *)
Definition over_complete_store : Store :=
  with_seqs (put 2) keep keep
    (with_matches
       (put [{| m_id := 1; m_mode := info; m_user_a_id := 1; m_user_b_id := 3;
                m_created_at := 1000; m_finished_at := None; m_state := active;
                m_total_questions := 12; m_current_index := 12;
                m_last_seen_a := Some 1000; m_last_seen_b := Some 1000;
                m_last_activity_at := Some 1000; m_abandoned_at := None;
                m_ended_reason := None |}])
       demo_base).

Definition invite_1_to_2 : InviteRequest :=
  {| rq_from_user_id := 1; rq_to_user_id := 2; rq_to_user_code := None;
     rq_mode := Some "info" |}.

(** An info match at its last question, question 7 at position 12, both
    sides last seen at time 0. *)
Definition last_question : Store :=
  with_seqs (put 2) keep keep
    (with_match_questions
       (put [{| mq_match_id := 1; mq_pos := 12; mq_question_id := 7 |}])
       (with_matches (put [demo_match info active 11 0]) demo_base)).

Lemma speed_locked_arises :
  fst (run 6000 (submitAnswer demo_env (answer_of 1 "evet")) (match_open speed))
  = speed_locked.
Proof. vm_compute. reflexivity. Qed.

(** User 1 has a connection open while the speed match idles. *)
Definition match_watched : Store := sseAdd 1 5%nat (match_open speed).

(** C1, counterexample.  User 2 accepts the invite of user 1 and then the
    invite of user 3.  The first accept creates the match; the second is
    answered [NotPending], which is not [AlreadyActive]: the first accept
    cancelled the other invite. *)
Lemma second_accept_is_not_pending :
  let first := run 3000 (respondInvite (accept_of 1 2)) two_invites in
  snd first = Ok (Accepted (new_match 1 speed 1 2 3000)) /\
  snd (run 4000 (respondInvite (accept_of 2 2)) (fst first)) = Fail NotPending /\
  forall who, snd (run 4000 (respondInvite (accept_of 2 2)) (fst first))
              <> Fail (AlreadyActive who).
Proof.
  cbv zeta. split; [vm_compute; reflexivity |].
  split; [vm_compute; reflexivity |].
  intros who. vm_compute. discriminate.
Qed.

Lemma single_active_match_witness :
  let first := run 3000 (respondInvite (accept_of 1 2)) two_invites in
  single_active (fst first) /\
  snd (run 5000 (respondInvite (accept_of 2 2)) (fst first)) = Fail NotPending.
Proof.
  cbv zeta.
  destruct (single_active_match demo_hash demo_env) as (Hinv & _ & _ & _ & _ & Hnext).
  split.
  - apply (Hinv {| store := two_invites;
                   in_flight := [] |}
             {| store := fst (run 3000 (respondInvite (accept_of 1 2)) two_invites);
                in_flight := [Return (snd (run 3000
                                             (forget (respondInvite (accept_of 1 2)))
                                             two_invites))] |}).
    + reflexivity.
    + intros uid. vm_compute. lia.
    + apply (reachable_trans demo_hash demo_env any_request _
               {| store := two_invites;
                  in_flight := [forget (respondInvite (accept_of 1 2))] |}).
      * apply (reach_step demo_hash demo_env any_request _ _ _
                 (reach_refl demo_hash demo_env any_request _)).
        exact (step_arrive demo_hash demo_env any_request
                 {| store := two_invites; in_flight := [] |}
                 (POST_invite_respond (accept_of 1 2)) I).
      * exact (run_reachable demo_hash demo_env any_request 3000
                 (forget (respondInvite (accept_of 1 2))) two_invites [] []).
  - eapply (Hnext 3000 5000 (accept_of 1 2) (accept_of 2 2) two_invites).
    + vm_compute. reflexivity.
    + lia.
    + discriminate.
    + discriminate.
    + reflexivity.
    + vm_compute. reflexivity.
    + reflexivity.
    + right. right. reflexivity.
Defined.

(** C3, counterexample.  User 1 has answered the first question of the
    speed match, so rows exist for it; user 2 then submits an answer.  The
    reply is [AlreadyAnswered], not [QuestionLocked]: the ['bilmem'] row
    written for user 2 is found first. *)
Lemma locked_out_caller_is_told_already_answered :
  answers_of 1 7 speed_locked <> [] /\
  snd (run 7000 (submitAnswer demo_env (answer_of 2 "evet")) speed_locked)
  = Fail AlreadyAnswered /\
  snd (run 7000 (submitAnswer demo_env (answer_of 2 "evet")) speed_locked)
  <> Fail QuestionLocked.
Proof.
  split; [vm_compute; discriminate |].
  split; [vm_compute; reflexivity | vm_compute; discriminate].
Qed.

Lemma speed_first_writer_lock_witness :
  let after := run 6000 (submitAnswer demo_env (answer_of 1 "evet")) (match_open speed) in
  snd after = Ok true /\
  answer_count 1 7 1 (fst after) = 1%nat /\
  answer_count 1 7 2 (fst after) = 1%nat.
Proof.
  cbv zeta.
  destruct (speed_first_writer_lock demo_env 6000 (answer_of 1 "evet")
              (match_open speed)
              (fst (run 6000 (submitAnswer demo_env (answer_of 1 "evet"))
                      (match_open speed)))
              (demo_match speed active 0 3000) 7 evet 16
              (snd (run 6000 (submitAnswer demo_env (answer_of 1 "evet"))
                      (match_open speed))))
    as (_ & _ & H).
  - repeat split; try discriminate; vm_compute; reflexivity.
  - reflexivity.
  - reflexivity.
  - vm_compute. reflexivity.
  - destruct H as (Hr & _ & Ha & Hb).
    + vm_compute. reflexivity.
    + discriminate.
    + auto.
Defined.


Lemma idle_sweep_witness :
  DUELLO_IDLE_ABORT_SEC demo_env = Some 90 /\
  In (5%nat, named (match_abandoned 1))
    (wire (fst (run (seconds 100) (duelloIdleAbortTick demo_env) match_watched))).
Proof.
  split; [reflexivity |].
  destruct (idle_sweep demo_env (seconds 100) 90 match_watched eq_refl)
    as (_ & _ & _ & _ & _ & _ & H).
  apply (H (demo_match speed active 0 3000)) with (uid := 1) (set := [5%nat]).
  - left. reflexivity.
  - split; [reflexivity |].
    split; [left; vm_compute; reflexivity | vm_compute; reflexivity].
  - left. reflexivity.
  - vm_compute. reflexivity.
  - left. reflexivity.
Defined.

(** C6, counterexample.  User 1 answers "maybe" in the info match.  The
    answer is taken, and the row stored carries "maybe", which is none of
    the three canonical answers. *)
Lemma unrecognised_answer_is_stored :
  let after := run 6000 (submitAnswer demo_env (answer_of 1 "maybe")) (match_open info) in
  snd after = Ok false /\
  map a_answer (duello_answers (fst after)) = ["maybe"] /\
  ~ In "maybe" canonical.
Proof.
  cbv zeta. split; [vm_compute; reflexivity |].
  split; [vm_compute; reflexivity |].
  unfold canonical, evet, hayir, bilmem. cbn [In].
  intros [H | [H | [H | []]]]; discriminate H.
Qed.

Lemma answer_normalisation_witness :
  let after := run 6000 (submitAnswer demo_env (answer_of 1 "Maybe ")) (match_open info) in
  normalizeAnswer (Js.Str "Maybe ") = "maybe" /\
  exists row, In row (duello_answers (fst after)) /\ a_answer row = "maybe".
Proof.
  cbv zeta.
  destruct (answer_normalisation demo_env) as (_ & Hother & _ & Hstored).
  destruct (Hother (Js.Str "Maybe ") "maybe") as [Hn _].
  - reflexivity.
  - reflexivity.
  - split; [exact Hn |].
    destruct (Hstored 6000 (answer_of 1 "Maybe ") (match_open info)
                (fst (run 6000 (submitAnswer demo_env (answer_of 1 "Maybe "))
                        (match_open info)))
                (demo_match info active 0 3000) 7 "maybe" false)
      as (_ & row & Hin & _ & _ & _ & Hans).
    + repeat split; try discriminate; vm_compute; reflexivity.
    + vm_compute. reflexivity.
    + exists row. split; [exact Hin |]. now rewrite Hans.
Defined.



Lemma createInvite_lazy_completion_witness :
  let after := run 5000 (createInvite invite_1_to_2) over_complete_store in
  map m_state (duello_matches (fst after)) = [finished] /\
  forall who, snd after <> Fail (AlreadyActive who).
Proof.
  cbv zeta.
  destruct (createInvite_lazy_completion 5000 invite_1_to_2 over_complete_store
              (fst (run 5000 (createInvite invite_1_to_2) over_complete_store))
              (snd (run 5000 (createInvite invite_1_to_2) over_complete_store))
              (demo_user 2) info)
    as (Hm & _ & _ & Hnot).
  - repeat split; try discriminate; reflexivity.
  - vm_compute. reflexivity.
  - split.
    + rewrite Hm. reflexivity.
    + apply Hnot. intros m [<- | []] _ _. vm_compute. discriminate.
Defined.



Lemma status_and_summary_scores_agree_witness :
  exists s1 s2 st sm,
    run 7000 (matchStatus demo_hash 1 1) speed_locked = (s1, Ok st) /\
    run 8000 (matchSummary demo_hash 1 2) s1 = (s2, Ok sm) /\
    st_scores st = (3, 0) /\
    (t_score (sm_a sm), t_score (sm_b sm)) = (3, 0).
Proof.
  do 4 eexists.
  assert (H1 : run 7000 (matchStatus demo_hash 1 1) speed_locked
               = (fst (run 7000 (matchStatus demo_hash 1 1) speed_locked),
                  Ok {| st_finished := false; st_current_index := 0;
                        st_question := Some (1, 7);
                        st_mine := Some (make_answer 1 1 7 1 evet 1 6000 16 10);
                        st_opponent := Some (make_answer 2 1 7 2 bilmem 0 6000 16 0);
                        st_scores := (3, 0) |}))
    by (vm_compute; reflexivity).
  split; [exact H1 |].
  assert (H2 : run 8000 (matchSummary demo_hash 1 2)
                 (fst (run 7000 (matchStatus demo_hash 1 1) speed_locked))
               = (fst (run 8000 (matchSummary demo_hash 1 2)
                         (fst (run 7000 (matchStatus demo_hash 1 1) speed_locked))),
                  Ok {| sm_finished := false;
                        sm_a := {| t_bilmem := 0; t_correct := 1; t_wrong := 0;
                                   t_score := 3 |};
                        sm_b := {| t_bilmem := 1; t_correct := 0; t_wrong := 0;
                                   t_score := 0 |};
                        sm_result := result_pending |}))
    by (vm_compute; reflexivity).
  split; [exact H2 |].
  split; [reflexivity |].
  destruct (status_and_summary_scores_agree demo_hash) as [_ H].
  rewrite <- (H 7000 8000 1 1 2 speed_locked _ _ _ _ H1 H2). reflexivity.
Defined.

(** C2, on the code.  The info match is at its last question and both
    sides have been silent for 100 seconds.  User 1 calls [reveal]; the
    handler reads the match row, still active.  Before its next statement
    the sweeper ticks and abandons the match.  The handler goes on with the
    row it read: it fills in the two missing answers, counts two, and
    writes [current_index = 12, state = 'finished'] to the row by its id.
    The match, [abandoned] a moment ago, is [finished]; both stores are
    states the server reaches. *)
Theorem sweeper_abandonment_is_overwritten :
  let now := seconds 100 in
  let start := {| store := last_question; in_flight := [] |} in
  let arrived := handler_of demo_hash demo_env (POST_reveal 1 1) in
  let reading := run_steps 1 now arrived last_question in
  let swept := run now (duelloIdleAbortTick demo_env) (fst reading) in
  let ended := run now (snd reading) (fst swept) in
  map m_state (duello_matches (fst reading)) = [active] /\
  map m_state (duello_matches (fst swept)) = [abandoned] /\
  map m_state (duello_matches (fst ended)) = [finished] /\
  map m_current_index (duello_matches (fst ended)) = [12] /\
  reachable_from demo_hash demo_env any_request start
    {| store := fst swept; in_flight := [snd reading; Return tt] |} /\
  reachable_from demo_hash demo_env any_request start
    {| store := fst ended; in_flight := [Return tt; Return tt] |}.
Proof.
  cbv zeta.
  set (now := seconds 100).
  set (arrived := handler_of demo_hash demo_env (POST_reveal 1 1)).
  set (tick := handler_of demo_hash demo_env sweeper_tick).
  set (start := {| store := last_question; in_flight := [] |}).
  assert (R1 : reachable_from demo_hash demo_env any_request start
                 {| store := fst (run now tick
                                    (fst (run_steps 1 now arrived last_question)));
                    in_flight := [snd (run_steps 1 now arrived last_question);
                                  Return tt] |}).
  { apply (reachable_trans demo_hash demo_env any_request _
             {| store := last_question; in_flight := [arrived; tick] |}).
    - apply (reach_step demo_hash demo_env any_request _
               {| store := last_question; in_flight := [arrived] |}).
      + apply (reach_step demo_hash demo_env any_request _ _ _
                 (reach_refl demo_hash demo_env any_request _)).
        exact (step_arrive demo_hash demo_env any_request start (POST_reveal 1 1) I).
      + exact (step_arrive demo_hash demo_env any_request
                 {| store := last_question; in_flight := [arrived] |} sweeper_tick I).
    - apply (reachable_trans demo_hash demo_env any_request _
               {| store := fst (run_steps 1 now arrived last_question);
                  in_flight := [snd (run_steps 1 now arrived last_question); tick] |}).
      + exact (run_steps_reachable demo_hash demo_env any_request 1 now arrived
                 last_question [] [tick]).
      + exact (run_reachable demo_hash demo_env any_request now tick
                 (fst (run_steps 1 now arrived last_question))
                 [snd (run_steps 1 now arrived last_question)] []). }
  split; [vm_compute; reflexivity |].
  split; [vm_compute; reflexivity |].
  split; [vm_compute; reflexivity |].
  split; [vm_compute; reflexivity |].
  split.
  - exact R1.
  - apply (reachable_trans demo_hash demo_env any_request _ _ _ R1).
    exact (run_reachable demo_hash demo_env any_request now
             (snd (run_steps 1 now arrived last_question))
             (fst (run now tick (fst (run_steps 1 now arrived last_question))))
             [] [Return tt]).
Qed.

(** With a threshold that does not parse, the sweeper's statement is
    rejected and the tick changes nothing. *)
Example tick_without_threshold :
  let env := {| env_DUELLO_IDLE_ABORT_SEC := Some "soon";
                env_DUELLO_PER_Q_SEC := None; env_DUELLO_REVEAL_SEC := None |} in
  DUELLO_IDLE_ABORT_SEC env = None /\
  fst (run (seconds 100) (duelloIdleAbortTick env) last_question) = last_question.
Proof. split; reflexivity. Qed.

(** * Worked examples of the further properties *)

Lemma sse_registry_round_trip_witness :
  sseClients (sseRemove 1 5%nat (sseAdd 1 5%nat demo_base)) = sseClients demo_base /\
  wire (sseEmit 1 (match_finished 1) (sseAdd 1 5%nat demo_base))
  = [(5%nat, named (match_finished 1)); (5%nat, fallback (match_finished 1))].
Proof.
  destruct (sse_registry_round_trip 1 5%nat (match_finished 1) demo_base)
    as (_ & Hw & Hc & _).
  - intros [].
  - discriminate.
  - split; [exact Hc | exact Hw].
Defined.

Lemma invite_shows_in_boxes_witness :
  let after := run 5000 (createInvite invite_1_to_2) demo_base in
  In (demo_invite 1 1 2 info 5000) (snd (run 6000 (inbox 2) (fst after))) /\
  In (demo_invite 1 1 2 info 5000) (snd (run 6000 (outbox 1) (fst after))).
Proof.
  cbv zeta.
  destruct (invite_shows_in_boxes 5000 6000 invite_1_to_2 demo_base
              (fst (run 5000 (createInvite invite_1_to_2) demo_base))
              (demo_invite 1 1 2 info 5000)) as [H _].
  - vm_compute. reflexivity.
  - reflexivity.
  - lia.
  - apply H. vm_compute. reflexivity.
Defined.

Definition reject_of (inviteId userId : Z) : RespondRequest :=
  {| rq_invite_id := inviteId; rq_user_id := userId; rq_action := Some "Reject" |}.

Lemma respondInvite_reject_witness :
  snd (run 3000 (respondInvite (reject_of 1 2)) two_invites)
  = Ok (Rejected (Some (invite_reject 3000 (demo_invite 1 1 2 speed 1000)))) /\
  snd (run 4000 (respondInvite (accept_of 1 2))
         (fst (run 3000 (respondInvite (reject_of 1 2)) two_invites)))
  = Fail NotPending.
Proof.
  destruct (respondInvite_reject 3000 4000 (reject_of 1 2) (accept_of 1 2) two_invites
              (demo_invite 1 1 2 speed 1000)) as (H1 & _ & _ & _ & _ & H2).
  - repeat split; discriminate.
  - reflexivity.
  - reflexivity.
  - reflexivity.
  - reflexivity.
  - vm_compute. reflexivity.
  - split; [exact H1 |]. apply H2; [repeat split; discriminate | reflexivity | reflexivity].
Defined.

Lemma respondInvite_refusals_witness :
  run 3000 (respondInvite (accept_of 1 3)) two_invites
  = (after_expiry 3000 two_invites, Fail Forbidden).
Proof.
  destruct (respondInvite_refusals 3000 (accept_of 1 3) two_invites)
    as (_ & _ & _ & H & _).
  apply (H (demo_invite 1 1 2 speed 1000)).
  - repeat split; discriminate.
  - reflexivity.
  - discriminate.
Defined.

Lemma accept_starts_match_witness :
  snd (run 3000 (respondInvite (accept_of 1 2)) two_invites)
  = Ok (Accepted (new_match 1 speed 1 2 3000)) /\
  snd (run 4000 (activeMatch 2)
         (fst (run 3000 (respondInvite (accept_of 1 2)) two_invites)))
  = Ok (Some 1).
Proof.
  destruct (accept_starts_match 3000 4000 (accept_of 1 2) two_invites
              (demo_invite 1 1 2 speed 1000))
    as (H1 & _ & _ & _ & _ & _ & _ & H2).
  - repeat split; discriminate.
  - reflexivity.
  - reflexivity.
  - reflexivity.
  - reflexivity.
  - vm_compute. reflexivity.
  - reflexivity.
  - reflexivity.
  - discriminate.
  - discriminate.
  - split; [exact H1 | exact H2].
Defined.

(** The server once user 2 has accepted the invite of user 1, the handler
    run to its end. *)
Definition before_accept : Server := {| store := two_invites; in_flight := [] |}.

Definition after_accept : Server :=
  {| store := fst (run 3000 (respondInvite (accept_of 1 2)) two_invites);
     in_flight := [Return (snd (run 3000 (forget (respondInvite (accept_of 1 2)))
                                  two_invites))] |}.

Lemma after_accept_reached :
  reachable_from demo_hash demo_env any_request before_accept after_accept.
Proof.
  apply (reachable_trans demo_hash demo_env any_request _
           {| store := two_invites;
              in_flight := [forget (respondInvite (accept_of 1 2))] |}).
  - apply (reach_step demo_hash demo_env any_request _ _ _
             (reach_refl demo_hash demo_env any_request _)).
    exact (step_arrive demo_hash demo_env any_request before_accept
             (POST_invite_respond (accept_of 1 2)) I).
  - exact (run_reachable demo_hash demo_env any_request 3000
             (forget (respondInvite (accept_of 1 2))) two_invites [] []).
Qed.

Lemma match_identity_is_kept_witness :
  matches_kept (store before_accept) (store after_accept).
Proof.
  exact (match_identity_is_kept demo_hash demo_env before_accept after_accept
           eq_refl after_accept_reached).
Defined.

Lemma records_are_append_only_witness :
  records_kept (store before_accept) (store after_accept).
Proof.
  exact (records_are_append_only demo_hash demo_env before_accept after_accept
           eq_refl after_accept_reached).
Defined.

Lemma invites_are_kept_witness :
  invites_kept (store before_accept) (store after_accept).
Proof.
  exact (invites_are_kept demo_hash demo_env before_accept after_accept
           eq_refl after_accept_reached).
Defined.

Lemma index_stays_in_bounds_witness :
  index_in_bounds (store after_accept).
Proof.
  apply (index_stays_in_bounds demo_hash demo_env before_accept after_accept eq_refl).
  - constructor.
  - exact after_accept_reached.
Defined.

(** The speed match once the sweeper has abandoned it at its first
    question. *)
Definition match_left : Store :=
  with_matches (put [demo_match speed abandoned 0 3000]) (match_open speed).

Lemma abandoned_match_as_read_witness :
  snd (run 9000 (reveal demo_env 1 1) match_left)
  = Ok {| rv_finished := true; rv_current_index := 0 |} /\
  exists st, snd (run 9000 (matchStatus demo_hash 1 1) match_left) = Ok st /\
             st_finished st = false.
Proof.
  destruct (abandoned_match_as_read demo_hash demo_env 9000 1 1 match_left
              (demo_match speed abandoned 0 3000) 7) as (H1 & (st & H2 & H3 & _) & _).
  - discriminate.
  - discriminate.
  - reflexivity.
  - reflexivity.
  - reflexivity.
  - reflexivity.
  - reflexivity.
  - split; [exact H1 |]. exists st. split; assumption.
Defined.

Lemma info_answers_are_independent_witness :
  snd (run 6000 (submitAnswer demo_env (answer_of 1 "evet")) (match_open info))
  = Ok false /\
  answer_count 1 7 1
    (fst (run 6000 (submitAnswer demo_env (answer_of 1 "evet")) (match_open info)))
  = 1%nat.
Proof.
  destruct (info_answers_are_independent demo_env 6000 (answer_of 1 "evet")
              (match_open info) (demo_match info active 0 3000) 7 evet 16)
    as (_ & H & _).
  - repeat split; try discriminate; vm_compute; reflexivity.
  - reflexivity.
  - reflexivity.
  - destruct H as (Hr & _ & Hc & _); [vm_compute; reflexivity |].
    split; [exact Hr | exact Hc].
Defined.

Lemma answer_times_are_clamped_witness :
  exists row,
    In row (duello_answers
              (fst (run 6000 (submitAnswer demo_env (answer_of 1 "evet"))
                      (match_open info)))) /\
    a_max_time_seconds row = Some 16 /\ a_time_left_seconds row = Some 10.
Proof.
  destruct (answer_times_are_clamped demo_env 6000 (answer_of 1 "evet")
              (match_open info)
              (fst (run 6000 (submitAnswer demo_env (answer_of 1 "evet"))
                      (match_open info)))
              (demo_match info active 0 3000) 7 evet false)
    as (row & mx & lf & Hin & _ & _ & _ & Hmx & Hlf & _ & Hb & Hmax & Hleft).
  - repeat split; try discriminate; vm_compute; reflexivity.
  - vm_compute. reflexivity.
  - cbn in Hmax, Hleft. destruct Hmax as [_ Hmax].
    assert (E : mx = 16) by (apply Hmax; lia). subst mx.
    assert (E : lf = 10) by (apply Hleft; lia). subst lf.
    exists row. repeat split; assumption.
Defined.

Lemma submitAnswer_refusals_witness :
  run 6000 (submitAnswer demo_env (answer_of 3 "evet")) (match_open info)
  = (match_open info, Fail Forbidden).
Proof.
  destruct (submitAnswer_refusals demo_env 6000 (answer_of 3 "evet") (match_open info))
    as (_ & H & _).
  destruct (H ltac:(discriminate) ltac:(discriminate)) as [_ H1].
  destruct (H1 (demo_match info active 0 3000) eq_refl) as (_ & H2 & _).
  apply H2; reflexivity.
Defined.

Lemma reveal_info_fills_and_advances_witness :
  snd (run 7000 (reveal demo_env 1 1) (match_open info))
  = Ok {| rv_finished := false; rv_current_index := 1 |} /\
  Nat.le 1 (answer_count 1 7 2 (fst (run 7000 (reveal demo_env 1 1) (match_open info)))).
Proof.
  destruct (reveal_info_fills_and_advances demo_env 7000 1 1 (match_open info)
              (demo_match info active 0 3000) 7 16)
    as (H1 & _ & _ & H2 & _).
  - repeat split; try discriminate; vm_compute; first [reflexivity | discriminate].
  - reflexivity.
  - reflexivity.
  - discriminate.
  - split; [exact H1 | exact H2].
Defined.

Lemma speed_answer_then_reveal_witness :
  snd (run 7000 (reveal demo_env 1 2)
         (fst (run 6000 (submitAnswer demo_env (answer_of 1 "evet")) (match_open speed))))
  = Ok {| rv_finished := false; rv_current_index := 1 |}.
Proof.
  destruct (speed_answer_then_reveal demo_env 6000 7000 (answer_of 1 "evet") 2
              (match_open speed) (demo_match speed active 0 3000) 7 evet 16)
    as (H & _).
  - repeat split; try discriminate; vm_compute; reflexivity.
  - reflexivity.
  - reflexivity.
  - reflexivity.
  - discriminate.
  - vm_compute. discriminate.
  - discriminate.
  - reflexivity.
  - exact H.
Defined.

Lemma polling_keeps_match_alive_witness :
  exists m3,
    first_row (fun r => m_id r =? 1)
      (duello_matches
         (fst (run (seconds 90) (duelloIdleAbortTick demo_env)
                 (fst (run 5000 (matchStatus demo_hash 1 2)
                         (fst (run 4000 (matchStatus demo_hash 1 1)
                                 (match_open speed)))))))) = Some m3 /\
    m_state m3 = active.
Proof.
  destruct (polling_keeps_match_alive demo_hash demo_env 4000 5000 (seconds 90) 1
              (match_open speed) (demo_match speed active 0 3000) 90)
    as (m3 & H1 & H2 & _).
  - discriminate.
  - reflexivity.
  - reflexivity.
  - discriminate.
  - discriminate.
  - discriminate.
  - reflexivity.
  - vm_compute. discriminate.
  - vm_compute. discriminate.
  - exists m3. split; assumption.
Defined.

(** * Worked examples on the ledger *)

Definition demo_ledger : Ledger :=
  fresh_ledger
    [{| ac_id := 1; ac_books := Some 2; ac_ladder_best_level := Some 3 |};
     {| ac_id := 2; ac_books := None; ac_ladder_best_level := None |}]
    [{| s_id := 1; s_status := Some "approved" |}]
    [{| qr_id := 10; qr_survey_id := Some 1; qr_question := Some "q10";
        qr_correct_answer := Some "evet"; qr_point := Some 4; qr_qtype := Some 2 |};
     {| qr_id := 11; qr_survey_id := Some 1; qr_question := Some "q11";
        qr_correct_answer := Some "bilmem"; qr_point := Some 4; qr_qtype := Some 1 |}].

(** A level-up test on whole numbers: ten attempts, four in five right. *)
Definition demo_level_up (attempts correct : Z) : bool :=
  (10 <=? attempts) && (4 * attempts <=? 5 * correct).

Definition demo_day_text (d : Day) : string := Js.string_of_Z d.

Definition demo_proc : QuizRequest -> Proc unit :=
  proc_of demo_hash demo_level_up None None demo_day_text.

Definition ladder_evet (uid qid : Z) : LadderAnswerRequest :=
  {| la_user_id := uid; la_question_id := qid; la_answer := Js.Str "Evet";
     la_time_left_seconds := Some 7; la_max_time_seconds := None;
     la_reset := Js.Undefined |}.

Definition daily_evet (uid qid : Z) : DailyRequest :=
  {| dr_user_id := uid; dr_question_id := qid; dr_answer := Js.Str "evet";
     dr_time_left_seconds := Some 7; dr_max_time_seconds := None |}.

Lemma streak_bonus_steps_witness :
  streakBonus 2 = 0 /\ streakBonus 2 <= streakBonus 400 /\ streakBonus 400 = 10.
Proof.
  destruct (streak_bonus_steps 2 400) as ((_ & Hle) & _ & H0 & H10); [lia |].
  split; [apply H0; lia |]. split; [exact Hle | apply H10; lia].
Defined.

Lemma streak_on_finish_witness :
  let s' := fst (perform 0 (upsertDailyStreakOnFinish 1 7) demo_ledger) in
  streak_last 1 s' = Some 7 /\ streak_cur 1 s' = 1 /\
  perform 0 (upsertDailyStreakOnFinish 1 7) s' = (s', Some tt).
Proof.
  destruct (streak_on_finish 0 1 7 demo_ledger) as (Hl & Hc & _ & Hi);
    [reflexivity |].
  split; [exact Hl |]. split; [exact Hc | exact Hi].
Defined.


Lemma ladder_answer_counts_witness :
  snd (perform 1000 (ladderAnswer (ladder_evet 1 10)) demo_ledger) =
    Some (Replied {| lb_is_correct := 1; lb_attempts := 1; lb_correct := 1;
                     lb_level := 4 |}).
Proof.
  destruct (ladder_answer_counts 1000 (ladder_evet 1 10) demo_ledger
              {| qr_id := 10; qr_survey_id := Some 1; qr_question := Some "q10";
                 qr_correct_answer := Some "evet"; qr_point := Some 4;
                 qr_qtype := Some 2 |}) as (_ & H & _).
  - discriminate.
  - discriminate.
  - reflexivity.
  - reflexivity.
  - exact H.
Defined.

Lemma ladder_counters_sound_witness :
  ladder_sound
    (fst (perform 1000 (demo_proc (POST_ladder_answer (ladder_evet 1 10))) demo_ledger)).
Proof.
  apply (ladder_counters_sound demo_hash demo_level_up None None demo_day_text
           (idle_desk demo_ledger)
           (idle_desk
              (fst (perform 1000 (demo_proc (POST_ladder_answer (ladder_evet 1 10)))
                      demo_ledger)))).
  - reflexivity.
  - constructor.
  - apply served_alone.
Defined.

Lemma best_level_only_rises_witness :
  best_kept demo_ledger
    (fst (perform 1000 (demo_proc (POST_ladder_start 1 2)) demo_ledger)).
Proof.
  apply (best_level_only_rises demo_hash demo_level_up None None demo_day_text
           (idle_desk demo_ledger)
           (idle_desk
              (fst (perform 1000 (demo_proc (POST_ladder_start 1 2)) demo_ledger)))).
  - reflexivity.
  - apply served_alone.
Defined.

Lemma demo_ledger_keyed : users_keyed demo_ledger.
Proof.
  unfold users_keyed. cbn. repeat constructor; cbn; intuition discriminate.
Qed.

Lemma spend_takes_one_book_witness :
  snd (perform 1000 (spendBook 1 10) demo_ledger) =
    Some (Replied {| sp_remaining := 1; sp_correct_answer := Some "evet" |}) /\
  perform 1000 (spendBook 2 10) demo_ledger = (demo_ledger, Some (Refused 400 NoBooksLeft)).
Proof.
  split.
  - destruct (spend_takes_one_book 1000 1 10 demo_ledger demo_ledger_keyed) as [_ H].
    specialize (H ltac:(discriminate) ltac:(discriminate)).
    exact (proj1 H).
  - destruct (spend_takes_one_book 1000 2 10 demo_ledger demo_ledger_keyed) as [_ H].
    exact (H ltac:(discriminate) ltac:(discriminate)).
Defined.

Lemma books_never_negative_witness :
  books_nonneg
    (fst (perform 1000 (demo_proc (POST_books_spend 1 10)) demo_ledger)).
Proof.
  apply (books_never_negative demo_hash demo_level_up None None demo_day_text
           (idle_desk demo_ledger)
           (idle_desk
              (fst (perform 1000 (demo_proc (POST_books_spend 1 10)) demo_ledger)))).
  - reflexivity.
  - repeat constructor; cbn; lia.
  - apply served_alone.
Defined.

(** User 1 after a right answer on the ladder to question 10, worth 4. *)
Definition demo_answered : Ledger :=
  fst (perform 1000 (ladderAnswer (ladder_evet 1 10)) demo_ledger).

Lemma total_points_match_leaderboard_witness :
  exists board,
    snd (perform 2000 leaderboard demo_answered) = Some (Replied board) /\
    In (1, 4) board.
Proof.
  destruct (total_points_match_leaderboard 2000 1 demo_answered)
    as (total & board & Ht & Hb & _ & Hon); [reflexivity |].
  assert (E : total = 4).
  { vm_compute in Ht. now injection Ht as <-. }
  subst total. exists board. split; [exact Hb |].
  apply Hon; [reflexivity | discriminate].
Defined.

Definition demo_questions : list NewQuestion :=
  [{| nq_question := Js.Str " Deniz mavi mi? "; nq_point := Some 12;
      nq_correct_answer := Js.Str "YES" |};
   {| nq_question := Js.Str "   "; nq_point := None;
      nq_correct_answer := Js.Str "evet" |};
   {| nq_question := Js.Str "Kar siyah mi?"; nq_point := Some 3;
      nq_correct_answer := Js.Str "no" |}].

Lemma bulk_stops_at_first_bad_witness :
  let r := perform 1000 (bulkQuestions 1 demo_questions) demo_ledger in
  exists stored rest,
    demo_questions = stored ++ rest /\
    lg_questions (fst r) =
      lg_questions demo_ledger ++ bulk_rows 1 (lg_seq_questions demo_ledger) stored /\
    Forall well_formed_question (bulk_rows 1 (lg_seq_questions demo_ledger) stored) /\
    match rest with
    | [] => snd r = Some (Replied tt)
    | bad :: _ =>
        bulk_valid bad = false /\
        snd r = Some (Refused 400 (if String.eqb (bulk_text bad) ""
                                   then EmptyQuestionText else BadCorrectAnswer))
    end.
Proof.
  apply (bulk_stops_at_first_bad 1000 1 demo_questions demo_ledger
           {| s_id := 1; s_status := Some "approved" |}).
  - discriminate.
  - reflexivity.
Defined.

(** Day 3 with a set of two questions, and user 1 at its first question. *)
Definition demo_daily (idx : Z) : Ledger :=
  on_daily_sessions
    (fun _ => [{| dse_id := 1; dse_user_id := 1; dse_day_key := 3;
                  dse_current_index := idx; dse_finished := false |}])
    (on_daily_contest_questions
       (fun _ => [{| dq_day_key := 3; dq_contest_date := Some 3; dq_pos := 1;
                     dq_seq := Some 0; dq_question_id := 10 |};
                  {| dq_day_key := 3; dq_contest_date := Some 3; dq_pos := 2;
                     dq_seq := Some 1; dq_question_id := 11 |}])
       demo_ledger).

Definition day3 (sec : Z) : Timestamp := seconds 86400 * 3 + seconds sec.

Lemma daily_answer_moves_on_witness :
  snd (perform (day3 60)
         (dailyAnswer demo_hash None None demo_day_text (daily_evet 1 10))
         (demo_daily 0)) =
    Some (Replied (advanced_to (Some 1) 1 false 0 (Some 0))) /\
  perform (day3 60) (dailyAnswer demo_hash None None demo_day_text (daily_evet 1 11))
    (demo_daily 0) = (demo_daily 0, Some (Refused 409 OutOfSync)).
Proof.
  split.
  - destruct (daily_answer_moves_on demo_hash None None demo_day_text (day3 60)
                (daily_evet 1 10) (demo_daily 0)
                {| dse_id := 1; dse_user_id := 1; dse_day_key := 3;
                   dse_current_index := 0; dse_finished := false |}
                {| qr_id := 10; qr_survey_id := Some 1; qr_question := Some "q10";
                   qr_correct_answer := Some "evet"; qr_point := Some 4;
                   qr_qtype := Some 2 |}) as [_ H];
      [discriminate | discriminate | reflexivity | reflexivity | reflexivity
      | now vm_compute | now vm_compute | reflexivity |].
    exact (proj1 (H eq_refl)).
  - destruct (daily_answer_moves_on demo_hash None None demo_day_text (day3 60)
                (daily_evet 1 11) (demo_daily 0)
                {| dse_id := 1; dse_user_id := 1; dse_day_key := 3;
                   dse_current_index := 0; dse_finished := false |}
                {| qr_id := 11; qr_survey_id := Some 1; qr_question := Some "q11";
                   qr_correct_answer := Some "bilmem"; qr_point := Some 4;
                   qr_qtype := Some 1 |}) as [H _];
      [discriminate | discriminate | reflexivity | reflexivity | reflexivity
      | now vm_compute | now vm_compute | reflexivity |].
    apply H. discriminate.
Defined.

Lemma daily_finish_awards_once_witness :
  let s1 := fst (perform (day3 60)
                   (dailyAnswer demo_hash None None demo_day_text (daily_evet 1 11))
                   (demo_daily 1)) in
  account_of 1 s1 =
    Some {| ac_id := 1; ac_books := Some 4; ac_ladder_best_level := Some 3 |} /\
  perform (day3 90) (dailyAnswer demo_hash None None demo_day_text (daily_evet 1 10)) s1
    = (s1, Some (Replied day_done)).
Proof.
  cbv zeta.
  destruct (daily_finish_awards_once demo_hash None None demo_day_text
              (day3 60) (day3 90) (daily_evet 1 11) (daily_evet 1 10) (demo_daily 1)
              {| dse_id := 1; dse_user_id := 1; dse_day_key := 3;
                 dse_current_index := 1; dse_finished := false |}
              {| qr_id := 11; qr_survey_id := Some 1; qr_question := Some "q11";
                 qr_correct_answer := Some "bilmem"; qr_point := Some 4;
                 qr_qtype := Some 1 |}
              {| ac_id := 1; ac_books := Some 2; ac_ladder_best_level := Some 3 |})
    as (_ & Hacc & _ & _ & _ & Hagain & _);
    [discriminate | discriminate | reflexivity | reflexivity | reflexivity
    | now vm_compute | reflexivity | reflexivity | reflexivity | reflexivity
    | reflexivity | reflexivity | discriminate |].
  split; [exact Hacc | exact Hagain].
Defined.

Lemma daily_set_is_fixed_witness :
  snd (perform (day3 0)
         (getOrCreateDailySetIds demo_hash None demo_day_text 3
            (DAILY_CONTEST_SIZE None)) demo_ledger) = Some [10; 11].
Proof.
  destruct (daily_set_is_fixed demo_hash None demo_day_text (day3 0) 3
              (DAILY_CONTEST_SIZE None) demo_ledger) as [_ H].
  destruct (H 128 eq_refl eq_refl) as (Hr & _).
  rewrite Hr. vm_compute. reflexivity.
Defined.
